(* ===== verification/_CoqProject ===== *)
-Q . S2P
Prelude.v
ErrorHandler.v
RWLock.v
Memory.v
ObjectPool.v
Allocators.v
RecvBuffer.v
SendBuffer.v
Packet.v
PacketSession.v
SocketUtils.v
Shutdown.v
Logger.v
Session.v
SessionLife.v
Names.v
FlatBuffers.v
TestPacket.v
TestSchema.v
SendPath.v
LockContainers.v
LockedProgram.v
LockedMembers.v
LockedProgress.v
JobSerializer.v
Job.v
JobWorker.v
Reservations.v
LibTest.v
TaskManager.v
Sharing.v
TaskJoin.v
TaskManagerEx.v
TaskEnd.v
Heap.v
App.v
Server.v
Client.v
Startup.v
Pipeline.v
Programs.v
ServerFlush.v
