(* ===== verification/Prelude.v ===== *)
(** * NetCore (MyNetworkLib): a verification development

    NetCore is a C++ library for Windows: TCP servers and clients on I/O
    completion ports, with its own memory pools, locks, buffers and job queues.
    This library models its C++ sources (src/MyNetworkLib/), the packet code of
    src/commons/ and the programs src/TestServer/ and src/TestClient/ as executable
    definitions and proves what the parts promise to each other, and, where the
    code does not keep a promise, how it fails.

    ** The program and the files

    A service (server or client) owns sessions. A worker thread takes completions
    from the port ([IOCPCore]) and dispatches each to the object of its event: a
    session (receive, send, disconnect), the listener (accept) or a connector
    (connect). Sessions cut the received bytes into packets and queue packets to
    send; packets are serialised in the thread's send buffer, which comes from a
    pool, and everything is allocated from size-class pools. Tasks are threads with
    ids; the ids mark the owner of the read-write lock. Jobs are executed one at a
    time per serializer, by whichever thread pushed first or by the global worker.

    - Prelude.v: machine integers, outcomes (value, crash, undefined behaviour, no
      fuel), byte ranges, runs of a step relation, sums over lists.
    - ErrorHandler.v (ErrorHandler.h, [ASSERT_CRASH] of CoreMacroDef.h): error codes,
      their debug names, the last error, the checks.
    - RWLock.v (RWLock.h/.cpp, Lock.h): the lock word and the four operations, one
      atomic access per step, any number of threads.
    - Memory.v (Memory.h/.cpp, MemoryPool.h/.cpp): the pool table as the constructor
      computes it, the pools over the Win32 list, block headers, [Allocate], [Release].
      ObjectPool.v (ObjectPool.h): objects in a pool of their own, shared pointers.
      Allocators.v (MemoryAllocator.h/.cpp, FBAllocator.h, [xxnew] and [xxdelete] of
      Memory.h): the allocators of the containers and of the packet builders, and the
      creation of objects.
    - Shutdown.v (the destructors of MemoryPool.cpp, Memory.cpp and
      SendBufferManager.cpp, and CoreGlobal.cpp): how the globals are made and
      destroyed. Logger.v (CoreLogger.h): the logger as its calls of glog, and the two
      overloads of [InitNetCore].
    - RecvBuffer.v (RecvBuffer.h/.cpp), SendBuffer.v (SendBuffer, SendBufferManager,
      [TLS_SendBuffer]), Packet.v (PacketWrapper.h), PacketSession.v.
    - SocketUtils.v (SocketUtils.h/.cpp, AddrUtils.h): system calls against an
      arbitrary operating system [OS], every call logged.
    - Names.v (AddrUtils.h, Session.h, Utils.h): the names of the two ends of a socket.
    - Session.v (Session.h/.cpp, IOCPEvent.h): every member function, run to its end,
      against a service given by the interface [ServiceOps]. SessionLife.v: a session
      whose completions are those of operations it posted. SendPath.v: [_send],
      [_register_send] and [_clear] with any number of threads.
    - LockContainers.v (LockQueue.h, LockStack.h, LockPriorityQueue.h): each operation
      as a function; [std::priority_queue] is the interface [PriorityQueue] with its
      laws. LockedProgram.v, LockedMembers.v: each operation as a program of guards
      (Lock.h) and accesses on the lock of RWLock.v, proved to be one atomic function
      for its callers; [Members] is the interface between a class and its users.
      LockedProgress.v: operations return. Sharing.v: the threads of a TaskManager
      share a queue.
    - Job.v (Job.h, [PushJob] of JobSerializer.h): jobs and their effects.
      JobSerializer.v (JobSerializer.h/.cpp), JobWorker.v (JobWorker.h/.cpp,
      ReservableJob.h/.cpp), Reservations.v (the worker and a serializer together),
      LibTest.v (the [Room] of LibTest.cpp), TaskManager.v and TaskJoin.v (TaskManager.h/.cpp),
      TaskManagerEx.v, TaskEnd.v (the destructors of both managers): step relations
      over any number of threads.
    - Heap.v (IOCPCore's construction and registration, the base class Service, the
      heap of sessions and [shared_ptr] ownership), Server.v (ServerService, Listener,
      the dispatch of completions; the service, the accept events and the user of the
      library hold sessions), Client.v (Connector, ClientService,
      ClientServiceEx).
    - FlatBuffers.v: the FlatBuffers library as the interfaces [FlatBuffers] and
      [Verifier] with their laws, and an instance of both. TestPacket.v
      (commons/fbs/Packet_generated.h), TestSchema.v (Test_generated.h,
      Test2_generated.h): the generated accessors, builders and verifiers.
    - App.v (commons/packets, SessionManager.h/.cpp and the main loops of TestServer and
      TestClient): the state of a program, its sessions' virtual functions, the packet
      handlers. Startup.v: the two [main]s up to their threads. Pipeline.v: client and
      server composed. Programs.v: the failures of the programs. ServerFlush.v: the
      main thread of TestServer, its reserved job with the worker and the serializer
      that carry it out (Reservations.v), and the completions of the sessions, composed.

    ** Groups of theorems

    - Safety over all interleavings: [rwlock_excludes], [sendpath_order],
      [jobs_run_one_by_one_in_order], [jobs_take_effect_in_order] (with what the jobs
      do), [reserved_jobs_pushed_once], [reserved_calls_take_effect] (with the global
      worker), [room_counts_its_reserves] (with the methods of a client),
      [task_ids_distinct_and_IsRunning_is_done], [one_receive_at_a_time],
      [ex_ids_distinct_and_JoinAllTasks_waits]: each by an invariant of the step
      relation, preserved step by step.
    - Refinement over all interleavings: [queue_linearizable], [stack_linearizable],
      [priority_queue_linearizable] (every run of the members on the lock has the
      history of an atomic object, without data races), and
      [managed_threads_share_a_queue], which takes the ids from TaskManager. They are
      why the other files may use an operation of a locked container as one step.
    - Resources: [allocations_disjoint], [reserve_ranges_disjoint],
      [object_pool_invariant], [release_then_allocate_reuses], [allocate_bounds],
      [delete_Memory_frees_pooled], [server_sessions_well_formed].
    - Functional behaviour and specifications: [recvbuffer_refines_queue] (a bounded
      byte queue), [OnRecv_stream], [Serialize_correct], [sent_packets_are_received]
      (sender and receiver composed), [typed_lines_are_printed] (two whole programs:
      what is typed at the client is printed by the server), [TestPacket_roundtrip],
      [Player_roundtrip], [GetPeerName_roundtrip], [pool_table_correct]
      (equal to a reference), [CheckReservedJob_pushes_due],
      [AddTask_returns_its_range], [Start_arms_100_accepts], [Start_connects_all],
      [server_start_arms_accepts], [client_start_connects].
    - Termination and liveness: [worker_executes_everything], [no_job_is_stranded],
      [members_return_alone], [next_send_drains], [DoJobs_returns], [JoinAllTasks_waits_for_all],
      [OnRecv_terminates], [writelock_blocked_times_out],
      [destructor_does_not_terminate] (with [std::terminate]).
    - Failures of the code, each proved with the run that shows it:
      [wakeup_can_be_lost], [two_errors_crash], [refused_receive_goes_unnoticed],
      [receive_restarts_at_zero], [recycled_buffer_not_reset], [Serialize_size_limits],
      [clear_defined_iff], [OnRecv_partial], [OnRecv_zero_size_hangs],
      [task_done_races_with_insert], [AddTask_during_JoinAllTasks_races], [two_joins_race],
      [clear_races_with_send],
      [RegisterAccept_never_gives_up], [Stop_leaves_dangling_completions],
      [connected_session_loses_its_socket], [used_library_cannot_be_destroyed],
      [ClearTo_drops_first_false], [builder_block_is_reused], [server_packets_are_cut],
      [server_flushes_once], [packet_without_msg_crashes],
      [two_managers_break_the_lock], and others that the files state beside them.

    ** Choices

    - A w-bit integer is a [Z], its wrap-around written with [u16], [u32], [u64],
      [s32]. An [ASSERT_CRASH] is [Crash code]; undefined behaviour is [Fault].
    - Concurrent components are functions of one event ([play1]) on a state that holds
      every thread's program counter; [step] is their relation. A step is one access to
      shared memory; memory is sequentially consistent. Code under one mutex is one
      step where the mutex is held for the whole body. In LockedProgram.v an access to
      a container has a beginning and an end, and overlapping accesses of which one is
      a write stop the system. In SendPath.v, TaskManager.v and TaskManagerEx.v, where
      the code reaches a container or a [std::thread] without its lock, two threads whose
      next steps conflict there are [Fault DataRace]; a thread that traverses a container
      conflicts with every insertion until it is through. An unordered_map is traversed
      in any order, which the call of [JoinAllTasks] brings with it.
    - Code outside src/ is a parameter: the operating system ([OS], replies depending on
      all calls so far), the Win32 list ([SListOps]), the aligned heap ([AlignedHeap]),
      the priority queue, the user's virtual methods ([virtuals]), the FlatBuffers
      library, [InetNtopW] and [WideCharToMultiByte], the platform's constants.
      Their laws are documented behaviour, and the witnesses give instances. The state
      of the objects that jobs work on is a parameter of Job.v.
    - Fuel: [init_memory_pool] runs with 64 rounds, more than the largest section has,
      and [init_layout_returns] shows that the constructor returns. [OnRecv] needs one
      unit per packet and one more ([OnRecv_terminates]); the loops over containers need
      their length and one more; [DoJobs] needs one unit per execution and one more
      ([DoJobs_returns], which asks that in the run the clock goes on); [RegisterAccept] has no sufficient fuel, which is its theorem.

    ** Not modelled

    The text of log messages; type aliases and macros; members of the
    containers that C++ rejects when they are used (LockStack::Pop, Peek and
    Clear(popped), LockPriorityQueue::Peek and TryPop(item)); the set-up of the example
    programs, which only calls what is modelled. The generated headers in src/includes/
    are copies of those in src/commons/. *)
From stdpp Require Export base numbers list gmap.
#[global] Open Scope Z_scope.

(** ** Machine integers: a w-bit unsigned value is a [Z] reduced modulo [2^w]. *)
Definition wrap (w z : Z) : Z := z mod 2 ^ w.
Definition u8 : Z -> Z := wrap 8.
Definition u16 : Z -> Z := wrap 16.
Definition u32 : Z -> Z := wrap 32.
Definition u64 : Z -> Z := wrap 64.
(** Conversion to [int32]: two's complement. *)
Definition s32 (z : Z) : Z := (z + 2 ^ 31) mod 2 ^ 32 - 2 ^ 31.
Definition INT_MAX : Z := 2147483647.

(** ** Outcomes of a call: a value, an explicit crash ([ASSERT_CRASH]) with the
    error code recorded before it, undefined behaviour, or no more fuel. *)
Inductive fault : Type :=
| NullDeref | OutOfBounds | Uninitialised | OverlappingCopy | SignedOverflow
| OutOfRange | Dangling | Terminated | DataRace.

Inductive outcome (A : Type) : Type :=
| Ret (a : A)
| Crash (code : Z)
| Fault (f : fault)
| NoFuel.
Arguments Ret {A} a.
Arguments Crash {A} code.
Arguments Fault {A} f.
Arguments NoFuel {A}.

#[export] Instance fault_eq_dec : EqDecision fault.
Proof. solve_decision. Defined.
#[export] Instance outcome_eq_dec {A} `{EqDecision A} : EqDecision (outcome A).
Proof. solve_decision. Defined.

Definition obind {A B} (c : outcome A) (k : A -> outcome B) : outcome B :=
  match c with
  | Ret a => k a
  | Crash e => Crash e
  | Fault f => Fault f
  | NoFuel => NoFuel
  end.

Declare Scope netcore_scope.
Delimit Scope netcore_scope with netcore.
Notation "'let!' x := c 'in' k" := (obind c (fun x => k))
  (at level 10, x pattern, c at level 100, k at level 200) : netcore_scope.
#[global] Open Scope netcore_scope.

Lemma obind_ret {A B} (c : outcome A) (k : A -> outcome B) r :
  obind c k = Ret r -> exists a, c = Ret a /\ k a = Ret r.
Proof. destruct c; simpl; try discriminate; eauto. Qed.

Lemma obind_assoc {A B C} (c : outcome A) (f : A -> outcome B)
  (g : B -> outcome C) :
  obind (obind c f) g = obind c (fun a => obind (f a) g).
Proof. by destruct c. Qed.

(** Whether a call returned. *)
Definition returns {A} (c : outcome A) : bool := match c with Ret _ => true | _ => false end.
Lemma returns_ret {A} (c : outcome A) : returns c = true -> exists a, c = Ret a.
Proof. destruct c; try discriminate. eauto. Qed.

(** ** Tactics *)
(** Destructs existentials and conjunctions, keeping names fresh. *)
Ltac deex :=
  repeat match goal with
    | H : exists x, _ |- _ => let y := fresh x in destruct H as [y H]
    | H : _ /\ _ |- _ => destruct H
    end.
(** Inverts [let!] chains that returned. *)
Ltac inv_ret :=
  repeat match goal with
    | H : obind _ _ = Ret _ |- _ => apply obind_ret in H; deex
    | H : Ret _ = Ret _ |- _ => injection H as H; subst
    | H : Crash _ = Ret _ |- _ => discriminate H
    | H : Fault _ = Ret _ |- _ => discriminate H
    | H : NoFuel = Ret _ |- _ => discriminate H
    end; simplify_eq.
(** Turns boolean comparisons on [Z] met in [if]s into case analyses. *)
Ltac case_bools :=
  repeat match goal with
    | |- context [if Z.ltb ?a ?b then _ else _] => destruct (Z.ltb_spec a b)
    | |- context [if Z.leb ?a ?b then _ else _] => destruct (Z.leb_spec a b)
    | |- context [if Z.eqb ?a ?b then _ else _] => destruct (Z.eqb_spec a b)
    | H : context [if Z.ltb ?a ?b then _ else _] |- _ => destruct (Z.ltb_spec a b)
    | H : context [if Z.leb ?a ?b then _ else _] |- _ => destruct (Z.leb_spec a b)
    | H : context [if Z.eqb ?a ?b then _ else _] |- _ => destruct (Z.eqb_spec a b)
    end.

Create HintDb netcore discriminated.
Create Rewrite HintDb netcore_rw.

(** ** Lemmas on machine integers *)
Lemma wrap_small w z : 0 <= z < 2 ^ w -> wrap w z = z.
Proof. apply Z.mod_small. Qed.
Lemma wrap_range w z : 0 <= w -> 0 <= wrap w z < 2 ^ w.
Proof. intros; apply Z.mod_pos_bound; lia. Qed.
Lemma u8_small z : 0 <= z < 256 -> u8 z = z.
Proof. apply (wrap_small 8). Qed.
Lemma u16_small z : 0 <= z < 65536 -> u16 z = z.
Proof. apply (wrap_small 16). Qed.
Lemma u32_small z : 0 <= z < 4294967296 -> u32 z = z.
Proof. apply (wrap_small 32). Qed.
Lemma u64_small z : 0 <= z < 18446744073709551616 -> u64 z = z.
Proof. apply (wrap_small 64). Qed.
Lemma u16_range z : 0 <= u16 z < 65536.
Proof. apply (wrap_range 16); lia. Qed.
Lemma u32_range z : 0 <= u32 z < 4294967296.
Proof. apply (wrap_range 32); lia. Qed.
Lemma u64_range z : 0 <= u64 z < 18446744073709551616.
Proof. apply (wrap_range 64); lia. Qed.
Lemma s32_small z : -2147483648 <= z <= 2147483647 -> s32 z = z.
Proof. intros. unfold s32. rewrite Z.mod_small; lia. Qed.
(** Rewrites every [u32 t] of the context whose argument is in range. *)
Ltac unwrap :=
  repeat match goal with
    | |- context [u32 ?z] => rewrite (u32_small z) by lia
    | |- context [u16 ?z] => rewrite (u16_small z) by lia
    | |- context [u64 ?z] => rewrite (u64_small z) by lia
    | H : context [u32 ?z] |- _ => rewrite (u32_small z) in H by lia
    | H : context [u16 ?z] |- _ => rewrite (u16_small z) in H by lia
    | H : context [u64 ?z] |- _ => rewrite (u64_small z) in H by lia
    end.
#[export] Hint Resolve u16_range u32_range u64_range : netcore.

(** ** Byte arrays *)
Definition zlen {A} (l : list A) : Z := Z.of_nat (length l).

(** [bytes_at l off n]: the [n] elements of [l] from index [off]. *)
Definition bytes_at {A} (l : list A) (off n : Z) : list A :=
  take (Z.to_nat n) (drop (Z.to_nat off) l).

(** [splice l off d]: [l] with [d] written from index [off] on. *)
Definition splice {A} (l : list A) (off : Z) (d : list A) : list A :=
  take (Z.to_nat off) l ++ d ++ drop (Z.to_nat off + length d) l.

(** A store of [d] at [off]; out of the array it is undefined. *)
Definition store {A} (l : list A) (off : Z) (d : list A) : outcome (list A) :=
  if (off <? 0) || (zlen l <? off + zlen d) then Fault OutOfBounds
  else Ret (splice l off d).

(** [memcpy] inside one array: the C library leaves overlapping ranges
    undefined. *)
Definition memcpy {A} (l : list A) (dst src n : Z) : outcome (list A) :=
  if n =? 0 then Ret l
  else if (zlen l <? src + n) || (zlen l <? dst + n) then Fault OutOfBounds
  else if (dst <? src + n) && (src <? dst + n) then Fault OverlappingCopy
  else Ret (splice l dst (bytes_at l src n)).

Section Arrays.
Context {A : Type}.
Implicit Types l d : list A.

Lemma skipn_firstn_comm_eq l o w :
  0 <= o <= w -> take (Z.to_nat (w - o)) (drop (Z.to_nat o) l) =
  drop (Z.to_nat o) (take (Z.to_nat w) l).
Proof. intros. rewrite skipn_firstn_comm. f_equal. lia. Qed.

Lemma zlen_app l d : zlen (l ++ d) = zlen l + zlen d.
Proof. unfold zlen. rewrite length_app. lia. Qed.
Lemma zlen_nonneg l : 0 <= zlen l.
Proof. unfold zlen. lia. Qed.
Lemma zlen_replicate n (x : A) : 0 <= n -> zlen (replicate (Z.to_nat n) x) = n.
Proof. intros. unfold zlen. rewrite length_replicate. lia. Qed.

Lemma zlen_splice l off d :
  0 <= off -> off + zlen d <= zlen l -> zlen (splice l off d) = zlen l.
Proof.
  unfold zlen, splice. intros.
  rewrite !length_app, length_take, length_drop. lia.
Qed.

Lemma zlen_bytes_at l off n :
  0 <= off -> 0 <= n -> off + n <= zlen l -> zlen (bytes_at l off n) = n.
Proof.
  unfold zlen, bytes_at. intros. rewrite length_take, length_drop. lia.
Qed.

Lemma bytes_at_splice_eq l off d :
  0 <= off -> off + zlen d <= zlen l ->
  bytes_at (splice l off d) off (zlen d) = d.
Proof.
  unfold zlen, splice, bytes_at. intros.
  rewrite drop_app_le by (rewrite length_take; lia).
  rewrite drop_ge by (rewrite length_take; lia). simpl.
  by rewrite Nat2Z.id, take_app_length.
Qed.

Lemma bytes_at_splice_ne l off d o n :
  0 <= off -> 0 <= o -> 0 <= n -> off + zlen d <= zlen l ->
  o + n <= off \/ off + zlen d <= o ->
  bytes_at (splice l off d) o n = bytes_at l o n.
Proof.
  unfold zlen, splice, bytes_at. intros ? ? ? ? Hdis.
  apply list_eq. intros i.
  destruct (decide (i < Z.to_nat n)%nat) as [Hi|Hi];
    [|by rewrite !lookup_take_ge by lia].
  rewrite !lookup_take_lt, !lookup_drop by lia.
  destruct Hdis.
  - rewrite lookup_app_l by (rewrite length_take; lia).
    by rewrite lookup_take_lt by lia.
  - rewrite lookup_app_r by (rewrite length_take; lia).
    rewrite lookup_app_r by (rewrite length_take; lia).
    rewrite lookup_drop, length_take. f_equal. lia.
Qed.

(** Bytes written right after a range extend it. *)
Lemma contents_append l d o w :
  0 <= o <= w -> w + zlen d <= zlen l ->
  bytes_at (splice l w d) o (w + zlen d - o) = bytes_at l o (w - o) ++ d.
Proof.
  intros ? Hl. unfold bytes_at, splice, zlen in *.
  replace (Z.to_nat (w + Z.of_nat (length d) - o))
    with ((Z.to_nat w - Z.to_nat o) + length d)%nat by lia.
  rewrite drop_app_le by (rewrite length_take; lia).
  rewrite take_app_ge by (rewrite length_drop, length_take; lia).
  rewrite length_drop, length_take.
  replace (_ + length d - _)%nat with (length d) by lia.
  rewrite take_app_length, <- skipn_firstn_comm_eq by lia. done.
Qed.

(** Dropping from a range moves its start. *)
Lemma contents_consume l o w n :
  0 <= o -> 0 <= n <= w - o ->
  bytes_at l (o + n) (w - (o + n)) = drop (Z.to_nat n) (bytes_at l o (w - o)).
Proof.
  intros. unfold bytes_at. rewrite skipn_firstn_comm, drop_drop.
  f_equal; [lia|f_equal; lia].
Qed.

(** Writing inside a range is writing in the range. *)
Lemma splice_bytes_at l p n o d :
  0 <= p -> 0 <= o -> o + zlen d <= n -> p + n <= zlen l ->
  splice (bytes_at l p n) o d = bytes_at (splice l (p + o) d) p n.
Proof.
  unfold zlen, splice, bytes_at. intros. apply list_eq. intros i.
  destruct (decide (i < Z.to_nat n)%nat) as [Hi|Hi].
  2: { rewrite !lookup_ge_None_2; [done|..];
       rewrite ?length_app, ?length_take, ?length_drop, ?length_take, ?length_drop;
       lia. }
  rewrite lookup_take_lt, lookup_drop by lia.
  rewrite !lookup_app, !length_take, !length_drop.
  destruct (decide (i < Z.to_nat o)%nat).
  - rewrite !lookup_take_lt, lookup_drop by lia.
    destruct (l !! (Z.to_nat p + i)%nat) eqn:E; [done|].
    apply lookup_ge_None in E. lia.
  - rewrite !(lookup_take_ge) by lia.
    replace (Z.to_nat p + i - (Z.to_nat (p + o) `min` length l))%nat
      with (i - Z.to_nat o)%nat by lia.
    replace (i - (Z.to_nat o `min` (Z.to_nat n `min` (length l - Z.to_nat p))))%nat
      with (i - Z.to_nat o)%nat by lia.
    destruct (d !! (i - Z.to_nat o)%nat) eqn:E; [done|].
    apply lookup_ge_None in E. rewrite !lookup_drop.
    rewrite lookup_take_lt, lookup_drop by lia. f_equal. lia.
Qed.

Lemma store_ret l off d l' :
  store l off d = Ret l' <->
  (0 <= off /\ off + zlen d <= zlen l) /\ l' = splice l off d.
Proof.
  unfold store. destruct (Z.ltb_spec off 0), (Z.ltb_spec (zlen l) (off + zlen d));
    simpl; split; intros; deex; try congruence; try lia.
  split; [lia|congruence].
Qed.
End Arrays.
#[export] Hint Rewrite @zlen_app : netcore_rw.

(** ** Lists of lists *)
(** The lists of a list of lists, one replaced. *)
Definition others {A B} (f : A -> list B) (i : nat) (l : list A) : list B :=
  concat (map f (take i l ++ drop (S i) l)).

Lemma concat_others {A B} (f : A -> list B) i l x :
  l !! i = Some x -> concat (map f l) ≡ₚ f x ++ others f i l.
Proof.
  intros E. unfold others. rewrite <- (take_drop_middle l i x E) at 1.
  rewrite !map_app, !concat_app. simpl. solve_Permutation.
Qed.

Lemma concat_insert {A B} (f : A -> list B) i l x y :
  l !! i = Some x -> concat (map f (<[i := y]> l)) ≡ₚ f y ++ others f i l.
Proof.
  intros E. pose proof (lookup_lt_Some _ _ _ E).
  rewrite insert_take_drop by done. unfold others.
  rewrite !map_app, !concat_app. simpl. solve_Permutation.
Qed.

(** ** Texts *)
(** A zero-terminated text at the start of a buffer. *)
Fixpoint c_text (buffer : list Z) : list Z :=
  match buffer with
  | [] => []
  | c :: buffer => if c =? 0 then [] else c :: c_text buffer
  end.

Lemma c_text_app text rest : Forall (fun c => c <> 0) text -> c_text (text ++ 0 :: rest) = text.
Proof.
  induction 1 as [|c text Hc _ IH]; [done|]. simpl.
  destruct (Z.eqb_spec c 0); [done|]. by rewrite IH.
Qed.

Lemma c_text_zeros n : c_text (replicate n 0) = [].
Proof. by destruct n. Qed.

Lemma c_text_id text : Forall (fun c => c <> 0) text -> c_text text = text.
Proof.
  induction 1 as [|c text Hc _ IH]; [done|]. simpl.
  destruct (Z.eqb_spec c 0); [done|]. by rewrite IH.
Qed.

(** ** Runs of a step relation *)
Inductive run {St : Type} (step : St -> St -> Prop) : St -> St -> Prop :=
| run_refl s : run step s s
| run_step s1 s2 s3 : run step s1 s2 -> step s2 s3 -> run step s1 s3.
Arguments run_refl {St step} s.
Arguments run_step {St step} s1 s2 s3.

(** A simulation of steps is one of runs. *)
Lemma run_simulation {St Sp} (step : St -> St -> Prop) (spec : Sp -> Sp -> Prop)
    (sim : St -> Sp -> Prop) :
  (forall s s' a, sim s a -> step s s' -> exists a', run spec a a' /\ sim s' a') ->
  forall s s', run step s s' -> forall a, sim s a -> exists a', run spec a a' /\ sim s' a'.
Proof.
  intros Hsim s s' Hr a Ha. induction Hr as [|s1 s2 s3 _ IH Hs]; [exists a; split; [constructor|done]|].
  destruct (IH Ha) as (a2 & Hr2 & H2). destruct (Hsim _ _ _ H2 Hs) as (a3 & Hr3 & H3).
  exists a3. split; [|done]. clear -Hr2 Hr3. induction Hr3; [done|].
  eapply run_step; [|eassumption]. auto.
Qed.

Lemma run_invariant {St} (step : St -> St -> Prop) (I : St -> Prop) s s' :
  (forall a b, I a -> step a b -> I b) -> I s -> run step s s' -> I s'.
Proof. intros Hstep Hs; induction 1; eauto. Qed.

Lemma run_trans {St} (step : St -> St -> Prop) a b c :
  run step a b -> run step b c -> run step a c.
Proof. intros Hab; induction 1; eauto using run. Qed.

(** ** The other threads of a list of threads *)
Section Others.
Context {A : Type}.
Implicit Types (f : A -> bool) (l : list A).

Lemma delete_insert_same l i x : delete i (<[i := x]> l) = delete i l.
Proof.
  revert i. induction l as [|y l IH]; intros [|i]; simpl; try done. f_equal. apply IH.
Qed.
Lemma elem_of_delete l i x : x ∈ delete i l <-> exists j, j <> i /\ l !! j = Some x.
Proof.
  rewrite list_elem_of_lookup. split.
  - intros [j Hj]. destruct (decide (j < i)%nat).
    + rewrite list_lookup_delete_lt in Hj by done. exists j. split; [lia|done].
    + rewrite list_lookup_delete_ge in Hj by lia. exists (S j). split; [lia|done].
  - intros (j & Hne & Hj). destruct (decide (j < i)%nat).
    + exists j. by rewrite list_lookup_delete_lt.
    + exists (pred j). rewrite list_lookup_delete_ge by lia. by replace (S (pred j)) with j by lia.
Qed.
Lemma existsb_delete_false f l i :
  (forall j x, j <> i -> l !! j = Some x -> f x = false) -> existsb f (delete i l) = false.
Proof.
  intros Hf. apply not_true_iff_false. intros (x & Hx & Ht)%existsb_exists.
  apply list_elem_of_In, elem_of_delete in Hx as (j & Hne & Hj). by rewrite (Hf j x Hne Hj) in Ht.
Qed.
(** If nobody else satisfies [f], who does is [i]. *)
Lemma existsb_delete f l i x :
  existsb f (delete i l) = false -> forall j, l !! j = Some x -> f x = true -> j = i.
Proof.
  intros Hf j Hj Hx. destruct (decide (j = i)) as [|Hne]; [done|]. exfalso.
  apply not_true_iff_false in Hf. apply Hf, existsb_exists. exists x. split; [|done].
  apply list_elem_of_In, elem_of_delete. eauto.
Qed.
Lemma existsb_deleted f l i j x y : i <> j -> (i < length l)%nat -> f x = true ->
  existsb f (delete j (<[j := y]> (<[i := x]> l))) = true.
Proof.
  intros Hne Hi Hx. rewrite delete_insert_same. apply existsb_exists. exists x. split; [|done].
  apply list_elem_of_In, elem_of_delete. exists i. split; [done|]. by apply list_lookup_insert_eq.
Qed.
End Others.

(** ** Weighted counts over a list of threads *)
Section Sum.
Context {A : Type} (f : A -> Z).

Definition sum_of (l : list A) : Z := foldr (fun x z => f x + z) 0 l.

Lemma sum_of_app l k : sum_of (l ++ k) = sum_of l + sum_of k.
Proof. unfold sum_of. induction l as [|x l IH]; simpl; lia. Qed.

Lemma sum_of_nonneg l : (forall x, 0 <= f x) -> 0 <= sum_of l.
Proof. intros Hf. unfold sum_of. induction l as [|x l IH]; simpl; [lia|]. specialize (Hf x). lia. Qed.

(** Changing one element changes the sum by the difference. *)
Lemma sum_of_insert l i x y :
  l !! i = Some x -> sum_of (<[i := y]> l) = sum_of l - f x + f y.
Proof.
  intros Hi. rewrite <- (take_drop_middle l i x Hi) at 2.
  rewrite insert_take_drop by (by eapply lookup_lt_Some).
  rewrite !sum_of_app. unfold sum_of. simpl. lia.
Qed.

Lemma sum_of_elem l i x : (forall x, 0 <= f x) -> l !! i = Some x -> f x <= sum_of l.
Proof.
  intros Hf Hi. rewrite <- (take_drop_middle l i x Hi), sum_of_app.
  pose proof (sum_of_nonneg (take i l) Hf). pose proof (sum_of_nonneg (drop (S i) l) Hf).
  unfold sum_of in *. simpl. lia.
Qed.

(** Two positions that both weigh. *)
Lemma sum_of_two l i j x y :
  (forall x, 0 <= f x) -> l !! i = Some x -> l !! j = Some y -> i <> j ->
  f x + f y <= sum_of l.
Proof.
  intros Hf Hi Hj Hne. pose proof (sum_of_insert l i x x Hi) as E.
  assert (Hlt : (i < length l)%nat) by (by eapply lookup_lt_Some).
  destruct (lt_eq_lt_dec i j) as [[Hij|]|Hij]; [|done|].
  - rewrite <- (take_drop_middle l i x Hi), sum_of_app.
    pose proof (sum_of_nonneg (take i l) Hf).
    assert (Hd : drop (S i) l !! (j - S i)%nat = Some y)
      by (rewrite lookup_drop; replace (S i + (j - S i))%nat with j by lia; done).
    pose proof (sum_of_elem _ _ _ Hf Hd). unfold sum_of in *. simpl. lia.
  - rewrite <- (take_drop_middle l j y Hj), sum_of_app.
    pose proof (sum_of_nonneg (take j l) Hf).
    assert (Hd : drop (S j) l !! (i - S j)%nat = Some x)
      by (rewrite lookup_drop; replace (S j + (i - S j))%nat with i by lia; done).
    pose proof (sum_of_elem _ _ _ Hf Hd). unfold sum_of in *. simpl. lia.
Qed.

(** The same with weights known non-negative on the list only. *)
Lemma sum_of_nonneg_on l : Forall (fun x => 0 <= f x) l -> 0 <= sum_of l.
Proof. unfold sum_of. induction 1; simpl; lia. Qed.

Lemma sum_of_elem_on l i x : Forall (fun x => 0 <= f x) l -> l !! i = Some x -> f x <= sum_of l.
Proof.
  intros Hf Hi. rewrite <- (take_drop_middle l i x Hi), sum_of_app.
  pose proof (sum_of_nonneg_on _ (Forall_take _ i _ Hf)).
  pose proof (sum_of_nonneg_on _ (Forall_drop _ (S i) _ Hf)).
  unfold sum_of in *. simpl. lia.
Qed.

Lemma sum_of_zero l : (forall i x, l !! i = Some x -> f x = 0) -> sum_of l = 0.
Proof.
  unfold sum_of. induction l as [|x l IH]; intros Hl; simpl; [done|].
  rewrite (Hl 0%nat x eq_refl), IH; [done|]. intros i y Hy. exact (Hl (S i) y Hy).
Qed.
End Sum.
