(* ===== verification/ErrorHandler.v ===== *)
(** ErrorHandler.h: the application error codes, the last-error cell and the
    checks the library wraps around conditions and Winsock results. The last
    error [_app_last_error] is an explicit argument and result of every
    operation that stores it; [WSAGetLastError()] is an argument. *)
From stdpp Require Import strings.
From S2P Require Import Prelude.
#[local] Open Scope Z_scope.

(** [enum Errors : DWORD]. *)
Inductive Errors : Type :=
| ERR_NONE
| WSASTARTUP_FAILED
| WSAIOCTL_CONNECTEX_FAILED
| WSAIOCTL_ACCEPTEX_FAILED
| WSAClEANUP_FAILED
| WSASOCKETW_FAILED
| WSA_SET_LINGER_FAILED
| WSA_SET_REUSEADDR_FAILED
| WSA_SET_RCVBUF_FAILED
| WSA_SET_SNDBUF_FAILED
| WSA_SET_TCP_NODELAY_FAILED
| WSA_SET_UPDATE_ACCEPT_CONTEXT_FAILED
| WSA_BIND_FAILED
| WSA_BIND_ANYADDRESS_FAILED
| WSA_LISTEN_FAILED
| WSA_CLOSE_SOCKET_FAILED
| WSA_GET_PEER_NAME_FAILED
| WSA_SEND_FAILED
| WSA_RECV_FAILED
| WSA_CONNECTEX_FAILED
| WSA_ACCEPTEX_FAILED
| WSAIOCTL_DISCONNECTEX_FAILED
| WSA_DISCONNECTEX_FAILED
| WSA_SETSOCKOPT_UPDATE_CONNECT_CONTEXT_FAILED
| THREAD_LOCK_TIMEOUT
| THREAD_LOCK_INVALID_WRITE_UNLOCK_ORDER
| THREAD_LOCK_MULTIPLE_READ_UNLOCK
| APP_REGISTER_HANDLE_FAILED_IOCP_CORE
| APP_SERVICE_IOCPCORE_NULLPTR
| APP_SERVICE_SESSIONFACTORY_NULLPTR
| APP_SERVICE_SOCKADDR_INVALID
| APP_SERVICE_IS_ALREADY_STARTED
| APP_CLIENTSERVICE_CONNECT_FAILED
| APP_SERVERSERVICE_LISTEN_FAILED
| APP_CONNECTOR_SERVICE_WAS_NOT_CLIENT
| APP_LISTENER_SERVICE_WAS_NOT_SERVER
| APP_SESSION_SET_SOCKET_ALLOWED_ONLY_IN_CONNECTOR
| APP_SENDBUFFER_SIZE_OVERFLOW
| APP_RECVBUFFER_INVALID_DATA
| APP_RECVBUFFER_OVERFLOW.

#[export] Instance Errors_eq_dec : EqDecision Errors.
Proof. solve_decision. Defined.

(** The enumerators' values. *)
Definition code (e : Errors) : Z :=
  match e with
  | ERR_NONE => 0
  | WSASTARTUP_FAILED => 101
  | WSAIOCTL_CONNECTEX_FAILED => 102
  | WSAIOCTL_ACCEPTEX_FAILED => 103
  | WSAClEANUP_FAILED => 104
  | WSASOCKETW_FAILED => 105
  | WSA_SET_LINGER_FAILED => 106
  | WSA_SET_REUSEADDR_FAILED => 107
  | WSA_SET_RCVBUF_FAILED => 108
  | WSA_SET_SNDBUF_FAILED => 109
  | WSA_SET_TCP_NODELAY_FAILED => 110
  | WSA_SET_UPDATE_ACCEPT_CONTEXT_FAILED => 111
  | WSA_BIND_FAILED => 112
  | WSA_BIND_ANYADDRESS_FAILED => 113
  | WSA_LISTEN_FAILED => 114
  | WSA_CLOSE_SOCKET_FAILED => 115
  | WSA_GET_PEER_NAME_FAILED => 116
  | WSA_SEND_FAILED => 117
  | WSA_RECV_FAILED => 118
  | WSA_CONNECTEX_FAILED => 119
  | WSA_ACCEPTEX_FAILED => 120
  | WSAIOCTL_DISCONNECTEX_FAILED => 121
  | WSA_DISCONNECTEX_FAILED => 122
  | WSA_SETSOCKOPT_UPDATE_CONNECT_CONTEXT_FAILED => 123
  | THREAD_LOCK_TIMEOUT => 501
  | THREAD_LOCK_INVALID_WRITE_UNLOCK_ORDER => 502
  | THREAD_LOCK_MULTIPLE_READ_UNLOCK => 503
  | APP_REGISTER_HANDLE_FAILED_IOCP_CORE => 1001
  | APP_SERVICE_IOCPCORE_NULLPTR => 2001
  | APP_SERVICE_SESSIONFACTORY_NULLPTR => 2002
  | APP_SERVICE_SOCKADDR_INVALID => 2003
  | APP_SERVICE_IS_ALREADY_STARTED => 2004
  | APP_CLIENTSERVICE_CONNECT_FAILED => 2005
  | APP_SERVERSERVICE_LISTEN_FAILED => 2006
  | APP_CONNECTOR_SERVICE_WAS_NOT_CLIENT => 3001
  | APP_LISTENER_SERVICE_WAS_NOT_SERVER => 4001
  | APP_SESSION_SET_SOCKET_ALLOWED_ONLY_IN_CONNECTOR => 5001
  | APP_SENDBUFFER_SIZE_OVERFLOW => 6001
  | APP_RECVBUFFER_INVALID_DATA => 6002
  | APP_RECVBUFFER_OVERFLOW => 6003
  end.

(** [enum] members in declaration order, with the spelling of the source. *)
Definition Errors_members : list (Errors * string) :=
  [(ERR_NONE, "NONE"%string);
   (WSASTARTUP_FAILED, "WSASTARTUP_FAILED"%string);
   (WSAIOCTL_CONNECTEX_FAILED, "WSAIOCTL_CONNECTEX_FAILED"%string);
   (WSAIOCTL_ACCEPTEX_FAILED, "WSAIOCTL_ACCEPTEX_FAILED"%string);
   (WSAClEANUP_FAILED, "WSAClEANUP_FAILED"%string);
   (WSASOCKETW_FAILED, "WSASOCKETW_FAILED"%string);
   (WSA_SET_LINGER_FAILED, "WSA_SET_LINGER_FAILED"%string);
   (WSA_SET_REUSEADDR_FAILED, "WSA_SET_REUSEADDR_FAILED"%string);
   (WSA_SET_RCVBUF_FAILED, "WSA_SET_RCVBUF_FAILED"%string);
   (WSA_SET_SNDBUF_FAILED, "WSA_SET_SNDBUF_FAILED"%string);
   (WSA_SET_TCP_NODELAY_FAILED, "WSA_SET_TCP_NODELAY_FAILED"%string);
   (WSA_SET_UPDATE_ACCEPT_CONTEXT_FAILED, "WSA_SET_UPDATE_ACCEPT_CONTEXT_FAILED"%string);
   (WSA_BIND_FAILED, "WSA_BIND_FAILED"%string);
   (WSA_BIND_ANYADDRESS_FAILED, "WSA_BIND_ANYADDRESS_FAILED"%string);
   (WSA_LISTEN_FAILED, "WSA_LISTEN_FAILED"%string);
   (WSA_CLOSE_SOCKET_FAILED, "WSA_CLOSE_SOCKET_FAILED"%string);
   (WSA_GET_PEER_NAME_FAILED, "WSA_GET_PEER_NAME_FAILED"%string);
   (WSA_SEND_FAILED, "WSA_SEND_FAILED"%string);
   (WSA_RECV_FAILED, "WSA_RECV_FAILED"%string);
   (WSA_CONNECTEX_FAILED, "WSA_CONNECTEX_FAILED"%string);
   (WSA_ACCEPTEX_FAILED, "WSA_ACCEPTEX_FAILED"%string);
   (WSAIOCTL_DISCONNECTEX_FAILED, "WSAIOCTL_DISCONNECTEX_FAILED"%string);
   (WSA_DISCONNECTEX_FAILED, "WSA_DISCONNECTEX_FAILED"%string);
   (WSA_SETSOCKOPT_UPDATE_CONNECT_CONTEXT_FAILED, "WSA_SETSOCKOPT_UPDATE_CONNECT_CONTEXT_FAILED"%string);
   (THREAD_LOCK_TIMEOUT, "THREAD_LOCK_TIMEOUT"%string);
   (THREAD_LOCK_INVALID_WRITE_UNLOCK_ORDER, "THREAD_LOCK_INVALID_WRITE_UNLOCK_ORDER"%string);
   (THREAD_LOCK_MULTIPLE_READ_UNLOCK, "THREAD_LOCK_MULTIPLE_READ_UNLOCK"%string);
   (APP_REGISTER_HANDLE_FAILED_IOCP_CORE, "APP_REGISTER_HANDLE_FAILED_IOCP_CORE"%string);
   (APP_SERVICE_IOCPCORE_NULLPTR, "APP_SERVICE_IOCPCORE_NULLPTR"%string);
   (APP_SERVICE_SESSIONFACTORY_NULLPTR, "APP_SERVICE_SESSIONFACTORY_NULLPTR"%string);
   (APP_SERVICE_SOCKADDR_INVALID, "APP_SERVICE_SOCKADDR_INVALID"%string);
   (APP_SERVICE_IS_ALREADY_STARTED, "APP_SERVICE_IS_ALREADY_STARTED"%string);
   (APP_CLIENTSERVICE_CONNECT_FAILED, "APP_CLIENTSERVICE_CONNECT_FAILED"%string);
   (APP_SERVERSERVICE_LISTEN_FAILED, "APP_SERVERSERVICE_LISTEN_FAILED"%string);
   (APP_CONNECTOR_SERVICE_WAS_NOT_CLIENT, "APP_CONNECTOR_SERVICE_WAS_NOT_CLIENT"%string);
   (APP_LISTENER_SERVICE_WAS_NOT_SERVER, "APP_LISTENER_SERVICE_WAS_NOT_SERVER"%string);
   (APP_SESSION_SET_SOCKET_ALLOWED_ONLY_IN_CONNECTOR, "APP_SESSION_SET_SOCKET_ALLOWED_ONLY_IN_CONNECTOR"%string);
   (APP_SENDBUFFER_SIZE_OVERFLOW, "APP_SENDBUFFER_SIZE_OVERFLOW"%string);
   (APP_RECVBUFFER_INVALID_DATA, "APP_RECVBUFFER_INVALID_DATA"%string);
   (APP_RECVBUFFER_OVERFLOW, "APP_RECVBUFFER_OVERFLOW"%string)].

(** Winsock constants the checks compare with (winsock2.h). *)
Class Winsock := {
  SOCKET_ERROR : Z;
  INVALID_SOCKET : Z;
  WSA_IO_PENDING : Z;
  SOCKET_ERROR_not_bool : SOCKET_ERROR <> 0 /\ SOCKET_ERROR <> 1;
  WSA_IO_PENDING_nonzero : WSA_IO_PENDING <> 0;
}.

(** The documented values on 64-bit Windows. *)
#[export, refine] Instance winsock2 : Winsock := {|
  SOCKET_ERROR := -1; INVALID_SOCKET := 18446744073709551615;
  WSA_IO_PENDING := 997 |}.
Proof. all: lia. Defined.

Module ErrorHandler.

(** [_errors.insert(std::make_pair(code, #name))]: [std::map::insert] keeps an
    entry that is already there. *)
Definition insert_error_name (c : Z) (name : string) (m : gmap Z string)
  : gmap Z string :=
  match m !! c with Some _ => m | None => <[c := name]> m end.

(** [InitErrorMap] of the debug build: the insertions in order. *)
Definition InitErrorMap (_errors : gmap Z string) : gmap Z string :=
  foldl (fun m p => insert_error_name p.1 p.2 m) _errors
  [(0, "NONE"%string);
   (101, "WSASTARTUP_FAILED"%string);
   (102, "WSAIOCTL_CONNECTEX_FAILED"%string);
   (103, "WSAIOCTL_ACCEPTEX_FAILED"%string);
   (104, "WSAClEANUP_FAILED"%string);
   (105, "WSASOCKETW_FAILED"%string);
   (106, "WSA_SET_LINGER_FAILED"%string);
   (107, "WSA_SET_REUSEADDR_FAILED"%string);
   (108, "WSA_SET_RCVBUF_FAILED"%string);
   (109, "WSA_SET_SNDBUF_FAILED"%string);
   (110, "WSA_SET_TCP_NODELAY_FAILED"%string);
   (111, "WSA_SET_UPDATE_ACCEPT_CONTEXT_FAILED"%string);
   (112, "WSA_BIND_FAILED"%string);
   (113, "WSA_BIND_ANYADDRESS_FAILED"%string);
   (114, "WSA_LISTEN_FAILED"%string);
   (115, "WSA_CLOSE_SOCKET_FAILED"%string);
   (116, "WSA_GET_PEER_NAME_FAILED"%string);
   (117, "WSA_SEND_FAILED"%string);
   (118, "WSA_RECV_FAILED"%string);
   (119, "WSA_CONNECTEX_FAILED"%string);
   (120, "WSA_ACCEPTEX_FAILED"%string);
   (121, "WSAIOCTL_DISCONNECTEX_FAILED"%string);
   (122, "WSA_DISCONNECTEX_FAILED"%string);
   (123, "WSA_SETSOCKOPT_UPDATE_CONNECT_CONTEXT_FAILED"%string);
   (501, "THREAD_LOCK_TIMEOUT"%string);
   (502, "THREAD_LOCK_INVALID_WRITE_UNLOCK_ORDER"%string);
   (503, "THREAD_LOCK_MULTIPLE_READ_UNLOCK"%string);
   (1001, "APP_REGISTER_HANDLE_FAILED_IOCP_CORE"%string);
   (2001, "APP_SERVICE_IOCPCORE_NULLPTR"%string);
   (2002, "APP_SERVICE_SESSIONFACTORY_NULLPTR"%string);
   (2003, "APP_SERVICE_SOCKADDR_INVALID"%string);
   (2004, "APP_SERVICE_IS_ALREADY_STARTED"%string);
   (2005, "APP_CLIENTSERVICE_CONNECT_FAILED"%string);
   (2006, "APP_SERVERSERVICE_LISTEN_FAILED"%string);
   (3001, "APP_CONNECTOR_SERVICE_WAS_NOT_CLIENT"%string);
   (4001, "APP_LISTENER_SERVICE_WAS_NOT_SERVER"%string);
   (5001, "APP_SESSION_SET_SOCKET_ALLOWED_ONLY_IN_CONNECTOR"%string);
   (6001, "APP_SENDBUFFER_SIZE_OVERFLOW"%string);
   (6002, "APP_RECVBUFFER_INVALID_DATA"%string);
   (6003, "APP_RECVBUFFER_OVERFLOW"%string)].

Definition GetErrorName (_errors : gmap Z string) (c : Z) : string :=
  match _errors !! c with Some n => n | None => "Undefined Error"%string end.

(** [SetLastError]: stores the code (and logs it, not modelled). *)
Definition SetLastError (e : Errors) : Z := code e.

(** [ASSERT_CRASH(condition)] of CoreMacroDef.h. *)
Definition ASSERT_CRASH (condition : bool) (last : Z) : outcome Z :=
  if negb condition then Crash last else Ret last.

(** [AssertCrash(const bool condition, const Errors errCode, ...)]. *)
Definition AssertCrash (condition : bool) (e : Errors) (last : Z) : outcome Z :=
  if negb condition then ASSERT_CRASH false (SetLastError e) else Ret last.

(** [AssertCrash(const Errors errCode, ...)]. *)
Definition AssertCrash1 (e : Errors) (last : Z) : outcome Z :=
  ASSERT_CRASH false (SetLastError e).

(** [CheckError]: result and last error. *)
Definition CheckError (condition : bool) (e : Errors) (last : Z) : Z * Z :=
  if negb condition then (code e, SetLastError e) else (code ERR_NONE, last).

Section Winsock.
Context `{Winsock}.

(** A string literal used as a condition converts to a non-null pointer. *)
Definition literal_condition : bool := true.

Definition WSACheckSocketError (value : Z) (e : Errors) (crash : bool)
  (last : Z) : outcome (bool * Z) :=
  if value =? SOCKET_ERROR then
    let last := SetLastError e in
    let! last := (if crash then ASSERT_CRASH literal_condition last
                  else Ret last) in
    Ret (false, last)
  else Ret (true, last).

Definition CheckSocketValid (socket : Z) (e : Errors) (crash : bool)
  (last : Z) : outcome (bool * Z) :=
  if socket =? INVALID_SOCKET then
    let last := SetLastError e in
    let! last := (if crash then ASSERT_CRASH literal_condition last
                  else Ret last) in
    Ret (false, last)
  else Ret (true, last).

(** [WSACheckErrorExceptPending2(condition, OUT wsaLastError)]: the result and
    the out parameter. *)
Definition WSACheckErrorExceptPending2 (condition : bool) (WSAGetLastError : Z)
  (wsaLastError : Z) : bool * Z :=
  if negb condition then
    if negb (WSAGetLastError =? WSA_IO_PENDING)
    then (false, WSAGetLastError) else (true, WSAGetLastError)
  else (true, wsaLastError).

Definition WSACheckErrorExceptPending (condition : bool) (e : Errors)
  (WSAGetLastError : Z) (last : Z) : Z * Z :=
  if negb condition then
    if WSAGetLastError =? WSA_IO_PENDING then (code ERR_NONE, last)
    else (WSAGetLastError, SetLastError e)
  else (code ERR_NONE, last).
End Winsock.

(** ** Lemmas *)
Lemma code_inj e1 e2 : code e1 = code e2 -> e1 = e2.
Proof. destruct e1, e2; simpl; congruence || discriminate. Qed.

Lemma code_dword e : 0 <= code e < 2 ^ 32.
Proof. destruct e; simpl; lia. Qed.

Lemma CheckError_none b e last :
  e <> ERR_NONE -> (CheckError b e last).1 = code ERR_NONE <-> b = true.
Proof.
  intros Hne. unfold CheckError. destruct b; simpl; split; intros; try done.
  by destruct e.
Qed.

(** The debug error-name table built by [InitErrorMap] names every
    enumerator of [Errors] with its own spelling, distinct enumerators have
    distinct codes, and every other code reads ["Undefined Error"]. *)
Theorem error_names_complete :
  Forall (fun p => GetErrorName (InitErrorMap ∅) (code p.1) = p.2) Errors_members
  /\ (forall e, e ∈ Errors_members.*1)
  /\ (forall e1 e2, code e1 = code e2 -> e1 = e2)
  /\ (forall c, (forall e, code e <> c) ->
        GetErrorName (InitErrorMap ∅) c = "Undefined Error"%string).
Proof.
  split; [|split; [|split; [exact code_inj|]]].
  - apply Forall_forall. intros [e s] Hin.
    assert (forallb (fun p => bool_decide
       (GetErrorName (InitErrorMap ∅) (code p.1) = p.2)) Errors_members = true)
      as Hall by (vm_compute; reflexivity).
    rewrite forallb_forall in Hall. apply list_elem_of_In in Hin.
    exact (bool_decide_eq_true_1 _ (Hall _ Hin)).
  - intros e. destruct e; vm_compute; repeat constructor.
  - intros c Hc. unfold GetErrorName.
    destruct (InitErrorMap ∅ !! c) as [s|] eqn:Hs; [|done].
    exfalso. apply elem_of_map_to_list in Hs.
    assert (Forall (fun p => exists e, code e = p.1)
      (map_to_list (InitErrorMap ∅))) as Hall.
    { vm_compute. repeat constructor; simpl.
      all: match goal with |- exists e, _ = ?c =>
        let r := eval vm_compute in
          (find (fun p => bool_decide (code p.1 = c)) Errors_members) in
        match r with Some (?e, _) => exists e; reflexivity end end. }
    rewrite Forall_forall in Hall. destruct (Hall _ Hs) as [e He].
    by apply (Hc e).
Qed.

(** [WSACheckSocketError] never crashes, whatever its [crash] flag says:
    [ASSERT_CRASH] is given a string literal, which is a true condition; a
    socket error is recorded and reported as [false]. *)
Theorem WSACheckSocketError_never_crashes `{Winsock} value e crash last :
  WSACheckSocketError value e crash last =
    Ret (if value =? SOCKET_ERROR then (false, code e) else (true, last)).
Proof. unfold WSACheckSocketError. by destruct (_ =? _), crash. Qed.

End ErrorHandler.
