(* ===== verification/RWLock.v ===== *)
(** RWLock.h / RWLock.cpp / Lock.h: the spinning read-write lock as an
    interleaving of the threads' atomic steps. The lock word [_lockFlag] packs
    the writer's [TLS_Id] in its upper and the number of readers in its lower
    16 bits. Every access to the word is one step; [GetTickCount64] is an
    argument of the step that calls it. *)
From S2P Require Import Prelude ErrorHandler.
#[local] Open Scope Z_scope.

Module RWLock.

Definition FLAG_SIZE : Z := 16.
Definition TIMEOUT_TICK : Z := 10000.
Definition MAX_SPIN_COUNT : Z := 10000.
Definition WRITE_THREAD_MASK : Z := 4294901760.
Definition READ_COUNT_MASK : Z := 65535.
Definition EMPTY : Z := 0.

Definition _get_lock_thread_id (flag : Z) : Z :=
  Z.shiftr (Z.land flag WRITE_THREAD_MASK) FLAG_SIZE.
Definition _get_write_desired_flag (TLS_Id : Z) : Z :=
  Z.land (u32 (Z.shiftl TLS_Id FLAG_SIZE)) WRITE_THREAD_MASK.
Definition _get_read_lock_count (flag : Z) : Z := Z.land flag READ_COUNT_MASK.

(** The lock object. *)
Record lock := mk_lock { _lockFlag : Z; _writeCount : Z }.

(** Where a thread is inside the four operations. *)
Inductive pc : Type :=
| Idle
(** [WriteLock] *)
| WL_load
| WL_tick
| WL_spin (beginTick desired spinCount : Z)
| WL_timeout (beginTick desired : Z)
| WL_inc
(** [WriteUnlock] *)
| WU_check
| WU_dec
| WU_store
(** [ReadLock] *)
| RL_load
| RL_add
| RL_tick
| RL_spin (beginTick spinCount : Z)
| RL_cas (beginTick spinCount expected : Z)
| RL_timeout (beginTick : Z)
(** [ReadUnlock] *)
| RU_sub.

#[export] Instance pc_eq_dec : EqDecision pc.
Proof. solve_decision. Defined.

(** A thread: its [TLS_Id], where it is, and how many write and read guards of
    this lock it holds. *)
Record thread := mk_thread { TLS_Id : Z; at_pc : pc; wh : nat; rh : nat }.

Definition goto (p : pc) (th : thread) : thread :=
  mk_thread (TLS_Id th) p (wh th) (rh th).
Definition set_flag (f : Z) (l : lock) : lock := mk_lock f (_writeCount l).

(** One atomic step of a thread inside an operation; [tick] is the value
    [GetTickCount64] would return now. [None]: the thread is in no operation. *)
Definition thread_step (tick : Z) (l : lock) (th : thread)
  : option (outcome (lock * thread)) :=
  let flag := _lockFlag l in
  match at_pc th with
  | Idle => None
  | WL_load =>
      Some (Ret (l, goto (if TLS_Id th =? _get_lock_thread_id flag
                          then WL_inc else WL_tick) th))
  | WL_tick =>
      Some (Ret (l, goto (WL_spin tick (_get_write_desired_flag (TLS_Id th)) 0) th))
  | WL_spin b d n =>
      Some (Ret (if flag =? EMPTY then (set_flag d l, goto WL_inc th)
                 else (l, goto (if n + 1 <? MAX_SPIN_COUNT then WL_spin b d (n + 1)
                                else WL_timeout b d) th)))
  | WL_timeout b d =>
      Some (if u64 (tick - b) >=? TIMEOUT_TICK
            then obind (ErrorHandler.AssertCrash1 THREAD_LOCK_TIMEOUT 0)
                   (fun _ => Ret (l, goto (WL_spin b d 0) th))
            else Ret (l, goto (WL_spin b d 0) th))
  | WL_inc =>
      Some (Ret (mk_lock flag (u16 (_writeCount l + 1)),
                 mk_thread (TLS_Id th) Idle (S (wh th)) (rh th)))
  | WU_check =>
      Some (if negb (_get_read_lock_count flag =? 0)
            then obind (ErrorHandler.AssertCrash1 THREAD_LOCK_INVALID_WRITE_UNLOCK_ORDER 0)
                   (fun _ => Ret (l, goto WU_dec th))
            else Ret (l, goto WU_dec th))
  | WU_dec =>
      let lockCount := u16 (_writeCount l - 1) in
      Some (Ret (mk_lock flag lockCount,
                 mk_thread (TLS_Id th) (if lockCount =? 0 then WU_store else Idle)
                   (pred (wh th)) (rh th)))
  | WU_store => Some (Ret (set_flag EMPTY l, goto Idle th))
  | RL_load =>
      Some (Ret (l, goto (if TLS_Id th =? _get_lock_thread_id flag
                          then RL_add else RL_tick) th))
  | RL_add =>
      Some (Ret (set_flag (u32 (flag + 1)) l,
                 mk_thread (TLS_Id th) Idle (wh th) (S (rh th))))
  | RL_tick => Some (Ret (l, goto (RL_spin tick 0) th))
  | RL_spin b n => Some (Ret (l, goto (RL_cas b n (_get_read_lock_count flag)) th))
  | RL_cas b n e =>
      Some (Ret (if flag =? e
                 then (set_flag (u32 (e + 1)) l,
                       mk_thread (TLS_Id th) Idle (wh th) (S (rh th)))
                 else (l, goto (if n + 1 <? MAX_SPIN_COUNT then RL_spin b (n + 1)
                                else RL_timeout b) th)))
  | RL_timeout b =>
      Some (if u64 (tick - b) >=? TIMEOUT_TICK
            then obind (ErrorHandler.AssertCrash1 THREAD_LOCK_TIMEOUT 0)
                   (fun _ => Ret (l, goto (RL_spin b 0) th))
            else Ret (l, goto (RL_spin b 0) th))
  | RU_sub =>
      let l' := set_flag (u32 (flag - 1)) l in
      Some (if _get_read_lock_count flag =? 0
            then obind (ErrorHandler.AssertCrash1 THREAD_LOCK_MULTIPLE_READ_UNLOCK 0)
                   (fun _ => Ret (l', goto Idle th))
            else Ret (l', mk_thread (TLS_Id th) Idle (wh th) (pred (rh th))))
  end.

(** Guard construction and destruction ([WriteLock], [ReadLock] of Lock.h). *)
Inductive call := CWriteLock | CWriteUnlock | CReadLock | CReadUnlock.
Definition entry (c : call) : pc :=
  match c with
  | CWriteLock => WL_load | CWriteUnlock => WU_check
  | CReadLock => RL_load | CReadUnlock => RU_sub
  end.

(** Scoped guards destroy in reverse order of construction, and the library
    never constructs a write guard while the same thread has a read guard:
    write guards are outermost. [depth] bounds the guards of one thread. *)
Definition allowed (depth : nat) (c : call) (th : thread) : Prop :=
  match c with
  | CWriteLock => rh th = 0%nat /\ (wh th + rh th < depth)%nat
  | CWriteUnlock => rh th = 0%nat /\ (0 < wh th)%nat
  | CReadLock => (wh th + rh th < depth)%nat
  | CReadUnlock => (0 < rh th)%nat
  end.

(** The lock and the threads that use it, or a crash. *)
Inductive system : Type :=
| Running (l : lock) (ths : list thread)
| Crashed (code : Z).

Inductive step (depth : nat) : system -> system -> Prop :=
| step_call c l ths1 th ths2 :
    at_pc th = Idle -> allowed depth c th ->
    step depth (Running l (ths1 ++ th :: ths2))
               (Running l (ths1 ++ goto (entry c) th :: ths2))
| step_exec tick l ths1 th ths2 l' th' :
    thread_step tick l th = Some (Ret (l', th')) ->
    step depth (Running l (ths1 ++ th :: ths2)) (Running l' (ths1 ++ th' :: ths2))
| step_crash tick l ths1 th ths2 e :
    thread_step tick l th = Some (Crash e) ->
    step depth (Running l (ths1 ++ th :: ths2)) (Crashed e).

(** A new lock and threads outside of it. *)
Definition init (ids : list Z) : system :=
  Running (mk_lock EMPTY 0) (map (fun i => mk_thread i Idle 0 0) ids).

(** A schedule: which thread (by position) enters an operation or takes a step. *)
Inductive event := ECall (i : nat) (c : call) | EStep (i : nat) (tick : Z).

Definition allowedb (depth : nat) (c : call) (th : thread) : bool :=
  match c with
  | CWriteLock => (rh th =? 0)%nat && (wh th + rh th <? depth)%nat
  | CWriteUnlock => (rh th =? 0)%nat && (0 <? wh th)%nat
  | CReadLock => (wh th + rh th <? depth)%nat
  | CReadUnlock => (0 <? rh th)%nat
  end.

Definition play1 (depth : nat) (e : event) (s : system) : option system :=
  match s with
  | Crashed _ => None
  | Running l ths =>
      match e with
      | ECall i c =>
          match ths !! i with
          | Some th =>
              if bool_decide (at_pc th = Idle) && allowedb depth c th
              then Some (Running l (take i ths ++ goto (entry c) th :: drop (S i) ths))
              else None
          | None => None
          end
      | EStep i tick =>
          match ths !! i with
          | Some th =>
              match thread_step tick l th with
              | Some (Ret (l', th')) =>
                  Some (Running l' (take i ths ++ th' :: drop (S i) ths))
              | Some (Crash c) => Some (Crashed c)
              | _ => None
              end
          | None => None
          end
      end
  end.
Definition play (depth : nat) (es : list event) (s : system) : option system :=
  foldl (fun o e => o ≫= play1 depth e) (Some s) es.

(** A thread running alone, one tick value per step. *)
Fixpoint exec_alone (ticks : list Z) (l : lock) (th : thread) : outcome (lock * thread) :=
  match ticks with
  | [] => Ret (l, th)
  | t :: ts =>
      match thread_step t l th with
      | None => Ret (l, th)
      | Some r => let! (l, th) := r in exec_alone ts l th
      end
  end.

(** ** Invariant *)

(** The thread owns the upper half of the lock word. *)
Definition owner (th : thread) : Prop :=
  (0 < wh th)%nat \/ at_pc th = WL_inc \/ at_pc th = WU_store.

Definition total_rh (ths : list thread) : Z :=
  foldr (fun th n => Z.of_nat (rh th) + n) 0 ths.

Record thread_ok (depth : nat) (th : thread) : Prop := {
  ok_id : 1 <= TLS_Id th < 65536;
  ok_depth : (wh th + rh th <= depth)%nat;
  ok_pc : match at_pc th with
    | Idle => True
    | WL_load => rh th = 0%nat /\ (wh th + rh th < depth)%nat
    | WL_tick | WL_timeout _ _ | WL_spin _ _ _ =>
        rh th = 0%nat /\ wh th = 0%nat /\ (0 < depth)%nat
    | WL_inc => rh th = 0%nat /\ (wh th + rh th < depth)%nat
    | WU_check | WU_dec => rh th = 0%nat /\ (0 < wh th)%nat
    | WU_store => rh th = 0%nat /\ wh th = 0%nat
    | RL_load => (wh th + rh th < depth)%nat
    | RL_add => (0 < wh th)%nat /\ (wh th + rh th < depth)%nat
    | RL_tick | RL_spin _ _ | RL_timeout _ => wh th = 0%nat /\ (rh th < depth)%nat
    | RL_cas _ _ e => wh th = 0%nat /\ (rh th < depth)%nat /\ 0 <= e < 65536
    | RU_sub => (0 < rh th)%nat
    end;
  ok_desired : match at_pc th with
    | WL_spin _ d _ | WL_timeout _ d => d = _get_write_desired_flag (TLS_Id th)
    | _ => True
    end;
}.

Definition bystander (th : thread) : Prop := ~ owner th.
Definition idle_reader (th : thread) : Prop := ~ owner th /\ rh th = 0%nat.

(** The lock word and the write counter agree with the threads. *)
Inductive word_ok (l : lock) (ths : list thread) : Prop :=
| Unowned :
    Forall bystander ths -> _lockFlag l = total_rh ths -> _writeCount l = 0 ->
    word_ok l ths
| Owned ths1 o ths2 :
    ths = ths1 ++ o :: ths2 -> owner o ->
    Forall idle_reader (ths1 ++ ths2) ->
    _lockFlag l = TLS_Id o * 65536 + Z.of_nat (rh o) ->
    _writeCount l = Z.of_nat (wh o) ->
    word_ok l ths.

Definition inv (depth : nat) (s : system) : Prop :=
  match s with
  | Crashed e => e = code THREAD_LOCK_TIMEOUT
  | Running l ths =>
      Forall (thread_ok depth) ths /\ NoDup (map TLS_Id ths) /\
      Z.of_nat (length ths) * Z.of_nat depth < 65536 /\ word_ok l ths
  end.

(** ** The packed word *)
Lemma thread_id_word i r :
  0 <= i < 65536 -> 0 <= r < 65536 -> _get_lock_thread_id (i * 65536 + r) = i.
Proof.
  intros. unfold _get_lock_thread_id, WRITE_THREAD_MASK, FLAG_SIZE.
  change 4294901760 with (Z.shiftl (Z.ones 16) 16).
  rewrite Z.shiftr_land, Z.shiftr_shiftl_l, Z.shiftl_0_r by lia.
  rewrite Z.land_ones, Z.shiftr_div_pow2 by lia.
  replace (i * 65536 + r) with (r + i * 2 ^ 16) by lia.
  rewrite Z.div_add, Z.div_small by lia. simpl. apply Z.mod_small. lia.
Qed.

Lemma read_count_word i r :
  0 <= r < 65536 -> _get_read_lock_count (i * 65536 + r) = r.
Proof.
  intros. unfold _get_read_lock_count, READ_COUNT_MASK.
  change 65535 with (Z.ones 16). rewrite Z.land_ones by lia.
  replace (i * 65536 + r) with (r + i * 2 ^ 16) by lia.
  rewrite Z.mod_add by lia. apply Z.mod_small. lia.
Qed.

Lemma read_count_range f : 0 <= _get_read_lock_count f < 65536.
Proof.
  unfold _get_read_lock_count, READ_COUNT_MASK. change 65535 with (Z.ones 16).
  rewrite Z.land_ones by lia. apply Z.mod_pos_bound. lia.
Qed.

Lemma desired_word i : 0 <= i < 65536 -> _get_write_desired_flag i = i * 65536 + 0.
Proof.
  intros. unfold _get_write_desired_flag, FLAG_SIZE, WRITE_THREAD_MASK.
  rewrite Z.shiftl_mul_pow2 by lia. change (2 ^ 16) with 65536. unwrap.
  change 4294901760 with (Z.shiftl (Z.ones 16) 16).
  replace (i * 65536) with (Z.shiftl i 16) by (rewrite Z.shiftl_mul_pow2; lia).
  rewrite <- Z.shiftl_land, Z.land_ones, Z.mod_small by lia. lia.
Qed.
(** ** Views of the word from one thread *)
Lemma total_rh_app a b : total_rh (a ++ b) = total_rh a + total_rh b.
Proof. induction a; simpl; lia. Qed.

Lemma total_rh_idle ths : Forall idle_reader ths -> total_rh ths = 0.
Proof. induction 1 as [|? ? []]; simpl; lia. Qed.

Lemma total_rh_bound depth ths :
  Forall (thread_ok depth) ths ->
  0 <= total_rh ths <= Z.of_nat (length ths) * Z.of_nat depth.
Proof. induction 1 as [|? ? []]; simpl; lia. Qed.

Lemma app_cons_cases {A} (a b : list A) x ths1 o ths2 :
  a ++ x :: b = ths1 ++ o :: ths2 ->
  (a = ths1 /\ x = o /\ b = ths2) \/
  (exists m, a = ths1 ++ o :: m /\ ths2 = m ++ x :: b) \/
  (exists m, ths1 = a ++ x :: m /\ b = m ++ o :: ths2).
Proof.
  intros E. apply app_eq_app in E as [m [[-> E]|[-> E]]].
  - destruct m as [|y m]; simplify_list_eq; [by left|right; left]. by exists m.
  - destruct m as [|y m]; simplify_list_eq; [by left|right; right]. by exists m.
Qed.

(** What the word says to thread [th] standing between [a] and [b]. *)
Inductive view (l : lock) (a : list thread) (th : thread) (b : list thread) : Prop :=
| V_free :
    Forall bystander (a ++ b) -> bystander th ->
    _lockFlag l = total_rh (a ++ b) + Z.of_nat (rh th) -> _writeCount l = 0 ->
    view l a th b
| V_me :
    owner th -> Forall idle_reader (a ++ b) ->
    _lockFlag l = TLS_Id th * 65536 + Z.of_nat (rh th) ->
    _writeCount l = Z.of_nat (wh th) -> view l a th b
| V_other o :
    o ∈ a ++ b -> idle_reader th ->
    _lockFlag l = TLS_Id o * 65536 + Z.of_nat (rh o) ->
    (forall th', idle_reader th' -> word_ok l (a ++ th' :: b)) -> view l a th b.

Lemma word_view l a th b : word_ok l (a ++ th :: b) -> view l a th b.
Proof.
  intros [Hf Hw Hc|ths1 o ths2 E Ho Hi Hw Hc].
  - rewrite Forall_app, Forall_cons in Hf. destruct Hf as (? & ? & ?).
    apply V_free; [by apply Forall_app|done| |done].
    rewrite Hw, !total_rh_app. simpl. lia.
  - apply app_cons_cases in E as [(-> & -> & ->)|[(m & -> & ->)|(m & -> & ->)]].
    + by apply V_me.
    + rewrite !Forall_app, Forall_cons in Hi. destruct Hi as (H1 & H2 & H3 & H4).
      apply (V_other _ _ _ _ o); [by rewrite !elem_of_app, elem_of_cons; auto|done|done|].
      intros th' Hth. eapply (Owned _ _ ths1 o (m ++ th' :: b)); try done.
      * by rewrite <- app_assoc.
      * rewrite !Forall_app, Forall_cons. auto.
    + rewrite <- !app_assoc in Hi. simpl in Hi. rewrite !Forall_app, Forall_cons, Forall_app in Hi.
      destruct Hi as (H1 & H2 & H3 & H4).
      apply (V_other _ _ _ _ o); [by rewrite !elem_of_app, elem_of_cons; auto|done|done|].
      intros th' Hth. eapply (Owned _ _ (a ++ th' :: m) o ths2); try done.
      * by rewrite <- app_assoc.
      * rewrite <- app_assoc. simpl. rewrite !Forall_app, Forall_cons, Forall_app. auto.
Qed.

Lemma free_word l a th b :
  Forall bystander (a ++ b) -> bystander th ->
  _lockFlag l = total_rh (a ++ b) + Z.of_nat (rh th) -> _writeCount l = 0 ->
  word_ok l (a ++ th :: b).
Proof.
  intros Hf Ht Hw Hc. apply Unowned; [|rewrite Hw, !total_rh_app; simpl; lia|done].
  apply Forall_app in Hf as [? ?]. apply Forall_app. by rewrite Forall_cons.
Qed.

Lemma me_word l a th b :
  owner th -> Forall idle_reader (a ++ b) ->
  _lockFlag l = TLS_Id th * 65536 + Z.of_nat (rh th) ->
  _writeCount l = Z.of_nat (wh th) -> word_ok l (a ++ th :: b).
Proof. intros. by apply (Owned _ _ a th b). Qed.

Lemma idle_bystander ths : Forall idle_reader ths -> Forall bystander ths.
Proof. intros H. eapply Forall_impl; [exact H|]. by intros ? []. Qed.

Lemma bystander_idle depth ths :
  Forall (thread_ok depth) ths -> Forall bystander ths -> total_rh ths = 0 ->
  Forall idle_reader ths.
Proof.
  induction 1 as [|th ths Hth Hths IH]; [constructor|].
  intros [Hb Hbs]%Forall_cons Ht. simpl in Ht.
  pose proof (total_rh_bound depth ths Hths).
  apply Forall_cons. split; [split; [done|lia]|apply IH; [done|lia]].
Qed.

(** The whole number of guards fits the 16-bit fields. *)
Lemma context_bounds depth a th b :
  Forall (thread_ok depth) (a ++ th :: b) ->
  Z.of_nat (length (a ++ th :: b)) * Z.of_nat depth < 65536 ->
  Forall (thread_ok depth) (a ++ b) /\ thread_ok depth th /\
  0 <= total_rh (a ++ b) /\ total_rh (a ++ b) + Z.of_nat depth < 65536.
Proof.
  rewrite Forall_app, Forall_cons, length_app. simpl. intros (Ha & Ht & Hb) Hn.
  assert (Forall (thread_ok depth) (a ++ b)) as Hab by by apply Forall_app.
  pose proof (total_rh_bound depth _ Hab) as Hr. rewrite length_app in Hr.
  split_and!; [done|done|lia|nia].
Qed.

Lemma other_id a th b o :
  NoDup (map TLS_Id (a ++ th :: b)) -> o ∈ a ++ b -> TLS_Id o <> TLS_Id th.
Proof.
  rewrite map_app, elem_of_app. simpl. intros Hn Ho E.
  apply NoDup_app in Hn as (_ & Hd & Hn). apply NoDup_cons in Hn as [Hn _].
  destruct Ho as [Ho|Ho].
  - apply (Hd (TLS_Id o)); [|rewrite E; apply list_elem_of_here].
    by apply list_elem_of_fmap_2.
  - apply Hn. rewrite <- E. by apply list_elem_of_fmap_2.
Qed.

(** ** One lemma per kind of step *)
Section Steps.
Context (depth : nat) (l : lock) (a : list thread) (th : thread) (b : list thread).
Context (Hok : Forall (thread_ok depth) (a ++ th :: b)).
Context (Hids : NoDup (map TLS_Id (a ++ th :: b))).
Context (Hsmall : Z.of_nat (length (a ++ th :: b)) * Z.of_nat depth < 65536).
Context (Hword : word_ok l (a ++ th :: b)).

(** The three views with the bounds of their fields. *)
Lemma view_facts :
  thread_ok depth th /\
  ((bystander th /\ Forall bystander (a ++ b) /\ Forall (thread_ok depth) (a ++ b) /\
    0 <= total_rh (a ++ b) /\ total_rh (a ++ b) + Z.of_nat depth < 65536 /\
    _lockFlag l = 0 * 65536 + (total_rh (a ++ b) + Z.of_nat (rh th)) /\
    _writeCount l = 0) \/
   (owner th /\ Forall idle_reader (a ++ b) /\ Z.of_nat depth < 65536 /\
    _lockFlag l = TLS_Id th * 65536 + Z.of_nat (rh th) /\
    _writeCount l = Z.of_nat (wh th)) \/
   (idle_reader th /\ (forall th', idle_reader th' -> word_ok l (a ++ th' :: b)) /\
    exists i r, i <> TLS_Id th /\ 1 <= i < 65536 /\ 0 <= r < 65536 /\
      _lockFlag l = i * 65536 + r)).
Proof.
  destruct (context_bounds _ _ _ _ Hok Hsmall) as (Hab & Ht & H0 & H1).
  split; [done|]. destruct (word_view _ _ _ _ Hword) as [? ? Hf ?|? ? Hf ?|o Hin Hi Hf Hrest].
  - left. rewrite Hf. split_and!; auto.
  - right; left. split_and!; auto. lia.
  - right; right. split_and!; auto. exists (TLS_Id o), (Z.of_nat (rh o)).
    rewrite Forall_forall in Hab. destruct (Hab _ Hin) as [? ? _ _].
    split_and!; auto; try lia. by apply (other_id a th b o).
Qed.

(** Moving inside an operation without touching the lock. *)
Lemma word_goto p :
  (owner (goto p th) <-> owner th) -> word_ok l (a ++ goto p th :: b).
Proof using Hword.
  intros Ho. destruct (word_view _ _ _ _ Hword) as [? Hb ? ?|? ? ? ?|o ? [Hb ?] ? Hrest].
  - apply free_word; try done. unfold bystander. by rewrite Ho.
  - apply me_word; try done. by apply Ho.
  - apply Hrest. split; [by rewrite Ho|done].
Qed.

(** Comparing [TLS_Id] with the word tells whether the thread is the writer. *)
Lemma own_test :
  at_pc th <> WL_inc -> at_pc th <> WU_store ->
  (TLS_Id th =? _get_lock_thread_id (_lockFlag l)) = (0 <? wh th)%nat.
Proof.
  intros H1 H2. destruct view_facts as [[Hid Hd _ _] [V|[V|V]]].
  - destruct V as (Hb & _ & _ & ? & ? & -> & _).
    rewrite thread_id_word by lia. destruct (Nat.ltb_spec 0 (wh th)) as [Hw|].
    + destruct Hb. by left.
    + apply Z.eqb_neq. lia.
  - destruct V as (Ho & _ & ? & -> & _). rewrite thread_id_word, Z.eqb_refl by lia.
    symmetry. apply Nat.ltb_lt. by destruct Ho as [?|[?|?]].
  - destruct V as ((Hb & _) & _ & i & r & ? & ? & ? & ->).
    rewrite thread_id_word by lia. destruct (Nat.ltb_spec 0 (wh th)) as [Hw|].
    + destruct Hb. by left.
    + by apply Z.eqb_neq.
Qed.

(** The CAS of [WriteLock] succeeds only on a word nobody holds. *)
Lemma word_acquire :
  rh th = 0%nat -> wh th = 0%nat -> _lockFlag l = EMPTY ->
  word_ok (set_flag (_get_write_desired_flag (TLS_Id th)) l) (a ++ goto WL_inc th :: b).
Proof.
  intros Hr Hw Hf. destruct view_facts as [[Hid Hd _ _] [V|[V|V]]].
  - destruct V as (_ & Hb & Hab & ? & ? & Hf' & Hc). unfold EMPTY in Hf.
    apply me_word; simpl; [by right; left| | |lia].
    + apply (bystander_idle depth); [done|done|lia].
    + rewrite desired_word by lia. lia.
  - destruct V as (_ & _ & _ & Hf' & _). unfold EMPTY in *. lia.
  - destruct V as (_ & _ & i & r & ? & ? & ? & Hf'). unfold EMPTY in *. lia.
Qed.

Lemma word_inc :
  at_pc th = WL_inc -> (wh th < depth)%nat ->
  word_ok (mk_lock (_lockFlag l) (u16 (_writeCount l + 1)))
    (a ++ mk_thread (TLS_Id th) Idle (S (wh th)) (rh th) :: b).
Proof.
  intros Hp Hw. destruct view_facts as [[Hid Hd _ _] [V|[V|V]]].
  - destruct V as (Hb & _). destruct Hb. by right; left.
  - destruct V as (Ho & Hi & ? & Hf & Hc). apply me_word; simpl; auto.
    + left; simpl; lia.
    + rewrite Hc. unwrap. lia.
  - destruct V as ((Hb & _) & _). destruct Hb. by right; left.
Qed.

Lemma word_dec :
  (0 < wh th)%nat ->
  u16 (_writeCount l - 1) = Z.of_nat (pred (wh th)) /\
  word_ok (mk_lock (_lockFlag l) (u16 (_writeCount l - 1)))
    (a ++ mk_thread (TLS_Id th)
            (if u16 (_writeCount l - 1) =? 0 then WU_store else Idle)
            (pred (wh th)) (rh th) :: b).
Proof.
  intros Hw. destruct view_facts as [[Hid Hd _ _] [V|[V|V]]].
  - destruct V as (Hb & _). destruct Hb. by left.
  - destruct V as (Ho & Hi & ? & Hf & Hc).
    assert (u16 (_writeCount l - 1) = Z.of_nat (pred (wh th))) as E
      by (rewrite Hc; unwrap; lia).
    split; [done|]. rewrite E. apply me_word; simpl; auto.
    destruct (Z.eqb_spec (Z.of_nat (pred (wh th))) 0); unfold owner; simpl;
      [by right; right|left; lia].
  - destruct V as ((Hb & _) & _). destruct Hb. by left.
Qed.

Lemma word_store :
  at_pc th = WU_store -> rh th = 0%nat -> wh th = 0%nat ->
  word_ok (set_flag EMPTY l) (a ++ goto Idle th :: b).
Proof.
  intros Hp Hr Hw. destruct view_facts as [_ [V|[V|V]]].
  - destruct V as (Hb & _). destruct Hb. by right; right.
  - destruct V as (_ & Hi & _ & _ & Hc). apply free_word; simpl.
    + by apply idle_bystander.
    + unfold bystander, owner; simpl. intros [?|[?|?]]; try done. lia.
    + rewrite total_rh_idle, Hr by done. done.
    + lia.
  - destruct V as ((Hb & _) & _). destruct Hb. by right; right.
Qed.

Lemma word_read_own :
  (0 < wh th)%nat -> (rh th < depth)%nat ->
  word_ok (set_flag (u32 (_lockFlag l + 1)) l)
    (a ++ mk_thread (TLS_Id th) Idle (wh th) (S (rh th)) :: b).
Proof.
  intros Hw Hr. destruct view_facts as [[Hid Hd _ _] [V|[V|V]]].
  - destruct V as (Hb & _). destruct Hb. by left.
  - destruct V as (Ho & Hi & ? & Hf & Hc). apply me_word; simpl; auto.
    + by left.
    + rewrite Hf. unwrap. lia.
  - destruct V as ((Hb & _) & _). destruct Hb. by left.
Qed.

(** The CAS of [ReadLock] succeeds only on a word without a writer. *)
Lemma word_read_cas e :
  wh th = 0%nat -> (rh th < depth)%nat -> 0 <= e < 65536 -> _lockFlag l = e ->
  word_ok (set_flag (u32 (e + 1)) l)
    (a ++ mk_thread (TLS_Id th) Idle (wh th) (S (rh th)) :: b).
Proof.
  intros Hw Hr He Hf. destruct view_facts as [[Hid Hd _ _] [V|[V|V]]].
  - destruct V as (Hb & Hbs & _ & ? & ? & Hf' & Hc). apply free_word; simpl; auto.
    + unfold bystander, owner; simpl. intros [?|[?|?]]; try done. lia.
    + unwrap. lia.
  - destruct V as (_ & _ & _ & Hf' & _). lia.
  - destruct V as (_ & _ & i & r & ? & ? & ? & Hf'). lia.
Qed.

(** [ReadUnlock] of a held guard finds a positive count. *)
Lemma word_read_sub :
  at_pc th = RU_sub -> (0 < rh th)%nat ->
  _get_read_lock_count (_lockFlag l) <> 0 /\
  word_ok (set_flag (u32 (_lockFlag l - 1)) l)
    (a ++ mk_thread (TLS_Id th) Idle (wh th) (pred (rh th)) :: b).
Proof.
  intros Hp Hr. destruct view_facts as [[Hid Hd _ _] [V|[V|V]]].
  - destruct V as (Hb & Hbs & _ & ? & ? & Hf & Hc). rewrite Hf, read_count_word by lia.
    split; [lia|]. apply free_word; simpl; auto.
    + unfold bystander, owner; simpl. intros [?|[?|?]]; try done. destruct Hb. by left.
    + unwrap. lia.
  - destruct V as (Ho & Hi & ? & Hf & Hc). rewrite Hf, read_count_word by lia.
    split; [lia|]. apply me_word; simpl; auto.
    + destruct Ho as [?|[?|?]]; [by left|congruence|congruence].
    + unwrap. lia.
  - destruct V as ((_ & ?) & _). lia.
Qed.

(** [WriteUnlock] of an owner without read guards finds a zero count. *)
Lemma word_no_readers :
  (0 < wh th)%nat -> rh th = 0%nat -> _get_read_lock_count (_lockFlag l) = 0.
Proof.
  intros Hw Hr. destruct view_facts as [[Hid Hd _ _] [V|[V|V]]].
  - destruct V as (Hb & _). destruct Hb. by left.
  - destruct V as (_ & _ & ? & -> & _). rewrite read_count_word; lia.
  - destruct V as ((Hb & _) & _). destruct Hb. by left.
Qed.

(** Owner tests that do not depend on the program counter. *)
Lemma owner_goto p :
  at_pc th <> WL_inc -> at_pc th <> WU_store -> p <> WL_inc -> p <> WU_store ->
  (owner (goto p th) <-> owner th).
Proof. intros. unfold owner; simpl. tauto. Qed.

Lemma exec_word tick l' th' :
  thread_step tick l th = Some (Ret (l', th')) -> word_ok l' (a ++ th' :: b).
Proof.
  destruct view_facts as [Hth _]. destruct Hth as [Hid Hd Hpc Hdes].
  pose proof own_test as Hown. pose proof word_goto as Hgoto.
  pose proof owner_goto as Hog.
  unfold thread_step, ErrorHandler.AssertCrash1, ErrorHandler.ASSERT_CRASH.
  destruct (at_pc th) eqn:Hp; simpl; intros E; try discriminate E.
  - injection E as <- <-. rewrite Hown by done.
    destruct (Nat.ltb_spec 0 (wh th)); apply Hgoto; [|by apply Hog].
    unfold owner; simpl. split; auto.
  - injection E as <- <-. by apply Hgoto, Hog.
  - injection E as E. destruct (Z.eqb_spec (_lockFlag l) EMPTY); simplify_eq.
    + apply word_acquire; tauto.
    + destruct (_ <? _); by apply Hgoto, Hog.
  - destruct (_ >=? _); [discriminate E|]. injection E as <- <-. by apply Hgoto, Hog.
  - injection E as <- <-. apply word_inc; [done|lia].
  - destruct (_get_read_lock_count (_lockFlag l) =? 0); [|discriminate E].
    injection E as <- <-. by apply Hgoto, Hog.
  - injection E as <- <-. apply word_dec. lia.
  - injection E as <- <-. apply word_store; [done|lia|lia].
  - injection E as <- <-. rewrite Hown by done.
    destruct (Nat.ltb_spec 0 (wh th)); by apply Hgoto, Hog.
  - injection E as <- <-. apply word_read_own; lia.
  - injection E as <- <-. by apply Hgoto, Hog.
  - injection E as <- <-. by apply Hgoto, Hog.
  - injection E as E. destruct (Z.eqb_spec (_lockFlag l) expected); simplify_eq.
    + apply word_read_cas; tauto.
    + destruct (_ <? _); by apply Hgoto, Hog.
  - destruct (_ >=? _); [discriminate E|]. injection E as <- <-. by apply Hgoto, Hog.
  - destruct (_get_read_lock_count (_lockFlag l) =? 0); [discriminate E|].
    injection E as <- <-. apply word_read_sub; [done|lia].
Qed.

Lemma exec_thread tick l' th' :
  thread_step tick l th = Some (Ret (l', th')) ->
  thread_ok depth th' /\ TLS_Id th' = TLS_Id th.
Proof.
  destruct view_facts as [Hth _]. destruct Hth as [Hid Hd Hpc Hdes].
  pose proof own_test as Hown. pose proof word_dec as Hdec.
  pose proof (read_count_range (_lockFlag l)) as Hrc.
  unfold thread_step, ErrorHandler.AssertCrash1, ErrorHandler.ASSERT_CRASH.
  destruct (at_pc th) eqn:Hp; simpl; intros E; try discriminate E;
    repeat match type of E with
      | context [if ?c then _ else _] => destruct c eqn:?
      end; try discriminate E; injection E as <- <-; (split; [|done]);
    (split; simpl; auto; try lia);
    try (specialize (Hown ltac:(done) ltac:(done)); symmetry in Hown;
         (apply Nat.ltb_lt in Hown || apply Nat.ltb_ge in Hown); lia).
Qed.

Lemma exec_crash tick e :
  thread_step tick l th = Some (Crash e) -> e = code THREAD_LOCK_TIMEOUT.
Proof.
  destruct view_facts as [Hth _]. destruct Hth as [Hid Hd Hpc Hdes].
  pose proof word_no_readers as Hnr. pose proof word_read_sub as Hrs.
  unfold thread_step, ErrorHandler.AssertCrash1, ErrorHandler.ASSERT_CRASH.
  destruct (at_pc th) eqn:Hp; simpl; intros E; try discriminate E.
  - destruct (_ >=? _); [by injection E as <-|discriminate E].
  - destruct (Z.eqb_spec (_get_read_lock_count (_lockFlag l)) 0) as [|Hn];
      [discriminate E|]. destruct Hn. apply Hnr; tauto.
  - destruct (_ >=? _); [by injection E as <-|discriminate E].
  - destruct (Z.eqb_spec (_get_read_lock_count (_lockFlag l)) 0) as [Hz|];
      [|discriminate E]. by destruct Hrs.
Qed.
End Steps.

(** Entering an operation. *)
Lemma call_ok depth c th :
  at_pc th = Idle -> allowed depth c th -> thread_ok depth th ->
  thread_ok depth (goto (entry c) th).
Proof.
  intros Hp Ha [Hid Hd _ _]. destruct c; simpl in *; split; simpl; auto; lia.
Qed.

Lemma lock_init_inv depth ids :
  NoDup ids -> Forall (fun i => 1 <= i < 65536) ids ->
  Z.of_nat (length ids) * Z.of_nat depth < 65536 -> inv depth (init ids).
Proof.
  intros Hn Hf Hl. unfold init, inv. rewrite length_map, map_map, map_id.
  split_and!; auto.
  - apply Forall_forall. intros th [i [-> Hi]]%list_elem_of_fmap.
    rewrite Forall_forall in Hf. split; simpl; auto; lia.
  - apply Unowned; simpl; [|induction ids; simpl|done].
    + apply Forall_forall. intros th [i [-> Hi]]%list_elem_of_fmap.
      unfold bystander, owner; simpl. intros [?|[?|?]]; try done. lia.
    + done.
    + apply NoDup_cons in Hn as [_ Hn]. apply Forall_cons in Hf as [_ Hf].
      simpl in *. rewrite <- IHids; auto; lia.
Qed.

Lemma lock_step_inv depth s s' : inv depth s -> step depth s s' -> inv depth s'.
Proof.
  intros Hi Hs. destruct Hs as [c l a th b Hp Ha|tick l a th b l' th' E|tick l a th b e E];
    destruct Hi as (Hok & Hids & Hn & Hw).
  - split_and!.
    + rewrite !Forall_app, !Forall_cons in *. intuition auto using call_ok.
    + by rewrite map_app in *.
    + by rewrite length_app in *.
    + eapply word_goto; [exact Hw|]. apply owner_goto; rewrite ?Hp; by destruct c.
  - destruct (exec_thread depth l a th b Hok Hids Hn Hw _ _ _ E) as [Hok' Hid'].
    split_and!.
    + rewrite !Forall_app, !Forall_cons in *. tauto.
    + rewrite map_app in *. simpl. by rewrite Hid'.
    + by rewrite length_app in *.
    + by eapply exec_word.
  - by eapply exec_crash.
Qed.

(** While a thread holds a write guard, the others hold none. *)
Lemma writer_excludes depth l a th b :
  inv depth (Running l (a ++ th :: b)) -> (0 < wh th)%nat ->
  Forall (fun o => wh o = 0%nat /\ rh o = 0%nat) (a ++ b) /\
  _lockFlag l = TLS_Id th * 65536 + Z.of_nat (rh th) /\
  _writeCount l = Z.of_nat (wh th).
Proof.
  intros (_ & _ & _ & Hword) Hw.
  destruct (word_view _ _ _ _ Hword) as [? Hb ? ?|? Hidle ? ?|o ? [Hb _] ? ?].
  - destruct Hb. by left.
  - split; [|done]. eapply Forall_impl; [exact Hidle|].
    intros o [Ho ?]. split; [|done]. destruct (wh o) eqn:E; [done|].
    destruct Ho. left. lia.
  - destruct Hb. by left.
Qed.

Lemma writer_excludes_at depth l ths i j th o :
  inv depth (Running l ths) -> ths !! j = Some th -> (0 < wh th)%nat ->
  ths !! i = Some o -> i <> j -> wh o = 0%nat /\ rh o = 0%nat.
Proof.
  intros Hi Hj Hw Ho Hne. rewrite <- (take_drop_middle ths j th Hj) in Hi.
  destruct (writer_excludes depth l _ th _ Hi Hw) as [Hall _].
  rewrite Forall_forall in Hall. apply Hall, elem_of_app.
  destruct (decide (i < j)%nat).
  - left. apply list_elem_of_lookup. exists i. by rewrite lookup_take_lt.
  - right. apply list_elem_of_lookup. exists (i - S j)%nat. rewrite lookup_drop.
    by replace (S j + (i - S j))%nat with i by lia.
Qed.

(** C1: the lock excludes. From a new lock used by threads with distinct
    [TLS_Id]s in 1..65535 through scoped guards, in any interleaving of their
    atomic steps: while a thread holds a write guard no other thread holds a
    read or a write guard, the lock word is exactly its id and its own read
    count, and the only crash that can happen is THREAD_LOCK_TIMEOUT. *)
Theorem rwlock_excludes depth ids s :
  NoDup ids -> Forall (fun i => 1 <= i < 65536) ids ->
  Z.of_nat (length ids) * Z.of_nat depth < 65536 ->
  run (step depth) (init ids) s ->
  match s with
  | Crashed e => e = code THREAD_LOCK_TIMEOUT
  | Running l ths => forall a th b, ths = a ++ th :: b -> (0 < wh th)%nat ->
      Forall (fun o => wh o = 0%nat /\ rh o = 0%nat) (a ++ b) /\
      _lockFlag l = TLS_Id th * 65536 + Z.of_nat (rh th) /\
      _writeCount l = Z.of_nat (wh th)
  end.
Proof.
  intros Hn Hf Hl Hr.
  assert (inv depth s) as Hi.
  { eapply run_invariant; [apply lock_step_inv|by apply lock_init_inv|exact Hr]. }
  destruct s as [l ths|e]; [|exact Hi]. intros a th b -> Hw.
  by apply (writer_excludes depth).
Qed.

(** ** Schedules are runs *)
Lemma allowedb_allowed depth c th : allowedb depth c th = true -> allowed depth c th.
Proof.
  destruct c; simpl; rewrite ?andb_true_iff, ?Nat.eqb_eq, ?Nat.ltb_lt; tauto.
Qed.

Lemma play1_step depth e s s' : play1 depth e s = Some s' -> step depth s s'.
Proof.
  destruct s as [l ths|]; [|discriminate]. destruct e as [i c|i t]; simpl;
    (destruct (ths !! i) as [th|] eqn:Hi; [|discriminate]);
    apply take_drop_middle in Hi; revert Hi;
    generalize (take i ths) (drop (S i) ths); intros a b <-.
  - destruct (bool_decide_reflect (at_pc th = Idle)); simpl; [|discriminate].
    destruct (allowedb depth c th) eqn:Ha; [|discriminate]. intros [= <-].
    apply step_call; [done|by apply allowedb_allowed].
  - destruct (thread_step t l th) as [[[l' th']|c| |]|] eqn:E; try discriminate;
      intros [= <-]; [by eapply step_exec|by eapply step_crash].
Qed.

Lemma lock_play_run depth es s s' : play depth es s = Some s' -> run (step depth) s s'.
Proof.
  revert s'. induction es as [|e es IH] using rev_ind; intros s'; unfold play.
  - intros [= <-]. apply run_refl.
  - rewrite foldl_app. simpl. destruct (foldl _ _ es) as [s1|] eqn:E; [|discriminate].
    simpl. intros H. eapply run_step; [by apply IH|by apply (play1_step _ e)].
Qed.

Definition demo_schedule : list event :=
  [ECall 0 CReadLock; EStep 0 5; EStep 0 5; EStep 0 5; EStep 0 5;
   ECall 1 CWriteLock; EStep 1 6; EStep 1 6; EStep 1 6;
   ECall 0 CReadUnlock; EStep 0 8; EStep 1 9; EStep 1 9;
   ECall 1 CReadLock; EStep 1 9; EStep 1 9].

Lemma rwlock_excludes_witness :
  exists l ths, play 3 demo_schedule (init [1; 2]) = Some (Running l ths) /\
    _lockFlag l = 2 * 65536 + 1 /\
    (forall a th b, ths = a ++ th :: b -> (0 < wh th)%nat ->
      Forall (fun o => wh o = 0%nat /\ rh o = 0%nat) (a ++ b)).
Proof.
  destruct (play 3 demo_schedule (init [1; 2])) as [[l ths|]|] eqn:E;
    try (vm_compute in E; discriminate E).
  exists l, ths. split; [reflexivity|]. split.
  - vm_compute in E. injection E as <- <-. reflexivity.
  - intros a th b Hab Hw.
    refine (proj1 (rwlock_excludes 3 [1; 2] (Running l ths) _ _ _
      (lock_play_run _ _ _ _ E) a th b Hab Hw)).
    + exact (bool_decide_unpack (NoDup [1; 2]) I).
    + repeat constructor; lia.
    + simpl; lia.
Defined.

(** ** A writer that cannot get the word *)

(** The thread is spinning in [WriteLock]. *)
Definition spinning (p : pc) : Prop :=
  match p with WL_tick | WL_spin _ _ _ | WL_timeout _ _ => True | _ => False end.

Lemma spinning_step t l th l' th' :
  _lockFlag l <> EMPTY -> spinning (at_pc th) ->
  thread_step t l th = Some (Ret (l', th')) ->
  l' = l /\ spinning (at_pc th') /\ wh th' = wh th /\ rh th' = rh th.
Proof.
  intros Hf Hp. unfold thread_step, ErrorHandler.AssertCrash1, ErrorHandler.ASSERT_CRASH.
  destruct (at_pc th); simpl in *; try contradiction; intros E.
  - by simplify_eq.
  - destruct (Z.eqb_spec (_lockFlag l) EMPTY); [done|]. simplify_eq.
    by destruct (_ <? _).
  - destruct (_ >=? _); by simplify_eq.
Qed.

Lemma spinning_alone ticks l th l' th' :
  _lockFlag l <> EMPTY -> spinning (at_pc th) ->
  exec_alone ticks l th = Ret (l', th') ->
  l' = l /\ wh th' = wh th /\ rh th' = rh th.
Proof.
  revert th. induction ticks as [|t ts IH]; intros th Hf Hp; simpl.
  - intros. by simplify_eq.
  - destruct (thread_step t l th) as [r|] eqn:E; [|intros; by simplify_eq].
    intros Hr. apply obind_ret in Hr as ([l1 th1] & -> & Hr).
    destruct (spinning_step _ _ _ _ _ Hf Hp E) as (-> & Hp' & Hw & Hr').
    rewrite <- Hw, <- Hr'. by apply IH.
Qed.

Lemma exec_cons t ts l th l' th' :
  thread_step t l th = Some (Ret (l', th')) ->
  exec_alone (t :: ts) l th = exec_alone ts l' th'.
Proof. simpl. by intros ->. Qed.

Lemma spin_fails t l th b d n :
  _lockFlag l <> EMPTY -> at_pc th = WL_spin b d n ->
  thread_step t l th =
    Some (Ret (l, goto (if n + 1 <? MAX_SPIN_COUNT then WL_spin b d (n + 1)
                        else WL_timeout b d) th)).
Proof.
  intros Hf Hp. unfold thread_step. rewrite Hp.
  by destruct (Z.eqb_spec (_lockFlag l) EMPTY).
Qed.

Lemma spin_to_timeout m t b d n l th ts :
  _lockFlag l <> EMPTY -> at_pc th = WL_spin b d n -> n + Z.of_nat (S m) = MAX_SPIN_COUNT ->
  exec_alone (replicate (S m) t ++ ts) l th = exec_alone ts l (goto (WL_timeout b d) th).
Proof.
  intros Hf. revert n th. induction m as [|m IH]; intros n th Hp Hn.
  - change (replicate 1 t ++ ts) with (t :: ts).
    erewrite exec_cons by by apply spin_fails.
    by destruct (Z.ltb_spec (n + 1) MAX_SPIN_COUNT); [lia|].
  - change (replicate (S (S m)) t ++ ts) with (t :: replicate (S m) t ++ ts).
    erewrite exec_cons by by apply spin_fails.
    destruct (Z.ltb_spec (n + 1) MAX_SPIN_COUNT); [|lia].
    by rewrite (IH (n + 1)) by (done || lia).
Qed.

(** [WriteLock] on a word that is neither empty nor the caller's. Running
    alone, the caller never changes the word nor gains a guard, and it
    terminates: after [MAX_SPIN_COUNT] failed exchanges and 10000 ticks it
    crashes with THREAD_LOCK_TIMEOUT. This is what happens to a reader that asks
    for the write lock it is blocking itself. *)
Theorem writelock_blocked_times_out l th :
  at_pc th = WL_load -> _lockFlag l <> EMPTY ->
  TLS_Id th <> _get_lock_thread_id (_lockFlag l) ->
  (forall ticks l' th', exec_alone ticks l th = Ret (l', th') ->
     l' = l /\ wh th' = wh th /\ rh th' = rh th) /\
  (forall t0 t1, TIMEOUT_TICK <= u64 (t1 - t0) ->
     exec_alone (t0 :: t0 :: replicate (Z.to_nat MAX_SPIN_COUNT) t0 ++ [t1]) l th =
       Crash (code THREAD_LOCK_TIMEOUT)).
Proof.
  intros Hp Hf Hid. apply Z.eqb_neq in Hid. split.
  - intros [|t ts] l' th'; cbn [exec_alone]; [intros; by simplify_eq|].
    unfold thread_step at 1. rewrite Hp, Hid. cbn [obind].
    intros Hr. by apply (spinning_alone ts l (goto WL_tick th)).
  - intros t0 t1 Ht.
    erewrite exec_cons by (unfold thread_step; by rewrite Hp, Hid).
    erewrite exec_cons by reflexivity.
    replace (Z.to_nat MAX_SPIN_COUNT) with (S (Z.to_nat (MAX_SPIN_COUNT - 1)))
      by (unfold MAX_SPIN_COUNT; lia).
    rewrite (spin_to_timeout _ t0 t0 (_get_write_desired_flag (TLS_Id th)) 0)
      by (done || unfold MAX_SPIN_COUNT; lia).
    cbn [exec_alone thread_step goto at_pc].
    by destruct (Z.geb_spec (u64 (t1 - t0)) TIMEOUT_TICK); [|lia].
Qed.

(** A thread with one read guard asks for the write lock. *)
Lemma writelock_blocked_times_out_witness :
  exec_alone (0 :: 0 :: replicate (Z.to_nat MAX_SPIN_COUNT) 0 ++ [10000])
    (mk_lock 1 0) (mk_thread 7 WL_load 0 1) = Crash 501.
Proof.
  refine (proj2 (writelock_blocked_times_out (mk_lock 1 0) (mk_thread 7 WL_load 0 1)
    _ _ _) 0 10000 _); vm_compute; congruence.
Defined.

(** The lock word has 16 bits for the writer, but [TLS_Id] is a [uint32].
    Ids that are multiples of 65536 write [EMPTY] into the word: any two threads
    with such ids can hold the write lock at the same time. *)
Theorem rwlock_wide_ids_do_not_exclude i j :
  i mod 65536 = 0 -> j mod 65536 = 0 -> i <> 0 -> j <> 0 ->
  exists l t1 t2, run (step 1) (init [i; j]) (Running l [t1; t2]) /\
    wh t1 = 1%nat /\ wh t2 = 1%nat.
Proof.
  intros Hi Hj Hi0 Hj0.
  assert (Hd : forall k, k mod 65536 = 0 -> _get_write_desired_flag k = 0).
  { intros k Hk. unfold _get_write_desired_flag, FLAG_SIZE, u32, wrap.
    rewrite Z.shiftl_mul_pow2 by lia.
    replace ((k * 2 ^ 16) mod 2 ^ 32) with 0; [done|].
    symmetry. apply Z.mod_divide; [done|]. apply Z.mod_divide in Hk as [q ->]; [|done].
    exists q. lia. }
  eexists (mk_lock 0 2), (mk_thread i Idle 1 0), (mk_thread j Idle 1 0).
  split; [|done].
  apply (lock_play_run 1 [ECall 0 CWriteLock; EStep 0 0; EStep 0 0; EStep 0 0; EStep 0 0;
                     ECall 1 CWriteLock; EStep 1 0; EStep 1 0; EStep 1 0; EStep 1 0]).
  apply Z.eqb_neq in Hi0, Hj0. unfold play. cbn [foldl].
  repeat (progress (cbn -[_get_write_desired_flag]; rewrite ?Hi0, ?Hj0, ?Hd by done;
    change (bool_decide (Idle = Idle)) with true;
    change (_get_lock_thread_id EMPTY) with 0; change (_get_lock_thread_id 0) with 0;
    rewrite ?Hi0, ?Hj0)).
  reflexivity.
Qed.

Lemma rwlock_wide_ids_do_not_exclude_witness :
  exists l t1 t2, run (step 1) (init [65536; 131072]) (Running l [t1; t2]) /\
    wh t1 = 1%nat /\ wh t2 = 1%nat.
Proof. apply (rwlock_wide_ids_do_not_exclude 65536 131072); vm_compute; congruence. Defined.

End RWLock.
