(* ===== verification/Memory.v ===== *)
(** MemoryPool.h/.cpp, Memory.h/.cpp: the
    size-segregated pool allocator every container of the library allocates
    from. The Win32 singly linked list and [_aligned_malloc] are interfaces with
    their documented laws; [sizeof(MemoryHeader)], which depends on the SDK's
    [SLIST_ENTRY], is a parameter of the platform. *)
From S2P Require Import Prelude ErrorHandler.
#[local] Open Scope Z_scope.

(** Interlocked singly linked lists: a stack of entry addresses. *)
Class SListOps (L : Type) := {
  sl_items : L -> list Z;
  InitializeSListHead : L;
  InterlockedPushEntrySList : Z -> L -> L;
  InterlockedPopEntrySList : L -> option Z * L;
  sl_init_items : sl_items InitializeSListHead = [];
  sl_push_items a l : sl_items (InterlockedPushEntrySList a l) = a :: sl_items l;
  sl_pop_items l :
    (InterlockedPopEntrySList l).1 = head (sl_items l) /\
    sl_items (InterlockedPopEntrySList l).2 = tail (sl_items l);
}.

(** [_aligned_malloc] and [_aligned_free]: live blocks with their sizes. *)
Class AlignedHeap (H : Type) := {
  ah_ok : H -> Prop;
  ah_blocks : H -> gmap Z Z;
  aligned_malloc : Z -> Z -> H -> option (Z * H);
  aligned_free : Z -> H -> H;
  ah_malloc_ok n al h a h' :
    ah_ok h -> aligned_malloc n al h = Some (a, h') ->
    ah_ok h' /\ ah_blocks h !! a = None /\
    ah_blocks h' = <[a := n]> (ah_blocks h);
  ah_free_ok a h : ah_ok h -> is_Some (ah_blocks h !! a) ->
    ah_ok (aligned_free a h) /\ ah_blocks (aligned_free a h) = delete a (ah_blocks h);
  ah_nonnull h a n : ah_ok h -> ah_blocks h !! a = Some n -> a <> 0;
  ah_disjoint h a n b k :
    ah_ok h -> ah_blocks h !! a = Some n -> ah_blocks h !! b = Some k -> a <> b ->
    a + n <= b \/ b + k <= a;
}.

(** Layout facts of the platform the code relies on. *)
Class Platform := {
  MEMORY_ALLOCATION_ALIGNMENT : Z;
  SIZEOF_MemoryHeader : Z;
  SIZEOF_MemoryHeader_bounds : 0 < SIZEOF_MemoryHeader <= 64;
}.

Module Memory.

(** The constants of [class Memory] with [USE_BIG_MEMORY_BLOCK] (CoreDef.h). *)
Definition BLOCK_SECTION_1024 : Z := 1024.
Definition BLOCK_SECTION_2048 : Z := 2048.
Definition BLOCK_SECTION_4096 : Z := 4096.
Definition BLOCK_SIZE_32 : Z := 32.
Definition BLOCK_SIZE_128 : Z := 128.
Definition BLOCK_SIZE_256 : Z := 256.
Definition BLOCK_SIZE_512 : Z := 512.
Definition MAX_ALLOC_SIZE : Z := 8192.

(** ** The pool table *)

(** While constructing: the sizes of the pools pushed to [_pools] and
    [_poolTable], whose entries hold a pool index; an absent entry was never
    written. *)
Record layout := mk_layout { sizes : list Z; _poolTable : gmap Z nat }.

(** [while (tableKey <= pos) { _poolTable[tableKey] = pool; tableKey++; }]. *)
Fixpoint fill_table (fuel : nat) (tableKey pos : Z) (pool : nat) (t : gmap Z nat)
  : outcome (Z * gmap Z nat) :=
  match fuel with
  | O => NoFuel
  | S fuel =>
      if tableKey <=? pos then
        if (tableKey <? 0) || (MAX_ALLOC_SIZE <? tableKey) then Fault OutOfBounds
        else fill_table fuel (tableKey + 1) pos pool (<[tableKey := pool]> t)
      else Ret (tableKey, t)
  end.

(** [init_memory_pool(tableKey, pos, end, block_size)]. *)
Fixpoint init_memory_pool (fuel : nat) (tableKey pos last block_size : Z) (m : layout)
  : outcome (Z * Z * layout) :=
  match fuel with
  | O => NoFuel
  | S fuel =>
      if pos <=? last then
        let pool := length (sizes m) in
        let! (tableKey, t) :=
          fill_table (Z.to_nat (pos - tableKey + 2)) tableKey pos pool (_poolTable m) in
        init_memory_pool fuel tableKey (pos + block_size) last block_size
          (mk_layout (sizes m ++ [pos]) t)
      else Ret (tableKey, pos, m)
  end.

(** [Memory::Memory()]. *)
Definition init_layout : outcome layout :=
  let pos := BLOCK_SIZE_32 in
  let tableNumber := 0 in
  let m := mk_layout [] ∅ in
  let! (tableNumber, pos, m) :=
    init_memory_pool 64 tableNumber pos BLOCK_SECTION_1024 BLOCK_SIZE_32 m in
  let! (tableNumber, pos, m) :=
    init_memory_pool 64 tableNumber pos BLOCK_SECTION_2048 BLOCK_SIZE_128 m in
  let! (tableNumber, pos, m) :=
    init_memory_pool 64 tableNumber pos BLOCK_SECTION_4096 BLOCK_SIZE_256 m in
  let! (_, _, m) :=
    init_memory_pool 64 tableNumber pos MAX_ALLOC_SIZE BLOCK_SIZE_512 m in
  Ret m.

(** The table the constructor leaves. *)
Definition the_layout : layout :=
  match init_layout with Ret m => m | _ => mk_layout [] ∅ end.

Section Allocator.
Context {H L : Type} `{AlignedHeap H} `{SListOps L} `{Platform}.

(** [class MemoryPool]. *)
Record pool := mk_pool {
  _header : L; _allocSize : Z; _useCount : Z; _poolCount : Z
}.

(** The allocator, the [_allocSize] fields of the block headers, and the C heap. *)
Record mem := mk_mem {
  _pools : list pool; table : gmap Z nat; hdr : gmap Z Z; cheap : H
}.

Definition new_pool (size : Z) : pool := mk_pool InitializeSListHead size 0 0.

Definition Memory_new (h : H) : outcome mem :=
  let! m := init_layout in
  Ret (mk_mem (map new_pool (sizes m)) (_poolTable m) ∅ h).

Definition set_pool (i : nat) (p : pool) (m : mem) : mem :=
  mk_mem (<[i := p]> (_pools m)) (table m) (hdr m) (cheap m).
Definition set_hdr (a n : Z) (m : mem) : mem :=
  mk_mem (_pools m) (table m) (<[a := n]> (hdr m)) (cheap m).
Definition set_cheap (h : H) (m : mem) : mem :=
  mk_mem (_pools m) (table m) (hdr m) h.

(** [MemoryPool::Acquire] of pool [i]. *)
Definition Acquire (i : nat) (m : mem) : outcome (Z * mem) :=
  match _pools m !! i with
  | None => Fault OutOfBounds
  | Some p =>
      let '(entry, l) := InterlockedPopEntrySList (_header p) in
      match entry with
      | None =>
          match aligned_malloc (_allocSize p) MEMORY_ALLOCATION_ALIGNMENT (cheap m) with
          | None => let! _ := ErrorHandler.ASSERT_CRASH false 0 in Fault NullDeref
          | Some (header, h) =>
              Ret (header,
                set_pool i (mk_pool l (_allocSize p) (u32 (_useCount p + 1)) (_poolCount p))
                  (set_hdr header (_allocSize p) (set_cheap h m)))
          end
      | Some header =>
          Ret (header,
            set_pool i (mk_pool l (_allocSize p) (u32 (_useCount p + 1))
                          (u32 (_poolCount p - 1))) m)
      end
  end.

(** [MemoryPool::Release] to pool [i]. *)
Definition PoolRelease (i : nat) (header : Z) (m : mem) : outcome mem :=
  match _pools m !! i with
  | None => Fault OutOfBounds
  | Some p =>
      Ret (set_pool i
        (mk_pool (InterlockedPushEntrySList header (_header p)) (_allocSize p)
           (u32 (_useCount p - 1)) (u32 (_poolCount p + 1)))
        (set_hdr header 0 m))
  end.

(** [MemoryHeader::AttachHeader] and [DetachHeader]. *)
Definition AttachHeader (header size : Z) (m : mem) : outcome (Z * mem) :=
  if header =? 0 then Fault NullDeref
  else Ret (header + SIZEOF_MemoryHeader, set_hdr header size m).
Definition DetachHeader (ptr : Z) : Z := ptr - SIZEOF_MemoryHeader.

(** [_poolTable[i]]. *)
Definition table_at (i : Z) (m : mem) : outcome nat :=
  if (i <? 0) || (MAX_ALLOC_SIZE <? i) then Fault OutOfBounds
  else match table m !! i with None => Fault Uninitialised | Some p => Ret p end.

Definition alloc_big (size : Z) (m : mem) : Z * mem :=
  match aligned_malloc size MEMORY_ALLOCATION_ALIGNMENT (cheap m) with
  | None => (0, m)
  | Some (a, h) => (a, set_cheap h m)
  end.

Definition free_big (a : Z) (m : mem) : mem :=
  set_cheap (aligned_free a (cheap m)) m.

(** [Memory::Allocate]. *)
Definition Allocate (size : Z) (m : mem) : outcome (Z * mem) :=
  let allocSize := s32 (u64 (size + SIZEOF_MemoryHeader)) in
  let! (header, m) :=
    (if allocSize >? MAX_ALLOC_SIZE then Ret (alloc_big allocSize m)
     else let! i := table_at allocSize m in Acquire i m) in
  AttachHeader header allocSize m.

(** [Memory::Release]. *)
Definition Release (ptr : Z) (m : mem) : outcome mem :=
  let header := DetachHeader ptr in
  match hdr m !! header with
  | None => Fault NullDeref
  | Some allocSize =>
      if allocSize >? MAX_ALLOC_SIZE then Ret (free_big header m)
      else let! i := table_at allocSize m in PoolRelease i header m
  end.

(** Uses of the allocator: the live allocations as (pointer, requested size). *)
Inductive mop := MAlloc (size : Z) | MFree (k : nat).
Definition apply_mop (o : mop) (st : mem * list (Z * Z)) : outcome (mem * list (Z * Z)) :=
  let '(m, used) := st in
  match o with
  | MAlloc size => let! (p, m) := Allocate size m in Ret (m, (p, size) :: used)
  | MFree k =>
      match used !! k with
      | None => Ret (m, used)
      | Some (p, _) => let! m := Release p m in Ret (m, delete k used)
      end
  end.
Fixpoint apply_mops (os : list mop) (st : mem * list (Z * Z))
  : outcome (mem * list (Z * Z)) :=
  match os with
  | [] => Ret st
  | o :: os => let! st := apply_mop o st in apply_mops os st
  end.

End Allocator.
Arguments pool L : clear implicits.
Arguments mem H L : clear implicits.

(** ** The table *)

(** The pool a size is served from: the smallest pool that holds it. *)
Definition table_entry_ok (m : layout) (k : Z) : bool :=
  match _poolTable m !! k with
  | None => 7712 <? k
  | Some i =>
      match sizes m !! i with
      | None => false
      | Some sz => (k <=? sz) && (k <=? 7712) &&
                   forallb (fun s => (s <? k) || (sz <=? s)) (sizes m)
      end
  end.

Lemma init_layout_returns : returns init_layout = true.
Proof. vm_compute. reflexivity. Qed.

Lemma init_layout_eq : init_layout = Ret the_layout.
Proof.
  destruct (returns_ret _ init_layout_returns) as [m E]. unfold the_layout. by rewrite E.
Qed.

Lemma table_all_ok :
  forallb (table_entry_ok the_layout) (seqZ 0 (MAX_ALLOC_SIZE + 1)) = true.
Proof. vm_compute. reflexivity. Qed.

Lemma layout_sizes :
  length (sizes the_layout) = 56%nat /\ forallb (fun s => s <=? 7712) (sizes the_layout) = true.
Proof. split; vm_compute; reflexivity. Qed.

Lemma table_entry_ok_spec m k :
  table_entry_ok m k = true ->
  match _poolTable m !! k with
  | Some i => k <= 7712 /\ exists sz, sizes m !! i = Some sz /\ k <= sz /\
      forall s, s ∈ sizes m -> k <= s -> sz <= s
  | None => 7712 < k
  end.
Proof.
  unfold table_entry_ok. destruct (_poolTable m !! k) as [i|]; [|by intros ?%Z.ltb_lt].
  destruct (sizes m !! i) as [sz|]; [|discriminate].
  rewrite !andb_true_iff, forallb_forall. intros [[H1 H2] H3].
  split; [lia|]. exists sz. split; [done|]. split; [lia|].
  intros s Hs Hks. apply list_elem_of_In, H3 in Hs. lia.
Qed.

Lemma table_entry_all k :
  0 <= k <= MAX_ALLOC_SIZE -> table_entry_ok the_layout k = true.
Proof.
  intros Hk. refine (proj1 (forallb_forall _ _) table_all_ok k _).
  apply list_elem_of_In, elem_of_seqZ. unfold MAX_ALLOC_SIZE in *. lia.
Qed.

(** C33: the constructor of [Memory] terminates and fills [_poolTable] so that
    every size up to 7712 maps to the smallest of the 56 pools that can hold it;
    the entries 7713 to 8192 are never written, although sizes up to
    MAX_ALLOC_SIZE = 8192 are looked up in the table. *)
Theorem pool_table_correct :
  init_layout = Ret the_layout /\ length (sizes the_layout) = 56%nat /\
  forall k, 0 <= k <= MAX_ALLOC_SIZE ->
    match _poolTable the_layout !! k with
    | Some i => k <= 7712 /\ exists sz, sizes the_layout !! i = Some sz /\ k <= sz /\
        forall s, s ∈ sizes the_layout -> k <= s -> sz <= s
    | None => 7712 < k
    end.
Proof.
  split; [exact init_layout_eq|]. split; [exact (proj1 layout_sizes)|].
  intros k Hk. exact (table_entry_ok_spec the_layout k (table_entry_all k Hk)).
Qed.

(** ** Runs of the allocator *)

(** The total sizes [Allocate] can serve: a pool exists, or the block is big. *)
Definition served (total : Z) : Prop :=
  0 <= total <= 7712 \/ MAX_ALLOC_SIZE < total <= INT_MAX.

Lemma served_pool total :
  0 <= total <= 7712 -> exists i sz, _poolTable the_layout !! total = Some i /\
    sizes the_layout !! i = Some sz /\ total <= sz.
Proof.
  intros Ht. pose proof (table_entry_all total ltac:(unfold MAX_ALLOC_SIZE; lia)) as E.
  apply table_entry_ok_spec in E. destruct (_poolTable _ !! total) as [i|]; [|lia].
  destruct E as (_ & sz & ? & ? & _). eauto.
Qed.

Section Runs.
Context {H L : Type} `{!AlignedHeap H} `{!SListOps L} `{!Platform}.
Context (lay : layout).
Hypothesis lay_served : forall total, 0 <= total <= 7712 ->
  exists i sz, _poolTable lay !! total = Some i /\ sizes lay !! i = Some sz /\ total <= sz.
Implicit Types (m : mem H L) (used : list (Z * Z)).

(** The free blocks of a pool, and of all pools. *)
Definition free_of (p : pool L) : list Z := sl_items (_header p).
Definition pooled (m : mem H L) : list Z := concat (map free_of (_pools m)).
Definition header_of (u : Z * Z) : Z := u.1 - SIZEOF_MemoryHeader.
Definition total_of (u : Z * Z) : Z := u.2 + SIZEOF_MemoryHeader.

(** The block a live allocation lies in: its header records the total size, and
    the C block is as large as its pool's, or exactly fitting when big. *)
Definition live_block (m : mem H L) (u : Z * Z) : Prop :=
  0 <= u.2 /\ served (total_of u) /\ hdr m !! header_of u = Some (total_of u) /\
  exists n, ah_blocks (cheap m) !! header_of u = Some n /\ total_of u <= n /\
    (total_of u <= MAX_ALLOC_SIZE -> exists i,
       _poolTable lay !! total_of u = Some i /\ sizes lay !! i = Some n).

Record inv (m : mem H L) (used : list (Z * Z)) : Prop := {
  inv_table : table m = _poolTable lay;
  inv_heap : ah_ok (cheap m);
  inv_sizes : map _allocSize (_pools m) = sizes lay;
  inv_count : Forall (fun p => _poolCount p = u32 (zlen (free_of p))) (_pools m);
  inv_nodup : NoDup (pooled m ++ map header_of used);
  inv_free : forall i p a, _pools m !! i = Some p -> a ∈ free_of p ->
    ah_blocks (cheap m) !! a = Some (_allocSize p);
  inv_live : Forall (live_block m) used
}.

Lemma u32_succ a z : u32 (u32 a + z) = u32 (a + z).
Proof. unfold u32, wrap. by rewrite Zplus_mod_idemp_l. Qed.

Lemma inv_perm m used used' : used ≡ₚ used' -> inv m used -> inv m used'.
Proof.
  intros Hp [? ? ? ? Hn ? Hl].
  split; [assumption..| | assumption |]; [by rewrite <- Hp|by rewrite <- Hp].
Qed.

#[global] Instance inv_Proper m : Proper ((≡ₚ) ==> iff) (inv m).
Proof. intros u v E. split; apply inv_perm; by rewrite E. Qed.

(** Writing the header of a block no allocation lives in. *)
Lemma inv_set_hdr m used a n :
  inv m used -> a ∉ map header_of used -> inv (set_hdr a n m) used.
Proof.
  intros [? ? ? ? ? ? Hl] Ha. split; try done.
  apply Forall_forall. intros u Hu. rewrite Forall_forall in Hl.
  destruct (Hl u Hu) as (? & ? & ? & ?). split_and!; try done. simpl.
  rewrite lookup_insert_ne; [done|].
  intros ->. apply Ha, list_elem_of_fmap. eauto.
Qed.

(** A fresh C block changes no other. *)
Lemma inv_malloc m used n al a h :
  inv m used -> aligned_malloc n al (cheap m) = Some (a, h) ->
  inv (set_cheap h m) used /\ (a ∉ pooled m ++ map header_of used) /\
  ah_blocks h !! a = Some n.
Proof.
  intros Hinv E. pose proof Hinv as [? Hok ? ? ? Hf Hl].
  destruct (ah_malloc_ok _ _ _ _ _ Hok E) as (? & Hn & Hb).
  rewrite Forall_forall in Hl. split_and!.
  - split; try done; simpl.
    + intros i q b Hi Hq. rewrite Hb. specialize (Hf i q b Hi Hq).
      rewrite lookup_insert_ne; congruence.
    + apply Forall_forall. intros u Hu. destruct (Hl u Hu) as (? & ? & ? & k & ? & ?).
      split_and!; try done. exists k. simpl. rewrite Hb.
      rewrite lookup_insert_ne by congruence. done.
  - rewrite elem_of_app. intros [Hin|Hin].
    + unfold pooled in Hin. apply list_elem_of_In, in_concat in Hin as (l & Hl' & Hin).
      apply list_elem_of_In, list_elem_of_fmap in Hl' as (q & -> & Hq).
      apply list_elem_of_lookup in Hq as [i Hi]. apply list_elem_of_In in Hin.
      specialize (Hf i q a Hi Hin). congruence.
    + apply list_elem_of_fmap in Hin as (u & -> & Hu).
      destruct (Hl u Hu) as (? & ? & ? & k & ? & ?). congruence.
  - by rewrite Hb, lookup_insert_eq.
Qed.

(** Replacing a pool by one of the same size with free blocks of that size. *)
Lemma inv_set_pool m used i p p' :
  inv m used -> _pools m !! i = Some p ->
  _allocSize p' = _allocSize p -> _poolCount p' = u32 (zlen (free_of p')) ->
  NoDup (free_of p' ++ others free_of i (_pools m) ++ map header_of used) ->
  (forall a, a ∈ free_of p' -> ah_blocks (cheap m) !! a = Some (_allocSize p)) ->
  inv (set_pool i p' m) used.
Proof.
  intros [? ? Hs Hc ? Hf ?] Hi Ha Hc' Hnd Hb. split; try done.
  - simpl. change (map ?f ?l) with (f <$> l). rewrite list_fmap_insert, Ha.
    rewrite list_insert_id; [done|]. by rewrite list_lookup_fmap, Hi.
  - simpl. apply Forall_insert; done.
  - unfold pooled. simpl. rewrite (concat_insert free_of i _ p p' Hi).
    by rewrite <- app_assoc.
  - simpl. intros j q a Hj Hq. apply list_lookup_insert_Some in Hj as [(-> & <- & _)|[? Hj]].
    + rewrite Ha. auto.
    + eauto.
Qed.

Lemma inv_pool m used i sz :
  inv m used -> sizes lay !! i = Some sz ->
  exists p, _pools m !! i = Some p /\ _allocSize p = sz.
Proof.
  intros Hinv Hi. rewrite <- (inv_sizes _ _ Hinv) in Hi.
  apply list_lookup_fmap_Some in Hi as (p & -> & ?). eauto.
Qed.

Lemma inv_nodup_at m used i p :
  inv m used -> _pools m !! i = Some p ->
  NoDup (free_of p ++ others free_of i (_pools m) ++ map header_of used).
Proof.
  intros Hinv Hi. pose proof (inv_nodup _ _ Hinv) as Hn. unfold pooled in Hn.
  by rewrite (concat_others free_of i _ p Hi), <- app_assoc in Hn.
Qed.

Lemma inv_count_at m used i p :
  inv m used -> _pools m !! i = Some p -> _poolCount p = u32 (zlen (free_of p)).
Proof.
  intros Hinv Hi. pose proof (inv_count _ _ Hinv) as Hc. rewrite Forall_lookup in Hc. eauto.
Qed.

(** ** The operations preserve the invariant *)

(** [_aligned_malloc] does not run out of memory. *)
Hypothesis heap_total : forall n al (h : H), ah_ok h -> 0 <= n ->
  is_Some (aligned_malloc n al h).

Lemma Acquire_ok m used i sz :
  inv m used -> sizes lay !! i = Some sz -> 0 <= sz ->
  exists a m', Acquire i m = Ret (a, m') /\ inv m' used /\
    (a ∉ pooled m' ++ map header_of used) /\ ah_blocks (cheap m') !! a = Some sz.
Proof.
  intros Hinv Hi Hsz. destruct (inv_pool m used i sz Hinv Hi) as (p & Hp & <-).
  unfold Acquire. rewrite Hp.
  pose proof (inv_nodup_at m used i p Hinv Hp) as Hnd.
  pose proof (inv_count_at m used i p Hinv Hp) as Hcnt.
  destruct (sl_pop_items (_header p)) as [Hh Ht].
  destruct (InterlockedPopEntrySList (_header p)) as [entry l]. simpl in Hh, Ht.
  unfold free_of in Hnd, Hcnt. destruct (sl_items (_header p)) as [|b tl] eqn:Eit;
    simpl in Hh, Ht; subst entry.
  - destruct (heap_total (_allocSize p) MEMORY_ALLOCATION_ALIGNMENT (cheap m)
      (inv_heap _ _ Hinv) Hsz) as [[a h] E]. rewrite E.
    destruct (inv_malloc m used _ _ a h Hinv E) as (Hinv1 & Hfr & Hb).
    assert (Hna : a ∉ map header_of used) by (intros ?; apply Hfr, elem_of_app; auto).
    pose proof (inv_set_hdr _ used a (_allocSize p) Hinv1 Hna) as Hinv2.
    eexists _, _. split; [reflexivity|]. split_and!; [|  |exact Hb].
    + apply (inv_set_pool _ used i p); [done..| | |].
      * unfold free_of. simpl. by rewrite Ht.
      * unfold free_of at 1. simpl. by rewrite Ht.
      * unfold free_of. simpl. rewrite Ht. intros ? []%elem_of_nil.
    + intros Hin. apply Hfr. unfold pooled in *. simpl in Hin.
      rewrite (concat_insert free_of i _ p _ Hp) in Hin.
      rewrite (concat_others free_of i _ p Hp). unfold free_of at 1.
      unfold free_of at 1 in Hin. simpl in Hin. by rewrite Eit, Ht in *.
  - eexists _, _. split; [reflexivity|].
    apply NoDup_app in Hnd as (Hnd1 & Hdis & Hnd2).
    apply NoDup_cons in Hnd1 as [Hb1 Hnd1]. split_and!.
    + apply (inv_set_pool _ used i p); [done..| | |].
      * unfold free_of. simpl. rewrite Ht, Hcnt.
        change (u32 (u32 (zlen (b :: tl)) + -1) = u32 (zlen tl)).
        rewrite u32_succ. f_equal. unfold zlen. simpl. lia.
      * unfold free_of at 1. simpl. rewrite Ht. apply NoDup_app. split_and!; [done| |done].
        intros x Hx. apply Hdis. by constructor.
      * unfold free_of. simpl. rewrite Ht. intros x Hx.
        apply (inv_free _ _ Hinv i p x Hp). unfold free_of. rewrite Eit. by constructor.
    + unfold pooled. simpl. rewrite (concat_insert free_of i _ p _ Hp).
      unfold free_of at 1. simpl. rewrite Ht, <- app_assoc, elem_of_app.
      intros [?|?]; [done|]. apply (Hdis b); [by constructor|done].
    + simpl. apply (inv_free _ _ Hinv i p b Hp). unfold free_of. rewrite Eit. by constructor.
Qed.

(** A block outside every pool and allocation becomes a live allocation. *)
Lemma attach_ok m used a size n :
  inv m used -> a ∉ pooled m ++ map header_of used ->
  ah_blocks (cheap m) !! a = Some n -> 0 <= size ->
  let total := size + SIZEOF_MemoryHeader in
  served total -> total <= n ->
  (total <= MAX_ALLOC_SIZE -> exists i,
     _poolTable lay !! total = Some i /\ sizes lay !! i = Some n) ->
  exists m', AttachHeader a total m = Ret (a + SIZEOF_MemoryHeader, m') /\
    inv m' ((a + SIZEOF_MemoryHeader, size) :: used).
Proof.
  intros Hinv Ha Hb Hs total Hserv Hn Hbig.
  assert (Ha0 : a <> 0) by (eapply ah_nonnull; [apply (inv_heap _ _ Hinv)|exact Hb]).
  unfold AttachHeader. destruct (Z.eqb_spec a 0); [done|].
  eexists. split; [reflexivity|].
  assert (Hna : a ∉ map header_of used) by (intros ?; apply Ha, elem_of_app; auto).
  destruct (inv_set_hdr m used a total Hinv Hna) as [Ht Hh Hsz Hc Hnd Hf Hl].
  assert (Eh : header_of (a + SIZEOF_MemoryHeader, size) = a)
    by (unfold header_of; simpl; lia).
  split; [exact Ht|exact Hh|exact Hsz|exact Hc| |exact Hf|].
  - simpl. rewrite Eh. rewrite <- Permutation_middle. apply NoDup_cons. by split.
  - apply Forall_cons. split; [|exact Hl]. unfold live_block. rewrite Eh.
    split_and!; [done|exact Hserv| |exists n; split_and!; [exact Hb|exact Hn|exact Hbig]].
    simpl. by rewrite lookup_insert_eq.
Qed.

Lemma Allocate_ok m used size :
  inv m used -> 0 <= size -> served (size + SIZEOF_MemoryHeader) ->
  exists a m', Allocate size m = Ret (a + SIZEOF_MemoryHeader, m') /\
    inv m' ((a + SIZEOF_MemoryHeader, size) :: used).
Proof.
  intros Hinv Hs Hserv. pose proof SIZEOF_MemoryHeader_bounds as Hhdr.
  assert (Hrange : 0 <= size + SIZEOF_MemoryHeader <= INT_MAX)
    by (unfold served, INT_MAX, MAX_ALLOC_SIZE in *; lia).
  unfold Allocate. rewrite (u64_small (size + _)) by (unfold INT_MAX in *; lia).
  rewrite s32_small by (unfold INT_MAX in *; lia). rewrite Z.gtb_ltb.
  destruct (Z.ltb_spec MAX_ALLOC_SIZE (size + SIZEOF_MemoryHeader)) as [Hbig|Hsmall].
  - destruct (heap_total (size + SIZEOF_MemoryHeader) MEMORY_ALLOCATION_ALIGNMENT (cheap m)
      (inv_heap _ _ Hinv) (proj1 Hrange)) as [[a h] E].
    unfold alloc_big. rewrite E. cbn [obind].
    destruct (inv_malloc m used _ _ a h Hinv E) as (Hinv1 & Hfr & Hb).
    destruct (attach_ok _ used a size _ Hinv1 Hfr Hb Hs Hserv) as (m' & -> & ?); eauto; lia.
  - destruct Hserv as [Hp|]; [|lia].
    destruct (lay_served _ Hp) as (i & sz & Hi & Hsz & Hle).
    destruct (Acquire_ok m used i sz Hinv Hsz ltac:(lia)) as (a & m1 & E & Hinv1 & Hfr & Hb).
    unfold table_at. rewrite (inv_table _ _ Hinv), Hi.
    destruct (Z.ltb_spec (size + SIZEOF_MemoryHeader) 0),
      (Z.ltb_spec MAX_ALLOC_SIZE (size + SIZEOF_MemoryHeader)); try lia. cbn [orb obind].
    rewrite E. cbn [obind].
    destruct (attach_ok m1 used a size sz Hinv1 Hfr Hb Hs (or_introl Hp) Hle)
      as (m' & -> & ?); eauto.
Qed.

(** A live allocation taken away: its block is in no pool and in no other. *)
Lemma inv_drop m used u :
  inv m (u :: used) ->
  inv m used /\ (header_of u ∉ pooled m ++ map header_of used) /\ live_block m u.
Proof.
  intros [Ht Hh Hsz Hc Hnd Hf Hl]. simpl in Hnd.
  rewrite <- Permutation_middle in Hnd. apply NoDup_cons in Hnd as [Hu Hnd].
  apply Forall_cons in Hl as [Hl1 Hl2]. split_and!; [split|done..]; done.
Qed.

Lemma free_big_ok m used u :
  inv m (u :: used) -> inv (free_big (header_of u) m) used.
Proof.
  intros Hinv. destruct (inv_drop m used u Hinv) as ([Ht Hh Hsz Hc Hnd Hf Hl] & Hu & Hlive).
  destruct Hlive as (_ & _ & _ & n & Hn & _).
  destruct (ah_free_ok (header_of u) (cheap m) Hh (mk_is_Some _ _ Hn)) as [Hok Hb].
  split; [done|exact Hok|done..| |]; simpl; unfold free_big; simpl.
  - intros i p a Hp Ha. rewrite Hb, lookup_delete_ne; [eauto|].
    intros <-. apply Hu, elem_of_app. left. apply list_elem_of_In, in_concat.
    exists (free_of p). split; [|by apply list_elem_of_In].
    apply list_elem_of_In, list_elem_of_fmap. exists p. split; [done|].
    by eapply list_elem_of_lookup_2.
  - apply Forall_forall. intros v Hv. rewrite Forall_forall in Hl.
    destruct (Hl v Hv) as (? & ? & ? & k & ? & ?). split_and!; [done..|].
    exists k. simpl. rewrite Hb, lookup_delete_ne; [done|].
    intros E. apply Hu, elem_of_app. right. apply list_elem_of_fmap. eauto.
Qed.

Lemma PoolRelease_ok m used u i n :
  inv m (u :: used) -> sizes lay !! i = Some n ->
  ah_blocks (cheap m) !! header_of u = Some n ->
  exists p m', _pools m !! i = Some p /\ PoolRelease i (header_of u) m = Ret m' /\
    inv m' used.
Proof.
  intros Hinv Hi Hn. destruct (inv_drop m used u Hinv) as (Hinv1 & Hu & _).
  destruct (inv_pool m used i n Hinv1 Hi) as (p & Hp & <-).
  unfold PoolRelease. rewrite Hp. eexists p, _. split; [done|]. split; [reflexivity|].
  assert (Hna : header_of u ∉ map header_of used) by (intros ?; apply Hu, elem_of_app; auto).
  pose proof (inv_set_hdr m used (header_of u) 0 Hinv1 Hna) as Hinv2.
  apply (inv_set_pool _ used i p _ Hinv2 Hp); [done|..]; unfold free_of; simpl;
    rewrite ?sl_push_items.
  - rewrite (inv_count_at m used i p Hinv1 Hp), u32_succ. f_equal.
    unfold free_of, zlen. simpl. lia.
  - constructor; [|exact (inv_nodup_at m used i p Hinv1 Hp)].
    intros Hin. apply Hu. unfold pooled. rewrite (concat_others free_of i _ p Hp).
    by rewrite <- app_assoc.
  - intros a [->|Ha]%elem_of_cons; [done|]. exact (inv_free _ _ Hinv1 i p a Hp Ha).
Qed.

Lemma Release_ok m used k p size :
  inv m used -> used !! k = Some (p, size) ->
  exists m', Release p m = Ret m' /\ inv m' (delete k used).
Proof.
  intros Hinv Hk. rewrite (delete_Permutation used k _ Hk) in Hinv.
  set (u := (p, size)) in *. set (used' := delete k used) in *.
  destruct (inv_drop m used' u Hinv) as (_ & _ & Hs & Hserv & Hhdr & n & Hn & Hle & Hpool).
  unfold Release. change (DetachHeader p) with (header_of u). rewrite Hhdr, Z.gtb_ltb.
  destruct (Z.ltb_spec MAX_ALLOC_SIZE (total_of u)) as [Hbig|Hsmall].
  { eexists. split; [reflexivity|]. by apply free_big_ok. }
  destruct (Hpool Hsmall) as (i & Hi & Hsz).
  pose proof SIZEOF_MemoryHeader_bounds as Hh.
  unfold table_at. rewrite (inv_table _ _ Hinv), Hi.
  assert (0 <= total_of u) by (unfold total_of; lia).
  destruct (Z.ltb_spec (total_of u) 0), (Z.ltb_spec MAX_ALLOC_SIZE (total_of u)); try lia.
  cbn [orb obind].
  destruct (PoolRelease_ok m used' u i n Hinv Hsz Hn) as (q & m' & _ & -> & ?). eauto.
Qed.

(** Requests the allocator serves; frees of live allocations. *)
Definition op_ok (o : mop) : Prop :=
  match o with
  | MAlloc size => 0 <= size /\ served (size + SIZEOF_MemoryHeader)
  | MFree _ => True
  end.

Lemma apply_mops_ok os m used :
  inv m used -> Forall op_ok os ->
  exists m' used', apply_mops os (m, used) = Ret (m', used') /\ inv m' used'.
Proof.
  intros Hinv Hos. revert m used Hinv. induction Hos as [|o os Ho Hos IH]; intros m used Hinv.
  { eauto. }
  cbn [apply_mops]. destruct o as [size|k]; cbn [apply_mop].
  - destruct Ho as [Hs Hserv].
    destruct (Allocate_ok m used size Hinv Hs Hserv) as (a & m' & -> & Hinv').
    cbn [obind]. by apply IH.
  - destruct (used !! k) as [[p size]|] eqn:Hk; [|cbn [obind]; by apply IH].
    destruct (Release_ok m used k p size Hinv Hk) as (m' & -> & Hinv').
    cbn [obind]. by apply IH.
Qed.

(** Live allocations under the invariant. *)
Lemma inv_disjoint m used j k p1 s1 p2 s2 :
  inv m used -> j <> k -> used !! j = Some (p1, s1) -> used !! k = Some (p2, s2) ->
  p1 + s1 <= p2 - SIZEOF_MemoryHeader \/ p2 + s2 <= p1 - SIZEOF_MemoryHeader.
Proof.
  intros Hinv Hjk Hj Hk. pose proof Hinv as [_ Hh _ _ Hnd _ Hl].
  rewrite Forall_lookup in Hl.
  destruct (Hl _ _ Hj) as (_ & _ & _ & n1 & Hn1 & Hle1 & _).
  destruct (Hl _ _ Hk) as (_ & _ & _ & n2 & Hn2 & Hle2 & _).
  apply NoDup_app in Hnd as (_ & _ & Hnd).
  assert (Hne : header_of (p1, s1) <> header_of (p2, s2)).
  { intros E. apply Hjk. eapply NoDup_lookup; [exact Hnd| |].
    - change (map ?f ?l) with (f <$> l). rewrite list_lookup_fmap, Hj. simpl. by rewrite E.
    - change (map ?f ?l) with (f <$> l). by rewrite list_lookup_fmap, Hk. }
  destruct (ah_disjoint _ _ _ _ _ Hh Hn1 Hn2 Hne); unfold header_of, total_of in *; simpl in *; lia.
Qed.
(** A released block is on top of its pool. *)
Lemma release_allocate_ok m used k p size size' :
  inv m used -> used !! k = Some (p, size) ->
  0 <= size' -> size + SIZEOF_MemoryHeader <= MAX_ALLOC_SIZE ->
  _poolTable lay !! (size' + SIZEOF_MemoryHeader) =
    _poolTable lay !! (size + SIZEOF_MemoryHeader) ->
  size' + SIZEOF_MemoryHeader <= MAX_ALLOC_SIZE ->
  exists m1 m2, Release p m = Ret m1 /\ Allocate size' m1 = Ret (p, m2) /\
    cheap m2 = cheap m.
Proof.
  intros Hinv Hk Hs' Hle Htab Hle'.
  rewrite (delete_Permutation used k _ Hk) in Hinv.
  set (u := (p, size)) in *. set (used' := delete k used) in *.
  destruct (inv_drop m used' u Hinv) as (_ & _ & Hs & Hserv & Hhdr & n & Hn & _ & Hpool).
  destruct (Hpool Hle) as (i & Hi & Hsz).
  destruct (PoolRelease_ok m used' u i n Hinv Hsz Hn) as (q & m1 & Hq & Em1 & Hinv1).
  pose proof SIZEOF_MemoryHeader_bounds as Hh.
  assert (Ht0 : 0 <= total_of u <= MAX_ALLOC_SIZE) by (split; [unfold u, total_of in *; simpl in *; lia|exact Hle]).
  assert (Ha0 : header_of u <> 0) by (eapply ah_nonnull; [apply (inv_heap _ _ Hinv)|exact Hn]).
  assert (Hat : forall t m', 0 <= t <= MAX_ALLOC_SIZE -> table m' = _poolTable lay ->
     _poolTable lay !! t = Some i -> table_at t m' = (Ret i : outcome nat)).
  { intros t m' Ht Hm Hti. unfold table_at. rewrite Hm, Hti.
    destruct (Z.ltb_spec t 0), (Z.ltb_spec MAX_ALLOC_SIZE t); try lia. done. }
  exists m1.
  assert (Er : Release p m = Ret m1).
  { unfold Release. change (DetachHeader p) with (header_of u). rewrite Hhdr, Z.gtb_ltb.
    destruct (Z.ltb_spec MAX_ALLOC_SIZE (total_of u)); [lia|].
    rewrite (Hat _ _ Ht0 (inv_table _ _ Hinv) Hi). cbn [obind]. exact Em1. }
  rewrite Er. unfold Allocate. unfold MAX_ALLOC_SIZE in *.
  rewrite (u64_small (size' + _)) by lia. rewrite s32_small, Z.gtb_ltb by lia.
  destruct (Z.ltb_spec 8192 (size' + SIZEOF_MemoryHeader)); [lia|].
  assert (Ht1 : 0 <= size' + SIZEOF_MemoryHeader <= 8192) by lia.
  rewrite (Hat _ _ Ht1 (inv_table _ _ Hinv1) (eq_trans Htab Hi)).
  cbn [obind]. unfold PoolRelease in Em1. rewrite Hq in Em1.
  injection Em1 as <-. unfold Acquire. simpl.
  pose proof (lookup_lt_Some _ _ _ Hq) as Hlt. rewrite list_lookup_insert_eq by done. simpl.
  destruct (sl_pop_items (InterlockedPushEntrySList (header_of u) (_header q))) as [Hp1 _].
  rewrite sl_push_items in Hp1. simpl in Hp1.
  destruct (InterlockedPopEntrySList _) as [e l]. simpl in Hp1. subst e. simpl.
  unfold AttachHeader. destruct (Z.eqb_spec (header_of u) 0); [done|].
  replace (header_of u + SIZEOF_MemoryHeader) with p by (unfold header_of; simpl; lia).
  eexists. split; [done|]. split; reflexivity.
Qed.

End Runs.

(** ** The properties *)
Section Theorems.
Context {H L : Type} `{!AlignedHeap H} `{!SListOps L} `{!Platform}.

Lemma Memory_new_inv (h : H) :
  ah_ok h -> exists m : mem H L, Memory_new h = Ret m /\ inv the_layout m [].
Proof.
  intros Hh. unfold Memory_new. rewrite init_layout_eq. cbn [obind].
  generalize the_layout. intros lay.
  eexists. split; [reflexivity|].
  assert (Hnil : forall l, concat (map free_of (map (new_pool (L := L)) l)) = []).
  { induction l as [|x l IH]; [done|]. simpl. rewrite IH. unfold free_of. simpl.
    by rewrite sl_init_items. }
  split; simpl; [reflexivity|done| | | | |constructor].
  - rewrite map_map. apply map_id.
  - apply Forall_forall. intros p (s & -> & _)%list_elem_of_fmap.
    unfold free_of. simpl. by rewrite sl_init_items.
  - unfold pooled. simpl. rewrite Hnil. constructor.
  - intros i p a Hp. change (map ?f ?l) with (f <$> l) in Hp.
    apply list_lookup_fmap_Some in Hp as (s & -> & _).
    unfold free_of. simpl. rewrite sl_init_items. by intros []%elem_of_nil.
Qed.

(** C7: whatever sequence of Allocate and Release calls is made, from the
    constructor's state, with sizes the table serves and frees of live
    allocations, every call succeeds, and live allocations with their headers
    never overlap and lie inside live C blocks. *)
Theorem allocations_disjoint (h : H) (os : list mop) :
  (forall n al (h : H), ah_ok h -> 0 <= n -> is_Some (aligned_malloc n al h)) ->
  ah_ok h -> Forall op_ok os ->
  exists (m0 : mem H L) m used, Memory_new h = Ret m0 /\
    apply_mops os (m0, []) = Ret (m, used) /\
    (forall j k p1 s1 p2 s2, j <> k ->
       used !! j = Some (p1, s1) -> used !! k = Some (p2, s2) ->
       p1 + s1 <= p2 - SIZEOF_MemoryHeader \/ p2 + s2 <= p1 - SIZEOF_MemoryHeader) /\
    (forall k p s, used !! k = Some (p, s) -> exists n,
       ah_blocks (cheap m) !! (p - SIZEOF_MemoryHeader) = Some n /\
       s + SIZEOF_MemoryHeader <= n).
Proof.
  intros Hmem Hh Hos. destruct (Memory_new_inv h Hh) as (m0 & E0 & Hinv0).
  destruct (apply_mops_ok the_layout served_pool Hmem os m0 [] Hinv0 Hos)
    as (m & used & E & Hinv).
  exists m0, m, used. split_and!; [done|done| |].
  - intros j k p1 s1 p2 s2. exact (inv_disjoint _ m used j k p1 s1 p2 s2 Hinv).
  - intros k p s Hk. pose proof (inv_live _ _ _ Hinv) as Hl. rewrite Forall_lookup in Hl.
    destruct (Hl _ _ Hk) as (_ & _ & _ & n & Hn & Hle & _). eauto.
Qed.

(** A block released to the allocator is the one the next Allocate of a size
    of the same table entry returns, without touching the C heap. *)
Theorem release_then_allocate_reuses (m : mem H L) used k p size size' :
  inv the_layout m used -> used !! k = Some (p, size) ->
  0 <= size' -> size + SIZEOF_MemoryHeader <= MAX_ALLOC_SIZE ->
  _poolTable the_layout !! (size' + SIZEOF_MemoryHeader) =
    _poolTable the_layout !! (size + SIZEOF_MemoryHeader) ->
  size' + SIZEOF_MemoryHeader <= MAX_ALLOC_SIZE ->
  exists m1 m2, Release p m = Ret m1 /\ Allocate size' m1 = Ret (p, m2) /\
    cheap m2 = cheap m.
Proof. apply release_allocate_ok. Qed.

(** A request whose total size is between 7713 and 8192 bytes reads an entry
    of [_poolTable] that the constructor never wrote. *)
Theorem allocate_reads_unwritten_entry (h : H) (size : Z) :
  7712 < size + SIZEOF_MemoryHeader <= MAX_ALLOC_SIZE ->
  (let! m := Memory_new (L := L) h in Allocate size m) = Fault Uninitialised.
Proof.
  intros Hs. pose proof SIZEOF_MemoryHeader_bounds as Hh.
  unfold Memory_new. rewrite init_layout_eq. cbn [obind].
  unfold Allocate. unfold MAX_ALLOC_SIZE in *. rewrite (u64_small (size + _)) by lia.
  rewrite s32_small, Z.gtb_ltb by lia.
  destruct (Z.ltb_spec 8192 (size + SIZEOF_MemoryHeader)); [lia|].
  unfold table_at. cbn [table].
  assert (Hr : 0 <= size + SIZEOF_MemoryHeader <= MAX_ALLOC_SIZE)
    by (unfold MAX_ALLOC_SIZE; lia).
  pose proof (table_entry_all _ Hr) as E.
  apply table_entry_ok_spec in E. revert E. generalize the_layout. intros lay E.
  unfold MAX_ALLOC_SIZE. destruct (_poolTable lay !! _); [lia|].
  destruct (Z.ltb_spec (size + SIZEOF_MemoryHeader) 0),
    (Z.ltb_spec 8192 (size + SIZEOF_MemoryHeader)); try lia. reflexivity.
Qed.
End Theorems.

(** ** Instances: a stack as a list, a heap that never reuses addresses, and the
    layout of 64-bit Windows ([SLIST_ENTRY] is 16 bytes, aligned to 16). *)
#[global] Instance list_SList : SListOps (list Z).
Proof.
  refine {| sl_items l := l; InitializeSListHead := [];
            InterlockedPushEntrySList a l := a :: l;
            InterlockedPopEntrySList l := (head l, tail l) |}; done.
Defined.

Record bump := mk_bump { next : Z; blocks : gmap Z Z }.
Definition bump_ok (h : bump) : Prop :=
  0 < next h /\
  (forall a n, blocks h !! a = Some n -> 0 < a < next h /\ a + n <= next h) /\
  (forall a n b k, blocks h !! a = Some n -> blocks h !! b = Some k -> a <> b ->
     a + n <= b \/ b + k <= a).
Definition bump_malloc (n al : Z) (h : bump) : option (Z * bump) :=
  Some (next h, mk_bump (next h + (Z.max n 0 / 16 + 1) * 16) (<[next h := n]> (blocks h))).
Definition bump_free (a : Z) (h : bump) : bump := mk_bump (next h) (delete a (blocks h)).

Lemma bump_malloc_ok n al h a h' :
  bump_ok h -> bump_malloc n al h = Some (a, h') ->
  bump_ok h' /\ blocks h !! a = None /\ blocks h' = <[a := n]> (blocks h).
Proof.
  intros (Hpos & Hin & Hdis) [= <- <-].
  pose proof (Z.div_mod (Z.max n 0) 16 ltac:(lia)) as Hd.
  pose proof (Z.mod_pos_bound (Z.max n 0) 16 ltac:(lia)) as Hm.
  assert (Hnone : blocks h !! next h = None).
  { destruct (blocks h !! next h) eqn:E; [|done]. apply Hin in E. lia. }
  split_and!; [|done|done]. split; [simpl; lia|]. split; simpl.
  - intros a k. rewrite lookup_insert_Some. intros [[<- <-]|[_ E]]; [lia|].
    apply Hin in E. lia.
  - intros a k b j. rewrite !lookup_insert_Some.
    intros [[<- <-]|[_ E1]] [[<- <-]|[_ E2]] Hne; [done| | |eauto].
    + apply Hin in E2. lia.
    + apply Hin in E1. lia.
Qed.

Lemma bump_free_ok a h :
  bump_ok h -> is_Some (blocks h !! a) ->
  bump_ok (bump_free a h) /\ blocks (bump_free a h) = delete a (blocks h).
Proof.
  intros (Hpos & Hin & Hdis) _. split; [|done]. split; [done|]. split; simpl.
  - intros b n [_ E]%lookup_delete_Some. eauto.
  - intros b n c k [_ E1]%lookup_delete_Some [_ E2]%lookup_delete_Some. eauto.
Qed.

#[global] Instance bump_heap : AlignedHeap bump.
Proof.
  refine {| ah_ok := bump_ok; ah_blocks := blocks; aligned_malloc := bump_malloc;
            aligned_free := bump_free; ah_malloc_ok := bump_malloc_ok;
            ah_free_ok := bump_free_ok |}.
  - intros h a n (_ & Hin & _) E. apply Hin in E. lia.
  - intros h a n b k (_ & _ & Hdis). apply Hdis.
Defined.

#[global] Instance x64 : Platform.
Proof. refine {| MEMORY_ALLOCATION_ALIGNMENT := 16; SIZEOF_MemoryHeader := 32 |}. lia. Defined.

Definition heap0 : bump := mk_bump 16 ∅.
Lemma heap0_ok : ah_ok heap0.
Proof. split; [simpl; lia|]. split; simpl; intros *; rewrite lookup_empty; discriminate. Qed.
Lemma bump_total : forall n al (h : bump), ah_ok h -> 0 <= n -> is_Some (aligned_malloc n al h).
Proof. intros. eexists. reflexivity. Qed.

(** Two small blocks, a free, a reuse and a big block. *)
Definition sample_ops : list mop :=
  [MAlloc 100; MAlloc 100; MFree 0; MAlloc 110; MAlloc 10000].
Lemma sample_ops_ok : Forall op_ok sample_ops.
Proof.
  repeat constructor; cbn; unfold served, MAX_ALLOC_SIZE, INT_MAX; lia.
Qed.

Lemma allocations_disjoint_witness :
  exists (m0 : mem bump (list Z)) m used, Memory_new heap0 = Ret m0 /\
    apply_mops sample_ops (m0, []) = Ret (m, used) /\
    (forall j k p1 s1 p2 s2, j <> k ->
       used !! j = Some (p1, s1) -> used !! k = Some (p2, s2) ->
       p1 + s1 <= p2 - SIZEOF_MemoryHeader \/ p2 + s2 <= p1 - SIZEOF_MemoryHeader) /\
    (forall k p s, used !! k = Some (p, s) -> exists n,
       ah_blocks (cheap m) !! (p - SIZEOF_MemoryHeader) = Some n /\
       s + SIZEOF_MemoryHeader <= n).
Proof.
  apply (allocations_disjoint heap0 sample_ops bump_total heap0_ok sample_ops_ok).
Defined.

Lemma release_then_allocate_reuses_witness :
  exists (m0 m : mem bump (list Z)) p, Memory_new heap0 = Ret m0 /\
    Allocate 100 m0 = Ret (p, m) /\
    exists m1 m2, Release p m = Ret m1 /\ Allocate 110 m1 = Ret (p, m2) /\
      cheap m2 = cheap m.
Proof.
  destruct (Memory_new_inv (L := list Z) heap0 heap0_ok) as (m0 & E0 & Hinv0).
  destruct (Allocate_ok the_layout served_pool bump_total m0 [] 100 Hinv0 ltac:(lia)
    ltac:(left; cbn; lia)) as (a & m & E & Hinv).
  exists m0, m, (a + SIZEOF_MemoryHeader). split; [exact E0|]. split; [exact E|].
  refine (release_then_allocate_reuses m _ 0 _ 100 110 Hinv eq_refl _ _ _ _);
    [lia|cbn; unfold MAX_ALLOC_SIZE; lia|vm_compute; reflexivity|cbn; unfold MAX_ALLOC_SIZE; lia].
Defined.

Lemma allocate_reads_unwritten_entry_witness :
  (let! m := Memory_new (L := list Z) heap0 in Allocate 8000 m) = Fault Uninitialised.
Proof. apply allocate_reads_unwritten_entry. cbn. unfold MAX_ALLOC_SIZE. lia. Defined.
End Memory.
