(* ===== verification/ObjectPool.v ===== *)
(** ObjectPool.h: the objects of one type, whose blocks come from a [MemoryPool] of
    their own, and the shared pointers that [make_shared] gives out. *)
From S2P Require Import Prelude ErrorHandler Memory.
#[local] Open Scope Z_scope.

Module ObjectPool.
Section ObjectPool.
Context {H L T : Type} `{!AlignedHeap H} `{!SListOps L} `{!Platform}.
(** [s_pool] is the pool number [s_pool]; [sizeof_Type] is [sizeof(Type)]. *)
Variables (s_pool : nat) (sizeof_Type : Z).

Definition s_allocSize : Z := s32 (u64 (sizeof_Type + SIZEOF_MemoryHeader)).

(** The memory, the objects that are alive and the counts of their shared pointers. *)
Record t := mk { memory : Memory.mem H L; objects : gmap Z T; uses : gmap Z nat }.

(** [Acquire(args...)]; [v] is what the constructor makes. *)
Definition Acquire (v : T) (s : t) : outcome (Z * t) :=
  let! (header, m) := Memory.Acquire s_pool (memory s) in
  let! (ptr, m) := Memory.AttachHeader header s_allocSize m in
  Ret (ptr, mk m (<[ptr := v]> (objects s)) (uses s)).

(** [Release(obj)]: the destructor runs on an object that is alive. *)
Definition Release (obj : Z) (s : t) : outcome t :=
  match objects s !! obj with
  | None => Fault Dangling
  | Some _ =>
      let! m := Memory.PoolRelease s_pool (Memory.DetachHeader obj) (memory s) in
      Ret (mk m (delete obj (objects s)) (uses s))
  end.

(** [make_shared(args...)]: a shared pointer with the deleter [Release]. *)
Definition make_shared (v : T) (s : t) : outcome (Z * t) :=
  let! (p, s) := Acquire v s in
  Ret (p, mk (memory s) (objects s) (<[p := 1%nat]> (uses s))).
(** A copy of a shared pointer, and the end of one. *)
Definition copy (p : Z) (s : t) : outcome t :=
  match uses s !! p with
  | None => Fault Dangling
  | Some n => Ret (mk (memory s) (objects s) (<[p := S n]> (uses s)))
  end.
Definition reset (p : Z) (s : t) : outcome t :=
  match uses s !! p with
  | Some (S O) => Release p (mk (memory s) (objects s) (delete p (uses s)))
  | Some (S n) => Ret (mk (memory s) (objects s) (<[p := n]> (uses s)))
  | _ => Fault Dangling
  end.

Definition poolCount (s : t) : option Z := Memory._poolCount <$> Memory._pools (memory s) !! s_pool.
Definition useCount (s : t) : option Z := Memory._useCount <$> Memory._pools (memory s) !! s_pool.

(** ** Uses: [held] are the shared pointers of the program. *)
Inductive op := Make (v : T) | Copy (k : nat) | Reset (k : nat).
Definition apply_op (o : op) (st : t * list Z) : outcome (t * list Z) :=
  let '(s, held) := st in
  match o with
  | Make v => let! (p, s) := make_shared v s in Ret (s, p :: held)
  | Copy k =>
      match held !! k with
      | None => Ret (s, held)
      | Some p => let! s := copy p s in Ret (s, p :: held)
      end
  | Reset k =>
      match held !! k with
      | None => Ret (s, held)
      | Some p => let! s := reset p s in Ret (s, delete k held)
      end
  end.
Fixpoint apply_ops (os : list op) (st : t * list Z) : outcome (t * list Z) :=
  match os with [] => Ret st | o :: os => let! st := apply_op o st in apply_ops os st end.

(** ** The invariant *)
Hypothesis sizeof_bounds : 0 < sizeof_Type /\ sizeof_Type + SIZEOF_MemoryHeader <= INT_MAX.
Hypothesis heap_total : forall n al (h : H), ah_ok h -> 0 <= n ->
  is_Some (aligned_malloc n al h).
(** The blocks of the rest of the program. *)
Variable foreign : gmap Z Z.

Lemma s_allocSize_eq : s_allocSize = sizeof_Type + SIZEOF_MemoryHeader.
Proof.
  pose proof SIZEOF_MemoryHeader_bounds. unfold s_allocSize, INT_MAX in *.
  rewrite u64_small, s32_small; lia.
Qed.

(** A block of this pool. *)
Definition block (h : H) (a : Z) : Prop :=
  ah_blocks h !! a = Some s_allocSize /\ foreign !! a = None.

Record blocks_ok (s : t) (p : Memory.pool L) : Prop := {
  bo_pool : Memory._pools (memory s) !! s_pool = Some p;
  bo_size : Memory._allocSize p = s_allocSize;
  bo_heap : ah_ok (Memory.cheap (memory s));
  bo_nodup : NoDup (Memory.free_of p);
  bo_free a : a ∈ Memory.free_of p ->
    block (Memory.cheap (memory s)) a /\ objects s !! (a + SIZEOF_MemoryHeader) = None;
  bo_objects q : is_Some (objects s !! q) ->
    block (Memory.cheap (memory s)) (q - SIZEOF_MemoryHeader);
  bo_foreign : foreign ⊆ ah_blocks (Memory.cheap (memory s));
  bo_poolCount : Memory._poolCount p = u32 (zlen (Memory.free_of p));
  bo_useCount : Memory._useCount p = u32 (Z.of_nat (size (objects s)));
}.
Definition counted (s : t) (held : list Z) : Prop := forall p,
  uses s !! p = (match count_occ Z.eq_dec held p with O => None | n => Some n end) /\
  (is_Some (objects s !! p) <-> In p held).
Lemma set_pool_lookup i (q : Memory.pool L) (m : Memory.mem H L) p :
  Memory._pools m !! i = Some p -> Memory._pools (Memory.set_pool i q m) !! i = Some q.
Proof. intros Hi. simpl. apply list_lookup_insert_eq. by apply lookup_lt_Some in Hi. Qed.

(** The block [a] leaves the free list [a :: l] and becomes an object. *)
Lemma object_made (s : t) (m : Memory.mem H L) l a v (p : Memory.pool L) n :
  Memory._pools m !! s_pool = Some (Memory.mk_pool l s_allocSize
    (u32 (Memory._useCount p + 1)) n) ->
  n = u32 (zlen (sl_items l)) ->
  Memory._useCount p = u32 (Z.of_nat (size (objects s))) ->
  ah_ok (Memory.cheap m) -> NoDup (a :: sl_items l) ->
  (forall b, b ∈ a :: sl_items l ->
     block (Memory.cheap m) b /\ objects s !! (b + SIZEOF_MemoryHeader) = None) ->
  (forall q, is_Some (objects s !! q) -> block (Memory.cheap m) (q - SIZEOF_MemoryHeader)) ->
  foreign ⊆ ah_blocks (Memory.cheap m) ->
  exists p', blocks_ok (mk m (<[a + SIZEOF_MemoryHeader := v]> (objects s)) (uses s)) p'.
Proof.
  intros Hp Hn Huse Hh Hnd Hfree Hobj Hfor. apply NoDup_cons in Hnd as [Ha Hnd].
  destruct (Hfree a ltac:(by constructor)) as [Hba Hna].
  eexists. split; cbn [memory objects]; try done.
  - intros b Hb. unfold Memory.free_of in Hb. simpl in Hb.
    destruct (Hfree b ltac:(by constructor)) as [Hbb Hnb]. split; [done|].
    rewrite lookup_insert_ne; [done|]. intros E. apply Ha. by replace a with b by lia.
  - intros q [<-|Hq]%lookup_insert_is_Some'; [|by apply Hobj].
    by replace (a + SIZEOF_MemoryHeader - SIZEOF_MemoryHeader) with a by lia.
  - simpl. rewrite Huse, map_size_insert_None by done. rewrite Memory.u32_succ. f_equal. lia.
Qed.

(** What a new block of the heap is. *)
Lemma fresh_block s p a al h :
  blocks_ok s p -> aligned_malloc (Memory._allocSize p) al (Memory.cheap (memory s)) = Some (a, h) ->
  ah_ok h /\ a <> 0 /\ block h a /\ objects s !! (a + SIZEOF_MemoryHeader) = None /\
  (forall b, block (Memory.cheap (memory s)) b -> block h b) /\ foreign ⊆ ah_blocks h.
Proof.
  intros Hs E. destruct (ah_malloc_ok _ _ _ _ _ (bo_heap _ _ Hs) E) as (Hok & Hnone & Hblk).
  rewrite (bo_size _ _ Hs) in Hblk.
  assert (Hkeep : forall c x, ah_blocks (Memory.cheap (memory s)) !! c = Some x ->
    ah_blocks h !! c = Some x).
  { intros c x Hc. rewrite Hblk, lookup_insert_ne; [done|]. intros ->. by rewrite Hnone in Hc. }
  assert (Ha : ah_blocks h !! a = Some s_allocSize) by (rewrite Hblk; apply lookup_insert_eq).
  split_and!; [done|exact (ah_nonnull h a _ Hok Ha)| | | |].
  - split; [done|]. destruct (foreign !! a) eqn:Ef; [|done].
    by rewrite (lookup_weaken _ _ _ _ Ef (bo_foreign _ _ Hs)) in Hnone.
  - destruct (objects s !! _) eqn:Eo; [|done].
    destruct (bo_objects _ _ Hs _ (mk_is_Some _ _ Eo)) as [Hb _].
    replace (a + SIZEOF_MemoryHeader - SIZEOF_MemoryHeader) with a in Hb by lia.
    by rewrite Hnone in Hb.
  - intros b [Hb1 Hb2]. split; [by apply Hkeep|done].
  - apply map_subseteq_spec. intros c x Hc. apply Hkeep.
    exact (lookup_weaken _ _ _ _ Hc (bo_foreign _ _ Hs)).
Qed.

(** The end of [Acquire] with the block [a]: the premises of [object_made] remain. *)
Ltac with_block s a :=
  cbn [obind]; unfold Memory.AttachHeader; destruct (Z.eqb_spec a 0); [done|];
  cbn [obind]; edestruct (object_made s) as [p' Hp']; cycle -1;
  [ eexists _, _, p'; split; [reflexivity|]; split; [exact Hp'|]; done
  | simpl; rewrite list_lookup_insert_eq; [reflexivity|by eapply lookup_lt_Some] | .. ].

Lemma object_Acquire_ok s p v : blocks_ok s p ->
  exists ptr s' p', Acquire v s = Ret (ptr, s') /\ blocks_ok s' p' /\
    objects s !! ptr = None /\ objects s' = <[ptr := v]> (objects s) /\ uses s' = uses s.
Proof.
  intros Hs. destruct (sl_pop_items (Memory._header p)) as [Hh Ht].
  pose proof SIZEOF_MemoryHeader_bounds as Hsz. pose proof (bo_pool _ _ Hs) as Hpool.
  unfold Acquire, Memory.Acquire. rewrite Hpool.
  destruct (InterlockedPopEntrySList (Memory._header p)) as [entry l]. simpl in Hh, Ht.
  pose proof (bo_nodup _ _ Hs) as Hnd. pose proof (bo_free _ _ Hs) as Hfree.
  pose proof (bo_poolCount _ _ Hs) as Hpc. unfold Memory.free_of in Hnd, Hfree, Hpc.
  destruct (sl_items (Memory._header p)) as [|b tl] eqn:Eit; simpl in Hh, Ht; subst entry.
  - destruct (heap_total (Memory._allocSize p) MEMORY_ALLOCATION_ALIGNMENT
      (Memory.cheap (memory s)) (bo_heap _ _ Hs)) as [[a h] E];
      [rewrite (bo_size _ _ Hs), s_allocSize_eq; lia|].
    destruct (fresh_block s p a _ h Hs E) as (Hok & Ha0 & Hba & Hoa & Hkeep & Hfor).
    rewrite E, (bo_size _ _ Hs). with_block s a.
    + by rewrite Ht.
    + exact (bo_useCount _ _ Hs).
    + exact Hok.
    + rewrite Ht. apply NoDup_singleton.
    + rewrite Ht. by intros c ->%list_elem_of_singleton.
    + intros q Hq. exact (Hkeep _ (bo_objects _ _ Hs q Hq)).
    + exact Hfor.
  - destruct (Hfree b ltac:(by constructor)) as [[Hb Hbf] Hob].
    pose proof (ah_nonnull _ _ _ (bo_heap _ _ Hs) Hb) as Hb0.
    rewrite (bo_size _ _ Hs). with_block s b.
    + rewrite Hpc, Ht. change (u32 (u32 (zlen (b :: tl)) + -1) = u32 (zlen tl)).
      rewrite Memory.u32_succ. f_equal. unfold zlen. simpl. lia.
    + exact (bo_useCount _ _ Hs).
    + exact (bo_heap _ _ Hs).
    + by rewrite Ht.
    + rewrite Ht. exact Hfree.
    + exact (bo_objects _ _ Hs).
    + exact (bo_foreign _ _ Hs).
Qed.

Lemma object_Release_ok s p q : blocks_ok s p -> is_Some (objects s !! q) ->
  exists s' p', Release q s = Ret s' /\ blocks_ok s' p' /\
    objects s' = delete q (objects s) /\ uses s' = uses s.
Proof.
  intros Hs [x Hq]. pose proof (bo_pool _ _ Hs) as Hpool.
  unfold Release, Memory.PoolRelease. rewrite Hq, Hpool. cbn [obind].
  set (a := Memory.DetachHeader q).
  assert (Ea : a + SIZEOF_MemoryHeader = q) by (unfold a, Memory.DetachHeader; lia).
  assert (Hna : a ∉ Memory.free_of p).
  { intros Hin. destruct (bo_free _ _ Hs a Hin) as [_ Hn]. by rewrite Ea, Hq in Hn. }
  eexists _, _. split; [reflexivity|]. split; [|done].
  split; cbn [memory objects Memory.set_pool Memory._pools].
  - simpl. apply list_lookup_insert_eq. by eapply lookup_lt_Some.
  - exact (bo_size _ _ Hs).
  - exact (bo_heap _ _ Hs).
  - unfold Memory.free_of. simpl. rewrite sl_push_items. apply NoDup_cons.
    split; [exact Hna|exact (bo_nodup _ _ Hs)].
  - unfold Memory.free_of at 1. simpl. rewrite sl_push_items. intros b [->|Hb]%elem_of_cons.
    + rewrite Ea, lookup_delete_eq. split; [|done]. exact (bo_objects _ _ Hs q (mk_is_Some _ _ Hq)).
    + destruct (bo_free _ _ Hs b Hb) as [Hbb Hn]. split; [exact Hbb|].
      by apply lookup_delete_None; right.
  - intros r Hr. apply (bo_objects _ _ Hs). destruct Hr as [y Hr].
    apply lookup_delete_Some in Hr as [_ Hr]. eauto.
  - exact (bo_foreign _ _ Hs).
  - simpl. unfold Memory.free_of. simpl. rewrite sl_push_items, (bo_poolCount _ _ Hs), Memory.u32_succ.
    f_equal. unfold zlen, Memory.free_of. simpl. lia.
  - simpl. rewrite (bo_useCount _ _ Hs).
    change (u32 (u32 (Z.of_nat (size (objects s))) + -1) = u32 (Z.of_nat (size (delete q (objects s))))).
    rewrite Memory.u32_succ, (map_size_delete_Some _ _ (mk_is_Some _ _ Hq)). f_equal.
    assert (size (objects s) <> 0%nat) by (intros E%map_size_empty_inv; by rewrite E in Hq). lia.
Qed.
(** ** Shared pointers *)
Lemma counted_none s held q : counted s held -> objects s !! q = None -> count_occ Z.eq_dec held q = O.
Proof.
  intros Hc Hq. destruct (Hc q) as [_ Hin]. apply count_occ_not_In. intros Hi.
  apply Hin in Hi as [x Hx]. by rewrite Hq in Hx.
Qed.

Lemma make_shared_ok s p held v : blocks_ok s p -> counted s held ->
  exists ptr s' p', make_shared v s = Ret (ptr, s') /\ blocks_ok s' p' /\
    counted s' (ptr :: held).
Proof.
  intros Hs Hc. destruct (object_Acquire_ok s p v Hs) as (ptr & s' & p' & E & Hs' & Hno & Ho & Hu).
  exists ptr. unfold make_shared. rewrite E. cbn [obind]. eexists _, p'. split; [reflexivity|].
  split; [by destruct Hs'; split|]. intros q. cbn [uses objects]. rewrite Ho, Hu.
  destruct (Hc q) as [H1 H2]. simpl. destruct (Z.eq_dec ptr q) as [<-|Hne].
  - rewrite lookup_insert_eq, (counted_none s held ptr Hc Hno). split; [done|].
    split; [by left|]. intros _. by rewrite lookup_insert_eq.
  - rewrite !lookup_insert_ne by done. split; [done|]. rewrite H2. intuition.
Qed.

Lemma copy_ok s p held q : blocks_ok s p -> counted s held -> In q held ->
  exists s', copy q s = Ret s' /\ blocks_ok s' p /\ counted s' (q :: held).
Proof.
  intros Hs Hc Hq. destruct (Hc q) as [H1 H2]. unfold copy. rewrite H1.
  pose proof (proj1 (count_occ_In Z.eq_dec held q) Hq) as Hn.
  destruct (count_occ Z.eq_dec held q) as [|n] eqn:En; [lia|].
  eexists. split; [reflexivity|]. split; [by destruct Hs; split|]. intros r. cbn [uses objects].
  destruct (Hc r) as [H3 H4]. simpl. destruct (Z.eq_dec q r) as [<-|Hne].
  - rewrite lookup_insert_eq, En. split; [done|]. rewrite H2. intuition.
  - rewrite lookup_insert_ne by done. split; [done|]. rewrite H4. intuition.
Qed.

Lemma reset_ok s p held k q : blocks_ok s p -> counted s held -> held !! k = Some q ->
  exists s' p', reset q s = Ret s' /\ blocks_ok s' p' /\ counted s' (delete k held).
Proof.
  intros Hs Hc Hk. pose proof (delete_Permutation held k q Hk) as Hp.
  assert (Hcnt : forall r, count_occ Z.eq_dec held r = count_occ Z.eq_dec (q :: delete k held) r)
    by (intros r; by apply Permutation_count_occ).
  assert (Hin : forall r, In r held <-> r = q \/ In r (delete k held)).
  { intros r. etransitivity; [split; apply Permutation_in; [exact Hp|by symmetry]|].
    simpl. intuition. }
  destruct (Hc q) as [H1 H2]. rewrite Hcnt in H1. simpl in H1.
  destruct (Z.eq_dec q q) as [_|]; [|done]. unfold reset. rewrite H1.
  destruct (count_occ Z.eq_dec (delete k held) q) as [|n] eqn:En.
  - set (s1 := mk (memory s) (objects s) (delete q (uses s))).
    destruct (object_Release_ok s1 p q) as (s' & p' & E & Hs' & Ho & Hu);
      [by destruct Hs; split|apply H2, Hin; by left|].
    exists s', p'. split; [exact E|]. split; [exact Hs'|]. intros r. rewrite Ho, Hu. unfold s1.
    cbn [objects uses]. destruct (Hc r) as [H3 H4]. rewrite Hcnt in H3. cbn [count_occ] in H3.
    destruct (Z.eq_dec q r) as [<-|Hne].
    + rewrite !lookup_delete_eq, En. split; [done|]. apply count_occ_not_In in En.
      split; [by intros [? ?]|done].
    + rewrite !lookup_delete_ne by done. split; [done|]. rewrite H4, Hin. intuition congruence.
  - eexists _, p. split; [reflexivity|]. split; [by destruct Hs; split|]. intros r.
    cbn [uses objects]. destruct (Hc r) as [H3 H4]. rewrite Hcnt in H3. cbn [count_occ] in H3.
    destruct (Z.eq_dec q r) as [<-|Hne].
    + rewrite lookup_insert_eq, En. split; [done|]. rewrite H4, Hin.
      assert (In q (delete k held)) by (apply (count_occ_In Z.eq_dec); lia). intuition.
    + rewrite lookup_insert_ne by done. split; [done|]. rewrite H4, Hin. intuition congruence.
Qed.

Lemma apply_ops_ok os : forall s p held, blocks_ok s p -> counted s held ->
  exists s' held' p', apply_ops os (s, held) = Ret (s', held') /\ blocks_ok s' p' /\
    counted s' held'.
Proof.
  induction os as [|o os IH]; intros s p held Hs Hc; [by exists s, held, p|].
  cbn [apply_ops]. destruct o as [v|k|k]; cbn [apply_op].
  - destruct (make_shared_ok s p held v Hs Hc) as (ptr & s' & p' & -> & Hs' & Hc').
    exact (IH s' p' _ Hs' Hc').
  - destruct (held !! k) as [q|] eqn:Hk; [|exact (IH s p held Hs Hc)].
    assert (Hq : In q held) by (apply list_elem_of_In; by eapply list_elem_of_lookup_2).
    destruct (copy_ok s p held q Hs Hc Hq) as (s' & -> & Hs' & Hc'). exact (IH s' p _ Hs' Hc').
  - destruct (held !! k) as [q|] eqn:Hk; [|exact (IH s p held Hs Hc)].
    destruct (reset_ok s p held k q Hs Hc Hk) as (s' & p' & -> & Hs' & Hc').
    exact (IH s' p' _ Hs' Hc').
Qed.

Lemma blocks_apart s p q n b : blocks_ok s p -> is_Some (objects s !! q) ->
  ah_blocks (Memory.cheap (memory s)) !! b = Some n -> b <> q - SIZEOF_MemoryHeader ->
  q + sizeof_Type <= b \/ b + n <= q - SIZEOF_MemoryHeader.
Proof.
  intros Hs Hq Hb Hne. destruct (bo_objects _ _ Hs q Hq) as [Ha _].
  destruct (ah_disjoint _ _ _ _ _ (bo_heap _ _ Hs) Ha Hb ltac:(done)); [left|right; lia].
  rewrite s_allocSize_eq in *. lia.
Qed.

(** C19: whatever objects are made and whatever shared pointers are copied and given up,
    no operation fails; an object is alive exactly as long as a shared pointer to it
    exists; the objects with their headers do not overlap each other or any block of
    the rest of the program; and the use count of the pool is the number of objects. *)
Theorem object_pool_invariant os (m : Memory.mem H L) :
  Memory._pools m !! s_pool = Some (Memory.new_pool s_allocSize) ->
  ah_ok (Memory.cheap m) -> ah_blocks (Memory.cheap m) = foreign ->
  exists s held, apply_ops os (mk m ∅ ∅, []) = Ret (s, held) /\
    (forall q, is_Some (objects s !! q) <-> In q held) /\
    (forall q r, In q held -> In r held -> q <> r ->
       q + sizeof_Type <= r - SIZEOF_MemoryHeader \/ r + sizeof_Type <= q - SIZEOF_MemoryHeader) /\
    (forall q b n, In q held -> foreign !! b = Some n ->
       q + sizeof_Type <= b \/ b + n <= q - SIZEOF_MemoryHeader) /\
    useCount s = Some (u32 (Z.of_nat (size (objects s)))).
Proof.
  intros Hp Hok Hf. destruct (apply_ops_ok os (mk m ∅ ∅) (Memory.new_pool s_allocSize) [])
    as (s & held & p & E & Hs & Hc).
  - split; cbn [memory objects]; rewrite ?Hf; try done; unfold Memory.free_of; simpl;
      rewrite ?sl_init_items; try done; [constructor|set_solver|intros q [? Hq]; by rewrite lookup_empty in Hq].
  - intros q. cbn [uses objects]. rewrite !lookup_empty. split; [done|]. split; [by intros [? ?]|done].
  - exists s, held. split; [exact E|]. split_and!.
    + intros q. apply (Hc q).
    + intros q r Hq%Hc Hr%Hc Hne. destruct (bo_objects _ _ Hs r Hr) as [Hb _].
      destruct (blocks_apart s p q _ _ Hs Hq Hb ltac:(lia)); [by left|right].
      rewrite s_allocSize_eq in *. lia.
    + intros q b n Hq%Hc Hb. destruct (bo_objects _ _ Hs q Hq) as [_ Hnf].
      apply (blocks_apart s p q n b Hs Hq);
        [exact (lookup_weaken _ _ _ _ Hb (bo_foreign _ _ Hs))|intros ->; by rewrite Hb in Hnf].
    + unfold useCount. rewrite (bo_pool _ _ Hs). simpl. by rewrite (bo_useCount _ _ Hs).
Qed.
End ObjectPool.
Arguments t H L T : clear implicits.

(** Objects of 100 bytes in a pool of their own. *)
Definition sample_ops : list (op (T := Z)) := [Make 7; Copy 0; Make 8; Reset 2; Reset 1; Make 9].
Definition sample_memory : Memory.mem Memory.bump (list Z) :=
  Memory.mk_mem [Memory.new_pool (s_allocSize 100)] ∅ ∅ Memory.heap0.
Lemma object_pool_invariant_witness :
  exists s held, apply_ops 0 100 sample_ops (mk sample_memory ∅ ∅, []) = Ret (s, held) /\
    (forall q, is_Some (objects s !! q) <-> In q held) /\
    useCount 0 s = Some (u32 (Z.of_nat (size (objects s)))).
Proof.
  destruct (object_pool_invariant (T := Z) 0 100 ltac:(split; [lia|vm_compute; discriminate])
    Memory.bump_total (ah_blocks Memory.heap0) sample_ops sample_memory eq_refl Memory.heap0_ok eq_refl)
    as (s & held & E & H1 & _ & _ & H2).
  exists s, held. split; [exact E|]. split; [exact H1|exact H2].
Defined.
End ObjectPool.
