(* ===== verification/Allocators.v ===== *)
(** MemoryAllocator.h/.cpp and the helpers [xxnew] and [xxdelete] of Memory.h: the
    allocator that the containers of the library use ([STLAllocator]) and the
    creation of objects on [GMemory]. *)
From S2P Require Import Prelude Memory.
#[local] Open Scope Z_scope.

Module Allocators.
Import Memory.
Section Allocators.
Context {H L : Type} `{!AlignedHeap H} `{!SListOps L} `{!Platform}.
Implicit Types (m : mem H L) (used : list (Z * Z)).

(** [PoolAllocator::Alloc] and [Release], on the global [GMemory]. *)
Definition Alloc (size : Z) (m : mem H L) : outcome (Z * mem H L) := Allocate size m.
Definition Dealloc (ptr : Z) (m : mem H L) : outcome (mem H L) := Release ptr m.

(** [STLAllocator<_Ty>::allocate(count)] and [deallocate]; [sizeof_Ty] is
    [sizeof(_Ty)]. The product is a [size_t], cast to [int32]. *)
Definition allocate (sizeof_Ty count : Z) (m : mem H L) : outcome (Z * mem H L) :=
  let size := s32 (u64 (count * sizeof_Ty)) in
  Alloc size m.
Definition deallocate (ptr count : Z) (m : mem H L) : outcome (mem H L) := Dealloc ptr m.

(** [xxnew<Type>(args...)]: [v] is the object that the constructor makes; the objects
    alive are kept by address. *)
Definition xxnew {T} (sizeof_Type : Z) (v : T) (st : mem H L * gmap Z T)
  : outcome (Z * (mem H L * gmap Z T)) :=
  let! (ptr, m) := Alloc (s32 sizeof_Type) (fst st) in
  Ret (ptr, (m, <[ptr := v]> (snd st))).

(** [xxdelete<Type>(ptr)]: the destructor, on an object that is alive, then the
    memory. *)
Definition xxdelete {T} (ptr : Z) (st : mem H L * gmap Z T) : outcome (mem H L * gmap Z T) :=
  match snd st !! ptr with
  | None => Fault Dangling
  | Some _ =>
      let! m := Dealloc ptr (fst st) in
      Ret (m, delete ptr (snd st))
  end.

(** FBAllocator.h: the allocator of the packet builders. [new(ptr)uint8_t()] sets the
    first byte to 0; the bytes written are kept by address. *)
Definition FBAllocator_allocate (size : Z) (st : mem H L * gmap Z Z)
  : outcome (Z * (mem H L * gmap Z Z)) :=
  let! (ptr, m) := Alloc (s32 size) (fst st) in
  Ret (ptr, (m, <[ptr := 0]> (snd st))).
Definition FBAllocator_deallocate (p size : Z) (st : mem H L * gmap Z Z)
  : outcome (mem H L * gmap Z Z) :=
  let! m := Dealloc p (fst st) in Ret (m, snd st).

(** ** Conversions of the size *)
Lemma size_small n : 0 <= n <= INT_MAX -> s32 (u64 n) = n.
Proof. unfold INT_MAX. intros Hn. rewrite u64_small, s32_small; lia. Qed.

Lemma s32_mod z : s32 (z mod 2 ^ 64) = s32 z.
Proof.
  unfold s32. f_equal. rewrite (Z.mod_eq z (2 ^ 64)) by lia.
  replace (z - 2 ^ 64 * (z / 2 ^ 64) + 2 ^ 31) with (z + 2 ^ 31 + (- (2 ^ 32 * (z / 2 ^ 64))) * 2 ^ 32) by lia.
  by rewrite Z.mod_add by lia.
Qed.

Lemma size_wraps n r : 0 <= r < 2 ^ 31 -> n mod 2 ^ 32 = r -> s32 (u64 n) = r.
Proof.
  intros Hr Hn. unfold u64, wrap. rewrite s32_mod. unfold s32.
  rewrite <- Zplus_mod_idemp_l, Hn, Z.mod_small by lia. lia.
Qed.

Lemma size_negative n : 2 ^ 31 <= n < 2 ^ 32 -> s32 (u64 n) = n - 2 ^ 32.
Proof.
  intros Hn. rewrite u64_small by lia. unfold s32.
  replace (n + 2 ^ 31) with (n - 2 ^ 31 + 1 * 2 ^ 32) by lia.
  rewrite Z.mod_add, Z.mod_small by lia. lia.
Qed.

(** A negative size reads in front of the table. *)
Lemma Allocate_negative m size :
  - 2 ^ 31 <= size -> size + SIZEOF_MemoryHeader < 0 -> Allocate size m = Fault OutOfBounds.
Proof.
  intros Hlo Hneg. pose proof SIZEOF_MemoryHeader_bounds as Hh.
  unfold Allocate. unfold u64, wrap. rewrite s32_mod.
  rewrite s32_small by lia. rewrite Z.gtb_ltb.
  destruct (Z.ltb_spec MAX_ALLOC_SIZE (size + SIZEOF_MemoryHeader)) as [Hx|_];
    [unfold MAX_ALLOC_SIZE in Hx; lia|].
  unfold table_at. by destruct (Z.ltb_spec (size + SIZEOF_MemoryHeader) 0); [|lia].
Qed.

Hypothesis heap_total : forall n al (h : H), ah_ok h -> 0 <= n ->
  is_Some (aligned_malloc n al h).

(** The block of a small allocation is one of a pool. *)
Lemma small_block m used p size :
  inv the_layout m ((p, size) :: used) -> size + SIZEOF_MemoryHeader <= 7712 ->
  exists blk, ah_blocks (cheap m) !! (p - SIZEOF_MemoryHeader) = Some blk /\ blk <= 7712.
Proof.
  intros Hinv Hs. pose proof (inv_live _ _ _ Hinv) as Hl. apply Forall_cons in Hl as [Hl _].
  destruct Hl as (_ & _ & _ & n & Hn & _ & Hpool). exists n. split; [exact Hn|].
  assert (Hle : total_of (p, size) <= MAX_ALLOC_SIZE) by (unfold total_of, MAX_ALLOC_SIZE; simpl; lia).
  destruct (Hpool Hle) as (i & _ & Hi).
  destruct layout_sizes as [_ Hall]. rewrite forallb_forall in Hall.
  pose proof (Hall n (proj1 (list_elem_of_In _ _) (list_elem_of_lookup_2 _ _ _ Hi))). lia.
Qed.

Lemma allocate_size_ok m used sizeof_Ty count size :
  inv the_layout m used -> 0 <= size -> served (size + SIZEOF_MemoryHeader) ->
  s32 (u64 (count * sizeof_Ty)) = size ->
  exists p m', allocate sizeof_Ty count m = Ret (p, m') /\ inv the_layout m' ((p, size) :: used).
Proof.
  intros Hinv Hs Hserv E. unfold allocate, Alloc. rewrite E.
  destruct (Allocate_ok the_layout served_pool heap_total m used size Hinv Hs Hserv)
    as (a & m' & -> & Hinv'). eauto.
Qed.

(** C30: [STLAllocator::allocate] by the number [n] of bytes asked for. A size that
    the pools or the heap serve gives a block with room for [n] bytes, disjoint from
    all others. The size is cast to [int32]: from 2^31 to 2^32 it is negative and
    [_poolTable] is read out of bounds; a little more than a multiple of 2^32 gives,
    without any error, a block of at most 7712 bytes. *)
Theorem allocate_bounds m used sizeof_Ty count :
  inv the_layout m used ->
  let n := count * sizeof_Ty in
  (0 <= n -> served (n + SIZEOF_MemoryHeader) ->
     exists p m', allocate sizeof_Ty count m = Ret (p, m') /\ inv the_layout m' ((p, n) :: used)) /\
  (2 ^ 31 <= n < 2 ^ 32 - SIZEOF_MemoryHeader ->
     allocate sizeof_Ty count m = Fault OutOfBounds) /\
  (2 ^ 32 <= n -> n mod 2 ^ 32 + SIZEOF_MemoryHeader <= 7712 ->
     exists p m' blk, allocate sizeof_Ty count m = Ret (p, m') /\
       ah_blocks (cheap m') !! (p - SIZEOF_MemoryHeader) = Some blk /\ blk <= 7712 /\ blk < n).
Proof.
  intros Hinv n. pose proof SIZEOF_MemoryHeader_bounds as Hh. split_and!.
  - intros Hn Hserv. apply allocate_size_ok; [done..|]. apply size_small.
    unfold served, INT_MAX, MAX_ALLOC_SIZE in *. fold n. lia.
  - intros Hn. unfold allocate, Alloc. fold n. rewrite size_negative by lia.
    apply Allocate_negative; lia.
  - intros Hn Hr. pose proof (Z.mod_pos_bound n (2 ^ 32) ltac:(lia)) as Hmod.
    destruct (allocate_size_ok m used sizeof_Ty count (n mod 2 ^ 32) Hinv) as (p & m' & E & Hinv');
      [lia|left; lia|apply size_wraps; [lia|done]|].
    destruct (small_block m' used p _ Hinv' Hr) as (blk & Hb & Hle). exists p, m', blk.
    split_and!; [done..|lia].
Qed.

(** An object that was created and is deleted again: its address was not alive, and
    the objects and the allocations are as before. *)
Theorem xxdelete_after_xxnew {T} m used (objs : gmap Z T) sizeof_Type (v : T) :
  inv the_layout m used -> (forall p, is_Some (objs !! p) -> exists s, (p, s) ∈ used) ->
  0 <= sizeof_Type -> served (sizeof_Type + SIZEOF_MemoryHeader) ->
  exists p m1 m2, xxnew sizeof_Type v (m, objs) = Ret (p, (m1, <[p := v]> objs)) /\
    objs !! p = None /\ xxdelete p (m1, <[p := v]> objs) = Ret (m2, objs) /\
    inv the_layout m2 used.
Proof.
  intros Hinv Hobj Hs Hserv. pose proof SIZEOF_MemoryHeader_bounds as Hh.
  destruct (Allocate_ok the_layout served_pool heap_total m used sizeof_Type Hinv Hs Hserv)
    as (a & m1 & E & Hinv1).
  destruct (Release_ok the_layout m1 _ 0 _ _ Hinv1 eq_refl) as (m2 & E2 & Hinv2).
  exists (a + SIZEOF_MemoryHeader), m1, m2.
  assert (Hno : objs !! (a + SIZEOF_MemoryHeader) = None).
  { destruct (objs !! _) as [x|] eqn:Ex; [|done]. destruct (Hobj _ (mk_is_Some _ _ Ex)) as [s Hin].
    pose proof (inv_nodup _ _ _ Hinv1) as Hn. apply NoDup_app in Hn as (_ & _ & Hn). simpl in Hn.
    apply NoDup_cons in Hn as [Hn _]. destruct Hn. apply list_elem_of_fmap.
    exists (a + SIZEOF_MemoryHeader, s). split; [done|exact Hin]. }
  split_and!; [|done| |exact Hinv2].
  - unfold xxnew, Alloc. cbn [fst snd]. rewrite s32_small; [by rewrite E|].
    unfold served, INT_MAX, MAX_ALLOC_SIZE in Hserv. lia.
  - unfold xxdelete, Dealloc. cbn [fst snd]. rewrite lookup_insert_eq, E2. cbn [obind].
    by rewrite delete_insert_id.
Qed.

(** The block of a packet builder, which [GetTestPacket] still points to when it has
    returned: it is disjoint from all blocks while the builder lives; once the builder
    is destroyed it is no live block any more, and the next allocation of the same size
    class, by whatever part of the program, is given the very same pointer. *)
Theorem builder_block_is_reused m used bytes size size' :
  inv the_layout m used -> 0 <= size -> 0 <= size' ->
  size + SIZEOF_MemoryHeader <= 7712 -> size' + SIZEOF_MemoryHeader <= 7712 ->
  _poolTable the_layout !! (size' + SIZEOF_MemoryHeader) =
    _poolTable the_layout !! (size + SIZEOF_MemoryHeader) ->
  exists p m1 m2 m3,
    FBAllocator_allocate size (m, bytes) = Ret (p, (m1, <[p := 0]> bytes)) /\
    inv the_layout m1 ((p, size) :: used) /\
    FBAllocator_deallocate p size (m1, <[p := 0]> bytes) = Ret (m2, <[p := 0]> bytes) /\
    inv the_layout m2 used /\ Alloc size' m2 = Ret (p, m3).
Proof.
  intros Hinv Hs Hs' Hle Hle' Hclass. pose proof SIZEOF_MemoryHeader_bounds as Hh.
  destruct (Allocate_ok the_layout served_pool heap_total m used size Hinv Hs
    ltac:(left; lia)) as (a & m1 & E & Hinv1).
  destruct (Release_ok the_layout m1 _ 0 _ _ Hinv1 eq_refl) as (m2 & E2 & Hinv2).
  destruct (release_allocate_ok the_layout m1 _ 0 _ size size' Hinv1 eq_refl Hs')
    as (m2' & m3 & E2' & E3 & _); [unfold MAX_ALLOC_SIZE; lia|done|unfold MAX_ALLOC_SIZE; lia|].
  rewrite E2 in E2'. injection E2' as <-. exists (a + SIZEOF_MemoryHeader), m1, m2, m3.
  split_and!; [|exact Hinv1| |exact Hinv2|exact E3].
  - unfold FBAllocator_allocate, Alloc. cbn [fst snd]. rewrite s32_small by lia. by rewrite E.
  - unfold FBAllocator_deallocate, Dealloc. cbn [fst snd]. by rewrite E2.
Qed.
End Allocators.

(** The builder of [GetTestPacket] asks for 1024 bytes; a block of 1000 bytes follows. *)
Lemma builder_block_is_reused_witness :
  exists m0 : mem bump (list Z), Memory_new heap0 = Ret m0 /\
    exists p m1 m2 m3, FBAllocator_allocate 1024 (m0, ∅) = Ret (p, (m1, <[p := 0]> ∅)) /\
      FBAllocator_deallocate p 1024 (m1, <[p := 0]> ∅) = Ret (m2, <[p := 0]> ∅) /\
      Alloc 1000 m2 = Ret (p, m3).
Proof.
  destruct (Memory_new_inv (L := list Z) heap0 heap0_ok) as (m0 & E0 & Hinv0).
  exists m0. split; [exact E0|].
  destruct (builder_block_is_reused bump_total m0 [] ∅ 1024 1000 Hinv0 ltac:(lia) ltac:(lia)
    ltac:(cbn; lia) ltac:(cbn; lia) ltac:(vm_compute; reflexivity))
    as (p & m1 & m2 & m3 & H1 & _ & H2 & _ & H3).
  exists p, m1, m2, m3. split; [exact H1|]. split; [exact H2|exact H3].
Defined.

Lemma allocate_bounds_witness :
  exists m0 : mem bump (list Z), Memory_new heap0 = Ret m0 /\
    (exists p m', allocate 8 100 m0 = Ret (p, m')) /\
    allocate 8 300000000 m0 = Fault OutOfBounds /\
    exists p m' blk, allocate 8 536870913 m0 = Ret (p, m') /\
      ah_blocks (cheap m') !! (p - SIZEOF_MemoryHeader) = Some blk /\ blk <= 7712.
Proof.
  destruct (Memory_new_inv (L := list Z) heap0 heap0_ok) as (m0 & E0 & Hinv0).
  exists m0. split; [exact E0|]. split; [|split].
  - destruct (allocate_bounds bump_total m0 [] 8 100 Hinv0) as (H1 & _ & _).
    destruct (H1 ltac:(lia) ltac:(left; cbn; lia)) as (p & m' & E & _). exists p, m'. exact E.
  - destruct (allocate_bounds bump_total m0 [] 8 300000000 Hinv0) as (_ & H2 & _).
    apply H2. cbn. lia.
  - destruct (allocate_bounds bump_total m0 [] 8 536870913 Hinv0) as (_ & _ & H3).
    destruct (H3 ltac:(lia) ltac:(vm_compute; discriminate)) as (p & m' & blk & E & Hb & Hle & _).
    exists p, m', blk. split; [exact E|]. split; [exact Hb|exact Hle].
Defined.
End Allocators.
