(* ===== verification/RecvBuffer.v ===== *)
(** RecvBuffer.h / RecvBuffer.cpp: the receive buffer of a session. A flat byte
    vector of [bufferSize * BUFFER_COUNT] bytes with a read and a write
    position, both [uint32]. *)
From S2P Require Import Prelude ErrorHandler.
#[local] Open Scope Z_scope.

Module RecvBuffer.

Definition BUFFER_COUNT : Z := 10.

Record t := mk {
  _buffer : list Z;
  _bufferSize : Z;
  _capacity : Z;
  _dataPos : Z;
  _writePos : Z;
}.

Definition set_dataPos (p : Z) (b : t) : t :=
  mk (_buffer b) (_bufferSize b) (_capacity b) p (_writePos b).
Definition set_writePos (p : Z) (b : t) : t :=
  mk (_buffer b) (_bufferSize b) (_capacity b) (_dataPos b) p.
Definition set_buffer (l : list Z) (b : t) : t :=
  mk l (_bufferSize b) (_capacity b) (_dataPos b) (_writePos b).

(** The constructor: [_capacity] is a [uint32] product. *)
Definition new (bufferSize : Z) : t :=
  let capacity := u32 (bufferSize * BUFFER_COUNT) in
  mk (replicate (Z.to_nat capacity) 0) bufferSize capacity 0 0.

Definition DataSize (b : t) : Z := u32 (_writePos b - _dataPos b).
Definition FreeSize (b : t) : Z := u32 (_bufferSize b - _writePos b).

(** [WritePos()] and [DataPos()]: indices into [_buffer]; taking the element
    reference out of the vector is undefined. *)
Definition WritePos (b : t) : outcome Z :=
  if _writePos b <? zlen (_buffer b) then Ret (_writePos b)
  else Fault OutOfBounds.
Definition DataPos (b : t) : outcome Z :=
  if _dataPos b <? zlen (_buffer b) then Ret (_dataPos b)
  else Fault OutOfBounds.

Definition Read (size : Z) (b : t) (last : Z) : bool * t * Z :=
  if size >? DataSize b then
    (false, b, ErrorHandler.SetLastError APP_RECVBUFFER_INVALID_DATA)
  else (true, set_dataPos (u32 (_dataPos b + size)) b, last).

Definition Write (size : Z) (b : t) (last : Z) : bool * t * Z :=
  if size >? FreeSize b then
    (false, b, ErrorHandler.SetLastError APP_RECVBUFFER_OVERFLOW)
  else (true, set_writePos (u32 (_writePos b + size)) b, last).

Definition Clear (b : t) : outcome t :=
  let dataSize := DataSize b in
  if dataSize =? 0 then Ret (set_writePos 0 (set_dataPos 0 b))
  else if FreeSize b <? _bufferSize b then
    let! l := memcpy (_buffer b) 0 (_dataPos b) dataSize in
    Ret (set_writePos dataSize (set_dataPos 0 (set_buffer l b)))
  else Ret b.

(** ** Specification: a bounded byte queue *)

(** The unread bytes. *)
Definition contents (b : t) : list Z :=
  bytes_at (_buffer b) (_dataPos b) (_writePos b - _dataPos b).

(** Well-formed: the positions are ordered inside the first [bufferSize] bytes
    and the vector has its [uint32] capacity. *)
Record inv (b : t) : Prop := {
  inv_size : 0 < _bufferSize b /\ _bufferSize b * BUFFER_COUNT < 2 ^ 32;
  inv_cap : _capacity b = _bufferSize b * BUFFER_COUNT;
  inv_len : zlen (_buffer b) = _capacity b;
  inv_pos : 0 <= _dataPos b <= _writePos b /\ _writePos b <= _bufferSize b;
}.

(** What the kernel does before [Write(n)] is called: [d] is stored at the write
    position, inside the [FreeSize] bytes it was offered. *)
Definition deposit (d : list Z) (b : t) : t :=
  set_buffer (splice (_buffer b) (_writePos b) d) b.

(** Sequences of operations, as the session's owner could issue them. *)
Inductive op := OWrite (d : list Z) | ORead (n : Z) | OClear.
Definition apply_op (o : op) (b : t) : outcome t :=
  match o with
  | OWrite d => Ret (if zlen d <=? FreeSize b
                     then (Write (zlen d) (deposit d b) 0).1.2 else b)
  | ORead n => Ret (Read n b 0).1.2
  | OClear => Clear b
  end.
Fixpoint apply_ops (os : list op) (b : t) : outcome t :=
  match os with
  | [] => Ret b
  | o :: os => let! b := apply_op o b in apply_ops os b
  end.
Ltac rb_unfold :=
  unfold DataSize, FreeSize, contents, set_dataPos, set_writePos, set_buffer in *;
  cbn [_buffer _bufferSize _capacity _dataPos _writePos] in *.
Ltac rb_inv :=
  repeat match goal with
    | H : inv _ |- _ => destruct H as [? ? ? ?]
    | b : t |- _ => destruct b as [buf bs cap dp wp]
    end;
  unfold BUFFER_COUNT in *; rb_unfold; deex.

Lemma DataSize_inv b : inv b -> DataSize b = _writePos b - _dataPos b.
Proof. intros. rb_inv. unwrap. lia. Qed.
Lemma FreeSize_inv b : inv b -> FreeSize b = _bufferSize b - _writePos b.
Proof. intros. rb_inv. unwrap. lia. Qed.
#[export] Hint Resolve DataSize_inv FreeSize_inv : netcore.

Lemma zlen_contents b : inv b -> zlen (contents b) = DataSize b.
Proof.
  intros Hb. rewrite (DataSize_inv b Hb). rb_inv. apply zlen_bytes_at; lia.
Qed.

Lemma new_inv n : 0 < n -> n * BUFFER_COUNT < 2 ^ 32 -> inv (new n).
Proof.
  intros. unfold new, BUFFER_COUNT in *. split; simpl; unfold BUFFER_COUNT; try lia.
  - by unwrap.
  - rewrite zlen_replicate; [done|apply u32_range].
Qed.

Lemma read_inv size b last : inv b -> 0 <= size -> inv (Read size b last).1.2.
Proof.
  intros Hb ?. unfold Read. rewrite (DataSize_inv b Hb).
  destruct (Z.gtb_spec size (_writePos b - _dataPos b)); [done|].
  rb_inv. unwrap. split; simpl; unfold BUFFER_COUNT in *; lia.
Qed.

Lemma write_inv size b last : inv b -> 0 <= size -> inv (Write size b last).1.2.
Proof.
  intros Hb ?. unfold Write. rewrite (FreeSize_inv b Hb).
  destruct (Z.gtb_spec size (_bufferSize b - _writePos b)); [done|].
  rb_inv. unwrap. split; simpl; unfold BUFFER_COUNT in *; lia.
Qed.

Lemma deposit_inv d b : inv b -> zlen d <= FreeSize b -> inv (deposit d b).
Proof.
  intros Hb. rewrite (FreeSize_inv b Hb). pose proof (zlen_nonneg d).
  rb_inv. split; simpl; unfold BUFFER_COUNT; try lia.
  rewrite zlen_splice; lia.
Qed.

Lemma Write_deposit d b last :
  inv b -> zlen d <= FreeSize b ->
  Write (zlen d) (deposit d b) last =
    (true, set_writePos (_writePos b + zlen d) (deposit d b), last).
Proof.
  intros Hb Hd. unfold Write. pose proof (deposit_inv d b Hb Hd) as Hi.
  rewrite (FreeSize_inv _ Hi). rewrite (FreeSize_inv _ Hb) in Hd.
  pose proof (zlen_nonneg d). clear Hi. unfold deposit. rb_inv.
  destruct (Z.gtb_spec (zlen d) (bs - wp)); [lia|]. by unwrap.
Qed.

Lemma write_deposit_inv d b :
  inv b -> zlen d <= FreeSize b ->
  inv (set_writePos (_writePos b + zlen d) (deposit d b)).
Proof.
  intros Hb Hd. pose proof (write_inv (zlen d) _ 0 (deposit_inv d b Hb Hd)
    (zlen_nonneg d)) as Hw.
  by rewrite (Write_deposit d b 0 Hb Hd) in Hw.
Qed.

(** [Clear] on a well-formed buffer, branch by branch: the last [else] is dead,
    and the copy is defined exactly when the unread bytes do not overlap their
    target. *)
Lemma Clear_cases b :
  inv b ->
  Clear b =
    if DataSize b =? 0 then Ret (set_writePos 0 (set_dataPos 0 b))
    else if _dataPos b <? DataSize b then Fault OverlappingCopy
    else Ret (set_writePos (DataSize b) (set_dataPos 0
           (set_buffer (splice (_buffer b) 0 (contents b)) b))).
Proof.
  intros Hb. unfold Clear. rewrite (FreeSize_inv b Hb), (DataSize_inv b Hb).
  rb_inv. destruct (Z.eqb_spec (wp - dp) 0) as [E|E]; [done|].
  destruct (Z.ltb_spec (bs - wp) bs); [|lia].
  unfold memcpy. destruct (Z.eqb_spec (wp - dp) 0); [lia|].
  repeat match goal with |- context [Z.ltb ?a ?b] => destruct (Z.ltb_spec a b) end;
    simpl; try lia; done.
Qed.

Lemma clear_inv b b' : inv b -> Clear b = Ret b' -> inv b'.
Proof.
  intros Hb Hc. rewrite (Clear_cases b Hb) in Hc.
  rewrite (DataSize_inv b Hb) in Hc. pose proof (zlen_contents b Hb) as Hl.
  rewrite (DataSize_inv b Hb) in Hl.
  case_bools; inv_ret; rb_inv; split; simpl; unfold BUFFER_COUNT; try lia.
  rewrite zlen_splice; lia.
Qed.

(** C20: [RecvBuffer] refines a byte queue bounded by [bufferSize] minus what
    has been consumed: [Write] of bytes just received appends them, [Read]
    drops bytes from the front, [Clear] keeps the contents, each operation
    keeps the well-formedness invariant, and a rejected operation changes
    nothing but the last error. *)
Theorem recvbuffer_refines_queue b last :
  inv b ->
  (forall d, zlen d <= FreeSize b ->
     let '(ok, b', e) := Write (zlen d) (deposit d b) last in
     ok = true /\ e = last /\ inv b' /\ contents b' = contents b ++ d) /\
  (forall n, FreeSize b < n ->
     Write n b last = (false, b, code APP_RECVBUFFER_OVERFLOW)) /\
  (forall n, 0 <= n <= DataSize b ->
     let '(ok, b', e) := Read n b last in
     ok = true /\ e = last /\ inv b' /\
     contents b' = drop (Z.to_nat n) (contents b)) /\
  (forall n, DataSize b < n ->
     Read n b last = (false, b, code APP_RECVBUFFER_INVALID_DATA)) /\
  (forall b', Clear b = Ret b' ->
     inv b' /\ contents b' = contents b /\ _dataPos b' = 0).
Proof.
  intros Hb. split; [|split; [|split; [|split]]].
  - intros d Hd. rewrite (Write_deposit d b last Hb Hd).
    repeat split; try by apply write_deposit_inv.
    rewrite (FreeSize_inv _ Hb) in Hd. pose proof (zlen_nonneg d).
    unfold deposit. rb_inv. apply contents_append; lia.
  - intros n Hn. unfold Write. by destruct (Z.gtb_spec n (FreeSize b)); [|lia].
  - intros n Hn. pose proof (read_inv n b last Hb (proj1 Hn)) as Hr.
    unfold Read in *. destruct (Z.gtb_spec n (DataSize b)); [lia|].
    split; [done|]. split; [done|]. split; [exact Hr|].
    rewrite (DataSize_inv b Hb) in Hn. clear Hr. rb_inv. unwrap. apply contents_consume; lia.
  - intros n Hn. unfold Read. by destruct (Z.gtb_spec n (DataSize b)); [|lia].
  - intros b' Hc. split; [by eapply clear_inv|].
    rewrite (Clear_cases b Hb) in Hc. pose proof (zlen_contents b Hb) as Hl.
    rewrite (DataSize_inv b Hb) in *.
    case_bools; inv_ret; rb_inv; (split; [|done]).
    1, 2: unfold bytes_at; by replace (wp - dp) with 0 by lia.
    pose proof (bytes_at_splice_eq buf 0 (bytes_at buf dp (wp - dp))) as E.
    rewrite Hl in E. rewrite Z.sub_0_r. apply E; lia.
Qed.

Lemma recvbuffer_refines_queue_witness :
  inv (new 4) /\
  (let '(ok, b', e) := Write (zlen [1; 2; 3]) (deposit [1; 2; 3] (new 4)) 0 in
   ok = true /\ e = 0 /\ inv b' /\ contents b' = contents (new 4) ++ [1; 2; 3]).
Proof.
  assert (inv (new 4)) as Hi by (apply new_inv; unfold BUFFER_COUNT; lia).
  split; [exact Hi|].
  apply (proj1 (recvbuffer_refines_queue (new 4) 0 Hi)). vm_compute. discriminate.
Defined.

(** [Clear] copies with [memcpy] although the ranges may overlap: on a
    well-formed buffer it has defined behaviour exactly when the buffer is
    empty or the unread bytes fit before the read position. *)
Theorem clear_defined_iff b :
  inv b ->
  (exists b', Clear b = Ret b') <-> DataSize b = 0 \/ DataSize b <= _dataPos b.
Proof.
  intros Hb. rewrite (Clear_cases b Hb).
  destruct (Z.eqb_spec (DataSize b) 0); [split; [tauto|eauto]|].
  destruct (Z.ltb_spec (_dataPos b) (DataSize b)); (split; [intros [b' E]|]);
    try discriminate; try lia; eauto.
Qed.

Lemma clear_defined_iff_witness :
  let b := mk (replicate 40 7) 4 40 1 3 in
  inv b /\ (exists b', Clear b = Ret b') <-> (DataSize b = 0 \/ DataSize b <= 1).
Proof.
  assert (inv (mk (replicate 40 7) 4 40 1 3)) as Hi
    by (split; simpl; unfold BUFFER_COUNT, zlen; simpl; lia).
  pose proof (clear_defined_iff _ Hi). simpl in *. tauto.
Defined.

Lemma apply_op_inv o b b' :
  (match o with ORead n => 0 <= n | _ => True end) ->
  inv b -> apply_op o b = Ret b' ->
  inv b' /\ _bufferSize b' = _bufferSize b.
Proof.
  intros Ho Hb. destruct o as [d|n|]; simpl; intros; inv_ret.
  - destruct (Z.leb_spec (zlen d) (FreeSize b)) as [Hd|]; [|done].
    rewrite (Write_deposit d b 0 Hb Hd). split; [by apply write_deposit_inv|done].
  - split; [by apply read_inv|]. unfold Read. by destruct (_ >? _).
  - split; [by eapply clear_inv|]. rewrite (Clear_cases b Hb) in *.
    case_bools; by inv_ret.
Qed.

(** A freshly constructed buffer is well-formed for every size whose
    tenfold fits [uint32], and only the first tenth of its storage can ever be
    written: the positions never pass [bufferSize] under any sequence of
    accepted operations. *)
Theorem recvbuffer_uses_first_tenth os n b :
  0 < n -> n * BUFFER_COUNT < 2 ^ 32 ->
  Forall (fun o => match o with ORead k => 0 <= k | _ => True end) os ->
  apply_ops os (new n) = Ret b ->
  inv b /\ zlen (_buffer b) = 10 * n /\ 0 <= _dataPos b <= _writePos b /\ _writePos b <= n.
Proof.
  intros Hn Hc Hos Hrun.
  assert (forall b0 b1, inv b0 -> apply_ops os b0 = Ret b1 ->
    inv b1 /\ _bufferSize b1 = _bufferSize b0) as Hgen.
  { clear Hrun. induction Hos as [|o os Ho Hos IH]; simpl; intros b0 b1 Hi Hr;
      inv_ret; [done|].
    edestruct apply_op_inv as [Hi' Hs]; [done|apply Hi|done|].
    destruct (IH _ _ Hi' ltac:(eassumption)) as [? ->]. done. }
  destruct (Hgen _ _ (new_inv n Hn Hc) Hrun) as [[? Hcap Hlen Hpos] Hs].
  split; [done|]. unfold BUFFER_COUNT in *. simpl in Hs. lia.
Qed.

Lemma recvbuffer_uses_first_tenth_witness :
  let os := [OWrite [1; 2]; ORead 2; OClear; OWrite [5]] in
  exists b, apply_ops os (new 4) = Ret b /\
    inv b /\ zlen (_buffer b) = 10 * 4 /\ 0 <= _dataPos b <= _writePos b /\ _writePos b <= 4.
Proof.
  eexists. split; [vm_compute; reflexivity|].
  apply (recvbuffer_uses_first_tenth
    [OWrite [1; 2]; ORead 2; OClear; OWrite [5]] 4);
    [lia|unfold BUFFER_COUNT; lia|repeat constructor; lia|vm_compute; reflexivity].
Defined.
End RecvBuffer.
