(* ===== verification/SendBuffer.v ===== *)
(** SendBuffer.h/.cpp and SendBufferManager.h/.cpp: the per-thread send buffer
    and the pool that hands buffers out. A [shared_ptr<SendBuffer>] is an
    address in [heap]; its only owners are the pool vector and the threads'
    [TLS_SendBuffer], and its deleter is [_push], so dropping the last owner
    puts the buffer back in the pool. *)
From S2P Require Import Prelude ErrorHandler.
#[local] Open Scope Z_scope.

Module SendBuffer.

Definition MAX_BUFFER_SIZE : Z := 4096.

Record t := mk { _buffer : list Z; _usedSize : Z }.

(** [_buffer = {}] and [_usedSize = 0]. *)
Definition new : t := mk (replicate (Z.to_nat MAX_BUFFER_SIZE) 0) 0.

(** [size_t] difference converted to [uint32]. *)
Definition FreeSize (b : t) : Z := u32 (u64 (MAX_BUFFER_SIZE - _usedSize b)).

(** [Reserve]: the index of the writable range and the buffer after it. The
    element reference [_buffer[_usedSize]] and the range given to [memset] must
    lie inside the array. *)
Definition Reserve (size : Z) (b : t) : outcome (Z * t) :=
  let! _ := (if size >? MAX_BUFFER_SIZE
             then ErrorHandler.AssertCrash1 APP_SENDBUFFER_SIZE_OVERFLOW 0
             else Ret 0) in
  if zlen (_buffer b) <=? _usedSize b then Fault OutOfBounds else
  let! l := store (_buffer b) (_usedSize b) (replicate (Z.to_nat size) 0) in
  Ret (_usedSize b, mk l (u32 (_usedSize b + size))).

Record inv (b : t) : Prop := {
  inv_len : zlen (_buffer b) = MAX_BUFFER_SIZE;
  inv_used : 0 <= _usedSize b <= MAX_BUFFER_SIZE;
}.

Lemma sb_new_inv : inv new.
Proof. split; [by apply zlen_replicate|simpl; unfold MAX_BUFFER_SIZE; lia]. Qed.

Lemma sb_FreeSize_inv b : inv b -> FreeSize b = MAX_BUFFER_SIZE - _usedSize b.
Proof.
  intros [_ ?]. unfold FreeSize, MAX_BUFFER_SIZE in *. unwrap. lia.
Qed.

(** [Reserve] on every branch. *)
Lemma Reserve_cases size b :
  inv b -> 0 <= size ->
  Reserve size b =
    if size >? MAX_BUFFER_SIZE then Crash (code APP_SENDBUFFER_SIZE_OVERFLOW)
    else if (MAX_BUFFER_SIZE <=? _usedSize b) || (FreeSize b <? size)
    then Fault OutOfBounds
    else Ret (_usedSize b, mk (splice (_buffer b) (_usedSize b)
                (replicate (Z.to_nat size) 0)) (_usedSize b + size)).
Proof.
  intros Hb Hs. rewrite (sb_FreeSize_inv b Hb). destruct Hb as [Hl Hu].
  unfold Reserve, ErrorHandler.AssertCrash1, ErrorHandler.ASSERT_CRASH.
  destruct (size >? MAX_BUFFER_SIZE) eqn:E; simpl; [done|].
  apply Z.gtb_ltb, Z.ltb_ge in E || (destruct (Z.gtb_spec size MAX_BUFFER_SIZE); [done|]).
  rewrite Hl. unfold store. rewrite Hl, zlen_replicate by done.
  unfold MAX_BUFFER_SIZE in *.
  destruct (Z.leb_spec 4096 (_usedSize b)); simpl; [done|].
  destruct (Z.ltb_spec (_usedSize b) 0); [lia|]; simpl.
  destruct (Z.ltb_spec 4096 (_usedSize b + size)),
    (Z.ltb_spec (4096 - _usedSize b) size); try lia; simpl; [done|].
  by unwrap.
Qed.

Lemma Reserve_inv size b p b' :
  inv b -> 0 <= size -> Reserve size b = Ret (p, b') ->
  inv b' /\ p = _usedSize b /\ _usedSize b' = p + size /\
  _buffer b' = splice (_buffer b) p (replicate (Z.to_nat size) 0).
Proof.
  intros Hb Hs. rewrite (Reserve_cases size b Hb Hs), (sb_FreeSize_inv b Hb).
  destruct Hb as [Hl Hu]. unfold MAX_BUFFER_SIZE in *.
  destruct (size >? 4096); [discriminate|].
  destruct (Z.leb_spec 4096 (_usedSize b)); [discriminate|].
  destruct (Z.ltb_spec (4096 - _usedSize b) size); [discriminate|].
  simpl. intros. inv_ret. repeat split; simpl; unfold MAX_BUFFER_SIZE; try lia.
  rewrite zlen_splice; rewrite ?zlen_replicate; lia.
Qed.
End SendBuffer.

(** A pointer into a send buffer: its address and an index. *)
Abbreviation sbptr := (Z * Z)%type.

(** Ranges of buffers that do not share a byte. *)
Definition disjoint_ranges (r1 r2 : sbptr * Z) : Prop :=
  r1.1.1 <> r2.1.1 \/ r1.1.2 + r1.2 <= r2.1.2 \/ r2.1.2 + r2.2 <= r1.1.2.

(** ** What packet serialisation needs from the send buffers *)
Class SendStore (S : Type) := {
  ss_ok : S -> Prop;
  (** [SendBufferManager::Reserve(size)] on a thread. *)
  ss_reserve : Z -> Z -> S -> outcome (sbptr * S);
  (** A write of bytes at a pointer plus an offset. *)
  ss_store : sbptr -> Z -> list Z -> S -> outcome S;
  (** The bytes a pointer and a length designate ([WSABUF]). *)
  ss_load : sbptr -> Z -> S -> outcome (list Z);
  ss_reserve_ok tid n s p s' :
    ss_ok s -> 0 <= n -> ss_reserve tid n s = Ret (p, s') ->
    ss_ok s' /\ ss_load p n s' = Ret (replicate (Z.to_nat n) 0);
  ss_store_ok p o d n l s :
    ss_ok s -> 0 <= o -> o + zlen d <= n -> ss_load p n s = Ret l ->
    exists s', ss_store p o d s = Ret s' /\ ss_ok s' /\
      ss_load p n s' = Ret (splice l o d);
  (** Ranges handed out so far; a new one is disjoint from them, and neither
      reserving nor writing a range changes the bytes of another. *)
  ss_live : S -> sbptr * Z -> Prop;
  ss_reserve_live tid n s p s' :
    ss_ok s -> 0 <= n -> ss_reserve tid n s = Ret (p, s') ->
    ss_live s' (p, n) /\
    forall r, ss_live s r -> ss_live s' r /\ disjoint_ranges r (p, n) /\
      ss_load r.1 r.2 s' = ss_load r.1 r.2 s;
  ss_store_live p o d n s s' :
    ss_ok s -> 0 <= o -> o + zlen d <= n -> ss_live s (p, n) ->
    ss_store p o d s = Ret s' ->
    forall r, ss_live s r -> ss_live s' r /\
      (disjoint_ranges r (p, n) -> ss_load r.1 r.2 s' = ss_load r.1 r.2 s);
}.

Module SendBufferManager.

Definition RESERVE_BUFFER_COUNT : Z := 10.

Record t := mk {
  heap : gmap Z SendBuffer.t;
  next : Z;
  _buffers : list Z;
  _poolCount : Z;
  TLS_SendBuffer : gmap Z Z;
}.

Definition new : t := mk ∅ 0 [] 0 ∅.

Definition set_heap h (s : t) : t :=
  mk h (next s) (_buffers s) (_poolCount s) (TLS_SendBuffer s).
Definition set_buffers l (s : t) : t :=
  mk (heap s) (next s) l (_poolCount s) (TLS_SendBuffer s).

Definition Push (b : Z) (s : t) : t := set_buffers (_buffers s ++ [b]) s.

(** [xxnew<SendBuffer>()] with deleter [_push]. *)
Definition make_new (s : t) : Z * t :=
  (next s, mk (<[next s := SendBuffer.new]> (heap s)) (next s + 1) (_buffers s)
             (_poolCount s) (TLS_SendBuffer s)).

(** [_buffers.back()]. *)
Definition Pop (s : t) : Z * t :=
  match last (_buffers s) with
  | Some b =>
      (b, mk (heap s) (next s) (take (length (_buffers s) - 1) (_buffers s))
             (u16 (_poolCount s + 1)) (TLS_SendBuffer s))
  | None => make_new s
  end.

(** [TLS_SendBuffer = ...]: the previous buffer loses its owner and its deleter
    [_push] returns it to the pool. *)
Definition assign_TLS (tid b : Z) (s : t) : t :=
  let s' := mk (heap s) (next s) (_buffers s) (_poolCount s)
               (<[tid := b]> (TLS_SendBuffer s)) in
  match TLS_SendBuffer s !! tid with
  | Some old => Push old s'
  | None => s'
  end.

(** [TLS_SendBuffer = GSendBufferManager->Pop()], the first line of
    [_init_tls] of both task managers. *)
Definition renew_TLS (tid : Z) (s : t) : t :=
  let '(b, s) := Pop s in assign_TLS tid b s.

(** End of a thread: its [thread_local] pointer is destroyed. *)
Definition exit_thread (tid : Z) (s : t) : t :=
  match TLS_SendBuffer s !! tid with
  | Some old =>
      Push old (mk (heap s) (next s) (_buffers s) (_poolCount s)
                   (delete tid (TLS_SendBuffer s)))
  | None => s
  end.

(** [TLS_SendBuffer->...]: the buffer of the thread. *)
Definition current (tid : Z) (s : t) : outcome (Z * SendBuffer.t) :=
  match TLS_SendBuffer s !! tid with
  | None => Fault NullDeref
  | Some b => match heap s !! b with
              | None => Fault NullDeref
              | Some sb => Ret (b, sb)
              end
  end.

(** [TLS_SendBuffer->Reserve(size)]. *)
Definition reserve_current (tid size : Z) (s : t) : outcome (sbptr * t) :=
  let! (b, sb) := current tid s in
  let! (p, sb') := SendBuffer.Reserve size sb in
  Ret ((b, p), set_heap (<[b := sb']> (heap s)) s).

(** [SendBufferManager::Reserve]. *)
Definition Reserve (tid size : Z) (s : t) : outcome (sbptr * t) :=
  let! (b, sb) := current tid s in
  let s := if size >? SendBuffer.FreeSize sb then renew_TLS tid s else s in
  reserve_current tid size s.

(** Writing and reading through a pointer. *)
Definition store_at (p : sbptr) (o : Z) (d : list Z) (s : t) : outcome t :=
  match heap s !! p.1 with
  | None => Fault NullDeref
  | Some sb =>
      let! l := store (SendBuffer._buffer sb) (p.2 + o) d in
      Ret (set_heap (<[p.1 := SendBuffer.mk l (SendBuffer._usedSize sb)]> (heap s)) s)
  end.
Definition load_at (p : sbptr) (n : Z) (s : t) : outcome (list Z) :=
  match heap s !! p.1 with
  | None => Fault NullDeref
  | Some sb =>
      if (p.2 <? 0) || (n <? 0) || (zlen (SendBuffer._buffer sb) <? p.2 + n)
      then Fault OutOfBounds
      else Ret (bytes_at (SendBuffer._buffer sb) p.2 n)
  end.

(** Every buffer is well-formed, the owners hold live buffers, and a buffer has
    one owner: a pool slot or one thread. *)
Record inv (s : t) : Prop := {
  inv_heap b sb : heap s !! b = Some sb -> SendBuffer.inv sb /\ b < next s;
  inv_pool b : b ∈ _buffers s -> is_Some (heap s !! b);
  inv_tls tid b : TLS_SendBuffer s !! tid = Some b ->
    is_Some (heap s !! b) /\ b ∉ _buffers s;
  inv_nodup : NoDup (_buffers s);
  inv_excl t1 t2 b : TLS_SendBuffer s !! t1 = Some b ->
    TLS_SendBuffer s !! t2 = Some b -> t1 = t2;
}.

(** A handed-out range lies below the used size of its live buffer. *)
Definition range_used (s : t) (r : sbptr * Z) : Prop :=
  exists sb, heap s !! r.1.1 = Some sb /\ 0 <= r.1.2 /\ 0 <= r.2 /\
    r.1.2 + r.2 <= SendBuffer._usedSize sb.

(** Operations threads issue on the shared manager. *)
Inductive op := OInit (tid : Z) | OExit (tid : Z) | OReserve (tid size : Z).
Definition apply_op (o : op) (s : t) : outcome (option (sbptr * Z) * t) :=
  match o with
  | OInit tid => Ret (None, renew_TLS tid s)
  | OExit tid => Ret (None, exit_thread tid s)
  | OReserve tid size => let! (p, s) := Reserve tid size s in Ret (Some (p, size), s)
  end.
(** A run of operations with the log of the ranges handed out. *)
Fixpoint apply_ops (os : list op) (log : list (sbptr * Z)) (s : t)
  : outcome (list (sbptr * Z) * t) :=
  match os with
  | [] => Ret (log, s)
  | o :: os =>
      let! (r, s) := apply_op o s in
      apply_ops os (match r with Some x => x :: log | None => log end) s
  end.
(** ** Invariant *)
Lemma mgr_new_inv : inv new.
Proof.
  split; simpl; intros; simplify_map_eq; try apply NoDup_nil; try done.
  by apply elem_of_nil in H.
Qed.

Lemma last_take (l : list Z) b :
  last l = Some b -> l = take (length l - 1) l ++ [b].
Proof.
  intros H. apply last_Some in H as [l' ->].
  rewrite length_app, take_app_length'; simpl; [done|lia].
Qed.

Lemma elem_of_snoc (l : list Z) x y : x ∈ l ++ [y] <-> x ∈ l \/ x = y.
Proof. by rewrite elem_of_app, list_elem_of_singleton. Qed.

(** [Pop] from a non-empty pool. *)
Lemma Pop_pooled_inv s l b c :
  inv s -> _buffers s = l ++ [b] ->
  let s' := mk (heap s) (next s) l c (TLS_SendBuffer s) in
  inv s' /\ is_Some (heap s !! b) /\ (b ∉ l) /\
  (forall tid, ~ TLS_SendBuffer s !! tid = Some b).
Proof.
  intros [Hh Hp Ht Hn He] Hl. simpl.
  assert (Hin : forall x, x ∈ l -> x ∈ _buffers s)
    by (intros; rewrite Hl; apply elem_of_snoc; auto).
  assert (Hb : b ∈ _buffers s) by (rewrite Hl; apply elem_of_snoc; auto).
  rewrite Hl in Hn. apply NoDup_app in Hn as (Hn1 & Hn2 & _).
  split; [split; simpl|split; [|split]]; auto.
  - intros tid b' E. destruct (Ht _ _ E). split; auto.
  - intros Hbl. apply (Hn2 _ Hbl). by apply list_elem_of_singleton.
  - intros tid E. by destruct (Ht _ _ E).
Qed.

(** [Pop] from an empty pool. *)
Lemma make_new_inv s :
  inv s ->
  let '(b, s') := make_new s in
  inv s' /\ is_Some (heap s' !! b) /\ (b ∉ _buffers s) /\
  (forall tid, ~ TLS_SendBuffer s !! tid = Some b).
Proof.
  intros [Hh Hp Ht Hn He]. simpl.
  assert (Hne : forall b, is_Some (heap s !! b) -> b < next s).
  { intros b [sb E]. by apply (Hh b sb). }
  assert (Hk : forall b, is_Some (heap s !! b) ->
    is_Some (<[next s := SendBuffer.new]> (heap s) !! b)).
  { intros b Hb. apply lookup_insert_is_Some'. auto. }
  split; [split; simpl|split; [|split]]; auto.
  - intros b sb. rewrite lookup_insert. case_decide as E; intros; simplify_eq.
    + split; [apply SendBuffer.sb_new_inv|lia].
    + destruct (Hh _ _ H). split; [done|lia].
  - intros tid b E. destruct (Ht _ _ E). auto.
  - rewrite lookup_insert_eq. eauto.
  - intros Hb. specialize (Hne _ (Hp _ Hb)). lia.
  - intros tid E. destruct (Ht _ _ E) as [Hs _]. specialize (Hne _ Hs). lia.
Qed.

(** [Pop] hands out a buffer nobody owns. *)
Lemma Pop_inv s :
  inv s ->
  let '(b, s') := Pop s in
  inv s' /\ is_Some (heap s' !! b) /\ (b ∉ _buffers s') /\
  (forall tid, ~ TLS_SendBuffer s' !! tid = Some b).
Proof.
  intros Hs. unfold Pop. destruct (last (_buffers s)) as [b|] eqn:Hl.
  - exact (Pop_pooled_inv s _ b _ Hs (last_take _ _ Hl)).
  - exact (make_new_inv s Hs).
Qed.

(** Giving an unowned buffer to a thread, whose previous one goes to the pool. *)
Lemma assign_TLS_inv tid b s :
  inv s -> is_Some (heap s !! b) -> b ∉ _buffers s ->
  (forall tid, ~ TLS_SendBuffer s !! tid = Some b) ->
  inv (assign_TLS tid b s).
Proof.
  intros [Hh Hp Ht Hn He] Hb Hnb Hnt. unfold assign_TLS.
  assert (Hinj : forall t1 t2 b', <[tid := b]> (TLS_SendBuffer s) !! t1 = Some b' ->
    <[tid := b]> (TLS_SendBuffer s) !! t2 = Some b' -> t1 = t2).
  { intros t1 t2 b'. rewrite !lookup_insert. repeat case_decide; intros; simplify_eq;
      [done|by destruct (Hnt t2)|by destruct (Hnt t1)|by eapply He]. }
  destruct (TLS_SendBuffer s !! tid) as [old|] eqn:Hold; (split; simpl; auto).
  - intros b' [Hb'| ->]%elem_of_snoc; [by apply Hp|by destruct (Ht _ _ Hold)].
  - intros t' b'. rewrite lookup_insert, elem_of_snoc. case_decide; intros; simplify_eq.
    + split; [done|]. intros [?| ->]; [done|by apply (Hnt t')].
    + destruct (Ht _ _ H0). split; [done|]. intros [?| ->]; [done|].
      by apply H, (He _ _ old).
  - apply NoDup_app. split; [done|]. split; [|apply NoDup_singleton].
    intros x Hx ->%list_elem_of_singleton. by destruct (Ht _ _ Hold).
  - intros t' b'. rewrite lookup_insert. case_decide; intros; simplify_eq;
      [done|by apply (Ht t')].
Qed.

Lemma renew_TLS_inv tid s : inv s -> inv (renew_TLS tid s).
Proof.
  intros Hs. unfold renew_TLS. pose proof (Pop_inv s Hs) as Hp.
  destruct (Pop s) as [b s']. destruct Hp as (? & ? & ? & ?).
  by apply assign_TLS_inv.
Qed.

Lemma exit_thread_inv tid s : inv s -> inv (exit_thread tid s).
Proof.
  intros Hs. pose proof Hs as [Hh Hp Ht Hn He]. unfold exit_thread.
  destruct (TLS_SendBuffer s !! tid) as [old|] eqn:Hold; [|done].
  destruct (Ht _ _ Hold). split; simpl; auto.
  - intros b [?| ->]%elem_of_snoc; auto.
  - intros t b. rewrite lookup_delete, elem_of_snoc. case_decide; intros; [done|].
    destruct (Ht _ _ H2). split; [done|]. intros [?| ->]; [done|].
    by apply H1, (He _ _ old).
  - apply NoDup_app. split; [done|]. split; [|apply NoDup_singleton].
    by intros x Hx ->%list_elem_of_singleton.
  - intros t1 t2 b. rewrite !lookup_delete. repeat case_decide; intros; try done.
    by eapply He.
Qed.

(** Replacing the bytes of a live buffer keeps the ownership part. *)
Lemma set_heap_inv b sb sb' s :
  inv s -> heap s !! b = Some sb -> SendBuffer.inv sb' ->
  inv (set_heap (<[b := sb']> (heap s)) s).
Proof.
  intros [Hh Hp Ht Hn He] Hb Hi.
  assert (Hk : forall b', is_Some (heap s !! b') ->
    is_Some (<[b := sb']> (heap s) !! b')).
  { intros b' Hb'. apply lookup_insert_is_Some'. auto. }
  split; simpl; auto.
  - intros b' x. rewrite lookup_insert. case_decide; intros; simplify_eq; [|by apply Hh].
    split; [done|]. by apply (Hh _ sb).
  - intros tid b' E. destruct (Ht _ _ E). auto.
Qed.

Lemma reserve_current_inv tid size s p s' :
  inv s -> 0 <= size -> reserve_current tid size s = Ret (p, s') ->
  exists b sb sb', TLS_SendBuffer s !! tid = Some b /\ heap s !! b = Some sb /\
    p = (b, SendBuffer._usedSize sb) /\
    SendBuffer.Reserve size sb = Ret (SendBuffer._usedSize sb, sb') /\
    s' = set_heap (<[b := sb']> (heap s)) s /\ inv s'.
Proof.
  intros Hs Hz. unfold reserve_current, current.
  destruct (TLS_SendBuffer s !! tid) as [b|] eqn:Ht; [|discriminate].
  destruct (heap s !! b) as [sb|] eqn:Hb; [|discriminate]. simpl.
  intros. inv_ret. destruct a as [q sb']. inv_ret.
  assert (SendBuffer.inv sb) as Hi by by apply (inv_heap s Hs b).
  destruct (SendBuffer.Reserve_inv _ _ _ _ Hi Hz H) as (Hi' & -> & _).
  exists b, sb, sb'. split_and!; try done. eauto using set_heap_inv.
Qed.
(** ** Where a reservation is taken *)

(** A reservation fits the buffer at hand: a successful [Reserve] returns the
    range of [size] zeroed bytes that starts at the buffer's used size, inside
    the array, and touches no other buffer. *)
Lemma Reserve_spec tid size s p s' :
  inv s -> 0 <= size -> Reserve tid size s = Ret (p, s') ->
  exists s0 sb sb', (s0 = s \/ s0 = renew_TLS tid s) /\ inv s0 /\ inv s' /\
    heap s0 !! p.1 = Some sb /\ p.2 = SendBuffer._usedSize sb /\
    SendBuffer.Reserve size sb = Ret (p.2, sb') /\
    s' = set_heap (<[p.1 := sb']> (heap s0)) s0.
Proof.
  intros Hs Hz. unfold Reserve. intros. inv_ret. destruct a as [b0 sb0].
  match goal with H : reserve_current _ _ ?x = _ |- _ =>
    assert ((x = s \/ x = renew_TLS tid s) /\ inv x) as [Hor Hi] end.
  { destruct (size >? _); split; auto using renew_TLS_inv. }
  destruct (reserve_current_inv _ _ _ _ _ Hi Hz ltac:(eassumption))
    as (b & sb & sb' & ? & ? & -> & ? & -> & ?).
  eexists _, sb, sb'. by split_and!.
Qed.

(** Live buffers survive [renew_TLS], unchanged. *)
Lemma renew_TLS_heap tid s b sb :
  inv s -> heap s !! b = Some sb -> heap (renew_TLS tid s) !! b = Some sb.
Proof.
  intros Hs Hb. unfold renew_TLS, Pop, make_new, assign_TLS.
  destruct (inv_heap s Hs _ _ Hb).
  destruct (last (_buffers s)); simpl; destruct (_ !! tid); simpl;
    rewrite ?lookup_insert_ne by lia; done.
Qed.

Lemma exit_thread_heap tid s : heap (exit_thread tid s) = heap s.
Proof. unfold exit_thread. by destruct (_ !! tid). Qed.

(** The ranges handed out stay below the used sizes and pairwise disjoint. *)
Definition log_ok (log : list (sbptr * Z)) (s : t) : Prop :=
  inv s /\ Forall (range_used s) log /\ ForallOrdPairs disjoint_ranges log.

Lemma range_used_mono s s' r :
  (forall b sb, heap s !! b = Some sb -> exists sb', heap s' !! b = Some sb' /\
     SendBuffer._usedSize sb <= SendBuffer._usedSize sb') ->
  range_used s r -> range_used s' r.
Proof.
  intros Hm (sb & Hb & ? & ? & ?). destruct (Hm _ _ Hb) as (sb' & ? & ?).
  exists sb'. split_and!; auto. lia.
Qed.

Lemma Reserve_log tid size s p s' log :
  0 <= size -> log_ok log s -> Reserve tid size s = Ret (p, s') ->
  log_ok ((p, size) :: log) s'.
Proof.
  intros Hz (Hs & Hf & Hd) Hr.
  destruct (Reserve_spec tid size s p s' Hs Hz Hr)
    as (s0 & sb & sb' & Hor & Hi0 & Hi' & Hb & Hp & Hsr & ->).
  assert (Forall (range_used s0) log) as Hf0.
  { eapply Forall_impl; [exact Hf|]. intros r. apply range_used_mono.
    intros b x Hx. exists x. split; [|lia].
    destruct Hor as [->| ->]; [done|by apply renew_TLS_heap]. }
  destruct (SendBuffer.Reserve_inv size sb p.2 sb') as (Hsi & _ & Hu & _);
    [by apply (inv_heap _ Hi0 p.1)|done|done|].
  assert (Hu0 : 0 <= SendBuffer._usedSize sb)
    by apply (inv_heap _ Hi0 _ _ Hb).
  split; [done|]. split.
  - constructor.
    + exists sb'. simpl. rewrite lookup_insert_eq. split_and!; auto; lia.
    + eapply Forall_impl; [exact Hf0|]. intros r. apply range_used_mono.
      intros b x Hx. simpl. rewrite lookup_insert. case_decide; simplify_eq; eauto.
      * exists sb'. split; [done|lia].
      * exists x. split; [done|lia].
  - constructor; [|done]. eapply List.Forall_forall. intros r Hin.
    apply list_elem_of_In in Hin. rewrite Forall_forall in Hf0.
    destruct (Hf0 _ Hin) as (x & Hx & ? & ? & ?).
    destruct (decide (r.1.1 = p.1)) as [E|E]; [|left; simpl; congruence].
    right. right. simpl. rewrite E in Hx. simplify_eq. lia.
Qed.

Lemma apply_op_log o s r s' log :
  (match o with OReserve _ n => 0 <= n | _ => True end) ->
  log_ok log s -> apply_op o s = Ret (r, s') ->
  log_ok (match r with Some x => x :: log | None => log end) s'.
Proof.
  intros Ho Hl. pose proof Hl as (Hs & Hf & Hd).
  destruct o as [tid|tid|tid n]; simpl; intros; inv_ret.
  - split; [by apply renew_TLS_inv|]. split; [|done].
    eapply Forall_impl; [exact Hf|]. intros x. apply range_used_mono.
    intros b sb Hb. exists sb. split; [by apply renew_TLS_heap|lia].
  - split; [by apply exit_thread_inv|]. split; [|done].
    eapply Forall_impl; [exact Hf|]. intros x. apply range_used_mono.
    intros b sb Hb. exists sb. rewrite exit_thread_heap. split; [done|lia].
  - destruct a as [p s1]. inv_ret. by eapply Reserve_log.
Qed.

Lemma apply_ops_log os log0 s log s' :
  Forall (fun o => match o with OReserve _ n => 0 <= n | _ => True end) os ->
  log_ok log0 s -> apply_ops os log0 s = Ret (log, s') -> log_ok log s'.
Proof.
  intros Hos. revert log0 s.
  induction Hos as [|o os Ho Hos IH]; simpl; intros l s Hl; intros; inv_ret; [done|].
  destruct a as [r s1]. eapply IH; [|eassumption]. by eapply apply_op_log.
Qed.

Lemma log_ok_new : log_ok [] new.
Proof. split; [apply mgr_new_inv|by repeat constructor]. Qed.

(** ** Which reservations are served *)

Lemma current_some tid b sb s :
  TLS_SendBuffer s !! tid = Some b -> heap s !! b = Some sb ->
  current tid s = Ret (b, sb).
Proof. intros H1 H2. unfold current. by rewrite H1, H2. Qed.

(** The buffer [SendBufferManager::Reserve] takes the range from: the thread's,
    or when that is too small the last pooled one, or a fresh one when the pool
    is empty. *)
Definition taken_from (tid size : Z) (s : t) : option SendBuffer.t :=
  b ← TLS_SendBuffer s !! tid;
  sb ← heap s !! b;
  if size >? SendBuffer.FreeSize sb
  then match last (_buffers s) with
       | Some b' => heap s !! b'
       | None => Some SendBuffer.new
       end
  else Some sb.

(** How a reservation goes wrong: the thread has no send buffer, the size is
    above the capacity of a buffer, or the buffer taken has no room left and
    the range runs past the end of its array. *)
Definition refusal {A} (tid size : Z) (s : t) : option (outcome A) :=
  match taken_from tid size s with
  | None => Some (Fault NullDeref)
  | Some sb =>
      if size >? SendBuffer.MAX_BUFFER_SIZE
      then Some (Crash (code APP_SENDBUFFER_SIZE_OVERFLOW))
      else if (SendBuffer.MAX_BUFFER_SIZE <=? SendBuffer._usedSize sb)
              || (SendBuffer.FreeSize sb <? size)
      then Some (Fault OutOfBounds) else None
  end.

Lemma renew_TLS_current tid s :
  inv s -> exists b, TLS_SendBuffer (renew_TLS tid s) !! tid = Some b /\
    heap (renew_TLS tid s) !! b =
      match last (_buffers s) with
      | Some b' => heap s !! b'
      | None => Some SendBuffer.new
      end.
Proof.
  intros Hs. unfold renew_TLS, Pop, make_new, assign_TLS.
  destruct (last (_buffers s)) as [b'|] eqn:Hl; simpl;
    destruct (TLS_SendBuffer s !! tid); simpl; rewrite lookup_insert_eq;
    (eexists; split; [reflexivity|]); by rewrite ?lookup_insert_eq.
Qed.

Lemma reserve_current_refusal tid b sb size s :
  inv s -> 0 <= size -> TLS_SendBuffer s !! tid = Some b -> heap s !! b = Some sb ->
  if size >? SendBuffer.MAX_BUFFER_SIZE
  then reserve_current tid size s = Crash (code APP_SENDBUFFER_SIZE_OVERFLOW)
  else if (SendBuffer.MAX_BUFFER_SIZE <=? SendBuffer._usedSize sb)
          || (SendBuffer.FreeSize sb <? size)
  then reserve_current tid size s = Fault OutOfBounds
  else exists s', reserve_current tid size s = Ret ((b, SendBuffer._usedSize sb), s').
Proof.
  intros Hs Hz Ht Hb. unfold reserve_current. rewrite (current_some _ _ _ _ Ht Hb).
  simpl. rewrite SendBuffer.Reserve_cases by (apply (inv_heap s Hs b) || lia; done).
  destruct (size >? _); [done|]. destruct (_ || _); simpl; eauto.
Qed.

(** A reservation is served exactly when nothing stands against it. *)
Lemma Reserve_refusal {A} tid size s (f : sbptr * t -> outcome A) :
  inv s -> 0 <= size ->
  match refusal (A := A) tid size s with
  | Some r => (let! x := Reserve tid size s in f x) = r
  | None => exists p s', Reserve tid size s = Ret (p, s')
  end.
Proof.
  intros Hs Hz. unfold refusal, taken_from, Reserve.
  destruct (TLS_SendBuffer s !! tid) as [b|] eqn:Ht; simpl;
    [|unfold current; by rewrite Ht].
  destruct (inv_tls s Hs _ _ Ht) as [[sb Hb] _]. rewrite Hb. simpl.
  rewrite (current_some _ _ _ _ Ht Hb). simpl.
  assert (exists b0 s0 sb0, inv s0 /\ TLS_SendBuffer s0 !! tid = Some b0 /\
    heap s0 !! b0 = Some sb0 /\
    (if size >? SendBuffer.FreeSize sb then renew_TLS tid s else s) = s0 /\
    (if size >? SendBuffer.FreeSize sb
     then match last (_buffers s) with
          | Some b' => heap s !! b' | None => Some SendBuffer.new end
     else Some sb) = Some sb0)
    as (b0 & s0 & sb0 & Hi0 & Ht0 & Hb0 & -> & ->).
  { destruct (size >? _).
    - destruct (renew_TLS_current tid s Hs) as (b1 & Ht1 & Hb1).
      destruct (inv_tls _ (renew_TLS_inv tid s Hs) _ _ Ht1) as [[sb1 Hb1'] _].
      exists b1, (renew_TLS tid s), sb1. split_and!; auto using renew_TLS_inv.
      by rewrite <- Hb1.
    - by exists b, s, sb. }
  pose proof (reserve_current_refusal tid b0 sb0 size s0 Hi0 Hz Ht0 Hb0) as Hc.
  destruct (size >? SendBuffer.MAX_BUFFER_SIZE); [by rewrite Hc|].
  destruct (_ || _); [by rewrite Hc|]. destruct Hc as [s' ->]. eauto.
Qed.

(** The reservations of [os] ask for sizes that are not negative. *)
Definition sizes_ok (os : list op) : Prop :=
  Forall (fun o => match o with OReserve _ n => 0 <= n | _ => True end) os.

(** A run either goes through or stops at its first refused reservation. *)
Lemma apply_ops_refusal os log s :
  sizes_ok os -> log_ok log s ->
  exists os1 os2 log1 s1, os = os1 ++ os2 /\
    apply_ops os1 log s = Ret (log1, s1) /\ log_ok log1 s1 /\
    match os2 with
    | [] => True
    | OReserve tid size :: _ =>
        refusal tid size s1 = Some (apply_ops os log s)
    | _ :: _ => False
    end.
Proof.
  intros Hos. revert log s.
  induction Hos as [|o os Ho Hos IH]; intros log s Hl.
  { by exists [], [], log, s. }
  destruct (apply_op o s) as [[r s1]| | |] eqn:Ho1.
  { destruct (IH _ s1 (apply_op_log o s r s1 log Ho Hl Ho1))
      as (os1 & os2 & log1 & s2 & -> & Hr & Hl1 & Hst).
    exists (o :: os1), os2, log1, s2. simpl. rewrite Ho1. by split_and!. }
  all: destruct o as [?|?|tid size]; try discriminate;
    exists [], (OReserve tid size :: os), log, s; (split_and!; [done..|]);
    pose proof (Reserve_refusal tid size s
      (fun x => apply_ops os ((x.1, size) :: log) x.2) (proj1 Hl) Ho) as Hc;
    simpl in Ho1 |- *; destruct (Reserve tid size s) as [[p s']| | |] eqn:Hr;
      try discriminate; destruct (refusal tid size s); simpl in *;
      try (by destruct Hc as (? & ? & ?)); by rewrite <- Hc.
Qed.


(** Eight operations of three threads that are all served, and the third
    reservation of 3000 bytes of one thread, which is not: the thread gets its
    first buffer back with 1096 bytes left. *)
Definition served_ops : list op :=
  [OInit 1; OReserve 1 3000; OInit 2; OReserve 2 10; OReserve 1 2000;
   OExit 1; OInit 3; OReserve 3 100].
Definition refused_ops : list op :=
  [OInit 1; OReserve 1 3000; OReserve 1 3000; OReserve 1 3000].

Lemma served_ops_ret : exists log s, apply_ops served_ops [] new = Ret (log, s).
Proof. eexists _, _. vm_compute. reflexivity. Qed.
Lemma refused_ops_fault : apply_ops refused_ops [] new = Fault OutOfBounds.
Proof. vm_compute. reflexivity. Qed.


(** ** Rolling over to another buffer *)

Lemma reserve_current_eq tid b sb size s :
  inv s -> 0 <= size <= SendBuffer.MAX_BUFFER_SIZE ->
  TLS_SendBuffer s !! tid = Some b -> heap s !! b = Some sb ->
  reserve_current tid size s =
    if (SendBuffer.MAX_BUFFER_SIZE <=? SendBuffer._usedSize sb)
       || (SendBuffer.FreeSize sb <? size)
    then Fault OutOfBounds
    else Ret ((b, SendBuffer._usedSize sb),
      set_heap (<[b := SendBuffer.mk
        (splice (SendBuffer._buffer sb) (SendBuffer._usedSize sb)
           (replicate (Z.to_nat size) 0)) (SendBuffer._usedSize sb + size)]>
        (heap s)) s).
Proof.
  intros Hs Hz Ht Hb. unfold reserve_current. rewrite (current_some _ _ _ _ Ht Hb).
  simpl. rewrite SendBuffer.Reserve_cases by (apply (inv_heap s Hs b) || lia; done).
  destruct (Z.gtb_spec size SendBuffer.MAX_BUFFER_SIZE); [lia|].
  by destruct (_ || _).
Qed.

Lemma Reserve_eq tid b sb size s :
  TLS_SendBuffer s !! tid = Some b -> heap s !! b = Some sb ->
  Reserve tid size s =
    reserve_current tid size
      (if size >? SendBuffer.FreeSize sb then renew_TLS tid s else s).
Proof. intros Ht Hb. unfold Reserve. by rewrite (current_some _ _ _ _ Ht Hb). Qed.

(** Taking a pooled buffer leaves it as it was when it was dropped. *)
Lemma renew_TLS_pooled tid b l b' s :
  TLS_SendBuffer s !! tid = Some b -> _buffers s = l ++ [b'] ->
  renew_TLS tid s = mk (heap s) (next s) (l ++ [b]) (u16 (_poolCount s + 1))
    (<[tid := b']> (TLS_SendBuffer s)).
Proof.
  intros Ht Hl. unfold renew_TLS, Pop. rewrite Hl, last_snoc, length_app.
  rewrite take_app_length' by (simpl; lia). unfold assign_TLS. simpl.
  by rewrite Ht.
Qed.

(** A recycled send buffer is handed out with the used size it had when it
    was dropped, so when a thread's buffer is too small for a request and the
    pooled buffer is too, [SendBufferManager::Reserve] writes past the
    4096-byte array; with room in the pooled buffer it succeeds there. *)
Theorem recycled_buffer_not_reset tid b sb l b' sb' size s :
  inv s -> 0 <= size <= SendBuffer.MAX_BUFFER_SIZE ->
  TLS_SendBuffer s !! tid = Some b -> heap s !! b = Some sb ->
  _buffers s = l ++ [b'] -> heap s !! b' = Some sb' ->
  SendBuffer.FreeSize sb < size ->
  (SendBuffer.FreeSize sb' < size -> Reserve tid size s = Fault OutOfBounds) /\
  (size <= SendBuffer.FreeSize sb' -> exists s',
     Reserve tid size s = Ret ((b', SendBuffer._usedSize sb'), s')).
Proof.
  intros Hs Hz Ht Hb Hl Hb' Hlt.
  assert (Hi' : SendBuffer.inv sb') by by apply (inv_heap s Hs b').
  assert (Hi : SendBuffer.inv sb) by by apply (inv_heap s Hs b).
  rewrite (Reserve_eq tid b sb size s Ht Hb).
  destruct (Z.gtb_spec size (SendBuffer.FreeSize sb)); [|lia].
  pose proof (renew_TLS_inv tid s Hs) as Hr.
  rewrite (renew_TLS_pooled tid b l b' s Ht Hl) in *.
  erewrite (reserve_current_eq tid b' sb' size)
    by (simpl; try rewrite lookup_insert_eq; done).
  rewrite (SendBuffer.sb_FreeSize_inv sb Hi) in Hlt.
  rewrite (SendBuffer.sb_FreeSize_inv sb' Hi').
  destruct Hi as [_ Hu], Hi' as [_ Hu'].
  destruct (Z.leb_spec SendBuffer.MAX_BUFFER_SIZE (SendBuffer._usedSize sb')),
    (Z.ltb_spec (SendBuffer.MAX_BUFFER_SIZE - SendBuffer._usedSize sb') size);
    simpl; (split; intros; [|]); try done; try lia; eauto.
Qed.

Definition full3000 : SendBuffer.t := SendBuffer.mk (replicate 4096 0) 3000.
(** A thread that has filled two buffers: the first is back in the pool. *)
Definition two_full : t :=
  mk {[0 := full3000; 1 := full3000]} 2 [0] 0 {[1 := 1]}.

Lemma two_full_reached :
  exists log, apply_ops [OInit 1; OReserve 1 3000; OReserve 1 3000] [] new
    = Ret (log, two_full).
Proof. eexists. vm_compute. reflexivity. Qed.

Lemma two_full_inv : inv two_full.
Proof.
  destruct two_full_reached as [log Hr].
  eapply (apply_ops_log _ [] new log two_full); [|apply log_ok_new|exact Hr].
  repeat constructor; lia.
Qed.

Lemma recycled_buffer_not_reset_witness :
  Reserve 1 3000 two_full = Fault OutOfBounds.
Proof.
  apply (recycled_buffer_not_reset 1 1 full3000 [] 0 full3000 3000 two_full);
    [exact two_full_inv|unfold SendBuffer.MAX_BUFFER_SIZE; lia|reflexivity|
     reflexivity|reflexivity|reflexivity|reflexivity|reflexivity].
Defined.

Lemma renew_TLS_some tid s : is_Some (TLS_SendBuffer (renew_TLS tid s) !! tid).
Proof.
  unfold renew_TLS, assign_TLS. destruct (Pop s) as [b s'].
  destruct (TLS_SendBuffer s' !! tid); simpl; rewrite lookup_insert_eq; eauto.
Qed.

Lemma store_at_inv p o d s s' : inv s -> store_at p o d s = Ret s' -> inv s'.
Proof.
  intros Hs. unfold store_at. destruct (heap s !! p.1) as [sb|] eqn:Hb; [|discriminate].
  intros. inv_ret. match goal with H : store _ _ _ = _ |- _ =>
    apply store_ret in H as ((? & ?) & ->) end.
  assert (SendBuffer.inv sb) as [Hl Hu] by by apply (inv_heap s Hs p.1).
  eapply set_heap_inv; [done|done|]. split; simpl; [|done]. rewrite zlen_splice; lia.
Qed.

(** ** The interface of packet serialisation *)
Lemma zeroed_range b sb sb' n s :
  SendBuffer.inv sb -> 0 <= n ->
  SendBuffer.Reserve n sb = Ret (SendBuffer._usedSize sb, sb') ->
  load_at (b, SendBuffer._usedSize sb) n (set_heap (<[b := sb']> (heap s)) s) =
    Ret (replicate (Z.to_nat n) 0).
Proof.
  intros Hi Hn Hsr.
  destruct (SendBuffer.Reserve_inv _ _ _ _ Hi Hn Hsr) as ([Hl Hu] & _ & Hus & Hbuf).
  unfold load_at. simpl. rewrite lookup_insert_eq, Hl, Hbuf.
  destruct Hi as [Hl0 Hu0].
  destruct (Z.ltb_spec (SendBuffer._usedSize sb) 0), (Z.ltb_spec n 0),
    (Z.ltb_spec SendBuffer.MAX_BUFFER_SIZE (SendBuffer._usedSize sb + n)); simpl; try lia.
  f_equal. rewrite <- (zlen_replicate n 0) at 2 by done.
  apply bytes_at_splice_eq; [lia|]. rewrite zlen_replicate; lia.
Qed.

Lemma reserve_current_zeroed tid n s p s' :
  inv s -> 0 <= n -> reserve_current tid n s = Ret (p, s') ->
  load_at p n s' = Ret (replicate (Z.to_nat n) 0).
Proof.
  intros Hs Hn Hr.
  destruct (reserve_current_inv tid n s p s' Hs Hn Hr)
    as (b & sb & sb' & _ & Hb & -> & Hsr & -> & _).
  apply zeroed_range; [by apply (inv_heap s Hs b)|done|done].
Qed.

Lemma Reserve_zeroed tid n s p s' :
  inv s -> 0 <= n -> Reserve tid n s = Ret (p, s') ->
  inv s' /\ load_at p n s' = Ret (replicate (Z.to_nat n) 0).
Proof.
  intros Hs Hn Hr.
  destruct (Reserve_spec tid n s p s' Hs Hn Hr)
    as (s0 & sb & sb' & _ & Hi0 & Hi' & Hb & Hp & Hsr & ->).
  split; [done|]. destruct p as [b o]. simpl in *. subst o.
  apply zeroed_range; [by apply (inv_heap s0 Hi0 b)|done|done].
Qed.

Lemma store_at_ok p o d n l s :
  inv s -> 0 <= o -> o + zlen d <= n -> load_at p n s = Ret l ->
  exists s', store_at p o d s = Ret s' /\ inv s' /\ load_at p n s' = Ret (splice l o d).
Proof.
  intros Hs Ho Hd. unfold load_at, store_at.
  destruct (heap s !! p.1) as [sb|] eqn:Hb; [|discriminate].
  assert (SendBuffer.inv sb) as [Hl Hu] by by apply (inv_heap s Hs p.1).
  destruct (Z.ltb_spec p.2 0), (Z.ltb_spec n 0),
    (Z.ltb_spec (zlen (SendBuffer._buffer sb)) (p.2 + n)); simpl; try discriminate.
  intros [= <-]. pose proof (zlen_nonneg d).
  assert (store (SendBuffer._buffer sb) (p.2 + o) d =
    Ret (splice (SendBuffer._buffer sb) (p.2 + o) d)) as ->
    by (apply store_ret; split; [lia|done]).
  simpl. eexists. split; [done|]. split.
  + eapply set_heap_inv; [done|done|]. split; simpl; [|done].
    rewrite zlen_splice; lia.
  + simpl. rewrite lookup_insert_eq. simpl. rewrite zlen_splice by lia.
    destruct (Z.ltb_spec p.2 0), (Z.ltb_spec n 0),
      (Z.ltb_spec (zlen (SendBuffer._buffer sb)) (p.2 + n)); simpl; try lia.
    f_equal. symmetry. apply splice_bytes_at; lia.
Qed.

(** A range below the used size of its buffer is read the same after a change of
    that buffer outside the range. *)
Lemma load_at_same s s' r sb sb' :
  heap s !! r.1.1 = Some sb -> heap s' !! r.1.1 = Some sb' ->
  zlen (SendBuffer._buffer sb') = zlen (SendBuffer._buffer sb) ->
  bytes_at (SendBuffer._buffer sb') r.1.2 r.2 = bytes_at (SendBuffer._buffer sb) r.1.2 r.2 ->
  load_at r.1 r.2 s' = load_at r.1 r.2 s.
Proof. intros H1 H2 Hz Hb. unfold load_at. by rewrite H1, H2, Hz, Hb. Qed.

Lemma Reserve_live tid n s p s' :
  inv s -> 0 <= n -> Reserve tid n s = Ret (p, s') ->
  range_used s' (p, n) /\
  forall r, range_used s r -> range_used s' r /\ disjoint_ranges r (p, n) /\
    load_at r.1 r.2 s' = load_at r.1 r.2 s.
Proof.
  intros Hs Hn Hr.
  destruct (Reserve_spec tid n s p s' Hs Hn Hr)
    as (s0 & sb & sb' & Hor & Hi0 & Hi' & Hb & Hp & Hsr & ->).
  assert (SendBuffer.inv sb) as Hi by by apply (inv_heap s0 Hi0 p.1).
  destruct (SendBuffer.Reserve_inv _ _ _ _ Hi Hn Hsr) as ([Hl Hu] & _ & Hus & Hbuf).
  destruct Hi as [Hl0 Hu0]. split.
  { exists sb'. simpl. rewrite lookup_insert_eq. split_and!; auto; lia. }
  intros r (x & Hx & H1 & H2 & H3).
  assert (Hx0 : heap s0 !! r.1.1 = Some x)
    by (destruct Hor as [->| ->]; [done|by apply renew_TLS_heap]).
  destruct (decide (r.1.1 = p.1)) as [E|E].
  - rewrite E in Hx0. assert (x = sb) as -> by congruence. split_and!.
    + exists sb'. simpl. rewrite E, lookup_insert_eq. split_and!; auto; lia.
    + right. left. simpl. lia.
    + apply (load_at_same s _ r sb sb'); [congruence| |lia|].
      * simpl. by rewrite E, lookup_insert_eq.
      * rewrite Hbuf. apply bytes_at_splice_ne; rewrite ?zlen_replicate; lia.
  - split_and!.
    + exists x. simpl. rewrite lookup_insert_ne by done. by split_and!.
    + by left.
    + apply (load_at_same s _ r x x); [done| |done|done].
      simpl. by rewrite lookup_insert_ne by done.
Qed.

Lemma store_at_live p o d n s s' :
  inv s -> 0 <= o -> o + zlen d <= n -> range_used s (p, n) ->
  store_at p o d s = Ret s' ->
  forall r, range_used s r -> range_used s' r /\
    (disjoint_ranges r (p, n) -> load_at r.1 r.2 s' = load_at r.1 r.2 s).
Proof.
  intros Hs Ho Hd (sb & Hb & Hp1 & Hp2 & Hp3). simpl in *. unfold store_at. rewrite Hb.
  intros. inv_ret. match goal with H : store _ _ _ = _ |- _ =>
    apply store_ret in H as ((? & ?) & ->) end.
  pose proof (zlen_nonneg d).
  match goal with H : range_used s r |- _ => pose proof H as (x & Hx & H4 & H5 & H6) end.
  destruct (decide (r.1.1 = p.1)) as [E|E].
  - assert (x = sb) as -> by congruence. split.
    + eexists. simpl. rewrite E, lookup_insert_eq. by split_and!.
    + intros [?|Hdis]; [done|]. simpl in Hdis.
      eapply (load_at_same s _ r sb); [done| | |].
      * simpl. by rewrite E, lookup_insert_eq.
      * simpl. rewrite zlen_splice; lia.
      * simpl. apply bytes_at_splice_ne; lia.
  - split.
    + exists x. simpl. rewrite lookup_insert_ne by done. by split_and!.
    + intros _. apply (load_at_same s _ r x x); [done| |done|done].
      simpl. by rewrite lookup_insert_ne by done.
Qed.

#[global] Instance send_store : SendStore t := {|
  ss_ok := inv;
  ss_reserve := Reserve;
  ss_store := store_at;
  ss_load := load_at;
  ss_reserve_ok := Reserve_zeroed;
  ss_store_ok := store_at_ok;
  ss_live := range_used;
  ss_reserve_live := Reserve_live;
  ss_store_live := store_at_live |}.

End SendBufferManager.
