(* ===== verification/Packet.v ===== *)
(** PacketWrapper.h: the packed packet header ([size], [id], two bytes each,
    little-endian on the target) and [PacketWrapper::Serialize], proved against
    the [SendStore] interface and instantiated with [SendBufferManager]. *)
From S2P Require Import Prelude ErrorHandler SendBuffer.
#[local] Open Scope Z_scope.

Module PacketHeader.

(** [struct PacketHeader] under [#pragma pack(push, 2)]. *)
Record t := mk { _size : Z; _id : Z }.

Definition SIZEOF : Z := 4.

(** Its object representation. *)
Definition encode (h : t) : list Z :=
  [u8 (_size h); u8 (Z.shiftr (_size h) 8); u8 (_id h); u8 (Z.shiftr (_id h) 8)].

(** [reinterpret_cast<const PacketHeader*>(ptr)] followed by [size()], [id()]. *)
Definition decode (l : list Z) : outcome t :=
  match l with
  | a :: b :: c :: d :: _ =>
      Ret (mk (Z.lor (u8 a) (Z.shiftl (u8 b) 8)) (Z.lor (u8 c) (Z.shiftl (u8 d) 8)))
  | _ => Fault OutOfBounds
  end.

Definition wf (h : t) : Prop := 0 <= _size h < 65536 /\ 0 <= _id h < 65536.

Lemma u16_bytes z :
  0 <= z < 65536 -> Z.lor (u8 (u8 z)) (Z.shiftl (u8 (u8 (Z.shiftr z 8))) 8) = z.
Proof.
  intros Hz. unfold u8, wrap. rewrite !Z.mod_mod by done.
  rewrite Z.shiftr_div_pow2, Z.shiftl_mul_pow2 by lia.
  rewrite (Z.mod_small (z / 2 ^ 8)) by (split; [apply Z.div_pos|apply Z.div_lt_upper_bound]; lia).
  assert (Z.land (z mod 2 ^ 8) (z / 2 ^ 8 * 2 ^ 8) = 0) as E.
  - apply Z.bits_inj'. intros i Hi.
    rewrite Z.land_spec, Z.bits_0, <- Z.shiftl_mul_pow2, Z.shiftl_spec by lia.
    destruct (decide (i < 8)).
    + rewrite (Z.testbit_neg_r _ (i - 8)) by lia. apply andb_false_r.
    + by rewrite Z.mod_pow2_bits_high by lia.
  - pose proof (Z.add_lor_land (z mod 2 ^ 8) (z / 2 ^ 8 * 2 ^ 8)).
    pose proof (Z.div_mod z (2 ^ 8)). lia.
Qed.

Lemma encode_length h : zlen (encode h) = SIZEOF.
Proof. done. Qed.
#[export] Hint Rewrite encode_length : netcore_rw.

Lemma decode_encode h rest : wf h -> decode (encode h ++ rest) = Ret h.
Proof.
  intros [Hs Hi]. unfold decode, encode. simpl.
  rewrite !u16_bytes by done. by destruct h.
Qed.
End PacketHeader.

(** [WSABUF]: length and buffer pointer. *)
Record WSABUF := { len : Z; buf : sbptr }.

(** The bytes of a packet: header, then payload. *)
Definition packet_bytes (id : Z) (data : list Z) : list Z :=
  PacketHeader.encode (PacketHeader.mk (PacketHeader.SIZEOF + zlen data) id) ++ data.

Lemma packet_bytes_length id data :
  zlen (packet_bytes id data) = PacketHeader.SIZEOF + zlen data.
Proof. unfold packet_bytes. by rewrite zlen_app, PacketHeader.encode_length. Qed.

Module PacketWrapper.
Section Serialize.
Context {S : Type} `{SendStore S}.

(** [Serialize(id, dataPtr, dataSize)]; [data] is the memory at [dataPtr]. *)
Definition Serialize (tid id : Z) (data : list Z) (dataSize : Z) (s : S)
  : outcome (WSABUF * S) :=
  let size := u16 (PacketHeader.SIZEOF + dataSize) in
  let! (buffer, s) := ss_reserve tid size s in
  let! s := ss_store buffer 0 (PacketHeader.encode (PacketHeader.mk size id)) s in
  if zlen data <? dataSize then Fault OutOfBounds else
  let! s := ss_store buffer PacketHeader.SIZEOF (bytes_at data 0 dataSize) s in
  Ret ({| len := size; buf := buffer |}, s).

Lemma bytes_at_all (d : list Z) : bytes_at d 0 (zlen d) = d.
Proof. unfold bytes_at, zlen. rewrite Nat2Z.id, drop_0. by rewrite firstn_all. Qed.

(** Two stores fill a zeroed range with the packet. *)
Lemma splice_packet h d n :
  n = zlen h + zlen d ->
  splice (splice (replicate (Z.to_nat n) 0) 0 h) (zlen h) d = h ++ d.
Proof.
  unfold splice, zlen. intros ->. simpl.
  rewrite Z2Nat.inj_add, !Nat2Z.id by lia.
  rewrite take_app_length. f_equal.
  rewrite drop_ge; [by rewrite app_nil_r|].
  rewrite length_app, length_drop, length_replicate. lia.
Qed.

(** C25: when the reservation succeeds, [Serialize] returns and the [WSABUF]
    designates exactly the packet: the header with the total size and the id,
    then the payload. *)
Theorem Serialize_correct tid id data s p s1 :
  ss_ok s -> zlen data <= 65531 ->
  ss_reserve tid (PacketHeader.SIZEOF + zlen data) s = Ret (p, s1) ->
  exists s', Serialize tid id data (zlen data) s =
      Ret ({| len := PacketHeader.SIZEOF + zlen data; buf := p |}, s') /\
    ss_ok s' /\
    ss_load p (PacketHeader.SIZEOF + zlen data) s' = Ret (packet_bytes id data).
Proof.
  intros Hs Hd Hr. pose proof (zlen_nonneg data) as Hn.
  unfold Serialize, PacketHeader.SIZEOF in *.
  rewrite (u16_small (4 + zlen data)) by lia. rewrite Hr. cbn [obind].
  assert (0 <= 4 + zlen data) as H4 by lia.
  destruct (ss_reserve_ok _ _ _ _ _ Hs H4 Hr) as [H1 L1].
  set (h := PacketHeader.encode _).
  assert (0 + zlen h <= 4 + zlen data) as Hh by (change (zlen h) with 4; lia).
  destruct (ss_store_ok p 0 h _ _ s1 H1 (Z.le_refl 0) Hh L1)
    as (s2 & E2 & H2 & L2).
  rewrite E2. cbn [obind]. destruct (Z.ltb_spec (zlen data) (zlen data)); [lia|].
  rewrite bytes_at_all.
  destruct (ss_store_ok p 4 data _ _ s2 H2 ltac:(lia) (Z.le_refl _) L2)
    as (s3 & E3 & H3 & L3).
  rewrite E3. cbn [obind]. exists s3. split; [done|]. split; [done|].
  rewrite L3. f_equal. apply (splice_packet h data). by change (zlen h) with 4.
Qed.

(** What a successful [Serialize] leaves: a fresh live range that holds the packet,
    and every range handed out before unchanged. *)
Lemma Serialize_live tid id data s w s' :
  ss_ok s -> zlen data <= 65531 -> Serialize tid id data (zlen data) s = Ret (w, s') ->
  ss_ok s' /\ len w = PacketHeader.SIZEOF + zlen data /\
  ss_live s' (buf w, len w) /\ ss_load (buf w) (len w) s' = Ret (packet_bytes id data) /\
  forall r, ss_live s r -> ss_live s' r /\ ss_load r.1 r.2 s' = ss_load r.1 r.2 s.
Proof.
  intros Hs Hd. pose proof (zlen_nonneg data) as Hn.
  assert (H4 : 0 <= 4 + zlen data) by lia.
  unfold Serialize, PacketHeader.SIZEOF.
  rewrite (u16_small (4 + zlen data)) by lia.
  destruct (ss_reserve tid (4 + zlen data) s) as [[p s1]| | |] eqn:Er; [|discriminate..].
  cbn [obind].
  destruct (ss_reserve_ok _ _ _ _ _ Hs H4 Er) as [H1 L1].
  destruct (ss_reserve_live _ _ _ _ _ Hs H4 Er) as [V1 F1].
  set (h := PacketHeader.encode _).
  assert (Hh : 0 + zlen h <= 4 + zlen data) by (change (zlen h) with 4; lia).
  destruct (ss_store_ok p 0 h _ _ s1 H1 (Z.le_refl 0) Hh L1) as (s2 & E2 & H2 & L2).
  pose proof (ss_store_live p 0 h _ s1 s2 H1 (Z.le_refl 0) Hh V1 E2) as F2.
  rewrite E2. cbn [obind]. destruct (Z.ltb_spec (zlen data) (zlen data)); [lia|].
  rewrite bytes_at_all. assert (H40 : 0 <= 4) by lia.
  destruct (ss_store_ok p 4 data _ _ s2 H2 H40 (Z.le_refl _) L2) as (s3 & E3 & H3 & L3).
  pose proof (ss_store_live p 4 data _ s2 s3 H2 H40 (Z.le_refl _) (proj1 (F2 _ V1)) E3) as F3.
  rewrite E3. cbn [obind]. intros [= <- <-]. cbn [len buf]. split_and!.
  - exact H3.
  - reflexivity.
  - apply F3, F2, V1.
  - rewrite L3. f_equal. apply (splice_packet h data). by change (zlen h) with 4.
  - intros r Hr. destruct (F1 r Hr) as (V & D & EL1). destruct (F2 r V) as (V2 & EL2).
    destruct (F3 r V2) as (V3 & EL3). split; [done|]. by rewrite EL3, EL2.
Qed.
End Serialize.

(** A send-buffer state with one thread that has just been given its buffer. *)
Definition one_thread : SendBufferManager.t :=
  SendBufferManager.renew_TLS 1 SendBufferManager.new.

Lemma one_thread_ok : SendBufferManager.inv one_thread.
Proof. apply SendBufferManager.renew_TLS_inv, SendBufferManager.mgr_new_inv. Qed.

Lemma Serialize_correct_witness :
  exists p s1 s', SendBufferManager.Reserve 1 7 one_thread = Ret (p, s1) /\
    SendBufferManager.inv s' /\
    SendBufferManager.load_at p 7 s' = Ret [7; 0; 2; 1; 65; 66; 67].
Proof.
  destruct (SendBufferManager.Reserve 1 7 one_thread) as [[p s1]| | |] eqn:E;
    try (vm_compute in E; discriminate E).
  destruct (@Serialize_correct _ SendBufferManager.send_store 1 258 [65; 66; 67] one_thread p s1 one_thread_ok
    ltac:(vm_compute; discriminate) E) as (s' & _ & Hok & Hl).
  exists p, s1, s'. split; [reflexivity|]. split; [exact Hok|exact Hl].
Defined.

(** ** On the library's own send buffers *)

Lemma reserve_oversize tid size s :
  SendBufferManager.inv s -> SendBuffer.MAX_BUFFER_SIZE < size ->
  is_Some (SendBufferManager.TLS_SendBuffer s !! tid) ->
  SendBufferManager.Reserve tid size s = Crash (code APP_SENDBUFFER_SIZE_OVERFLOW).
Proof.
  intros Hs Hz [b Ht]. destruct (SendBufferManager.inv_tls s Hs _ _ Ht) as [[sb Hb] _].
  rewrite (SendBufferManager.Reserve_eq tid b sb size s Ht Hb).
  assert (SendBuffer.inv sb) as Hi by by apply (SendBufferManager.inv_heap s Hs b).
  assert (exists b' sb', SendBufferManager.current tid
    (if size >? SendBuffer.FreeSize sb then SendBufferManager.renew_TLS tid s else s)
      = Ret (b', sb') /\ SendBuffer.inv sb') as (b' & sb' & Hc & Hi').
  { destruct (_ >? _).
    - pose proof (SendBufferManager.renew_TLS_inv tid s Hs) as Hr.
      destruct (SendBufferManager.renew_TLS_some tid s) as [b' Ht'].
      destruct (SendBufferManager.inv_tls _ Hr _ _ Ht') as [[sb' Hb'] _].
      exists b', sb'. split; [by apply SendBufferManager.current_some|].
      by apply (SendBufferManager.inv_heap _ Hr b').
    - exists b, sb. split; [by apply SendBufferManager.current_some|done]. }
  unfold SendBufferManager.reserve_current. rewrite Hc. cbn [obind].
  rewrite SendBuffer.Reserve_cases by (done || unfold SendBuffer.MAX_BUFFER_SIZE in *; lia).
  by destruct (Z.gtb_spec size SendBuffer.MAX_BUFFER_SIZE); [|lia].
Qed.

(** A store longer than a send buffer never succeeds. *)
Lemma store_at_oversize p o d s :
  SendBufferManager.inv s -> 0 <= o -> 0 <= p.2 ->
  SendBuffer.MAX_BUFFER_SIZE < zlen d ->
  forall s', SendBufferManager.store_at p o d s <> Ret s'.
Proof.
  intros Hs Ho Hp Hd s'. unfold SendBufferManager.store_at.
  destruct (_ !! p.1) as [sb|] eqn:Hb; [|done].
  assert (SendBuffer.inv sb) as [Hl _] by by apply (SendBufferManager.inv_heap s Hs p.1).
  unfold store. destruct (Z.ltb_spec (p.2 + o) 0), (Z.ltb_spec
    (zlen (SendBuffer._buffer sb)) (p.2 + o + zlen d)); simpl; try done; lia.
Qed.

(** The payload sizes [Serialize] accepts. Up to 4092 bytes fit one buffer;
    from 4093 to 65531 the size guard crashes with APP_SENDBUFFER_SIZE_OVERFLOW;
    from 65532 on the [uint16] total wraps to 0..3, the guard is passed and
    copying the payload cannot succeed inside the reserved buffer. *)
Theorem Serialize_size_limits tid id data s :
  SendBufferManager.inv s ->
  is_Some (SendBufferManager.TLS_SendBuffer s !! tid) ->
  (4092 < zlen data <= 65531 ->
     Serialize tid id data (zlen data) s = Crash (code APP_SENDBUFFER_SIZE_OVERFLOW)) /\
  (65532 <= zlen data < 65536 ->
     u16 (PacketHeader.SIZEOF + zlen data) = zlen data - 65532 /\
     forall r, Serialize tid id data (zlen data) s <> Ret r).
Proof.
  intros Hs Ht. unfold Serialize, PacketHeader.SIZEOF. split; intros Hd.
  - rewrite (u16_small (4 + zlen data)) by lia. cbn [ss_reserve SendBufferManager.send_store].
    by rewrite reserve_oversize by (done || unfold SendBuffer.MAX_BUFFER_SIZE; lia).
  - assert (u16 (4 + zlen data) = zlen data - 65532) as Hw.
    { unfold u16, wrap. replace (4 + zlen data) with ((zlen data - 65532) + 1 * 2 ^ 16) by lia.
      rewrite Z.mod_add by done. apply Z.mod_small. lia. }
    split; [exact Hw|]. rewrite Hw. intros r Hr.
    cbn [ss_reserve ss_store SendBufferManager.send_store] in Hr.
    inv_ret. destruct a as [p s1]. inv_ret. rename a into s2.
    destruct (Z.ltb_spec (zlen data) (zlen data)); [lia|]. inv_ret.
    assert (Hz : 0 <= zlen data - 65532) by lia.
    match goal with H : SendBufferManager.Reserve _ _ _ = _ |- _ =>
      destruct (SendBufferManager.Reserve_spec _ _ _ _ _ Hs Hz H)
        as (s0 & sb & sb' & _ & Hi0 & Hi1 & Hb & Hp & _) end.
    assert (0 <= p.2).
    { rewrite Hp. by apply (SendBufferManager.inv_heap _ Hi0 _ _ Hb). }
    assert (SendBufferManager.inv s2) by (eapply SendBufferManager.store_at_inv; eauto).
    rewrite bytes_at_all in *.
    eapply (store_at_oversize p 4 data s2); eauto; unfold SendBuffer.MAX_BUFFER_SIZE; lia.
Qed.

Lemma Serialize_size_limits_witness :
  Serialize 1 9 (replicate 5000 1) 5000 one_thread = Crash 6001.
Proof.
  refine (proj1 (Serialize_size_limits 1 9 (replicate 5000 1) one_thread one_thread_ok
    _) _); [exists 0; reflexivity|split; vm_compute; [reflexivity|discriminate]].
Defined.
End PacketWrapper.
