(* ===== verification/PacketSession.v ===== *)
(** PacketSession.h / PacketSession.cpp: queueing of serialised packets ([Send],
    [SendRaw], [Flush]) and the dispatch of received bytes to packets
    ([OnRecv]); [OnRecvPacket] is the user's virtual method, its calls are
    recorded. *)
From S2P Require Import Prelude ErrorHandler SendBuffer Packet.
#[local] Open Scope Z_scope.

Module PacketSession.

Definition FLUSH_SEND_MIN_INTERVAL_TICK : Z := 1000.
Definition FLUSH_SEND_MIN_RESERVED_BYTE_LENGTH : Z := 128.

(** ** Receiving *)

(** [OnRecv(buffer, len)]: [buffer] is the memory from the argument on, which
    may hold more than [len] bytes. Each call of [OnRecvPacket] is recorded as
    the offset of its argument and the id. *)
Fixpoint OnRecv_loop (fuel : nat) (buffer : list Z) (len n processed : Z)
  (calls : list (Z * Z)) : outcome (Z * list (Z * Z)) :=
  match fuel with
  | O => NoFuel
  | S fuel =>
      if processed <? len then
        let! header := PacketHeader.decode (drop (Z.to_nat processed) buffer) in
        let size := PacketHeader._size header in
        let id := PacketHeader._id header in
        let calls := calls ++ [(processed + PacketHeader.SIZEOF, id)] in
        let processed := u32 (processed + size) in
        if n =? INT_MAX then Fault SignedOverflow
        else OnRecv_loop fuel buffer len (n + 1) processed calls
      else Ret (processed, calls)
  end.
Definition OnRecv (fuel : nat) (buffer : list Z) (len : Z)
  : outcome (Z * list (Z * Z)) := OnRecv_loop fuel buffer len 0 0 [].

(** ** Sending *)
Record t := mk {
  _reserved : list WSABUF;
  _reservedSendBytes : Z;
  _lastSendTick : Z;
}.

(** The constructor; [tick] is [GetTickCount64()]. *)
Definition new (tick : Z) : t := mk [] 0 tick.

Section Send.
Context {S : Type} `{SendStore S}.

(** [Send(id, ptr, size)]; a non-null [ptr] is given by the memory it points to. *)
Definition Send (tid id : Z) (ptr : option (list Z)) (size : Z) (ps : t) (s : S)
  : outcome (t * S) :=
  match ptr with
  | None => Ret (ps, s)
  | Some data =>
      let! (buf, s) := PacketWrapper.Serialize tid id data size s in
      Ret (mk (_reserved ps ++ [buf])
             (u32 (_reservedSendBytes ps + (size + PacketHeader.SIZEOF)))
             (_lastSendTick ps), s)
  end.
End Send.

(** [Flush()]: the list given to [Session::_send], if any; [now1] and [now2] are
    the results of the two [GetTickCount64()] calls. *)
Definition Flush (now1 now2 : Z) (ps : t) : t * option (list WSABUF) :=
  let dt := u64 (now1 - _lastSendTick ps) in
  if (dt <? FLUSH_SEND_MIN_INTERVAL_TICK) &&
     (_reservedSendBytes ps <? FLUSH_SEND_MIN_RESERVED_BYTE_LENGTH)
  then (ps, None)
  else match _reserved ps with
       | [] => (ps, None)
       | list => (mk [] 0 now2, Some list)
       end.

(** [strlen]: reading past the memory is undefined. *)
Fixpoint strlen (buffer : list Z) : outcome Z :=
  match buffer with
  | [] => Fault OutOfBounds
  | c :: buffer => if c =? 0 then Ret 0 else let! n := strlen buffer in Ret (n + 1)
  end.

(** [SendRaw(buffer)]: reserves on the thread's current send buffer itself. *)
Definition SendRaw (tid : Z) (buffer : option (list Z)) (ps : t)
  (s : SendBufferManager.t) : outcome (t * SendBufferManager.t) :=
  match buffer with
  | None => Ret (ps, s)
  | Some buffer =>
      let! n := strlen buffer in
      let size := u32 n in
      let! (pos, s) := SendBufferManager.reserve_current tid size s in
      let! s := SendBufferManager.store_at pos 0 (bytes_at buffer 0 size) s in
      Ret (mk (_reserved ps) (u32 (_reservedSendBytes ps + size)) (_lastSendTick ps), s)
  end.

(** ** Lemmas on the receive loop *)

(** A packet that [Serialize] can lay out. *)
Definition packet_ok (p : Z * list Z) : Prop :=
  0 <= p.1 < 65536 /\ zlen p.2 <= 65531.
Definition packet_okb (p : Z * list Z) : bool :=
  (0 <=? p.1) && (p.1 <? 65536) && (zlen p.2 <=? 65531).
Lemma packets_okb ps : forallb packet_okb ps = true -> Forall packet_ok ps.
Proof.
  rewrite forallb_forall. intros Hb. apply Forall_forall. intros p Hp.
  apply list_elem_of_In, Hb in Hp. unfold packet_okb, packet_ok in *. lia.
Qed.
Definition bytes_of (p : Z * list Z) : list Z := packet_bytes p.1 p.2.
(** The byte stream of a list of packets. *)
Definition stream (ps : list (Z * list Z)) : list Z := concat (map bytes_of ps).

(** The calls of [OnRecvPacket] for packets laid out from an offset on. *)
Fixpoint calls_from (o : Z) (ps : list (Z * list Z)) : list (Z * Z) :=
  match ps with
  | [] => []
  | p :: ps => (o + PacketHeader.SIZEOF, p.1) :: calls_from (o + zlen (bytes_of p)) ps
  end.

Lemma bytes_of_length p : zlen (bytes_of p) = PacketHeader.SIZEOF + zlen p.2.
Proof. apply packet_bytes_length. Qed.

Lemma stream_cons p ps : stream (p :: ps) = bytes_of p ++ stream ps.
Proof. done. Qed.

Lemma zlen_drop_pre (pre l : list Z) : drop (Z.to_nat (zlen pre)) (pre ++ l) = l.
Proof. unfold zlen. rewrite Nat2Z.id. apply drop_app_length. Qed.

(** A header at the current position is read as written. *)
Lemma decode_packet pre p rest :
  packet_ok p ->
  PacketHeader.decode (drop (Z.to_nat (zlen pre)) (pre ++ bytes_of p ++ rest)) =
    Ret (PacketHeader.mk (zlen (bytes_of p)) p.1).
Proof.
  intros [Hi Hd]. rewrite zlen_drop_pre. pose proof (zlen_nonneg p.2).
  rewrite bytes_of_length. unfold bytes_of, packet_bytes. rewrite <- app_assoc.
  apply PacketHeader.decode_encode. unfold PacketHeader.wf, PacketHeader.SIZEOF.
  simpl. lia.
Qed.

(** Running the loop over whole packets. *)
Lemma OnRecv_packets ps : forall fuel pre rest len n calls,
  Forall packet_ok ps -> zlen pre + zlen (stream ps) <= len -> len < 2 ^ 32 ->
  n + zlen ps <= INT_MAX ->
  OnRecv_loop (length ps + fuel) (pre ++ stream ps ++ rest) len n (zlen pre) calls =
  OnRecv_loop fuel (pre ++ stream ps ++ rest) len (n + zlen ps)
    (zlen pre + zlen (stream ps)) (calls ++ calls_from (zlen pre) ps).
Proof.
  induction ps as [|p ps IH]; intros fuel pre rest len n calls Hok Hlen Hmax Hn.
  { unfold stream, zlen. simpl. by rewrite app_nil_r, !Z.add_0_r. }
  apply Forall_cons in Hok as [Hp Hok].
  rewrite stream_cons, zlen_app in Hlen.
  pose proof (bytes_of_length p) as Hb. pose proof (zlen_nonneg p.2).
  pose proof (zlen_nonneg (stream ps)). pose proof (zlen_nonneg pre).
  unfold PacketHeader.SIZEOF in Hb. rewrite stream_cons, <- !app_assoc.
  cbn [length Nat.add OnRecv_loop].
  destruct (Z.ltb_spec (zlen pre) len); [|lia].
  rewrite (decode_packet pre p _ Hp). cbn [obind PacketHeader._size PacketHeader._id].
  rewrite (u32_small (zlen pre + zlen (bytes_of p))) by lia.
  assert (Hz : zlen (p :: ps) = zlen ps + 1) by (unfold zlen; simpl; lia).
  pose proof (zlen_nonneg ps). rewrite Hz in Hn.
  destruct (Z.eqb_spec n INT_MAX); [lia|].
  specialize (IH fuel (pre ++ bytes_of p) rest len (n + 1)
    (calls ++ [(zlen pre + PacketHeader.SIZEOF, p.1)]) Hok).
  rewrite zlen_app, <- app_assoc in IH. rewrite IH by lia.
  rewrite zlen_app, Hz, <- app_assoc. cbn [calls_from app].
  f_equal; lia.
Qed.

(** The payload lies where each call points. *)
Lemma calls_payload ps : forall pre rest,
  Forall2 (fun p c => c.2 = p.1 /\
      bytes_at (pre ++ stream ps ++ rest) c.1 (zlen p.2) = p.2)
    ps (calls_from (zlen pre) ps).
Proof.
  induction ps as [|p ps IH]; intros pre rest; [constructor|].
  cbn [calls_from]. constructor.
  - split; [done|]. cbn [fst]. rewrite stream_cons. unfold bytes_of, packet_bytes, bytes_at.
    set (h := PacketHeader.encode _).
    assert (Eh : PacketHeader.SIZEOF = zlen h) by done. rewrite Eh, <- zlen_app.
    rewrite <- !app_assoc, (app_assoc pre h), zlen_drop_pre.
    unfold zlen. rewrite Nat2Z.id. apply take_app_length.
  - rewrite stream_cons, <- zlen_app. rewrite <- app_assoc, app_assoc. apply IH.
Qed.

(** Four bytes per packet at least. *)
Lemma stream_count ps : 4 * zlen ps <= zlen (stream ps).
Proof.
  induction ps as [|p ps IH]; [done|]. rewrite stream_cons, zlen_app, bytes_of_length.
  pose proof (zlen_nonneg p.2). unfold zlen, PacketHeader.SIZEOF in *. simpl length. lia.
Qed.

(** A stream of whole packets. *)
Lemma OnRecv_whole ps rest :
  Forall packet_ok ps -> zlen (stream ps) < 2 ^ 32 ->
  exists calls,
    OnRecv (S (length ps)) (stream ps ++ rest) (zlen (stream ps)) =
      Ret (zlen (stream ps), calls) /\
    Forall2 (fun p c => c.2 = p.1 /\
      bytes_at (stream ps ++ rest) c.1 (zlen p.2) = p.2) ps calls.
Proof.
  intros Hok Hlen. exists (calls_from 0 ps). split; [|apply (calls_payload ps [] rest)].
  pose proof (stream_count ps).
  pose proof (OnRecv_packets ps 1 [] rest (zlen (stream ps)) 0 []) as E.
  change (zlen []) with 0 in E. unfold OnRecv. simpl app in E.
  replace (S (length ps)) with (length ps + 1)%nat by lia.
  rewrite E by (done || unfold INT_MAX; lia). simpl. rewrite Z.add_0_l.
  destruct (Z.ltb_spec (zlen (stream ps)) (zlen (stream ps))); [lia|done].
Qed.

(** C21: on a received stream of whole packets [OnRecv] returns the number of
    bytes received and calls [OnRecvPacket] once per packet, in order, with its
    id and a pointer to its payload. *)
Theorem OnRecv_stream ps rest :
  Forall packet_ok ps -> zlen (stream ps) < 2 ^ 32 ->
  exists calls,
    OnRecv (S (length ps)) (stream ps ++ rest) (zlen (stream ps)) =
      Ret (zlen (stream ps), calls) /\
    Forall2 (fun p c => c.2 = p.1 /\
      bytes_at (stream ps ++ rest) c.1 (zlen p.2) = p.2) ps calls.
Proof. apply OnRecv_whole. Qed.

Lemma OnRecv_stream_witness :
  let ps := [(1, [65; 66]); (513, []); (2, [67])] in
  exists calls, OnRecv 4 (stream ps ++ [9; 9]) 15 = Ret (15, calls) /\
    calls = [(4, 1); (10, 513); (14, 2)].
Proof.
  destruct (OnRecv_stream [(1, [65; 66]); (513, []); (2, [67])] [9; 9])
    as (calls & E & _); [by apply packets_okb|reflexivity|].
  exists calls. split; [exact E|]. vm_compute in E. congruence.
Defined.

(** ** Streams that are cut or malformed *)

(** When the received bytes end inside a packet, after its header,
    [OnRecv] still calls [OnRecvPacket] for it, with a pointer to a payload that
    has not been received in full, and returns more than the [len] it was
    given. *)
Theorem OnRecv_partial ps p k stale :
  Forall packet_ok ps -> packet_ok p -> zlen (stream ps) + 65536 < 2 ^ 32 ->
  PacketHeader.SIZEOF <= k < zlen (bytes_of p) ->
  let received := stream ps ++ bytes_at (bytes_of p) 0 k in
  OnRecv (S (S (length ps))) (received ++ stale) (zlen received) =
    Ret (zlen (stream ps) + zlen (bytes_of p),
      calls_from 0 ps ++ [(zlen (stream ps) + PacketHeader.SIZEOF, p.1)]) /\
  zlen received < zlen (stream ps) + zlen (bytes_of p).
Proof.
  intros Hok Hp Hmax Hk received. unfold received.
  pose proof (stream_count ps). pose proof (bytes_of_length p) as Hb.
  pose proof Hp as [Hid Hd]. pose proof (zlen_nonneg p.2).
  pose proof (zlen_nonneg (stream ps)). unfold PacketHeader.SIZEOF in Hk, Hb.
  rewrite zlen_app, zlen_bytes_at by lia. split; [|lia].
  set (tail := bytes_at (bytes_of p) 0 k). rewrite <- app_assoc.
  pose proof (OnRecv_packets ps 2 [] (tail ++ stale) (zlen (stream ps) + k) 0 []) as E.
  change (zlen []) with 0 in E. unfold OnRecv. simpl app in E.
  replace (S (S (length ps))) with (length ps + 2)%nat by lia.
  rewrite E by (done || unfold INT_MAX; lia). clear E. rewrite !Z.add_0_l.
  cbn [OnRecv_loop].
  destruct (Z.ltb_spec (zlen (stream ps)) (zlen (stream ps) + k)); [|lia].
  rewrite zlen_drop_pre.
  assert (Et : exists d, tail = PacketHeader.encode
    (PacketHeader.mk (zlen (bytes_of p)) p.1) ++ d).
  { unfold tail, bytes_at. rewrite Hb. unfold bytes_of, packet_bytes, PacketHeader.SIZEOF.
    rewrite drop_0, take_app_ge by (simpl; lia). eauto. }
  destruct Et as [d ->]. rewrite <- app_assoc, PacketHeader.decode_encode
    by (unfold PacketHeader.wf; simpl; lia).
  cbn [obind PacketHeader._size PacketHeader._id].
  rewrite u32_small by lia.
  destruct (Z.eqb_spec (zlen ps) INT_MAX); [unfold INT_MAX in *; lia|].
  destruct (Z.ltb_spec (zlen (stream ps) + zlen (bytes_of p)) (zlen (stream ps) + k)); [lia|].
  done.
Qed.

Lemma OnRecv_partial_witness :
  let received := stream [(1, [65])] ++ bytes_at (bytes_of (2, [66; 67; 68])) 0 5 in
  OnRecv 3 (received ++ [0; 0; 0]) (zlen received) =
    Ret (12, [(4, 1); (9, 2)]).
Proof.
  refine (proj1 (OnRecv_partial [(1, [65])] (2, [66; 67; 68]) 5 [0; 0; 0] _ _ _ _)).
  - by apply packets_okb.
  - unfold packet_ok, zlen. simpl. lia.
  - vm_compute. reflexivity.
  - split; vm_compute; [discriminate|reflexivity].
Defined.

(** A header with size 0 makes no progress. *)
Lemma OnRecv_stuck id buffer len processed : processed < len -> 0 <= processed < 2 ^ 32 ->
  PacketHeader.decode (drop (Z.to_nat processed) buffer) = Ret (PacketHeader.mk 0 id) ->
  forall fuel n calls, 0 <= n <= INT_MAX ->
  OnRecv_loop fuel buffer len n processed calls =
    if Z.of_nat fuel <=? INT_MAX - n then NoFuel else Fault SignedOverflow.
Proof.
  intros Hlt Hp Hd. induction fuel as [|fuel IH]; intros n calls Hn.
  { cbn [OnRecv_loop]. destruct (Z.leb_spec (Z.of_nat 0) (INT_MAX - n)); [done|lia]. }
  cbn [OnRecv_loop]. destruct (Z.ltb_spec processed len); [|lia].
  rewrite Hd. cbn [obind PacketHeader._size]. rewrite Z.add_0_r, u32_small by lia.
  destruct (Z.eqb_spec n INT_MAX) as [->|].
  - destruct (Z.leb_spec (Z.of_nat (S fuel)) (INT_MAX - INT_MAX)); [lia|done].
  - rewrite IH by lia.
    destruct (Z.leb_spec (Z.of_nat fuel) (INT_MAX - (n + 1))),
      (Z.leb_spec (Z.of_nat (S fuel)) (INT_MAX - n)); try lia; done.
Qed.

(** After whole packets, a header whose size field is 0 keeps [OnRecv] in its
    loop: it never returns, and the counter [n] overflows a signed int. *)
Theorem OnRecv_zero_size_hangs ps id rest :
  Forall packet_ok ps -> 0 <= id < 65536 -> zlen (stream ps) + 4 < 2 ^ 32 ->
  let buffer := stream ps ++ PacketHeader.encode (PacketHeader.mk 0 id) ++ rest in
  forall fuel, OnRecv (length ps + fuel) buffer (zlen (stream ps) + 4) =
    if Z.of_nat fuel <=? INT_MAX - zlen ps then NoFuel else Fault SignedOverflow.
Proof.
  intros Hok Hid Hmax buffer fuel. unfold buffer. clear buffer.
  set (z := PacketHeader.encode _ ++ rest).
  pose proof (stream_count ps). pose proof (zlen_nonneg ps).
  pose proof (OnRecv_packets ps fuel [] z (zlen (stream ps) + 4) 0 []) as E.
  change (zlen []) with 0 in E. unfold OnRecv. simpl app in E.
  rewrite E by (done || unfold INT_MAX; lia). rewrite !Z.add_0_l.
  apply (OnRecv_stuck id); [lia|lia| |unfold INT_MAX; lia].
  rewrite zlen_drop_pre. apply PacketHeader.decode_encode.
  unfold PacketHeader.wf. simpl. lia.
Qed.

Lemma OnRecv_zero_size_hangs_witness :
  OnRecv (1 + 1000) (stream [(1, [65])] ++ PacketHeader.encode (PacketHeader.mk 0 7) ++ [])
    (zlen (stream [(1, [65])]) + 4) = NoFuel.
Proof.
  refine (OnRecv_zero_size_hangs [(1, [65])] 7 [] _ _ _ 1000).
  - by apply packets_okb.
  - lia.
  - vm_compute. reflexivity.
Defined.

(** [OnRecv] terminates on every buffer in which no header that can be read
    below [len] has size 0; it returns at least [len] and less than a maximal
    packet more. *)
Theorem OnRecv_terminates buffer len :
  0 <= len < INT_MAX ->
  (forall o, 0 <= o < len -> exists h,
     PacketHeader.decode (drop (Z.to_nat o) buffer) = Ret h /\
     0 < PacketHeader._size h < 65536) ->
  exists processed calls,
    OnRecv (S (Z.to_nat len)) buffer len = Ret (processed, calls) /\
    len <= processed < len + 65536 /\ zlen calls <= len.
Proof.
  intros Hlen Hh. unfold OnRecv.
  enough (forall fuel n processed calls,
    0 <= processed < len + 65536 -> Z.max (len - processed) 0 < Z.of_nat fuel ->
    0 <= n <= processed -> (processed < len \/ n <= len) -> zlen calls = n ->
    exists r cs, OnRecv_loop fuel buffer len n processed calls = Ret (r, cs) /\
      len <= r < len + 65536 /\ zlen cs <= len) as Hloop.
  { apply Hloop; unfold zlen; simpl; lia. }
  induction fuel as [|fuel IH]; intros n processed calls Hp Hf Hn Hn2 Hc; [lia|].
  cbn [OnRecv_loop]. destruct (Z.ltb_spec processed len).
  - destruct (Hh processed ltac:(lia)) as (h & -> & Hs). cbn [obind].
    unfold INT_MAX in *. rewrite u32_small by lia.
    destruct (Z.eqb_spec n 2147483647); [lia|].
    apply IH; rewrite ?zlen_app; unfold zlen in *; simpl; lia.
  - exists processed, calls. split; [done|]. lia.
Qed.

Lemma OnRecv_terminates_witness :
  exists processed calls,
    OnRecv 9 (replicate 20 3) 8 = Ret (processed, calls) /\
    8 <= processed < 8 + 65536 /\ zlen calls <= 8.
Proof.
  apply (OnRecv_terminates (replicate 20 3) 8); [unfold INT_MAX; lia|].
  intros o Ho. exists (PacketHeader.mk 771 771). split; [|simpl; lia].
  destruct (Z.to_nat o) as [|[|[|[|[|[|[|[|m]]]]]]]] eqn:E; try lia; reflexivity.
Defined.

(** ** From [Send] to [OnRecvPacket] *)
Section EndToEnd.
Context {S : Type} `{!SendStore S}.
Implicit Types (s : S) (ps : t).

(** Calls on one packet session. *)
Inductive pop :=
| PSend (tid id : Z) (ptr : option (list Z))
| PFlush (now1 now2 : Z).

(** A run: the session, the send buffers and the lists given to
    [Session::_send], in order. *)
Definition apply_pop (o : pop) (st : t * S * list WSABUF)
  : outcome (t * S * list WSABUF) :=
  let '(ps, s, out) := st in
  match o with
  | PSend tid id ptr =>
      let! (ps, s) := Send tid id ptr (match ptr with Some d => zlen d | None => 0 end) ps s in
      Ret (ps, s, out)
  | PFlush now1 now2 =>
      match Flush now1 now2 ps with
      | (ps, Some list) => Ret (ps, s, out ++ list)
      | (ps, None) => Ret (ps, s, out)
      end
  end.
Fixpoint apply_pops (os : list pop) (st : t * S * list WSABUF)
  : outcome (t * S * list WSABUF) :=
  match os with
  | [] => Ret st
  | o :: os => let! st := apply_pop o st in apply_pops os st
  end.

(** The packets a run sends. *)
Definition sent1 (o : pop) : list (Z * list Z) :=
  match o with PSend _ id (Some d) => [(id, d)] | _ => [] end.
Definition sent (os : list pop) : list (Z * list Z) := concat (map sent1 os).

(** The bytes a list of [WSABUF]s designates, which [WSASend] transmits. *)
Fixpoint wire (bufs : list WSABUF) (s : S) : outcome (list Z) :=
  match bufs with
  | [] => Ret []
  | b :: bufs =>
      let! d := ss_load (buf b) (len b) s in
      let! ds := wire bufs s in Ret (d ++ ds)
  end.

(** A queued buffer still holds its packet. *)
Definition holds s (b : WSABUF) (p : Z * list Z) : Prop :=
  ss_live s (buf b, len b) /\ len b = zlen (bytes_of p) /\
  ss_load (buf b) (len b) s = Ret (bytes_of p).

Lemma wire_holds s bufs l : Forall2 (holds s) bufs l -> wire bufs s = Ret (stream l).
Proof.
  induction 1 as [|b p bufs l (_ & _ & Hb) _ IH]; [done|].
  cbn [wire]. by rewrite Hb, IH.
Qed.

Definition total_len (bufs : list WSABUF) : Z := foldr (fun b z => len b + z) 0 bufs.
Lemma total_len_snoc bufs b : total_len (bufs ++ [b]) = total_len bufs + len b.
Proof. induction bufs as [|c bufs IH]; simpl; lia. Qed.

Lemma u32_add_idemp a b : u32 (u32 a + b) = u32 (a + b).
Proof. unfold u32, wrap. apply Zplus_mod_idemp_l. Qed.

(** Everything sent so far is queued or given to the session, in order. *)
Definition run_ok (st : t * S * list WSABUF) (l : list (Z * list Z)) : Prop :=
  let '(ps, s, out) := st in
  ss_ok s /\ Forall2 (holds s) (out ++ _reserved ps) l /\
  _reservedSendBytes ps = u32 (total_len (_reserved ps)).

Lemma apply_pop_ok o st st' l :
  Forall packet_ok (sent1 o) -> run_ok st l -> apply_pop o st = Ret st' ->
  run_ok st' (l ++ sent1 o).
Proof.
  destruct st as [[ps s] out]. intros Ho (Hs & Hf & Hb). unfold apply_pop.
  destruct o as [tid id [d|]|n1 n2]; simpl in *.
  - apply Forall_cons in Ho as [[Hid Hd] _].
    destruct (PacketWrapper.Serialize tid id d (zlen d) s) as [[w s1]| | |] eqn:E;
      [|discriminate..]. cbn [obind]. intros [= <-].
    destruct (PacketWrapper.Serialize_live _ _ _ _ _ _ Hs Hd E) as (H1 & Hl & Hv & Hld & Hfr).
    split; [done|]. cbn [_reserved _reservedSendBytes]. split.
    + rewrite app_assoc. apply Forall2_app.
      * eapply Forall2_impl; [exact Hf|]. intros b p (Hv1 & Hl1 & Hd1).
        destruct (Hfr _ Hv1) as [Hv2 Hd2]. split; [done|]. split; [done|].
        simpl in Hd2. by rewrite Hd2.
      * constructor; [|constructor]. split; [done|]. rewrite bytes_of_length. by split.
    + rewrite Hb, total_len_snoc, u32_add_idemp, Hl. f_equal. simpl. lia.
  - intros [= <-]. rewrite app_nil_r. by split.
  - unfold Flush. destruct (_ && _).
    + intros [= <-]. rewrite app_nil_r. by split.
    + destruct (_reserved ps) as [|b bs] eqn:Er; intros [= <-].
      * rewrite app_nil_r. split_and!; rewrite ?Er; done.
      * rewrite app_nil_r. split_and!; simpl; rewrite ?app_nil_r; done.
Qed.

Lemma apply_pops_ok os : forall st st' l,
  Forall packet_ok (sent os) -> run_ok st l -> apply_pops os st = Ret st' ->
  run_ok st' (l ++ sent os).
Proof.
  induction os as [|o os IH]; intros st st' l Ho Hst; cbn [apply_pops].
  { intros [= <-]. by rewrite app_nil_r. }
  change (sent (o :: os)) with (sent1 o ++ sent os) in *.
  apply Forall_app in Ho as [Ho Hos]. intros. inv_ret. rewrite app_assoc.
  eapply IH; [done| |eassumption]. by eapply apply_pop_ok.
Qed.

(** Flushing after the interval empties the queue. *)
Lemma Flush_all now1 now2 ps :
  FLUSH_SEND_MIN_INTERVAL_TICK <= u64 (now1 - _lastSendTick ps) ->
  _reserved (Flush now1 now2 ps).1 = [] /\
  default [] (Flush now1 now2 ps).2 = _reserved ps.
Proof.
  intros Hdt. unfold Flush.
  destruct (Z.ltb_spec (u64 (now1 - _lastSendTick ps)) FLUSH_SEND_MIN_INTERVAL_TICK); [lia|].
  simpl. by destruct (_reserved ps) eqn:E.
Qed.

(** C9: whatever [Send] and [Flush] calls are made on a session, a [Flush] at
    least 1000 ticks after the last one leaves nothing queued, and the bytes
    designated by all the buffers handed to [Session::_send], received by a peer
    in one piece, make its [OnRecv] call [OnRecvPacket] for exactly the packets
    sent, in order, with their ids and payloads. *)
Theorem sent_packets_are_received os tick s ps s' out now1 now2 rest :
  ss_ok s -> Forall packet_ok (sent os) -> zlen (stream (sent os)) < 2 ^ 32 ->
  apply_pops os (new tick, s, []) = Ret (ps, s', out) ->
  FLUSH_SEND_MIN_INTERVAL_TICK <= u64 (now1 - _lastSendTick ps) ->
  _reserved (Flush now1 now2 ps).1 = [] /\
  exists bytes calls,
    wire (out ++ default [] (Flush now1 now2 ps).2) s' = Ret bytes /\
    OnRecv (Datatypes.S (length (sent os))) (bytes ++ rest) (zlen bytes)
      = Ret (zlen bytes, calls) /\
    Forall2 (fun p c => c.2 = p.1 /\ bytes_at (bytes ++ rest) c.1 (zlen p.2) = p.2)
      (sent os) calls.
Proof.
  intros Hs Hos Hz Hr Hdt. destruct (Flush_all now1 now2 ps Hdt) as [-> ->].
  split; [done|].
  assert (Hst : run_ok (new tick, s, []) []) by (split_and!; done || constructor).
  destruct (apply_pops_ok os _ _ [] Hos Hst Hr) as (_ & Hf & _).
  destruct (OnRecv_whole (sent os) rest Hos Hz) as (calls & Hc & Hp).
  exists (stream (sent os)), calls. split; [by apply wire_holds|]. by split.
Qed.
End EndToEnd.

Definition sample_pops : list pop :=
  [PSend 1 1 (Some [65; 66]); PFlush 5 5; PSend 1 513 (Some []); PSend 1 9 None;
   PSend 1 2 (Some [67])].

Lemma sent_packets_are_received_witness :
  exists ps s' out,
    apply_pops (S := SendBufferManager.t) sample_pops
      (new 0, PacketWrapper.one_thread, []) = Ret (ps, s', out) /\
    _reserved (Flush 1500 1500 ps).1 = [] /\
    exists bytes calls,
      wire (out ++ default [] (Flush 1500 1500 ps).2) s' = Ret bytes /\
      OnRecv 4 (bytes ++ []) (zlen bytes) = Ret (zlen bytes, calls) /\
      Forall2 (fun p c => c.2 = p.1 /\ bytes_at (bytes ++ []) c.1 (zlen p.2) = p.2)
        [(1, [65; 66]); (513, []); (2, [67])] calls.
Proof.
  destruct (apply_pops (S := SendBufferManager.t) sample_pops
    (new 0, PacketWrapper.one_thread, [])) as [[[ps s'] out]| | |] eqn:E;
    [|vm_compute in E; discriminate E..].
  exists ps, s', out. split; [reflexivity|].
  refine (sent_packets_are_received sample_pops 0 PacketWrapper.one_thread ps s' out
    1500 1500 [] PacketWrapper.one_thread_ok _ _ E _).
  - by apply packets_okb.
  - vm_compute. reflexivity.
  - assert (Ht : _lastSendTick ps = 0) by (vm_compute in E; by injection E as <- _ _).
    rewrite Ht. vm_compute. discriminate.
Defined.

(** ** [SendRaw] *)
Lemma strlen_text text rest :
  Forall (fun c => c <> 0) text -> strlen (text ++ 0 :: rest) = Ret (zlen text).
Proof.
  induction 1 as [|c text Hc _ IH]; [done|]. simpl.
  destruct (Z.eqb_spec c 0); [done|]. rewrite IH. simpl. f_equal. unfold zlen. simpl. lia.
Qed.

(** [SendRaw] of a string never queues anything for [Flush], whatever the
    room in the send buffer: with room in the thread's current buffer it copies
    the text there and only grows the byte counter; without room it does not
    roll over to another buffer, as [Send] does, but writes out of bounds. *)
Theorem SendRaw_is_never_flushed tid text rest ps s b sb :
  SendBufferManager.inv s ->
  SendBufferManager.TLS_SendBuffer s !! tid = Some b ->
  SendBufferManager.heap s !! b = Some sb ->
  Forall (fun c => c <> 0) text -> zlen text <= SendBuffer.MAX_BUFFER_SIZE ->
  SendBuffer._usedSize sb < SendBuffer.MAX_BUFFER_SIZE ->
  if SendBuffer.FreeSize sb <? zlen text
  then SendRaw tid (Some (text ++ 0 :: rest)) ps s = Fault OutOfBounds
  else exists s', SendRaw tid (Some (text ++ 0 :: rest)) ps s =
      Ret (mk (_reserved ps) (u32 (_reservedSendBytes ps + zlen text)) (_lastSendTick ps), s') /\
    SendBufferManager.load_at (b, SendBuffer._usedSize sb) (zlen text) s' = Ret text.
Proof.
  intros Hs Ht Hb Hne Hz Hu. unfold SendRaw. rewrite (strlen_text _ _ Hne). cbn [obind].
  pose proof (zlen_nonneg text) as Hn. unfold SendBuffer.MAX_BUFFER_SIZE in *.
  rewrite u32_small by lia.
  pose proof (SendBufferManager.reserve_current_eq tid b sb (zlen text) s Hs
    (conj Hn Hz) Ht Hb) as E. unfold SendBuffer.MAX_BUFFER_SIZE in E.
  destruct (Z.leb_spec 4096 (SendBuffer._usedSize sb)) as [|_]; [lia|].
  destruct (Z.ltb_spec (SendBuffer.FreeSize sb) (zlen text)) as [Hf|Hf]; cbn [orb] in E.
  { by rewrite E. }
  rewrite E. cbn [obind].
  destruct (SendBufferManager.reserve_current_inv _ _ _ _ _ Hs Hn E)
    as (b1 & sb1 & sb1' & Ht1 & Hb1 & Hp & Hr & _ & Hi).
  assert (b1 = b) as -> by congruence. assert (sb1 = sb) as -> by congruence.
  assert (Eb : bytes_at (text ++ 0 :: rest) 0 (zlen text) = text).
  { unfold bytes_at, zlen. rewrite Nat2Z.id. apply take_app_length. }
  rewrite Eb.
  pose proof (SendBufferManager.reserve_current_zeroed _ _ _ _ _ Hs Hn E) as L1.
  assert (H0 : 0 + zlen text <= zlen text) by lia.
  destruct (SendBufferManager.store_at_ok _ 0 text _ _ _ Hi (Z.le_refl 0) H0 L1)
    as (s2 & E2 & _ & L2).
  rewrite E2. cbn [obind]. exists s2. split; [done|]. rewrite L2. f_equal.
  unfold splice, zlen. rewrite Nat2Z.id. simpl.
  rewrite drop_ge by (rewrite length_replicate; lia). by rewrite app_nil_r.
Qed.

Lemma SendRaw_is_never_flushed_witness :
  exists s', SendRaw 1 (Some [72; 105; 0]) (new 7) PacketWrapper.one_thread =
      Ret (mk [] 2 7, s') /\
    SendBufferManager.load_at (0, 0) 2 s' = Ret [72; 105].
Proof.
  apply (SendRaw_is_never_flushed 1 [72; 105] [] (new 7) PacketWrapper.one_thread 0
    SendBuffer.new PacketWrapper.one_thread_ok eq_refl eq_refl);
    [repeat constructor; discriminate|vm_compute; discriminate|reflexivity].
Defined.
End PacketSession.
