(* ===== verification/SocketUtils.v ===== *)
(** SocketUtils.h/.cpp and AddrUtils.h: the wrappers around Winsock. The
    operating system is an arbitrary function from the calls made so far to the
    reply of the next one; every call and every virtual method of the user is
    logged, so that theorems can speak of their order. *)
From S2P Require Import Prelude ErrorHandler SendBuffer Packet.
#[local] Open Scope Z_scope.

(** ** Socket addresses *)
(** [SOCKADDR_IN]; port and address in network byte order. *)
Record SOCKADDR_IN := mk_addr { sin_family : Z; sin_port : Z; sin_addr : Z }.

Inductive sockopt :=
| SO_LINGER (l_onoff l_linger : Z)
| SO_REUSEADDR (flag : bool)
| SO_RCVBUF (size : Z)
| SO_SNDBUF (size : Z)
| TCP_NODELAY (flag : bool)
| SO_UPDATE_ACCEPT_CONTEXT (listenSocket : Z)
| SO_UPDATE_CONNECT_CONTEXT.

(** Extension functions loaded through [WSAIoctl]. *)
Inductive extension := WSAID_CONNECTEX | WSAID_ACCEPTEX | WSAID_DISCONNECTEX.

(** ** Calls to the operating system, and the log of a run *)
Inductive sys :=
| WSAStartup (version : Z)
| WSACleanup
| WSAIoctl (socket : Z) (guid : extension)
| WSASocketW
| closesocket (socket : Z)
| setsockopt_SOL_SOCKET (socket : Z) (opt : sockopt)
| bind (socket : Z) (addr : SOCKADDR_IN)
| listen (socket : Z) (backlog : Z)
| getsockname (socket : Z)
| getpeername (socket : Z)
| CreateIoCompletionPort_new
| CreateIoCompletionPort (handle port : Z)
| AcceptEx (listenSocket acceptSocket writePos : Z)
| ConnectEx (socket : Z) (addr : SOCKADDR_IN)
| DisconnectEx (socket : Z)
| WSASend (socket : Z) (buffers : list WSABUF)
| WSARecv (socket : Z) (len writePos : Z).

(** Virtual methods of [Session], implemented by the user. *)
Inductive callback :=
| OnConnected
| OnSend (n : Z)
| OnRecv (dataPos n : Z)
| OnDisconnected (error : Z).

Inductive act :=
| ASys (q : sys) (res : Z) (err : Z)
| ACall (sessionId : Z) (cb : callback).

(** The operating system: return value and [WSAGetLastError()]. *)
Class OS := os_reply : list act -> sys -> Z * Z.

(** The log and [ErrorHandler::_app_last_error]. *)
Record net := mk_net { log : list act; last_error : Z }.

Definition set_last (e : Z) (n : net) : net := mk_net (log n) e.
Definition note (a : act) (n : net) : net := mk_net (log n ++ [a]) (last_error n).

Section Calls.
Context `{OS, Winsock}.

(** One call: result, [WSAGetLastError()], log. *)
Definition syscall (q : sys) (n : net) : Z * Z * net :=
  let '(res, err) := os_reply (log n) q in
  (res, err, note (ASys q res err) n).

(** [ErrorHandler::WSACheckSocketError] on the network state. *)
Definition check_socket_error (value : Z) (e : Errors) (crash : bool) (n : net)
  : outcome (bool * net) :=
  let! (b, last) := ErrorHandler.WSACheckSocketError value e crash (last_error n) in
  Ret (b, set_last last n).

(** [ErrorHandler::CheckError]: [true] when the result is [Errors::NONE]. *)
Definition check (condition : bool) (e : Errors) (n : net) : bool * net :=
  let '(r, last) := ErrorHandler.CheckError condition e (last_error n) in
  (r =? code ERR_NONE, set_last last n).

(** [ErrorHandler::WSACheckErrorExceptPending]. *)
Definition check_except_pending (condition : bool) (e : Errors) (err : Z) (n : net)
  : Z * net :=
  let '(r, last) := ErrorHandler.WSACheckErrorExceptPending condition e err (last_error n) in
  (r, set_last last n).

End Calls.

Module SocketUtils.
Section SocketUtils.
Context `{OS, Winsock}.

Definition WSAIoctlHelper (s : Z) (guid : extension) (n : net) : Z * net :=
  let '(res, _, n) := syscall (WSAIoctl s guid) n in (res, n).

Definition CreateSocket (n : net) : outcome (Z * net) :=
  let '(socket, _, n) := syscall WSASocketW n in
  let! (_, last) :=
    ErrorHandler.CheckSocketValid socket WSASOCKETW_FAILED true (last_error n) in
  Ret (socket, set_last last n).

(** The pattern of the setters: a call, then the check of its result. *)
Definition checked (q : sys) (e : Errors) (crash : bool) (n : net) : outcome (bool * net) :=
  let '(res, _, n) := syscall q n in check_socket_error res e crash n.

Definition SetLinger (s onoff linger : Z) : net -> outcome (bool * net) :=
  checked (setsockopt_SOL_SOCKET s (SO_LINGER onoff linger)) WSA_SET_LINGER_FAILED false.
Definition SetReuseAddress (s : Z) (flag : bool) : net -> outcome (bool * net) :=
  checked (setsockopt_SOL_SOCKET s (SO_REUSEADDR flag)) WSA_SET_REUSEADDR_FAILED false.
Definition SetRecvBufferSize (s size : Z) : net -> outcome (bool * net) :=
  checked (setsockopt_SOL_SOCKET s (SO_RCVBUF size)) WSA_SET_RCVBUF_FAILED false.
Definition SetSendBufferSize (s size : Z) : net -> outcome (bool * net) :=
  checked (setsockopt_SOL_SOCKET s (SO_SNDBUF size)) WSA_SET_SNDBUF_FAILED false.
Definition SetTcpNoDelay (s : Z) (flag : bool) : net -> outcome (bool * net) :=
  checked (setsockopt_SOL_SOCKET s (TCP_NODELAY flag)) WSA_SET_TCP_NODELAY_FAILED false.
Definition SetUpdateAcceptSocket (s listenSocket : Z) : net -> outcome (bool * net) :=
  checked (setsockopt_SOL_SOCKET s (SO_UPDATE_ACCEPT_CONTEXT listenSocket))
    WSA_SET_UPDATE_ACCEPT_CONTEXT_FAILED false.
Definition SetUpdateConnectContext (s : Z) : net -> outcome (bool * net) :=
  checked (setsockopt_SOL_SOCKET s SO_UPDATE_CONNECT_CONTEXT)
    WSA_SETSOCKOPT_UPDATE_CONNECT_CONTEXT_FAILED false.
Definition Bind (listenSocket : Z) (addr : SOCKADDR_IN) : net -> outcome (bool * net) :=
  checked (bind listenSocket addr) WSA_BIND_FAILED true.
Definition Listen (listenSocket backlog : Z) : net -> outcome (bool * net) :=
  checked (listen listenSocket backlog) WSA_LISTEN_FAILED true.

(** [Close(Socket& socket)]: the reference is left invalid. *)
Definition Close (socket : Z) (n : net) : outcome (Z * net) :=
  let! n :=
    (if negb (socket =? INVALID_SOCKET) then
       let! (_, n) := checked (closesocket socket) WSA_CLOSE_SOCKET_FAILED true n in Ret n
     else Ret n) in
  Ret (INVALID_SOCKET, n).

Definition _load_fn_pointers (n : net) : outcome net :=
  let! (s, n) := CreateSocket n in
  let '(res, n) := WSAIoctlHelper s WSAID_CONNECTEX n in
  let! (_, n) := check_socket_error res WSAIOCTL_CONNECTEX_FAILED true n in
  let '(res, n) := WSAIoctlHelper s WSAID_ACCEPTEX n in
  let! (_, n) := check_socket_error res WSAIOCTL_ACCEPTEX_FAILED true n in
  let '(res, n) := WSAIoctlHelper s WSAID_DISCONNECTEX n in
  let! (_, n) := check_socket_error res WSAIOCTL_DISCONNECTEX_FAILED true n in
  let! (_, n) := Close s n in
  Ret n.

(** [MAKEWORD(2, 2)] = 0x0202. *)
Definition Init (n : net) : outcome net :=
  let '(res, _, n) := syscall (WSAStartup 514) n in
  let! (_, n) := check_socket_error res WSASTARTUP_FAILED true n in
  _load_fn_pointers n.

Definition Clear (n : net) : outcome net :=
  let! (_, n) := checked WSACleanup WSAClEANUP_FAILED false n in Ret n.
End SocketUtils.
End SocketUtils.

(** ** Addresses *)

(** The byte-order and text conversions of Winsock, by their documented laws. *)
Class Inet := {
  AF_INET : Z;
  INADDR_ANY : Z;
  htons : Z -> Z;
  ntohs : Z -> Z;
  htonl : Z -> Z;
  (** [InetPton]: result code and address. *)
  InetPton : list Z -> Z * Z;
  htons_range p : 0 <= p < 65536 -> 0 <= htons p < 65536;
  ntohs_htons p : 0 <= p < 65536 -> ntohs (htons p) = p;
  htons_0 : htons 0 = 0;
}.

Module AddrUtils.
Section AddrUtils.
Context `{Inet}.

Definition ANY_PORT : Z := 0.
Definition MAX_PORT : Z := 65535.

Definition GetTcpAddress (ip : list Z) (port : Z) : SOCKADDR_IN :=
  mk_addr AF_INET (htons port) (InetPton ip).2.

Definition SetTcpAddress (ip : list Z) (port : Z) : bool * SOCKADDR_IN :=
  let addr := mk_addr AF_INET (htons port) (InetPton ip).2 in
  ((if (InetPton ip).1 <=? 0 then false else true), addr).

Definition GetMyAddress (port : Z) : SOCKADDR_IN :=
  mk_addr AF_INET (htons port) (htonl INADDR_ANY).

Definition IsValid (addr : SOCKADDR_IN) : bool :=
  if negb (sin_family addr =? AF_INET) then false
  else if (sin_port addr =? 0) || (MAX_PORT <? sin_port addr) then false
  else true.

(** An address built by [GetTcpAddress] is accepted by [IsValid] exactly when
    its port is not 0, and no address with a 16-bit port is ever refused for a
    port above [MAX_PORT]; the text of the ip is not checked. *)
Theorem IsValid_GetTcpAddress ip port :
  0 <= port < 65536 ->
  IsValid (GetTcpAddress ip port) = negb (port =? 0) /\
  forall fam a p, 0 <= p < 65536 ->
    IsValid (mk_addr fam p a) = (fam =? AF_INET) && negb (p =? 0).
Proof.
  intros Hp. assert (Hall : forall fam a p, 0 <= p < 65536 ->
    IsValid (mk_addr fam p a) = (fam =? AF_INET) && negb (p =? 0)).
  { intros fam a p Hr. unfold IsValid, MAX_PORT. cbn [sin_family sin_port].
    destruct (fam =? AF_INET); [|done]. simpl.
    destruct (Z.eqb_spec p 0), (Z.ltb_spec 65535 p); simpl; done || lia. }
  split; [|exact Hall]. unfold GetTcpAddress.
  rewrite Hall by (apply htons_range; lia). rewrite Z.eqb_refl. simpl. f_equal.
  destruct (Z.eqb_spec port 0) as [->|Hne].
  - by rewrite htons_0.
  - apply Z.eqb_neq. intros E. apply Hne.
    rewrite <- (ntohs_htons port Hp), E. rewrite <- htons_0 at 1. apply ntohs_htons. lia.
Qed.
End AddrUtils.

(** [SocketUtils::BindAnyAddress(socket, port)]: the port is not used, the address
    is [AddrUtils::GetMyAddress()]. *)
Definition BindAnyAddress `{Inet, OS, Winsock} (socket port : Z) (n : net)
  : outcome (bool * net) :=
  SocketUtils.checked (bind socket (GetMyAddress ANY_PORT)) WSA_BIND_ANYADDRESS_FAILED true n.

(** The conversions of a little-endian machine, with [InetPton] left trivial. *)
#[global] Instance little_endian : Inet.
Proof.
  refine {| AF_INET := 2; INADDR_ANY := 0;
    htons p := (p mod 256) * 256 + p / 256; ntohs p := (p mod 256) * 256 + p / 256;
    htonl a := a; InetPton ip := (1, Z.of_nat (length ip)) |}.
  - intros p Hp. pose proof (Z.mod_pos_bound p 256 ltac:(lia)).
    pose proof (Z.div_pos p 256 ltac:(lia) ltac:(lia)).
    pose proof (Z.div_lt_upper_bound p 256 256 ltac:(lia) ltac:(lia)). lia.
  - intros p Hp. pose proof (Z.mod_pos_bound p 256 ltac:(lia)).
    pose proof (Z.div_mod p 256 ltac:(lia)).
    pose proof (Z.div_pos p 256 ltac:(lia) ltac:(lia)).
    pose proof (Z.div_lt_upper_bound p 256 256 ltac:(lia) ltac:(lia)).
    rewrite !(Z.add_comm (p mod 256 * 256)), Z.mod_add by lia. rewrite (Z.mod_small (p / 256)) by lia.
    rewrite Z.div_add by lia. rewrite (Z.div_small (p / 256)) by lia. lia.
  - reflexivity.
Defined.

Lemma IsValid_GetTcpAddress_witness :
  IsValid (GetTcpAddress [49; 50; 55] 8080) = true /\ 0 <= 8080 < 65536.
Proof.
  split; [|lia]. exact (proj1 (IsValid_GetTcpAddress [49; 50; 55] 8080 ltac:(lia))).
Defined.
End AddrUtils.

Module SocketCalls.
Section Lemmas.
Context `{OS, Winsock}.

(** A checked call never crashes: it reports whether the result is an error. *)
Lemma checked_eq q e crash n :
  exists n', SocketUtils.checked q e crash n =
      Ret (negb ((os_reply (log n) q).1 =? SOCKET_ERROR), n') /\
    log n' = log n ++ [ASys q (os_reply (log n) q).1 (os_reply (log n) q).2] /\
    last_error n' = if (os_reply (log n) q).1 =? SOCKET_ERROR then code e else last_error n.
Proof.
  unfold SocketUtils.checked, syscall. destruct (os_reply (log n) q) as [res err].
  unfold check_socket_error, ErrorHandler.WSACheckSocketError. simpl.
  destruct (res =? SOCKET_ERROR); [destruct crash|]; simpl; eauto.
Qed.

Lemma checked_ok q e crash n :
  (os_reply (log n) q).1 <> SOCKET_ERROR ->
  exists n', SocketUtils.checked q e crash n = Ret (true, n').
Proof.
  intros Hq. destruct (checked_eq q e crash n) as (n' & -> & _).
  exists n'. apply Z.eqb_neq in Hq. by rewrite Hq.
Qed.

Lemma CreateSocket_eq n :
  exists n', SocketUtils.CreateSocket n = Ret ((os_reply (log n) WSASocketW).1, n') /\
    log n' = log n ++ [ASys WSASocketW (os_reply (log n) WSASocketW).1
                         (os_reply (log n) WSASocketW).2].
Proof.
  unfold SocketUtils.CreateSocket, syscall.
  destruct (os_reply (log n) WSASocketW) as [res err].
  unfold ErrorHandler.CheckSocketValid. simpl.
  destruct (res =? INVALID_SOCKET); simpl; eauto.
Qed.

Lemma Close_eq s n :
  exists n', SocketUtils.Close s n = Ret (INVALID_SOCKET, n') /\
    log n' = log n ++ (if s =? INVALID_SOCKET then []
      else [ASys (closesocket s) (os_reply (log n) (closesocket s)).1
              (os_reply (log n) (closesocket s)).2]).
Proof.
  unfold SocketUtils.Close. destruct (s =? INVALID_SOCKET); simpl.
  { exists n. by rewrite app_nil_r. }
  destruct (checked_eq (closesocket s) WSA_CLOSE_SOCKET_FAILED true n)
    as (n' & -> & Hl & _).
  exists n'. simpl. by rewrite Hl.
Qed.
End Lemmas.

(** [SocketUtils::Init] never stops on an error: whatever Winsock answers,
    even when [WSAStartup] fails (its error codes are not SOCKET_ERROR) or no
    socket can be created, it goes on to load the three extension functions and
    returns. *)
Theorem Init_never_fails `{OS, Winsock} n :
  exists n' s r0 r1 r2 r3 r4, SocketUtils.Init n = Ret n' /\
    log n' = log n ++ [ASys (WSAStartup 514) r0.1 r0.2; ASys WSASocketW s r1;
      ASys (WSAIoctl s WSAID_CONNECTEX) r2.1 r2.2;
      ASys (WSAIoctl s WSAID_ACCEPTEX) r3.1 r3.2;
      ASys (WSAIoctl s WSAID_DISCONNECTEX) r4.1 r4.2] ++
      (if s =? INVALID_SOCKET then []
       else [ASys (closesocket s) (os_reply (take (length (log n) + 5) (log n'))
               (closesocket s)).1 (os_reply (take (length (log n) + 5) (log n'))
               (closesocket s)).2]).
Proof.
  unfold SocketUtils.Init, SocketUtils._load_fn_pointers.
  assert (Hchk : forall res e n, exists b n', check_socket_error res e true n = Ret (b, n') /\
     log n' = log n).
  { intros res e m. unfold check_socket_error, ErrorHandler.WSACheckSocketError.
    destruct (res =? SOCKET_ERROR); simpl; eauto. }
  unfold syscall at 1. destruct (os_reply (log n) (WSAStartup 514)) as [a0 b0] eqn:E0.
  destruct (Hchk a0 WSASTARTUP_FAILED (note (ASys (WSAStartup 514) a0 b0) n))
    as (b & n1 & -> & L1). cbn [obind].
  destruct (CreateSocket_eq n1) as (n2 & -> & L2). cbn [obind].
  set (s := (os_reply (log n1) WSASocketW).1) in *.
  unfold SocketUtils.WSAIoctlHelper.
  unfold syscall at 1. destruct (os_reply (log n2) _) as [a2 b2].
  match goal with |- context [check_socket_error a2 ?e true ?m] =>
    destruct (Hchk a2 e m) as (? & n3 & -> & L3) end. cbn [obind].
  unfold syscall at 1. destruct (os_reply (log n3) _) as [a3 b3].
  match goal with |- context [check_socket_error a3 ?e true ?m] =>
    destruct (Hchk a3 e m) as (? & n4 & -> & L4) end. cbn [obind].
  unfold syscall at 1. destruct (os_reply (log n4) _) as [a4 b4].
  match goal with |- context [check_socket_error a4 ?e true ?m] =>
    destruct (Hchk a4 e m) as (? & n5 & -> & L5) end. cbn [obind].
  destruct (Close_eq s n5) as (n6 & -> & L6). cbn [obind].
  exists n6, s, (a0, b0), (os_reply (log n1) WSASocketW).2, (a2, b2), (a3, b3), (a4, b4).
  split; [done|].
  assert (E : log n5 = log n ++ [ASys (WSAStartup 514) a0 b0;
    ASys WSASocketW s (os_reply (log n1) WSASocketW).2;
    ASys (WSAIoctl s WSAID_CONNECTEX) a2 b2; ASys (WSAIoctl s WSAID_ACCEPTEX) a3 b3;
    ASys (WSAIoctl s WSAID_DISCONNECTEX) a4 b4]).
  { rewrite L5. simpl. rewrite L4. simpl. rewrite L3. simpl. rewrite L2, L1. simpl.
    by rewrite <- !app_assoc. }
  rewrite app_assoc. cbn [fst snd]. rewrite <- E.
  assert (Et : take (length (log n) + 5) (log n6) = log n5).
  { rewrite L6. rewrite take_app_length'; [done|]. rewrite E, length_app. done. }
  rewrite Et. exact L6.
Qed.
End SocketCalls.
