(* ===== verification/Shutdown.v ===== *)
(** The ends of things: the destructors of MemoryPool.cpp, Memory.cpp and
    SendBufferManager.cpp, and CoreGlobal.cpp, which makes and destroys the global
    objects of the library in its order. *)
From stdpp Require Import strings.
From S2P Require Import Prelude ErrorHandler SocketUtils Memory Allocators SendBuffer.
#[local] Open Scope Z_scope.

Module Shutdown.
Import Memory.

Section Destructors.
Context {H L : Type} `{!AlignedHeap H} `{!SListOps L} `{!Platform}.
Implicit Types (m : mem H L).

(** [MemoryPool::~MemoryPool()]: [while (memory = InterlockedPopEntrySList(...))
    _aligned_free(memory)]. *)
Fixpoint delete_pool (fuel : nat) (l : L) (h : H) : outcome (L * H) :=
  match fuel with
  | O => NoFuel
  | S fuel =>
      let '(memory, l) := InterlockedPopEntrySList l in
      match memory with
      | None => Ret (l, h)
      | Some a => delete_pool fuel l (aligned_free a h)
      end
  end.

(** [Memory::~Memory()]: the pools in order, then [_pools.clear()]. *)
Fixpoint delete_pools (ps : list (pool L)) (h : H) : outcome H :=
  match ps with
  | [] => Ret h
  | p :: ps =>
      let! (_, h) := delete_pool (S (length (sl_items (_header p)))) (_header p) h in
      delete_pools ps h
  end.
Definition delete_Memory (m : mem H L) : outcome H := delete_pools (_pools m) (cheap m).
End Destructors.

(** [SendBufferManager::~SendBufferManager()]: the members are destroyed, first
    [_buffers]. Destroying an element calls its deleter [_push], which pushes the
    buffer to the vector that is being destroyed. *)
Definition destroy_buffers (s : SendBufferManager.t) : outcome unit :=
  match SendBufferManager._buffers s with
  | [] => Ret tt
  | _ :: _ => Fault Dangling
  end.

Section CoreGlobal.
Context {H L : Type} `{!AlignedHeap H} `{!SListOps L} `{!Platform}.
Context `{OS, Winsock}.
(** [sizeof(SendBufferSPtr)]. *)
Context (SIZEOF_SPtr : Z).

(** The global pointers, the send buffers with the storage of their vector, the
    names of the errors, and Winsock. *)
Record globals := mk {
  GLogger : bool;
  GMemory : option (mem H L);
  GSendBufferManager : option (SendBufferManager.t * Z);
  GGlobalJobWorker : bool;
  _errors : gmap Z string;
  net_state : net;
}.

(** [new SendBufferManager()]: [_buffers.reserve(RESERVE_BUFFER_COUNT)] allocates
    from [GMemory]. *)
Definition new_manager (g : option (mem H L))
  : outcome (SendBufferManager.t * Z * option (mem H L)) :=
  match g with
  | None => Fault NullDeref
  | Some m =>
      let! (storage, m) :=
        Allocators.allocate SIZEOF_SPtr SendBufferManager.RESERVE_BUFFER_COUNT m in
      Ret (SendBufferManager.new, storage, Some m)
  end.

(** [CoreGlobal::_init]; [h] is the C heap. *)
Definition _init (h : H) (g : globals) : outcome globals :=
  let! m := Memory_new h in
  let! (s, storage, m) := new_manager (Some m) in
  let errors := ErrorHandler.InitErrorMap (_errors g) in
  let! n := SocketUtils.Init (net_state g) in
  Ret (mk true m (Some (s, storage)) true errors n).

(** [delete GSendBufferManager]. *)
Definition delete_manager (g : option (SendBufferManager.t * Z)) (m : option (mem H L))
  : outcome (option (mem H L)) :=
  match g with
  | None => Ret m
  | Some (s, storage) =>
      let! _ := destroy_buffers s in
      match m with
      | None => Fault NullDeref
      | Some m =>
          let! m := Allocators.deallocate storage SendBufferManager.RESERVE_BUFFER_COUNT m in
          Ret (Some m)
      end
  end.

(** [CoreGlobal::~CoreGlobal()]: the worker, the send buffers, the memory, the
    logger, Winsock. What is left is the C heap. *)
Definition destroy (g : globals) : outcome (option H * net) :=
  let! m := delete_manager (GSendBufferManager g) (GMemory g) in
  let! h := match m with
            | None => Ret None
            | Some m => let! h := delete_Memory m in Ret (Some h)
            end in
  let! n := SocketUtils.Clear (net_state g) in
  Ret (h, n).

(** The end of a program: the [thread_local] objects of the main thread [tid], then
    the static objects. *)
Definition exit_program (tid : Z) (g : globals) : outcome (option H * net) :=
  destroy (mk (GLogger g) (GMemory g)
    (match GSendBufferManager g with
     | Some (s, storage) => Some (SendBufferManager.exit_thread tid s, storage)
     | None => None
     end) (GGlobalJobWorker g) (_errors g) (net_state g)).
End CoreGlobal.

(** ** The memory *)
Section Memory.
Context {H L : Type} `{!AlignedHeap H} `{!SListOps L} `{!Platform}.
Implicit Types (m : mem H L).

(** [h'] is [h] without the blocks [l]. *)
Definition freed (l : list Z) (h h' : H) : Prop :=
  ah_ok h' /\ (forall a, a ∈ l -> ah_blocks h' !! a = None) /\
  (forall a, a ∉ l -> ah_blocks h' !! a = ah_blocks h !! a).

Lemma freed_nil h : ah_ok h -> freed [] h h.
Proof. intros Hok. split_and!; [done|by intros a ?%elem_of_nil|done]. Qed.

Lemma freed_app l1 l2 h h1 h2 : freed l1 h h1 -> freed l2 h1 h2 -> freed (l1 ++ l2) h h2.
Proof.
  intros (_ & F1 & E1) (Hok & F2 & E2). split_and!; [done|..]; intros a Ha.
  - destruct (decide (a ∈ l2)) as [|Hn]; [by apply F2|]. rewrite E2 by done. apply F1.
    by apply elem_of_app in Ha as [|].
  - rewrite E2, E1; [done|..]; intros Hin; apply Ha, elem_of_app; auto.
Qed.

Lemma freed_one a h : ah_ok h -> is_Some (ah_blocks h !! a) -> freed [a] h (aligned_free a h).
Proof.
  intros Hok Ha. destruct (ah_free_ok a h Hok Ha) as [Hok' E]. split_and!; [done|..]; intros b Hb;
    rewrite E.
  - apply list_elem_of_singleton in Hb as ->. by rewrite lookup_delete_eq.
  - rewrite lookup_delete_ne; [done|]. intros ->. apply Hb. by apply list_elem_of_singleton.
Qed.

(** The loop of [~MemoryPool] ends and frees every block of the pool once. *)
Lemma delete_pool_ok : forall items l (h : H),
  sl_items l = items -> ah_ok h -> NoDup items ->
  (forall a, a ∈ items -> is_Some (ah_blocks h !! a)) ->
  exists l' h', delete_pool (S (length items)) l h = Ret (l', h') /\
    sl_items l' = [] /\ freed items h h'.
Proof.
  induction items as [|a items IH]; intros l h El Hok Hnd Hb;
    cbn [length delete_pool]; destruct (sl_pop_items l) as [E1 E2]; rewrite El in E1, E2;
    destruct (InterlockedPopEntrySList l) as [e l1]; cbn [fst snd head tail] in E1, E2; subst e.
  - exists l1, h. split_and!; [done|done|by apply freed_nil].
  - apply NoDup_cons in Hnd as [Ha Hnd].
    pose proof (freed_one a h Hok (Hb a (list_elem_of_here _ _))) as F1.
    destruct (IH l1 (aligned_free a h) E2) as (l' & h' & E & El' & F2); [apply F1|done|..].
    + intros b Hin. destruct F1 as (_ & _ & F1). rewrite F1; [apply Hb; by apply list_elem_of_further|].
      intros Hba%list_elem_of_singleton. congruence.
    + exists l', h'. split_and!; [exact E|done|]. exact (freed_app [a] items h _ h' F1 F2).
Qed.

Lemma delete_pools_ok : forall (ps : list (pool L)) (h : H),
  ah_ok h -> NoDup (concat (map free_of ps)) ->
  (forall a, a ∈ concat (map free_of ps) -> is_Some (ah_blocks h !! a)) ->
  exists h', delete_pools ps h = Ret h' /\ freed (concat (map free_of ps)) h h'.
Proof.
  induction ps as [|p ps IH]; intros h Hok Hnd Hb; cbn [delete_pools map concat] in *.
  { exists h. split; [done|by apply freed_nil]. }
  apply NoDup_app in Hnd as (Hnd1 & Hdis & Hnd2).
  destruct (delete_pool_ok (free_of p) (_header p) h eq_refl Hok Hnd1) as (l' & h1 & E & _ & F1).
  { intros a Ha. apply Hb, elem_of_app. by left. }
  unfold free_of in E. rewrite E. cbn [obind].
  destruct (IH h1) as (h' & E2 & F2); [apply F1|done|..].
  { intros a Ha. destruct F1 as (_ & _ & F1). rewrite F1; [apply Hb, elem_of_app; by right|].
    intros Hin. by destruct (Hdis a Hin). }
  exists h'. split; [exact E2|]. exact (freed_app _ _ h h1 h' F1 F2).
Qed.

(** Every pooled block is a live C block. *)
Lemma pooled_live lay m used a :
  inv lay m used -> a ∈ pooled m -> is_Some (ah_blocks (cheap m) !! a).
Proof.
  intros Hinv Hin. unfold pooled in Hin. apply list_elem_of_In, in_concat in Hin as (l & Hl & Hin).
  apply list_elem_of_In, list_elem_of_fmap in Hl as (p & -> & Hp).
  apply list_elem_of_lookup in Hp as [i Hi].
  rewrite (inv_free _ _ _ Hinv i p a Hi (proj2 (list_elem_of_In _ _) Hin)). eauto.
Qed.

Lemma delete_Memory_freed lay m used :
  inv lay m used -> exists h', delete_Memory m = Ret h' /\ freed (pooled m) (cheap m) h'.
Proof.
  intros Hinv. apply delete_pools_ok; [apply (inv_heap _ _ _ Hinv)| |].
  - pose proof (inv_nodup _ _ _ Hinv) as Hn. by apply NoDup_app in Hn as (Hn & _ & _).
  - intros a Ha. by eapply pooled_live.
Qed.

(** [~Memory] returns; it frees every block that is in a pool exactly once and
    nothing else: the blocks of allocations that were not released stay allocated,
    and are never freed. *)
Theorem delete_Memory_frees_pooled m used :
  inv the_layout m used ->
  exists h', delete_Memory m = Ret h' /\ ah_ok h' /\
    (forall a, a ∈ pooled m -> is_Some (ah_blocks (cheap m) !! a) /\ ah_blocks h' !! a = None) /\
    (forall a, a ∉ pooled m -> ah_blocks h' !! a = ah_blocks (cheap m) !! a) /\
    (forall p s, (p, s) ∈ used -> exists n, ah_blocks h' !! (p - SIZEOF_MemoryHeader) = Some n /\
       s + SIZEOF_MemoryHeader <= n).
Proof.
  intros Hinv. destruct (delete_Memory_freed the_layout m used Hinv) as (h' & E & Hok & F1 & F2).
  exists h'. split_and!; [done|done| |done|].
  - intros a Ha. split; [by eapply pooled_live|by apply F1].
  - intros p s Hin. pose proof (inv_live _ _ _ Hinv) as Hl. rewrite Forall_forall in Hl.
    destruct (Hl _ Hin) as (_ & _ & _ & n & Hn & Hle & _). exists n. split; [|done].
    change (p - SIZEOF_MemoryHeader) with (header_of (p, s)). rewrite F2; [done|].
    intros Hp. pose proof (inv_nodup _ _ _ Hinv) as Hnd. apply NoDup_app in Hnd as (_ & Hnd & _).
    apply (Hnd _ Hp), list_elem_of_fmap. exists (p, s). by split.
Qed.
End Memory.

(** ** The send buffers of the main thread *)
Section Exit.
Import SendBufferManager.

Definition keeps (tid : Z) (s : SendBufferManager.t) : Prop := is_Some (TLS_SendBuffer s !! tid).

Lemma renew_keeps tid i s : keeps tid s \/ i = tid -> keeps tid (renew_TLS i s).
Proof.
  unfold renew_TLS. intros Hk.
  assert (Hpop : TLS_SendBuffer (Pop s).2 = TLS_SendBuffer s)
    by (unfold Pop, make_new; by destruct (last (_buffers s))).
  destruct (Pop s) as [b s1]. cbn [snd] in Hpop. unfold assign_TLS, keeps in *.
  destruct (decide (i = tid)) as [->|Hne].
  - destruct (TLS_SendBuffer s1 !! tid); simpl; rewrite lookup_insert_eq; eauto.
  - destruct Hk as [Hk|]; [|done].
    destruct (TLS_SendBuffer s1 !! i); simpl; rewrite lookup_insert_ne, Hpop by done; done.
Qed.

Lemma op_keeps tid o s r s' :
  keeps tid s -> o <> OExit tid -> apply_op o s = Ret (r, s') -> keeps tid s'.
Proof.
  intros Hk Ho. destruct o as [i|i|i size]; cbn [apply_op].
  - intros [= _ <-]. apply renew_keeps. by left.
  - intros [= _ <-]. unfold exit_thread, keeps in *.
    destruct (TLS_SendBuffer s !! i) as [b|]; [|done]. simpl.
    rewrite lookup_delete_ne; [done|]. intros ->. by apply Ho.
  - unfold Reserve, reserve_current.
    destruct (current i s) as [[b sb]| | |]; try done. cbn [obind].
    assert (Hk1 : keeps tid (if size >? SendBuffer.FreeSize sb then renew_TLS i s else s))
      by (destruct (size >? _); [apply renew_keeps; by left|done]).
    destruct (current i _) as [[b1 sb1]| | |]; try done. cbn [obind].
    destruct (SendBuffer.Reserve size sb1) as [[p sb2]| | |]; try done. by intros [= _ <-].
Qed.

Lemma ops_keep tid : forall os log s log' s',
  keeps tid s -> OExit tid ∉ os -> apply_ops os log s = Ret (log', s') -> keeps tid s'.
Proof.
  induction os as [|o os IH]; intros log s log' s' Hk Hno; cbn [apply_ops]; [by intros [= _ <-]|].
  rewrite not_elem_of_cons in Hno. destruct Hno as [Ho Hos].
  destruct (apply_op o s) as [[r s1]| | |] eqn:E; try done. cbn [obind].
  apply IH; [|done]. apply (op_keeps tid o s r s1 Hk); [congruence|done].
Qed.

(** Leaving the last thread that has a buffer leaves a buffer in the pool. *)
Lemma exit_pooled tid s : keeps tid s -> destroy_buffers (exit_thread tid s) = Fault Dangling.
Proof.
  intros [b E]. unfold exit_thread. rewrite E. unfold destroy_buffers. simpl.
  by destruct (_buffers s).
Qed.
End Exit.

Section Global.
Context {H L : Type} `{!AlignedHeap H} `{!SListOps L} `{!Platform}.
Context `{OS, Winsock}.
Context (SIZEOF_SPtr : Z) (SIZEOF_SPtr_bounds : 0 < SIZEOF_SPtr <= 64).
Implicit Types (g : globals (H := H) (L := L)).

Definition with_manager (s : SendBufferManager.t) (storage : Z) (g : globals (H := H) (L := L)) :=
  mk (GLogger g) (GMemory g) (Some (s, storage)) (GGlobalJobWorker g) (_errors g) (net_state g).

Hypothesis heap_total : forall n al (h : H), ah_ok h -> 0 <= n ->
  is_Some (aligned_malloc n al h).

(** C31: the life of the library. [_init] returns on a C heap in order, with nothing
    allocated but the storage of the pool of send buffers; a program that ends
    without having used the library is destroyed in order. But once the main thread
    has taken a send buffer, as the constructor of either task manager makes it do,
    the end of the program is undefined: whatever the threads did in between, the
    destructor of [SendBufferManager] finds a buffer whose deleter pushes it to the
    vector under destruction. *)
Theorem used_library_cannot_be_destroyed (h : H) n :
  ah_ok h ->
  exists g m storage, _init SIZEOF_SPtr h (mk false None None false ∅ n) = Ret g /\
    GMemory g = Some m /\ GSendBufferManager g = Some (SendBufferManager.new, storage) /\
    inv the_layout m [(storage, 10 * SIZEOF_SPtr)] /\
    (forall tid, exists h' n', exit_program tid g = Ret (Some h', n') /\ ah_ok h') /\
    (forall tid os log s,
       SendBufferManager.apply_ops (SendBufferManager.OInit tid :: os) [] SendBufferManager.new
         = Ret (log, s) ->
       SendBufferManager.OExit tid ∉ os ->
       exit_program tid (with_manager s storage g) = Fault Dangling).
Proof.
  intros Hh. destruct (Memory_new_inv (L := L) h Hh) as (m0 & E0 & Hinv0).
  pose proof SIZEOF_MemoryHeader_bounds as Hhdr.
  destruct (Allocators.allocate_size_ok heap_total m0 [] SIZEOF_SPtr 10 (10 * SIZEOF_SPtr) Hinv0)
    as (storage & m & E & Hinv).
  { lia. } { left. lia. } { apply Allocators.size_small. unfold INT_MAX. lia. }
  destruct (SocketCalls.Init_never_fails n) as (n' & _ & _ & _ & _ & _ & _ & En & _).
  eexists _, m, storage. split_and!.
  - unfold _init. rewrite E0. cbn [obind new_manager].
    unfold SendBufferManager.RESERVE_BUFFER_COUNT. rewrite E. cbn [obind net_state].
    rewrite En. reflexivity.
  - reflexivity.
  - reflexivity.
  - exact Hinv.
  - intros tid. unfold exit_program, destroy. cbn [GSendBufferManager GMemory net_state].
    destruct (Release_ok the_layout m _ 0 _ _ Hinv eq_refl) as (m2 & E2 & Hinv2).
    destruct (delete_Memory_freed the_layout m2 _ Hinv2) as (h' & E3 & Hok & _).
    destruct (SocketCalls.checked_eq WSACleanup WSAClEANUP_FAILED false n') as (n2 & E4 & _).
    exists h', n2. split; [|done].
    unfold delete_manager, destroy_buffers, SendBufferManager.exit_thread, SendBufferManager.new.
    cbn [SendBufferManager.TLS_SendBuffer]. rewrite lookup_empty.
    cbn [SendBufferManager._buffers obind]. unfold Allocators.deallocate, Allocators.Dealloc.
    rewrite E2. cbn [obind]. rewrite E3. cbn [obind]. unfold SocketUtils.Clear. by rewrite E4.
  - intros tid os log s Hrun Hno. cbn [SendBufferManager.apply_ops SendBufferManager.apply_op obind] in Hrun.
    unfold exit_program, destroy, delete_manager, with_manager. cbn [GSendBufferManager].
    rewrite (exit_pooled tid s); [done|].
    apply (ops_keep tid os [] (SendBufferManager.renew_TLS tid SendBufferManager.new) log s); [|done|exact Hrun]. apply renew_keeps. by right.
Qed.
End Global.

(** ** Instances *)
Lemma delete_Memory_frees_pooled_witness :
  exists (m0 m1 : mem bump (list Z)) m2 p h', Memory_new heap0 = Ret m0 /\
    Allocate 100 m0 = Ret (p, m1) /\ Release p m1 = Ret m2 /\ delete_Memory m2 = Ret h' /\
    ah_ok h'.
Proof.
  destruct (Memory_new_inv (L := list Z) heap0 heap0_ok) as (m0 & E0 & Hinv0).
  destruct (Allocate_ok the_layout served_pool bump_total m0 [] 100 Hinv0 ltac:(lia)
    ltac:(left; cbn; lia)) as (a & m1 & E1 & Hinv1).
  destruct (Release_ok the_layout m1 _ 0 _ _ Hinv1 eq_refl) as (m2 & E2 & Hinv2).
  destruct (delete_Memory_frees_pooled m2 _ Hinv2) as (h' & E3 & Hok & _).
  exists m0, m1, m2, (a + SIZEOF_MemoryHeader), h'.
  split; [exact E0|]. split; [exact E1|]. split; [exact E2|]. split; [exact E3|exact Hok].
Defined.

(** The main thread takes its buffer and reserves 100 bytes before the end. *)
Lemma used_library_cannot_be_destroyed_witness :
  exists (g : globals (H := bump) (L := list Z)) s storage,
    SendBufferManager.apply_ops [SendBufferManager.OInit 1; SendBufferManager.OReserve 1 100] []
      SendBufferManager.new = Ret ([((0, 0), 100)], s) /\
    @exit_program bump (list Z) bump_heap list_SList x64 (fun _ _ => (0, 0)) winsock2 1
      (with_manager s storage g) = Fault Dangling.
Proof.
  assert (Hb : 0 < 16 <= 64) by lia.
  destruct (@used_library_cannot_be_destroyed bump (list Z) bump_heap list_SList x64
    (fun _ _ => (0, 0)) winsock2 16 Hb bump_total heap0 (mk_net [] 0) heap0_ok)
    as (g & m & storage & _ & _ & _ & _ & _ & Hexit).
  eexists g, _, storage. split; [reflexivity|].
  eapply (Hexit 1 [SendBufferManager.OReserve 1 100]); [reflexivity|].
  intros [Hx|Hx]%elem_of_cons; [discriminate Hx|by apply elem_of_nil in Hx].
Defined.
End Shutdown.
