(* ===== verification/Logger.v ===== *)
(** CoreLogger.h, and the two overloads of [InitNetCore] in CoreGlobal.cpp that make
    the logger. The glog library is outside: what the constructors ask of it is the
    list of their calls. *)
From stdpp Require Import strings.
From S2P Require Import Prelude ErrorHandler SocketUtils Memory Allocators SendBuffer Shutdown.
#[local] Open Scope Z_scope.

Module CoreLogger.

Record LoggerConfig := mk_config {
  LogToStderr : bool;
  DirPath : string;
  InfoPathPrefix : string;
  ErrorPathPrefix : string;
  FatalPathPrefix : string;
  WarningPathPrefix : string;
}.
(** A default-constructed configuration. *)
Definition default_config : LoggerConfig := mk_config false "" "" "" "" "".

Definition LOG_TO_STDERR : bool := false.
Definition INFO_PATH : string := "INFO_".
Definition ERROR_PATH : string := "ERROR_".
Definition FATAL_PATH : string := "FATAL_".
Definition WARNING_PATH : string := "WARNING_".

Inductive LogSeverity := GLOG_INFO | GLOG_WARNING | GLOG_ERROR | GLOG_FATAL.
#[export] Instance severity_eq_dec : EqDecision LogSeverity.
Proof. solve_decision. Defined.

(** The calls of glog, the assignment of [FLAGS_logtostderr] among them. *)
Inductive glog_call :=
| InitGoogleLogging (name : string)
| FLAGS_logtostderr (b : bool)
| SetLogDestination (severity : LogSeverity) (path : string)
| ShutdownGoogleLogging.
#[export] Instance glog_call_eq_dec : EqDecision glog_call.
Proof. solve_decision. Defined.
Implicit Types calls : list glog_call.

Definition _set_log_path (severity : LogSeverity) (dirPath pathPrefix : string) calls :=
  let fullPath := dirPath +:+ "/"%string +:+ pathPrefix in
  calls ++ [SetLogDestination severity fullPath].

(** [CoreLogger(name)]. *)
Definition new (name : string) calls : list glog_call :=
  calls ++ [InitGoogleLogging name; FLAGS_logtostderr LOG_TO_STDERR;
    SetLogDestination GLOG_INFO INFO_PATH; SetLogDestination GLOG_ERROR ERROR_PATH;
    SetLogDestination GLOG_WARNING WARNING_PATH; SetLogDestination GLOG_FATAL FATAL_PATH].

(** [CoreLogger(name, logdir)]. *)
Definition new_logdir (name logdir : string) calls : list glog_call :=
  let calls := calls ++ [InitGoogleLogging name] in
  let calls := calls ++ [FLAGS_logtostderr LOG_TO_STDERR] in
  let calls := _set_log_path GLOG_INFO logdir INFO_PATH calls in
  let calls := _set_log_path GLOG_ERROR logdir ERROR_PATH calls in
  let calls := _set_log_path GLOG_WARNING logdir WARNING_PATH calls in
  _set_log_path GLOG_FATAL logdir FATAL_PATH calls.

(** [CoreLogger(name, config)], of a pointer that is dereferenced. *)
Definition new_config (name : string) (config : option LoggerConfig) calls
  : outcome (list glog_call) :=
  let calls := calls ++ [InitGoogleLogging name] in
  match config with
  | None => Fault NullDeref
  | Some config =>
      let calls := calls ++ [FLAGS_logtostderr (LogToStderr config)] in
      let calls := _set_log_path GLOG_INFO (DirPath config) (InfoPathPrefix config) calls in
      let calls := _set_log_path GLOG_ERROR (DirPath config) (ErrorPathPrefix config) calls in
      let calls := _set_log_path GLOG_WARNING (DirPath config) (WarningPathPrefix config) calls in
      Ret (_set_log_path GLOG_FATAL (DirPath config) (FatalPathPrefix config) calls)
  end.

(** [~CoreLogger()]. *)
Definition destroy calls : list glog_call := calls ++ [ShutdownGoogleLogging].

(** The destination a severity was given last. *)
Definition destination (severity : LogSeverity) calls : option string :=
  foldl (fun d c => match c with
    | SetLogDestination s path => if decide (s = severity) then Some path else d
    | _ => d end) None calls.

(** The prefix a configuration has for a severity. *)
Definition prefix_of (config : LoggerConfig) (severity : LogSeverity) : string :=
  match severity with
  | GLOG_INFO => InfoPathPrefix config
  | GLOG_WARNING => WarningPathPrefix config
  | GLOG_ERROR => ErrorPathPrefix config
  | GLOG_FATAL => FatalPathPrefix config
  end.

Lemma new_config_new_logdir name logdir calls :
  new_config name (Some (mk_config LOG_TO_STDERR logdir INFO_PATH ERROR_PATH FATAL_PATH WARNING_PATH))
    calls = Ret (new_logdir name logdir calls).
Proof. reflexivity. Qed.

Lemma destination_new_config name config calls calls' severity :
  new_config name (Some config) calls = Ret calls' ->
  destination severity calls' = Some (DirPath config +:+ "/"%string +:+ prefix_of config severity).
Proof.
  intros [= <-]. unfold destination, _set_log_path. rewrite !foldl_app.
  by destruct severity.
Qed.
End CoreLogger.

(** ** The global logger *)
Section InitNetCore.
Context {H L : Type} `{!AlignedHeap H} `{!SListOps L} `{!Platform}.
Context `{OS, Winsock}.
Context (SIZEOF_SPtr : Z).
Import CoreLogger.

(** The globals of CoreGlobal.cpp with the calls of glog. *)
Definition library : Type := (list glog_call * Shutdown.globals (H := H) (L := L))%type.

(** [CoreGlobal::_init(argv0, logdir)] and [CoreGlobal::_init(argv0, loggerConfig)]:
    the logger, then the rest, which is the same in both. *)
Definition _init_logdir (argv0 logdir : string) (h : H) (s : library) : outcome library :=
  let calls := new_logdir argv0 logdir s.1 in
  let! g := Shutdown._init SIZEOF_SPtr h s.2 in
  Ret (calls, g).
Definition _init_config (argv0 : string) (loggerConfig : option LoggerConfig) (h : H) (s : library)
  : outcome library :=
  let! calls := new_config argv0 loggerConfig s.1 in
  let! g := Shutdown._init SIZEOF_SPtr h s.2 in
  Ret (calls, g).
Definition InitNetCore_logdir : string -> string -> H -> library -> outcome library := _init_logdir.
Definition InitNetCore_config
  : string -> option LoggerConfig -> H -> library -> outcome library := _init_config.

(** [CoreGlobal::~CoreGlobal()]: [delete GLogger] does nothing to a null pointer. *)
Definition destroy_library (s : library) : outcome (list glog_call * (option H * net)) :=
  let! r := Shutdown.destroy s.2 in
  Ret (if Shutdown.GLogger s.2 then destroy s.1 else s.1, r).

(** The configuration that the [main] of TestServer fills in. *)
Definition TestServer_config : LoggerConfig :=
  mk_config (LogToStderr default_config) "../TestLogs/Server" "INFO_" "ERROR_" "FATAL_" "WARNING_".

#[local] Opaque Shutdown._init.

Lemma InitNetCore_config_logdir argv0 logdir (h : H) (s : library) :
  InitNetCore_config argv0
    (Some (mk_config LOG_TO_STDERR logdir INFO_PATH ERROR_PATH FATAL_PATH WARNING_PATH)) h s =
  InitNetCore_logdir argv0 logdir h s.
Proof.
  unfold InitNetCore_config, _init_config, InitNetCore_logdir, _init_logdir. cbv zeta.
  rewrite new_config_new_logdir. unfold obind at 1. reflexivity.
Qed.

Lemma TestServer_config_eq :
  TestServer_config =
  mk_config LOG_TO_STDERR "../TestLogs/Server" INFO_PATH ERROR_PATH FATAL_PATH WARNING_PATH.
Proof. reflexivity. Qed.

Lemma InitNetCore_config_null argv0 (h : H) (s : library) :
  InitNetCore_config argv0 None h s = Fault NullDeref.
Proof. unfold InitNetCore_config, _init_config, new_config. cbv zeta. reflexivity. Qed.

(** What a configuration changes: the calls of glog only. *)
Lemma InitNetCore_config_ret argv0 (h : H) (s : library) config s' :
  InitNetCore_config argv0 (Some config) h s = Ret s' ->
  InitNetCore_logdir argv0 (DirPath config) h s =
    Ret (new_logdir argv0 (DirPath config) s.1, s'.2) /\
  forall severity, destination severity s'.1 =
    Some (DirPath config +:+ "/"%string +:+ prefix_of config severity).
Proof.
  intros E. unfold InitNetCore_config, _init_config in E.
  apply obind_ret in E as (calls & Ec & E). apply obind_ret in E as (g & Eg & [= <-]). split.
  - unfold InitNetCore_logdir, _init_logdir. cbv zeta. rewrite Eg. reflexivity.
  - intros severity. exact (destination_new_config argv0 config _ _ severity Ec).
Qed.

(** InitNetCore with a configuration. It dereferences a null pointer; otherwise it
    does what the overload with a directory does to the rest of the library, every
    severity gets its own prefix in the directory, and with the four prefixes of the
    logger the two overloads are equal: the call TestServer makes and the one it has
    commented out do the same. A default configuration sends all the severities to
    one path, at the root of the file system. *)
Theorem InitNetCore_overloads_agree argv0 (h : H) (s : library) :
  InitNetCore_config argv0 None h s = Fault NullDeref /\
  (forall logdir, InitNetCore_config argv0
     (Some (mk_config LOG_TO_STDERR logdir INFO_PATH ERROR_PATH FATAL_PATH WARNING_PATH)) h s =
   InitNetCore_logdir argv0 logdir h s) /\
  InitNetCore_config argv0 (Some TestServer_config) h s =
    InitNetCore_logdir argv0 "../TestLogs/Server" h s /\
  forall config s', InitNetCore_config argv0 (Some config) h s = Ret s' ->
    InitNetCore_logdir argv0 (DirPath config) h s =
      Ret (new_logdir argv0 (DirPath config) s.1, s'.2) /\
    (forall severity, destination severity s'.1 =
       Some (DirPath config +:+ "/"%string +:+ prefix_of config severity)) /\
    (config = default_config -> forall severity, destination severity s'.1 = Some "/"%string).
Proof.
  split; [apply InitNetCore_config_null|]. split; [intros; apply InitNetCore_config_logdir|].
  split; [rewrite TestServer_config_eq; apply InitNetCore_config_logdir|].
  intros config s' E. apply InitNetCore_config_ret in E as [E Hd].
  split; [exact E|]. split; [exact Hd|]. intros -> severity. rewrite Hd. by destruct severity.
Qed.
End InitNetCore.
