(* ===== verification/Session.v ===== *)
(** Session.h / Session.cpp and IOCPEvent.h: the life of a connection. Module
    Session is the sequential meaning of every member function against an
    arbitrary operating system and an abstract service; Module SendPath (file
    SendPath.v) is the concurrent meaning of [_send]. *)
From S2P Require Import Prelude ErrorHandler RecvBuffer SendBuffer Packet SocketUtils.
#[local] Open Scope Z_scope.

(** [enum ServiceType] of Service.h. *)
Inductive ServiceType := None_ | Client | Server.

(** What a session needs from the service that owns it. *)
Class ServiceOps (W : Type) := {
  GetServiceType : W -> ServiceType;
  (** [ReleaseSession(session)]. *)
  ReleaseSession : Z -> W -> bool * W;
}.

(** [enum struct EventType]. *)
Inductive EventType := Connect | Disconnect | Accept | Send | Recv.

Module Session.

Definition RECV_BUFFER_SIZE : Z := 65536.

(** [enum DisconnectError]. *)
Inductive DisconnectError :=
| NONE | SERVER_SERVICE_STOPPED | CLIENT_SERVICE_STOPPED | SENT_0 | RECV_0
| RECV_BUFFER_WRTIE_OVERFLOW | PROCESS_LEN_0 | RECV_BUFFER_READ_OVERFLOW
| ALREADY_DISCONNECTED.
Definition error_code (e : DisconnectError) : Z :=
  match e with
  | NONE => 0 | SERVER_SERVICE_STOPPED => 1 | CLIENT_SERVICE_STOPPED => 2
  | SENT_0 => 3 | RECV_0 => 4 | RECV_BUFFER_WRTIE_OVERFLOW => 5
  | PROCESS_LEN_0 => 6 | RECV_BUFFER_READ_OVERFLOW => 7 | ALREADY_DISCONNECTED => 8
  end.

(** [struct IOCPEvent]: its kind and whether [_iocpObject] designates the
    session. [Clear] zeroes the [OVERLAPPED]; [ReleaseIOCPObjectSPtr] has an empty
    body. *)
Record IOCPEvent := mk_event { _eventType : EventType; _iocpObject : option Z }.
Definition event_Clear (e : IOCPEvent) : IOCPEvent := e.
Definition ReleaseIOCPObjectSPtr (e : IOCPEvent) : IOCPEvent := e.
Definition SetIOCPObjectSPtr (o : option Z) (e : IOCPEvent) : IOCPEvent :=
  mk_event (_eventType e) o.

Record t := mk {
  _service : bool;
  _socket : Z;
  _sessionId : Z;
  _connected : bool;
  _sendEvent : IOCPEvent;
  _segments : list WSABUF;
  _recvEvent : IOCPEvent;
  _disconnectEvent : IOCPEvent;
  _recvBuffer : RecvBuffer.t;
  _sendQueue : list WSABUF;
  _sending : bool;
}.

Definition set_service b (s : t) : t :=
  mk b (_socket s) (_sessionId s) (_connected s) (_sendEvent s) (_segments s)
    (_recvEvent s) (_disconnectEvent s) (_recvBuffer s) (_sendQueue s) (_sending s).
Definition set_socket_field k (s : t) : t :=
  mk (_service s) k (_sessionId s) (_connected s) (_sendEvent s) (_segments s)
    (_recvEvent s) (_disconnectEvent s) (_recvBuffer s) (_sendQueue s) (_sending s).
Definition set_connected_field b (s : t) : t :=
  mk (_service s) (_socket s) (_sessionId s) b (_sendEvent s) (_segments s)
    (_recvEvent s) (_disconnectEvent s) (_recvBuffer s) (_sendQueue s) (_sending s).
Definition set_sendEvent e (s : t) : t :=
  mk (_service s) (_socket s) (_sessionId s) (_connected s) e (_segments s)
    (_recvEvent s) (_disconnectEvent s) (_recvBuffer s) (_sendQueue s) (_sending s).
Definition set_segments l (s : t) : t :=
  mk (_service s) (_socket s) (_sessionId s) (_connected s) (_sendEvent s) l
    (_recvEvent s) (_disconnectEvent s) (_recvBuffer s) (_sendQueue s) (_sending s).
Definition set_recvEvent e (s : t) : t :=
  mk (_service s) (_socket s) (_sessionId s) (_connected s) (_sendEvent s) (_segments s)
    e (_disconnectEvent s) (_recvBuffer s) (_sendQueue s) (_sending s).
Definition set_disconnectEvent e (s : t) : t :=
  mk (_service s) (_socket s) (_sessionId s) (_connected s) (_sendEvent s) (_segments s)
    (_recvEvent s) e (_recvBuffer s) (_sendQueue s) (_sending s).
Definition set_sendQueue l (s : t) : t :=
  mk (_service s) (_socket s) (_sessionId s) (_connected s) (_sendEvent s) (_segments s)
    (_recvEvent s) (_disconnectEvent s) (_recvBuffer s) l (_sending s).
Definition set_sending b (s : t) : t :=
  mk (_service s) (_socket s) (_sessionId s) (_connected s) (_sendEvent s) (_segments s)
    (_recvEvent s) (_disconnectEvent s) (_recvBuffer s) (_sendQueue s) b.

Section Session.
Context {W : Type} `{ServiceOps W, OS, Winsock}.

(** A session with its service and the network. *)
Record st := mk_st { ses : t; svc : W; nets : net }.
Definition on_ses (f : t -> t) (s : st) : st := mk_st (f (ses s)) (svc s) (nets s).
Definition set_net (n : net) (s : st) : st := mk_st (ses s) (svc s) n.
Definition call (cb : callback) (s : st) : st :=
  set_net (note (ACall (_sessionId (ses s)) cb) (nets s)) s.
(** A system call from a member function. *)
Definition sys_of (q : sys) (s : st) : Z * Z * st :=
  let '(res, err, n) := syscall q (nets s) in (res, err, set_net n s).

(** The virtual methods a user overrides; [OnRecv] gets the position of the
    data in the receive buffer and the number of bytes received. *)
Record virtuals := {
  v_OnConnected : st -> outcome st;
  v_OnSend : Z -> st -> outcome st;
  v_OnRecv : Z -> Z -> st -> outcome (Z * st);
  v_OnDisconnected : Z -> st -> outcome st;
}.
(** The bodies [Session] itself gives them. *)
Definition default_virtuals : virtuals := {|
  v_OnConnected := Ret; v_OnSend := fun _ => Ret;
  v_OnRecv := fun _ n s => Ret (n, s); v_OnDisconnected := fun _ => Ret |}.

(** [s_sid.fetch_add(1)] and the constructor. *)
Definition new (s_sid : Z) (n : net) : outcome (t * Z * net) :=
  let! (socket, n) := SocketUtils.CreateSocket n in
  Ret (mk false socket s_sid false (mk_event Send None) [] (mk_event Recv None)
         (mk_event Disconnect None) (RecvBuffer.new RECV_BUFFER_SIZE) [] false,
       u32 (s_sid + 1), n).

(** The destructor. *)
Definition destroy (s : t) (n : net) : outcome net :=
  let! (_, n) := SocketUtils.Close (_socket s) n in Ret n.

(** [_register_disconnect()]. *)
Definition _register_disconnect (s : st) : bool * st :=
  let s := on_ses (fun x => set_disconnectEvent (event_Clear (_disconnectEvent x)) x) s in
  let s := on_ses (fun x => set_disconnectEvent
    (SetIOCPObjectSPtr (Some (_sessionId x)) (_disconnectEvent x)) x) s in
  let '(suc, err, s) := sys_of (DisconnectEx (_socket (ses s))) s in
  let '(ok, _) := ErrorHandler.WSACheckErrorExceptPending2 (negb (suc =? 0)) err 0 in
  if negb ok then (false, s) else (true, s).

(** [_disconnect(errorCode)]: the code is only logged. *)
Definition _disconnect (errorCode : DisconnectError) (s : st) : st :=
  if negb (_connected (ses s)) then s else (_register_disconnect s).2.

(** [Disconnect()]: [_connected.exchange(false)]. *)
Definition Disconnect_ (s : st) : bool * st :=
  let was := _connected (ses s) in
  let s := on_ses (set_connected_field false) s in
  if negb was then (false, s) else _register_disconnect s.

(** [_register_recv()]. *)
Definition _register_recv (s : st) : outcome st :=
  if negb (_connected (ses s)) then Ret (_disconnect ALREADY_DISCONNECTED s)
  else
    let s := on_ses (fun x => set_recvEvent (event_Clear (_recvEvent x)) x) s in
    let s := on_ses (fun x => set_recvEvent
      (SetIOCPObjectSPtr (Some (_sessionId x)) (_recvEvent x)) x) s in
    let size := RecvBuffer.FreeSize (_recvBuffer (ses s)) in
    let! pos := RecvBuffer.WritePos (_recvBuffer (ses s)) in
    let '(_, _, s) := sys_of (WSARecv (_socket (ses s)) size pos) s in
    Ret s.

(** [_register_send()]. *)
Definition _register_send (s : st) : st :=
  if negb (_connected (ses s)) then _disconnect ALREADY_DISCONNECTED s
  else
    let s := on_ses (fun x => set_sendEvent (event_Clear (_sendEvent x)) x) s in
    let s := on_ses (fun x => set_sendEvent
      (SetIOCPObjectSPtr (Some (_sessionId x)) (_sendEvent x)) x) s in
    let s := on_ses (fun x => set_segments (_segments x ++ _sendQueue x) x) s in
    let s := on_ses (set_sendQueue []) s in
    let '(res, err, s) := sys_of (WSASend (_socket (ses s)) (_segments (ses s))) s in
    let '(ok, _) := ErrorHandler.WSACheckErrorExceptPending2
      (negb (res =? SOCKET_ERROR)) err 0 in
    let s := if negb ok
             then on_ses (fun x => set_sendEvent (ReleaseIOCPObjectSPtr (_sendEvent x)) x) s
             else s in
    let s := on_ses (set_segments []) s in
    on_ses (set_sending false) s.

(** [_send(buffers)]; the caller's vector is moved from. *)
Definition _send (buffers : list WSABUF) (s : st) : st :=
  match buffers with
  | [] => s
  | _ =>
      let s := on_ses (fun x => set_sendQueue (_sendQueue x ++ buffers) x) s in
      let was := _sending (ses s) in
      let s := on_ses (set_sending true) s in
      if negb was then _register_send s else s
  end.

(** [_set_socket(connectedSocket)]. *)
Definition _set_socket (connectedSocket : Z) (s : st) : st :=
  let client := match GetServiceType (svc s) with Client => true | _ => false end in
  let '(ok, n) := check client APP_SESSION_SET_SOCKET_ALLOWED_ONLY_IN_CONNECTOR (nets s) in
  let s := set_net n s in
  if negb ok then s else on_ses (set_socket_field connectedSocket) s.

Section Virtual.
Variable v : virtuals.

(** [_set_connected(service, connectedSocket)]. *)
Definition _set_connected (connectedSocket : Z) (s : st) : outcome st :=
  let s := on_ses (set_service true) s in
  let s := if negb (connectedSocket =? INVALID_SOCKET)
           then _set_socket connectedSocket s else s in
  let s := on_ses (set_connected_field true) s in
  let! s := v_OnConnected v (call OnConnected s) in
  _register_recv s.

Definition _process_send (numberOfBytesSent : Z) (s : st) : outcome st :=
  let s := on_ses (fun x => set_sendEvent (ReleaseIOCPObjectSPtr (_sendEvent x)) x) s in
  if numberOfBytesSent =? 0 then Ret (_disconnect SENT_0 s)
  else v_OnSend v numberOfBytesSent (call (OnSend numberOfBytesSent) s).

Definition _process_recv (numberOfBytesRecvd : Z) (s : st) : outcome st :=
  if numberOfBytesRecvd =? 0 then Ret (_disconnect RECV_0 s)
  else
    let! pos := RecvBuffer.DataPos (_recvBuffer (ses s)) in
    let! (r, s) := v_OnRecv v pos numberOfBytesRecvd
      (call (OnRecv pos numberOfBytesRecvd) s) in
    let processLen := s32 r in
    if processLen =? 0 then Ret (_disconnect PROCESS_LEN_0 s)
    else _register_recv s.

(** [_clear()]. *)
Definition _clear (s : st) : outcome st :=
  if negb (_service (ses s)) then Fault NullDeref
  else
    let '(_, w) := ReleaseSession (_sessionId (ses s)) (svc s) in
    let s := mk_st (ses s) w (nets s) in
    let s := on_ses (set_service false) s in
    let s := on_ses (fun x => set_sendEvent (ReleaseIOCPObjectSPtr (_sendEvent x)) x) s in
    let s := on_ses (fun x => set_recvEvent (ReleaseIOCPObjectSPtr (_recvEvent x)) x) s in
    let s := on_ses (fun x =>
      set_disconnectEvent (ReleaseIOCPObjectSPtr (_disconnectEvent x)) x) s in
    let s := on_ses (set_sendQueue []) s in
    let s := on_ses (set_connected_field false) s in
    Ret (on_ses (set_socket_field INVALID_SOCKET) s).

Definition _process_disconnect (s : st) : outcome st :=
  let! s := _clear s in
  v_OnDisconnected v (error_code NONE) (call (OnDisconnected (error_code NONE)) s).

(** [Dispatch(overlappedEvent, numberOfBytesTransferred)]; [_process_send] takes
    its argument as [int32]. *)
Definition Dispatch (type : EventType) (numberOfBytesTransferred : Z) (s : st)
  : outcome st :=
  match type with
  | Recv => _process_recv numberOfBytesTransferred s
  | Send => _process_send (s32 numberOfBytesTransferred) s
  | Disconnect => _process_disconnect s
  | _ => Ret s
  end.

(** ** Uses of a session *)
Inductive op :=
| Use_connected (connectedSocket : Z)
| Use_send (buffers : list WSABUF)
| Use_disconnect
| Use_internal_disconnect (e : DisconnectError)
| Use_dispatch (type : EventType) (n : Z).
Definition apply_op (o : op) (s : st) : outcome st :=
  match o with
  | Use_connected k => _set_connected k s
  | Use_send buffers => Ret (_send buffers s)
  | Use_disconnect => Ret (Disconnect_ s).2
  | Use_internal_disconnect e => Ret (_disconnect e s)
  | Use_dispatch type n => Dispatch type n s
  end.
Fixpoint apply_ops (os : list op) (s : st) : outcome st :=
  match os with
  | [] => Ret s
  | o :: os => let! s := apply_op o s in apply_ops os s
  end.
End Virtual.
End Session.
Arguments st W : clear implicits.
Arguments virtuals W : clear implicits.

(** ** What the log records *)
Definition segments_of (a : act) : list WSABUF :=
  match a with ASys (WSASend _ b) _ _ => b | _ => [] end.
(** The buffers handed to [WSASend], in order. *)
Definition sent_segments (l : list act) : list WSABUF := concat (map segments_of l).

Definition is_DisconnectEx (a : act) : bool :=
  match a with ASys (DisconnectEx _) _ _ => true | _ => false end.
Definition count_DisconnectEx (l : list act) : nat := length (filter is_DisconnectEx l).

(** A receive always asks for the whole buffer from its start. *)
Definition whole_buffer (a : act) : Prop :=
  match a with
  | ASys (WSARecv _ len pos) _ _ => len = RECV_BUFFER_SIZE /\ pos = 0
  | ACall _ (OnRecv pos _) => pos = 0
  | _ => True
  end.

Section Theorems.
Context {W : Type} `{ServiceOps W, OS, Winsock}.
Implicit Types (s : st W).
Abbreviation lg s := (log (nets s)).

Lemma sent_segments_app a b : sent_segments (a ++ b) = sent_segments a ++ sent_segments b.
Proof. unfold sent_segments. by rewrite map_app, concat_app. Qed.
Lemma count_DisconnectEx_app a b :
  count_DisconnectEx (a ++ b) = (count_DisconnectEx a + count_DisconnectEx b)%nat.
Proof. unfold count_DisconnectEx. by rewrite filter_app, length_app. Qed.

(** A system call appends itself to the log. *)
Lemma sys_of_eq q s :
  sys_of q s = ((os_reply (lg s) q).1, (os_reply (lg s) q).2,
    set_net (mk_net (lg s ++ [ASys q (os_reply (lg s) q).1 (os_reply (lg s) q).2])
      (last_error (nets s))) s).
Proof. unfold sys_of, syscall, note. by destruct (os_reply (lg s) q). Qed.

(** [_register_disconnect] posts one [DisconnectEx] and touches one event. *)
Lemma register_disconnect_eq s :
  exists b s' r, _register_disconnect s = (b, s') /\ svc s' = svc s /\
    lg s' = lg s ++ [ASys (DisconnectEx (_socket (ses s))) r.1 r.2] /\
    exists e, ses s' = set_disconnectEvent e (ses s).
Proof.
  unfold _register_disconnect. rewrite sys_of_eq. simpl.
  set (r := os_reply _ _). destruct (ErrorHandler.WSACheckErrorExceptPending2 _ _ _) as [ok z].
  destruct ok; simpl; eexists _, _, r; (split; [reflexivity|]); simpl; eauto.
Qed.

Lemma disconnect_closed e s : _connected (ses s) = false -> _disconnect e s = s.
Proof. intros Hc. unfold _disconnect. by rewrite Hc. Qed.

Lemma disconnect_open e s :
  _connected (ses s) = true ->
  exists s' r, _disconnect e s = s' /\ svc s' = svc s /\
    lg s' = lg s ++ [ASys (DisconnectEx (_socket (ses s))) r.1 r.2] /\
    exists ev, ses s' = set_disconnectEvent ev (ses s).
Proof.
  intros Hc. unfold _disconnect. rewrite Hc. simpl.
  destruct (register_disconnect_eq s) as (b & s' & r & -> & Hs). simpl. eauto.
Qed.

(** [_register_send] of a connected session: one [WSASend] with everything
    queued. *)
Lemma register_send_open s :
  _connected (ses s) = true ->
  exists r, lg (_register_send s) =
      lg s ++ [ASys (WSASend (_socket (ses s)) (_segments (ses s) ++ _sendQueue (ses s))) r.1 r.2] /\
    _sendQueue (ses (_register_send s)) = [] /\ _segments (ses (_register_send s)) = [] /\
    _sending (ses (_register_send s)) = false /\ _connected (ses (_register_send s)) = true /\
    _socket (ses (_register_send s)) = _socket (ses s).
Proof.
  intros Hc. unfold _register_send. rewrite Hc. cbn [negb]. rewrite sys_of_eq. simpl.
  set (r := os_reply _ _). exists r.
  destruct (ErrorHandler.WSACheckErrorExceptPending2 _ _ _) as [ok z].
  destruct ok; simpl; by split_and!.
Qed.

(** ** The receive window *)
Definition recv_inv s : Prop :=
  _recvBuffer (ses s) = RecvBuffer.new RECV_BUFFER_SIZE /\ Forall whole_buffer (lg s).

(** User code cannot touch the private receive buffer: it keeps the invariant. *)
Record keeps (I : st W -> Prop) (v : virtuals W) : Prop := {
  keeps_OnConnected s s' : I s -> v_OnConnected v s = Ret s' -> I s';
  keeps_OnSend n s s' : I s -> v_OnSend v n s = Ret s' -> I s';
  keeps_OnRecv p n s r s' : I s -> v_OnRecv v p n s = Ret (r, s') -> I s';
  keeps_OnDisconnected e s s' : I s -> v_OnDisconnected v e s = Ret s' -> I s';
}.

Lemma recv_inv_ses f s :
  (forall x, _recvBuffer (f x) = _recvBuffer x) -> recv_inv s -> recv_inv (on_ses f s).
Proof. intros Hf [Hb Hl]. split; simpl; [by rewrite Hf|done]. Qed.

Lemma recv_inv_log s n :
  recv_inv s -> (exists a, log n = lg s ++ [a] /\ whole_buffer a) -> recv_inv (set_net n s).
Proof.
  intros [Hb Hl] (a & E & Ha). split; simpl; [done|].
  rewrite E. apply Forall_app. by repeat constructor.
Qed.

Lemma recv_inv_sys q s :
  recv_inv s -> match q with WSARecv _ len pos => len = RECV_BUFFER_SIZE /\ pos = 0 | _ => True end ->
  recv_inv (sys_of q s).2.
Proof.
  intros Hs Hq. rewrite sys_of_eq. simpl. apply recv_inv_log; [done|].
  eexists. split; [reflexivity|]. destruct q; done.
Qed.

Lemma recv_inv_register_disconnect s : recv_inv s -> recv_inv (_register_disconnect s).2.
Proof.
  intros Hs. unfold _register_disconnect.
  match goal with |- context [sys_of ?q ?x] =>
    assert (recv_inv (sys_of q x).2) as Hi by
      (apply recv_inv_sys; [by repeat apply recv_inv_ses|done]);
    destruct (sys_of q x) as [[a b] s'] end.
  by destruct (ErrorHandler.WSACheckErrorExceptPending2 _ _ _) as [[] ?].
Qed.

Lemma recv_inv_disconnect e s : recv_inv s -> recv_inv (_disconnect e s).
Proof.
  intros Hs. unfold _disconnect. destruct (negb _); [done|].
  by apply recv_inv_register_disconnect.
Qed.

Lemma recv_inv_register_recv s s' : recv_inv s -> _register_recv s = Ret s' -> recv_inv s'.
Proof.
  intros Hs. unfold _register_recv. destruct (negb _).
  { intros [= <-]. by apply recv_inv_disconnect. }
  set (x := on_ses _ (on_ses _ s)).
  assert (Hx : recv_inv x) by (by repeat apply recv_inv_ses).
  destruct Hx as [Hb Hl].
  assert (EF : RecvBuffer.FreeSize (_recvBuffer (ses x)) = RECV_BUFFER_SIZE)
    by (rewrite Hb; vm_compute; reflexivity).
  assert (EW : RecvBuffer.WritePos (_recvBuffer (ses x)) = Ret 0)
    by (rewrite Hb; vm_compute; reflexivity).
  rewrite EF, EW. cbn [obind].
  match goal with |- context [sys_of ?q ?x] =>
    assert (recv_inv (sys_of q x).2) as Hi by (by apply recv_inv_sys);
    destruct (sys_of q x) as [[a b] s1] end.
  by intros [= <-].
Qed.

Lemma recv_inv_register_send s : recv_inv s -> recv_inv (_register_send s).
Proof.
  intros Hs. unfold _register_send. destruct (negb _); [by apply recv_inv_disconnect|].
  match goal with |- context [sys_of ?q ?x] =>
    assert (recv_inv (sys_of q x).2) as Hi by
      (apply recv_inv_sys; [by repeat apply recv_inv_ses|done]);
    destruct (sys_of q x) as [[a b] s1] end.
  destruct (ErrorHandler.WSACheckErrorExceptPending2 _ _ _) as [[] ?];
    by repeat apply recv_inv_ses.
Qed.

Lemma recv_inv_call cb s :
  recv_inv s -> match cb with OnRecv pos _ => pos = 0 | _ => True end ->
  recv_inv (call cb s).
Proof. intros Hs Hc. apply recv_inv_log; [done|]. eexists. split; [reflexivity|]. by destruct cb. Qed.

Lemma recv_inv_op v o s s' :
  keeps recv_inv v -> recv_inv s -> apply_op v o s = Ret s' -> recv_inv s'.
Proof.
  intros Hv Hs. destruct o as [k|b| |e|ty n]; simpl.
  - unfold _set_connected. intros. inv_ret.
    eapply recv_inv_register_recv; [|eassumption].
    eapply keeps_OnConnected; [exact Hv| |eassumption].
    apply recv_inv_call; [|done]. apply recv_inv_ses; [done|].
    destruct (negb _); [|by apply recv_inv_ses].
    unfold _set_socket, check.
    destruct (ErrorHandler.CheckError _ _ _) as [r l].
    assert (recv_inv (set_net (set_last l (nets s)) s)) as Hn by done.
    destruct (negb _); repeat apply recv_inv_ses; done.
  - unfold _send. intros [= <-]. destruct b; [done|].
    destruct (negb _); [apply recv_inv_register_send|]; by repeat apply recv_inv_ses.
  - intros [= <-]. unfold Disconnect_. destruct (negb _); simpl.
    + by apply recv_inv_ses.
    + apply recv_inv_register_disconnect. by apply recv_inv_ses.
  - intros [= <-]. by apply recv_inv_disconnect.
  - destruct ty; simpl; try by (intros [= <-]).
    + unfold _process_disconnect. intros. inv_ret.
      eapply keeps_OnDisconnected; [exact Hv| |eassumption].
      apply recv_inv_call; [|done]. unfold _clear in *. destruct (negb _); [discriminate|].
      destruct (ReleaseSession _ _) as [r w]. inv_ret. by repeat apply recv_inv_ses.
    + unfold _process_send. destruct (_ =? 0).
      * intros [= <-]. apply recv_inv_disconnect. by apply recv_inv_ses.
      * intros. eapply keeps_OnSend; [exact Hv| |eassumption].
        apply recv_inv_call; [|done]. by apply recv_inv_ses.
    + unfold _process_recv. destruct (_ =? 0).
      { intros [= <-]. by apply recv_inv_disconnect. }
      assert (RecvBuffer.DataPos (_recvBuffer (ses s)) = Ret 0) as ->
        by (destruct Hs as [-> _]; vm_compute; reflexivity).
      intros. inv_ret.
      match goal with H : v_OnRecv _ _ _ _ = Ret ?a |- _ => destruct a as [r s1];
        apply (keeps_OnRecv _ _ Hv) in H; [|by apply recv_inv_call] end.
      destruct (_ =? 0); inv_ret; [by apply recv_inv_disconnect|].
      by eapply recv_inv_register_recv.
Qed.

Lemma recv_inv_ops v os : forall s s',
  keeps recv_inv v -> recv_inv s -> apply_ops v os s = Ret s' -> recv_inv s'.
Proof.
  induction os as [|o os IH]; intros s s' Hv Hs; cbn [apply_ops].
  { by intros [= <-]. }
  intros. inv_ret. eapply IH; [done| |eassumption]. by eapply recv_inv_op.
Qed.

(** From the constructor on, whatever the user's methods, the operating
    system and the completions do, the receive buffer never changes: every
    [WSARecv] asks for all 65536 bytes from position 0 and every [OnRecv] is given
    position 0, so the bytes of an unfinished packet are overwritten by the next
    receive. *)
Theorem receive_restarts_at_zero v os w s_sid n x sid' n' s' :
  Forall whole_buffer (log n) -> keeps recv_inv v ->
  new s_sid n = Ret (x, sid', n') -> apply_ops v os (mk_st x w n') = Ret s' ->
  _recvBuffer (ses s') = RecvBuffer.new RECV_BUFFER_SIZE /\ Forall whole_buffer (lg s').
Proof.
  intros Hn Hv. unfold new. destruct (SocketCalls.CreateSocket_eq n) as (n1 & -> & Hl). simpl.
  intros [= <- _ <-]. apply recv_inv_ops; [done|]. split; simpl; [done|].
  rewrite Hl. apply Forall_app. by repeat constructor.
Qed.

(** ** Sending, sequentially *)

(** A session between calls with nothing in flight. *)
Definition send_idle s : Prop :=
  _connected (ses s) = true /\ _sendQueue (ses s) = [] /\ _segments (ses s) = [] /\
  _sending (ses s) = false.

Lemma send_idle_step b s :
  send_idle s -> send_idle (_send b s) /\
  sent_segments (lg (_send b s)) = sent_segments (lg s) ++ b.
Proof.
  intros (Hc & Hq & Hg & Hs). destruct b as [|w b]; simpl.
  { rewrite app_nil_r. by split. }
  rewrite Hs. cbn [negb].
  set (x := on_ses _ (on_ses _ s)).
  destruct (register_send_open x Hc) as (r & Hl & Q1 & Q2 & Q3 & Q4 & _).
  split; [by split_and!|]. rewrite Hl, sent_segments_app. f_equal.
  unfold sent_segments. simpl. by rewrite Hq, Hg, app_nil_r.
Qed.

(** The queue of a session that is not connected. *)
Lemma send_closed_step b s :
  _connected (ses s) = false -> _connected (ses (_send b s)) = false /\
  _sendQueue (ses (_send b s)) = _sendQueue (ses s) ++ b /\ lg (_send b s) = lg s.
Proof.
  intros Hc. destruct b as [|w b]; simpl; [by rewrite app_nil_r|].
  destruct (negb _); [|done]. unfold _register_send. simpl. rewrite Hc. simpl.
  by rewrite disconnect_closed.
Qed.

(** Calls of [_send] that do not overlap: on a connected session everything
    goes to [WSASend], in order, and nothing stays queued; once the session is
    not connected nothing is sent any more and the buffers pile up in
    [_sendQueue]. *)
Theorem send_sequential v bs s :
  (send_idle s -> exists s', apply_ops v (map Use_send bs) s = Ret s' /\
     send_idle s' /\ sent_segments (lg s') = sent_segments (lg s) ++ concat bs) /\
  (_connected (ses s) = false -> exists s', apply_ops v (map Use_send bs) s = Ret s' /\
     lg s' = lg s /\ _sendQueue (ses s') = _sendQueue (ses s) ++ concat bs).
Proof.
  split; revert s; induction bs as [|b bs IH]; intros s Hs; simpl.
  - exists s. by rewrite app_nil_r.
  - destruct (send_idle_step b s Hs) as [Hi Hl].
    destruct (IH _ Hi) as (s' & -> & ? & E). exists s'. by rewrite E, Hl, app_assoc.
  - exists s. by rewrite app_nil_r.
  - destruct (send_closed_step b s Hs) as (Hi & Hq & Hl).
    destruct (IH _ Hi) as (s' & -> & E1 & E2). exists s'. by rewrite E1, E2, Hq, Hl, app_assoc.
Qed.

(** ** Disconnecting *)

(** Through the public [Disconnect] a connection is closed at most once:
    however often it is called, one [DisconnectEx] is posted if the session was
    connected and none otherwise. *)
Theorem public_disconnect_once v k s :
  exists s', apply_ops v (replicate (S k) Use_disconnect) s = Ret s' /\
    _connected (ses s') = false /\
    count_DisconnectEx (lg s') =
      (count_DisconnectEx (lg s) + if _connected (ses s) then 1 else 0)%nat.
Proof.
  assert (Hclosed : forall k s, _connected (ses s) = false -> exists s',
    apply_ops v (replicate k Use_disconnect) s = Ret s' /\
    _connected (ses s') = false /\ lg s' = lg s).
  { clear. induction k as [|k IH]; intros s Hs; simpl; [eauto|].
    unfold Disconnect_. rewrite Hs. simpl.
    destruct (IH (on_ses (set_connected_field false) s) eq_refl) as (s' & -> & ? & E). eauto. }
  cbn [replicate apply_ops apply_op obind].
  unfold Disconnect_. destruct (_connected (ses s)) eqn:Hc; cbn [negb].
  - set (x := on_ses (set_connected_field false) s).
    destruct (register_disconnect_eq x) as (b & s1 & r & -> & _ & Hl & (e & Hses)).
    cbn [snd].
    destruct (Hclosed k s1) as (s' & -> & Hc' & Hl'); [by rewrite Hses|].
    exists s'. split_and!; [done|done|]. rewrite Hl', Hl, count_DisconnectEx_app.
    reflexivity.
  - cbn [snd]. destruct (Hclosed k (on_ses (set_connected_field false) s) eq_refl)
      as (s' & -> & Hc' & Hl').
    exists s'. split_and!; [done|done|]. rewrite Hl'. simpl. lia.
Qed.

(** C39: errors take the internal [_disconnect], which leaves the session marked
    connected: a receive of 0 bytes and a send of 0 bytes post two
    [DisconnectEx], and when both complete, the second [_clear] calls
    [ReleaseSession] on a null service. *)
Theorem two_errors_crash s :
  _connected (ses s) = true -> _service (ses s) = true ->
  (exists s', apply_ops default_virtuals [Use_dispatch Recv 0; Use_dispatch Send 0] s = Ret s' /\
     count_DisconnectEx (lg s') = (count_DisconnectEx (lg s) + 2)%nat) /\
  apply_ops default_virtuals [Use_dispatch Recv 0; Use_dispatch Send 0;
    Use_dispatch Disconnect 0; Use_dispatch Disconnect 0] s = Fault NullDeref.
Proof.
  intros Hc Hv. simpl. unfold _process_recv, _process_send, s32. simpl.
  destruct (disconnect_open RECV_0 s Hc) as (s1 & r1 & -> & Hs1 & Hl1 & (e1 & Hses1)).
  set (x := on_ses _ s1).
  assert (Hx : _connected (ses x) = true) by (simpl; by rewrite Hses1).
  destruct (disconnect_open SENT_0 x Hx) as (s2 & r2 & -> & Hs2 & Hl2 & (e2 & Hses2)).
  split.
  - exists s2. split; [done|]. rewrite Hl2. simpl. rewrite Hl1, !count_DisconnectEx_app.
    unfold count_DisconnectEx. simpl. lia.
  - unfold _process_disconnect, _clear.
    assert (Hsv : _service (ses s2) = true) by (by rewrite Hses2; simpl; rewrite Hses1).
    rewrite Hsv. cbn [negb].
    destruct (ReleaseSession (_sessionId (ses s2)) (svc s2)) as [b w]. reflexivity.
Qed.

(** A completed disconnect forgets the socket without closing it: after it,
    destroying the session makes no system call, so the handle is lost;
    destroying a session that was not disconnected closes its socket. *)
Theorem disconnected_socket_never_closed s :
  (_service (ses s) = true ->
   exists s' n', Dispatch default_virtuals Disconnect 0 s = Ret s' /\
     destroy (ses s') (nets s') = Ret n' /\
     log n' = lg s ++ [ACall (_sessionId (ses s)) (OnDisconnected 0)] /\
     _connected (ses s') = false /\ _sendQueue (ses s') = []) /\
  (_socket (ses s) <> INVALID_SOCKET ->
   exists n' r e, destroy (ses s) (nets s) = Ret n' /\
     log n' = lg s ++ [ASys (closesocket (_socket (ses s))) r e]).
Proof.
  split; intros Hs.
  - simpl. unfold _process_disconnect, _clear. rewrite Hs. cbn [negb].
    destruct (ReleaseSession (_sessionId (ses s)) (svc s)) as [b w]. cbn [obind].
    eexists. unfold destroy.
    match goal with |- context [SocketUtils.Close ?k ?n] =>
      destruct (SocketCalls.Close_eq INVALID_SOCKET n) as (n2 & E & Hl) end.
    exists n2. split; [reflexivity|].
    rewrite Z.eqb_refl, app_nil_r in Hl. simpl in E. simpl. rewrite E. simpl.
    split_and!; [done|exact Hl|done|done].
  - unfold destroy. destruct (SocketCalls.Close_eq (_socket (ses s)) (nets s)) as (n2 & -> & Hl).
    cbn [obind]. destruct (Z.eqb_spec (_socket (ses s)) INVALID_SOCKET); [done|]. eauto.
Qed.
End Theorems.

(** ** A concrete system: one socket handle, every call succeeds, and a server
    service that always knows the session. *)
Definition demo_os : OS := fun _ q =>
  match q with WSASocketW => (5, 0) | DisconnectEx _ => (1, 0) | _ => (0, 0) end.
Definition demo_service : ServiceOps ServiceType :=
  {| GetServiceType w := w; ReleaseSession _ w := (true, w) |}.
#[local] Existing Instances demo_os demo_service.

Definition demo_start : outcome (t * Z * net) := new 1 (mk_net [] 0).
Definition demo_session : t :=
  mk true 5 1 true (mk_event Send None) [] (mk_event Recv None) (mk_event Disconnect None)
    (RecvBuffer.new 16) [] false.
Definition demo : st ServiceType := mk_st demo_session Server (mk_net [] 0).

Lemma default_keeps {W} (I : st W -> Prop) : keeps I default_virtuals.
Proof. split; simpl; intros; by simplify_eq. Qed.

Definition demo_ops : list op :=
  [Use_connected INVALID_SOCKET; Use_dispatch Recv 10; Use_dispatch Recv 20;
   Use_dispatch Recv 0; Use_dispatch Disconnect 0].

Lemma receive_restarts_at_zero_witness :
  exists x sid n s', new 1 (mk_net [] 0) = Ret (x, sid, n) /\
    apply_ops default_virtuals demo_ops (mk_st x Server n) = Ret s' /\
    _recvBuffer (ses s') = RecvBuffer.new RECV_BUFFER_SIZE /\
    Forall whole_buffer (log (nets s')).
Proof.
  destruct (returns_ret (new 1 (mk_net [] 0))) as [[[x sid] n] E]; [vm_compute; reflexivity|].
  destruct (returns_ret (let! (x, _, n) := new 1 (mk_net [] 0) in
    apply_ops default_virtuals demo_ops (mk_st x Server n))) as [s' E2];
    [vm_compute; reflexivity|].
  rewrite E in E2. cbn [obind] in E2. exists x, sid, n, s'.
  split; [exact E|]. split; [exact E2|].
  exact (receive_restarts_at_zero default_virtuals demo_ops Server 1 (mk_net [] 0) x sid n s'
    (Forall_nil_2 _) (default_keeps _) E E2).
Defined.

Lemma send_sequential_witness :
  let w n := {| len := n; buf := (0, 0) |} in
  exists s', apply_ops default_virtuals (map Use_send [[w 1; w 2]; []; [w 3]]) demo = Ret s' /\
    send_idle s' /\ sent_segments (log (nets s')) = [w 1; w 2; w 3].
Proof.
  intros w. apply (send_sequential default_virtuals [[w 1; w 2]; []; [w 3]] demo).
  split_and!; reflexivity.
Defined.

Lemma two_errors_crash_witness :
  apply_ops default_virtuals [Use_dispatch Recv 0; Use_dispatch Send 0;
    Use_dispatch Disconnect 0; Use_dispatch Disconnect 0] demo = Fault NullDeref.
Proof. exact (proj2 (two_errors_crash demo eq_refl eq_refl)). Defined.

Lemma disconnected_socket_never_closed_witness :
  exists s' n', Dispatch default_virtuals Disconnect 0 demo = Ret s' /\
    destroy (ses s') (nets s') = Ret n' /\ log n' = [ACall 1 (OnDisconnected 0)].
Proof.
  destruct (proj1 (disconnected_socket_never_closed demo) eq_refl)
    as (s' & n' & E1 & E2 & E3 & _).
  exists s', n'. split; [exact E1|]. split; [exact E2|exact E3].
Defined.
End Session.
