(* ===== verification/SessionLife.v ===== *)
(** Session.cpp: the life of a session whose completions are those of operations it
    posted. The receive that [_set_connected] posts is renewed by [_process_recv], and
    nowhere else: when it is lost, nothing starts another. *)
From S2P Require Import Prelude ErrorHandler RecvBuffer SendBuffer Packet SocketUtils Session.
#[local] Open Scope Z_scope.

Module SessionLife.
Import Session.

Section Life.
Context {W : Type} `{ServiceOps W, OS, Winsock}.
Implicit Types (s : st W).
Abbreviation lg s := (log (nets s)).

(** Receives in a log: posted (a completion will come) and refused. *)
Definition is_posted (a : act) : bool :=
  match a with
  | ASys (WSARecv _ _ _) res err => negb (res =? SOCKET_ERROR) || (err =? WSA_IO_PENDING)
  | _ => false
  end.
Definition is_refused (a : act) : bool :=
  match a with ASys (WSARecv _ _ _) _ _ => negb (is_posted a) | _ => false end.
Definition is_OnRecv (a : act) : bool := match a with ACall _ (OnRecv _ _) => true | _ => false end.
Definition count (f : act -> bool) (l : list act) : nat := length (List.filter f l).

(** A session, the completed receives dispatched to it, and whether its service has
    connected it. *)
Record life := mk_life { lst : st W; delivered : nat; begun : bool }.

Section Virtual.
Variable v : virtuals W.

(** One use of the session: a service connects it once, and a receive completes
    when one is pending. *)
Definition life_step (o : op) (x : life) : option (outcome life) :=
  let run d b := Some (let! s := apply_op v o (lst x) in Ret (mk_life s d b)) in
  match o with
  | Use_connected _ => if begun x then None else run (delivered x) true
  | Use_dispatch Recv _ =>
      if (delivered x <? count is_posted (lg (lst x)))%nat then run (S (delivered x)) (begun x)
      else None
  | _ => run (delivered x) (begun x)
  end.
Definition step (x x' : life) : Prop := exists o, life_step o x = Some (Ret x').
Fixpoint play (os : list op) (x : life) : option (outcome life) :=
  match os with
  | [] => Some (Ret x)
  | o :: os => match life_step o x with Some (Ret x) => play os x | r => r end
  end.

(** ** What a call adds to the log *)

(** The log grows by acts that are no receives and no [OnRecv], and the session is not
    connected. *)
Definition plain s s' : Prop :=
  (exists l, lg s' = lg s ++ l /\ Forall (fun a => is_posted a = false /\ is_refused a = false /\
                                            is_OnRecv a = false) l) /\
  (_connected (ses s') = true -> _connected (ses s) = true).

(** The user's methods use the session through its public functions, which all are
    [plain]. *)
Record modest : Prop := {
  modest_OnConnected s s' : v_OnConnected v s = Ret s' -> plain s s';
  modest_OnSend n s s' : v_OnSend v n s = Ret s' -> plain s s';
  modest_OnRecv p n s r s' : v_OnRecv v p n s = Ret (r, s') -> plain s s';
  modest_OnDisconnected e s s' : v_OnDisconnected v e s = Ret s' -> plain s s' }.

Lemma plain_refl s : plain s s.
Proof. split; [|done]. exists []. by rewrite app_nil_r. Qed.
Lemma plain_trans s1 s2 s3 : plain s1 s2 -> plain s2 s3 -> plain s1 s3.
Proof.
  intros [(l1 & E1 & F1) C1] [(l2 & E2 & F2) C2]. split; [|tauto].
  exists (l1 ++ l2). rewrite E2, E1, app_assoc. split; [done|]. by apply Forall_app.
Qed.
Lemma plain_ses f s :
  (_connected (f (ses s)) = true -> _connected (ses s) = true) -> plain s (on_ses f s).
Proof. intros Hf. split; [|exact Hf]. exists []. by rewrite app_nil_r. Qed.
Lemma plain_sys q s :
  match q with WSARecv _ _ _ => False | _ => True end -> plain s (sys_of q s).2.
Proof.
  intros Hq. rewrite sys_of_eq. split; [|done]. cbn. eexists. split; [reflexivity|].
  repeat constructor; by destruct q.
Qed.
Lemma plain_call cb s :
  match cb with OnRecv _ _ => False | _ => True end -> plain s (call cb s).
Proof. intros Hc. split; [|done]. cbn. eexists. split; [reflexivity|]. repeat constructor; by destruct cb. Qed.

Lemma plain_register_disconnect s : plain s (_register_disconnect s).2.
Proof.
  unfold _register_disconnect.
  match goal with |- context [sys_of ?q ?x] =>
    assert (Hp : plain s (sys_of q x).2) by
      (eapply plain_trans; [|by apply plain_sys]; by repeat (eapply plain_trans; [|by apply plain_ses]; try apply plain_refl));
    destruct (sys_of q x) as [[a b] s'] end.
  by destruct (ErrorHandler.WSACheckErrorExceptPending2 _ _ _) as [[] ?].
Qed.
Lemma plain_disconnect e s : plain s (_disconnect e s).
Proof. unfold _disconnect. destruct (negb _); [apply plain_refl|apply plain_register_disconnect]. Qed.

(** Chains of assignments to fields, which are all [plain]. *)
Ltac plain_fields :=
  repeat match goal with
    | |- plain ?s (on_ses ?f ?x) => apply (plain_trans s x); [|apply plain_ses; cbn; (done || tauto)]
    | |- plain ?s ?s => apply plain_refl
    end.

Lemma plain_register_send s : plain s (_register_send s).
Proof.
  unfold _register_send. destruct (negb _); [apply plain_disconnect|].
  match goal with |- context [sys_of ?q ?x] =>
    assert (Hp : plain s (sys_of q x).2) by (eapply plain_trans; [|by apply plain_sys]; plain_fields);
    destruct (sys_of q x) as [[a b] s'] end.
  destruct (ErrorHandler.WSACheckErrorExceptPending2 _ _ _) as [[] ?]; plain_fields; exact Hp.
Qed.
Lemma plain_send b s : plain s (_send b s).
Proof.
  destruct b; [apply plain_refl|]. cbn [_send]. destruct (negb _); plain_fields.
  eapply plain_trans; [|apply plain_register_send]. plain_fields.
Qed.
Lemma plain_Disconnect s : plain s (Disconnect_ s).2.
Proof.
  unfold Disconnect_. destruct (negb _); cbn [snd]; [plain_fields|].
  eapply plain_trans; [|apply plain_register_disconnect]. plain_fields.
Qed.
Lemma plain_clear s s' : _clear s = Ret s' -> plain s s'.
Proof.
  unfold _clear. destruct (negb _); [done|]. destruct (ReleaseSession _ _) as [b w]. intros [= <-].
  plain_fields. split; [|done]. exists []. by rewrite app_nil_r.
Qed.

Hypothesis Hv : modest.

(** Everything but the connection and the completion of a receive is [plain]. *)
Lemma op_plain o s s' :
  match o with Use_connected _ | Use_dispatch Recv _ => False | _ => True end ->
  apply_op v o s = Ret s' -> plain s s'.
Proof.
  destruct o as [k|b| |e|[] n]; intros Ho; cbn [apply_op Dispatch]; try done;
    try (intros [= <-]; auto using plain_send, plain_Disconnect, plain_disconnect, plain_refl; fail).
  - unfold _process_disconnect. intros. inv_ret.
    eapply plain_trans; [by eapply plain_clear|].
    eapply plain_trans; [by apply (plain_call (OnDisconnected (error_code NONE)))|].
    by eapply modest_OnDisconnected.
  - unfold _process_send. destruct (_ =? 0).
    + intros [= <-]. eapply plain_trans; [|apply plain_disconnect]. plain_fields.
    + intros E. eapply plain_trans; [|by eapply modest_OnSend].
      eapply plain_trans; [|by apply plain_call]. plain_fields.
Qed.

Lemma count_app f a b : count f (a ++ b) = (count f a + count f b)%nat.
Proof. unfold count. by rewrite List.filter_app, length_app. Qed.

Lemma plain_counts s s' : plain s s' ->
  count is_posted (lg s') = count is_posted (lg s) /\
  count is_refused (lg s') = count is_refused (lg s) /\
  count is_OnRecv (lg s') = count is_OnRecv (lg s) /\
  (count_DisconnectEx (lg s) <= count_DisconnectEx (lg s'))%nat.
Proof.
  intros [(l & -> & Hl) _]. rewrite !count_app, count_DisconnectEx_app.
  assert (Hz : count is_posted l = 0%nat /\ count is_refused l = 0%nat /\ count is_OnRecv l = 0%nat).
  { unfold count. clear -Hl. induction Hl as [|a l (E1 & E2 & E3) _ IH]; [done|]. cbn [List.filter].
    by rewrite E1, E2, E3. }
  destruct Hz as (-> & -> & ->). lia.
Qed.

(** [_register_recv]: one receive, posted or refused, of a connected session. *)
Lemma register_recv_cases s s' : _register_recv s = Ret s' ->
  (_connected (ses s) = false /\ s' = s) \/
  (_connected (ses s) = true /\ _connected (ses s') = true /\
   exists len pos r, lg s' = lg s ++ [ASys (WSARecv (_socket (ses s)) len pos) r.1 r.2]).
Proof.
  unfold _register_recv. destruct (_connected (ses s)) eqn:Hc; cbn [negb].
  - intros E. apply obind_ret in E as (pos & _ & E). rewrite sys_of_eq in E. injection E as <-.
    right. split; [done|]. split; [exact Hc|]. eexists _, pos, (os_reply _ _). reflexivity.
  - intros [= <-]. left. by rewrite disconnect_closed.
Qed.

(** ** The invariant *)
Definition posted (x : life) : nat := count is_posted (lg (lst x)).
(** A receive was refused or a disconnection was asked for, since the log [l0]. *)
Definition broken (l0 : list act) (x : life) : Prop :=
  (count is_refused l0 < count is_refused (lg (lst x)))%nat \/
  (count_DisconnectEx l0 < count_DisconnectEx (lg (lst x)))%nat.

Record life_inv (l0 : list act) (x : life) : Prop := {
  inv_one : (delivered x <= posted x <= S (delivered x))%nat;
  inv_before : begun x = false ->
    _connected (ses (lst x)) = false /\ posted x = delivered x;
  inv_deaf : begun x = true -> _connected (ses (lst x)) = true -> posted x = delivered x ->
    broken l0 x;
  inv_counts : (count is_refused l0 <= count is_refused (lg (lst x)))%nat /\
    (count_DisconnectEx l0 <= count_DisconnectEx (lg (lst x)))%nat }.

Lemma broken_plain l0 s s' d d' b b' :
  plain s s' -> broken l0 (mk_life s d b) -> broken l0 (mk_life s' d' b').
Proof. intros (_ & E & _ & ?)%plain_counts. unfold broken. cbn. rewrite E. intros [|]; [by left|right; lia]. Qed.

Lemma plain_inv l0 s s' d b :
  plain s s' -> life_inv l0 (mk_life s d b) -> life_inv l0 (mk_life s' d b).
Proof.
  intros Hp [J1 J2 J3 J4]. pose proof (plain_counts _ _ Hp) as (E1 & E2 & _ & E3).
  unfold posted in *. cbn in *. split; unfold posted; cbn; rewrite ?E1, ?E2; try lia.
  - intros Hb. destruct (J2 Hb) as [Hc Hpd]. split; [|done].
    destruct (_connected (ses s')) eqn:Ec; [|done]. rewrite (proj2 Hp Ec) in Hc. done.
  - intros Hb Hc Hpd. eapply broken_plain; [exact Hp|]. apply J3; [done|by apply (proj2 Hp)|done].
Qed.

(** Renewing the receive when none is pending. *)
Lemma register_recv_inv l0 s s' d :
  _register_recv s = Ret s' -> count is_posted (lg s) = d ->
  (count is_refused l0 <= count is_refused (lg s))%nat ->
  (count_DisconnectEx l0 <= count_DisconnectEx (lg s))%nat ->
  life_inv l0 (mk_life s' d true).
Proof.
  intros E Hd J1 J2. apply register_recv_cases in E as [[Hc ->]|(Hc & Hc' & len & pos & r & El)].
  - split; unfold posted; cbn; try done; [lia|]. by rewrite Hc.
  - assert (Ep : count is_posted (lg s') = (d + if is_posted (ASys (WSARecv (_socket (ses s)) len pos) r.1 r.2) then 1 else 0)%nat).
    { rewrite El, count_app, Hd. unfold count. cbn [List.filter]. by destruct (is_posted _). }
    assert (Er : count is_refused (lg s') = (count is_refused (lg s) + if is_posted (ASys (WSARecv (_socket (ses s)) len pos) r.1 r.2) then 0 else 1)%nat).
    { rewrite El, count_app. f_equal. unfold count. cbn [List.filter is_refused]. by destruct (is_posted _). }
    assert (Ed : count_DisconnectEx (lg s') = count_DisconnectEx (lg s)).
    { rewrite El, count_DisconnectEx_app. change (count_DisconnectEx [ASys (WSARecv _ _ _) _ _]) with 0%nat. lia. }
    destruct (is_posted _); split; unfold posted, broken; cbn [lst delivered begun]; rewrite ?Ep, ?Er, ?Ed; try done; try lia.
Qed.

Lemma call_counts cb s :
  count is_posted (lg (call cb s)) = count is_posted (lg s) /\
  count is_refused (lg (call cb s)) = count is_refused (lg s) /\
  count_DisconnectEx (lg (call cb s)) = count_DisconnectEx (lg s).
Proof.
  unfold call, note. cbn [set_net nets log]. rewrite !count_app, count_DisconnectEx_app.
  change (count_DisconnectEx [ACall _ _]) with 0%nat. unfold count. cbn. lia.
Qed.

Lemma set_socket_log k s : lg (_set_socket k s) = lg s.
Proof.
  unfold _set_socket, check. destruct (ErrorHandler.CheckError _ _ _) as [r last].
  by destruct (negb _).
Qed.

Lemma connected_inv l0 k s s' d :
  _set_connected v k s = Ret s' -> count is_posted (lg s) = d ->
  (count is_refused l0 <= count is_refused (lg s))%nat ->
  (count_DisconnectEx l0 <= count_DisconnectEx (lg s))%nat ->
  life_inv l0 (mk_life s' d true).
Proof.
  intros E Hd J1 J2. unfold _set_connected in E. apply obind_ret in E as (s2 & E1 & E2).
  apply (modest_OnConnected Hv) in E1. pose proof (plain_counts _ _ E1) as (F1 & F2 & _ & F3).
  match type of F1 with _ = count _ (log (nets (call _ ?y))) => assert (Hy : lg y = lg s) end.
  { destruct (negb _); [|done]. exact (set_socket_log k (on_ses (set_service true) s)). }
  match type of F1 with _ = count _ (log (nets (call ?cb ?y))) =>
    destruct (call_counts cb y) as (G1 & G2 & G3) end.
  rewrite Hy in G1, G2, G3. eapply register_recv_inv; [exact E2|lia..].
Qed.

Lemma disconnected_inv l0 e s d :
  count is_posted (lg s) = d ->
  (count is_refused l0 <= count is_refused (lg s))%nat ->
  (count_DisconnectEx l0 <= count_DisconnectEx (lg s))%nat ->
  life_inv l0 (mk_life (_disconnect e s) d true).
Proof.
  intros K1 K2 K3. pose proof (plain_counts _ _ (plain_disconnect e s)) as (F1 & F2 & _ & F3).
  split; unfold posted; cbn; try done; try lia. intros _ Hc _. right. cbn.
  apply (proj2 (plain_disconnect e s)) in Hc.
  destruct (disconnect_open e s Hc) as (s3 & r & -> & _ & -> & _).
  rewrite count_DisconnectEx_app. change (count_DisconnectEx [ASys (DisconnectEx _) _ _]) with 1%nat. lia.
Qed.

Lemma received_inv l0 n s s' d :
  _process_recv v n s = Ret s' -> count is_posted (lg s) = d ->
  (count is_refused l0 <= count is_refused (lg s))%nat ->
  (count_DisconnectEx l0 <= count_DisconnectEx (lg s))%nat ->
  life_inv l0 (mk_life s' d true).
Proof.
  intros E Hd J1 J2. unfold _process_recv in E.
  destruct (n =? 0); [injection E as <-; by apply disconnected_inv|].
  apply obind_ret in E as (pos & _ & E). apply obind_ret in E as ([r s2] & E1 & E).
  apply (modest_OnRecv Hv) in E1. pose proof (plain_counts _ _ E1) as (F1 & F2 & _ & F3).
  destruct (call_counts (OnRecv pos n) s) as (G1 & G2 & G3).
  destruct (s32 r =? 0).
  - injection E as <-. apply disconnected_inv; lia.
  - eapply register_recv_inv; [exact E|lia..].
Qed.

Lemma life_step_inv l0 x x' : life_inv l0 x -> step x x' -> life_inv l0 x'.
Proof.
  destruct x as [s d b]. intros Hi [o E]. unfold life_step in E. cbn [lst delivered begun] in E.
  pose proof (inv_counts _ _ Hi) as [J4 J5]. pose proof (inv_one _ _ Hi) as J1.
  pose proof (inv_before _ _ Hi) as J2. unfold posted in J1, J2. cbn in J1, J2, J4, J5.
  assert (Hplain : match o with Use_connected _ | Use_dispatch Recv _ => False | _ => True end ->
    Some (let! s := apply_op v o s in Ret (mk_life s d b)) = Some (Ret x') -> life_inv l0 x').
  { intros Ho E'. injection E' as E'. apply obind_ret in E' as (s' & E' & [= <-]).
    eapply plain_inv; [by eapply op_plain|done]. }
  destruct o as [k|bs| |e|[] n]; try (by apply Hplain).
  - destruct b; [discriminate E|]. destruct (J2 eq_refl) as [_ Hpd].
    injection E as E. apply obind_ret in E as (s' & E & [= <-]). by eapply connected_inv.
  - destruct (Nat.ltb_spec d (count is_posted (lg s))) as [Hlt|]; [|discriminate E].
    assert (b = true) as -> by (destruct b; [done|destruct (J2 eq_refl); lia]).
    injection E as E. apply obind_ret in E as (s' & E & [= <-]).
    eapply received_inv; [exact E|lia..].
Qed.

(** No receive pending on a connected session: nothing brings one back. *)
Definition silent (x0 x : life) : Prop :=
  begun x = true /\ posted x = delivered x /\ posted x = posted x0 /\
  count is_OnRecv (lg (lst x)) = count is_OnRecv (lg (lst x0)).
Lemma silent_step x0 x x' : silent x0 x -> step x x' -> silent x0 x'.
Proof.
  destruct x as [s d b]. intros (Hb & Hp & Hp0 & Hc) [o E]. unfold life_step in E.
  cbn [lst delivered begun] in *. subst b. unfold posted in Hp, Hp0. cbn in Hp, Hp0.
  assert (Hplain : match o with Use_connected _ | Use_dispatch Recv _ => False | _ => True end ->
    Some (let! s := apply_op v o s in Ret (mk_life s d true)) = Some (Ret x') -> silent x0 x').
  { intros Ho E'. injection E' as E'. apply obind_ret in E' as (s' & E' & [= <-]).
    apply op_plain in E'; [|done]. apply plain_counts in E' as (F1 & _ & F2 & _).
    unfold silent, posted in *. cbn. rewrite F1, F2. by split_and!. }
  destruct o as [k|bs| |e|[] n]; try (by apply Hplain); try discriminate E.
  destruct (Nat.ltb_spec d (count is_posted (lg s))); [lia|discriminate E].
Qed.

(** C40: one receive at a time. Whatever the operating system answers and in whatever
    order a session is used, from its constructor on, with user methods that only call
    its public functions and completions that are those of pending receives: at most
    one receive is pending; a connected session without a pending receive had a
    WSARecv refused or was asked to disconnect; and once no receive is pending, none is
    posted and OnRecv is not called any more, ever. *)
Theorem one_receive_at_a_time w s_sid n x sid' n' y :
  new s_sid n = Ret (x, sid', n') ->
  run step (mk_life (mk_st x w n') (count is_posted (log n')) false) y ->
  (delivered y <= posted y <= S (delivered y))%nat /\
  (begun y = true -> _connected (ses (lst y)) = true -> posted y = delivered y ->
     broken (log n') y) /\
  (begun y = true -> posted y = delivered y -> forall z, run step y z ->
     posted z = posted y /\ count is_OnRecv (lg (lst z)) = count is_OnRecv (lg (lst y))).
Proof.
  intros E Hr.
  assert (Hi : life_inv (log n') y).
  { eapply run_invariant; [apply life_step_inv| |exact Hr]. unfold new in E.
    apply obind_ret in E as ([k n1] & _ & [= <- _ <-]).
    split; unfold posted; cbn; [lia|done|done|lia]. }
  split; [apply Hi|]. split; [apply Hi|]. intros Hb Hp z Hz.
  assert (Hs : silent y z).
  { eapply run_invariant; [apply (silent_step y)| |exact Hz]. by split_and!. }
  destruct Hs as (_ & _ & ? & ?). done.
Qed.
End Virtual.

(** A receive that is refused goes unnoticed: the session stays connected, no
    disconnection is asked for and no receive is pending. *)
Theorem refused_receive_goes_unnoticed s pos :
  _connected (ses s) = true -> RecvBuffer.WritePos (_recvBuffer (ses s)) = Ret pos ->
  let q := WSARecv (_socket (ses s)) (RecvBuffer.FreeSize (_recvBuffer (ses s))) pos in
  let r := os_reply (lg s) q in
  is_refused (ASys q r.1 r.2) = true ->
  exists s', _register_recv s = Ret s' /\ _connected (ses s') = true /\
    count is_posted (lg s') = count is_posted (lg s) /\
    count_DisconnectEx (lg s') = count_DisconnectEx (lg s).
Proof.
  intros Hc Hw q r Hq. unfold _register_recv. rewrite Hc. cbn [negb].
  change (RecvBuffer.WritePos _) with (RecvBuffer.WritePos (_recvBuffer (ses s))).
  rewrite Hw. cbn [obind]. rewrite sys_of_eq. eexists. split; [reflexivity|].
  split; [exact Hc|].
  match goal with |- count _ (log (nets ?x)) = _ /\ _ =>
    assert (El : lg x = lg s ++ [ASys q r.1 r.2]) by reflexivity end.
  assert (Ep : count is_posted [ASys q r.1 r.2] = 0%nat).
  { apply negb_true_iff in Hq. unfold count. cbn [List.filter]. by rewrite Hq. }
  rewrite El, count_app, count_DisconnectEx_app, Ep. split; [lia|].
  change (count_DisconnectEx [ASys _ _ _]) with 0%nat. lia.
Qed.
End Life.

(** ** Concrete runs *)
#[local] Existing Instances demo_os demo_service.

Lemma default_modest : modest (W := ServiceType) default_virtuals.
Proof. split; cbn; intros; simplify_eq; apply plain_refl. Qed.

(** Two receives, the second of 0 bytes: the session asked to disconnect. *)
Definition life_ops : list op :=
  [Use_connected INVALID_SOCKET; Use_send []; Use_dispatch Recv 10; Use_dispatch Recv 0].
Lemma life_play_run (os : list op) : forall x y : life (W := ServiceType),
  play default_virtuals os x = Some (Ret y) -> run (step default_virtuals) x y.
Proof.
  induction os as [|o os IH]; intros x y; cbn [play]; [intros [= <-]; constructor|].
  destruct (life_step default_virtuals o x) as [[x1| | |]|] eqn:E; try done. intros Hp.
  apply (run_trans _ x x1); [|by apply IH].
  apply (run_step x x x1); [constructor|]. by exists o.
Qed.

Definition life_start : outcome (life (W := ServiceType)) :=
  let! (x, _, n) := new 1 (mk_net [] 0) in
  Ret (mk_life (mk_st x Server n) (count is_posted (log n)) false).
Definition life_ends (y : life (W := ServiceType)) : bool :=
  begun y && _connected (ses (lst y)) && (posted y =? 2)%nat && (delivered y =? 2)%nat.
Lemma life_end :
  match life_start with
  | Ret x => match play default_virtuals life_ops x with Some (Ret y) => life_ends y | _ => false end
  | _ => false
  end = true.
Proof. vm_compute. reflexivity. Qed.
Lemma life_reached : exists x sid n y, new 1 (mk_net [] 0) = Ret (x, sid, n) /\
  run (step default_virtuals) (mk_life (mk_st x Server n) (count is_posted (log n)) false) y /\
  life_ends y = true.
Proof.
  pose proof life_end as He. unfold life_start in He.
  destruct (new 1 (mk_net [] 0)) as [[[x sid] n]| | |]; try discriminate He. cbn [obind] in He.
  destruct (play default_virtuals life_ops _) as [[y| | |]|] eqn:E; try discriminate He.
  exists x, sid, n, y. split; [done|]. split; [by eapply life_play_run|done].
Qed.

Lemma one_receive_at_a_time_witness :
  exists x sid n y, new 1 (mk_net [] 0) = Ret (x, sid, n) /\ posted y = 2%nat /\
    run (step default_virtuals) (mk_life (mk_st x Server n) (count is_posted (log n)) false) y /\
    broken (log n) y.
Proof.
  destruct life_reached as (x & sid & n & y & E & Hr & Hy).
  apply andb_true_iff in Hy as [[[Hb Hc]%andb_true_iff Hp]%andb_true_iff Hd].
  apply Nat.eqb_eq in Hd, Hp.
  destruct (one_receive_at_a_time default_virtuals default_modest Server 1 (mk_net [] 0) x sid n y E Hr)
    as (_ & Hx & _).
  exists x, sid, n, y. split; [exact E|]. split; [exact Hp|]. split; [exact Hr|].
  apply Hx; [exact Hb|exact Hc|]. rewrite Hp, Hd. reflexivity.
Defined.

(** An operating system that resets the connection. *)
Definition reset_os : OS := fun _ q =>
  match q with WSARecv _ _ _ => (-1, 10054) | _ => (0, 0) end.
Lemma refused_receive_goes_unnoticed_witness :
  exists s', @_register_recv ServiceType reset_os winsock2 demo = Ret s' /\ _connected (ses s') = true.
Proof.
  destruct (@refused_receive_goes_unnoticed ServiceType reset_os winsock2 demo 0 eq_refl eq_refl eq_refl)
    as (s' & E & Hc & _).
  exists s'. split; [exact E|exact Hc].
Defined.
End SessionLife.
