(* ===== verification/Names.v ===== *)
(** AddrUtils.h ([GetSockName], [GetPeerName], and the two members of Session that
    forward to them) and Utils.h ([Utils::ToString]). What [getsockname] and
    [getpeername] write, [InetNtopW] and [WideCharToMultiByte] are parameters,
    given by their documented behaviour. *)
From S2P Require Import Prelude ErrorHandler Packet SocketUtils Session.
#[local] Open Scope Z_scope.

(** ** Parameters *)

(** The longest text of an IPv4 address with its terminator, for which the
    documentation of [InetNtopW] asks room. *)
Definition INET_TEXT : Z := 16.

(** The address a successful [getsockname] or [getpeername] writes, and
    [InetNtopW(family, address, buffer, size)]: the buffer after the call. *)
Class InetNames `{Inet} := {
  written : list act -> sys -> SOCKADDR_IN;
  InetNtopW : Z -> Z -> list Z -> Z -> list Z;
  written_port l q : 0 <= sin_port (written l q) < 65536;
  written_addr l q : 0 <= sin_addr (written l q) < 4294967296;
  htons_ntohs p : 0 <= p < 65536 -> htons (ntohs p) = p;
  (** With enough room the text of the address and a zero are written, and
      [InetPton] reads the text back. *)
  InetNtopW_text a buffer size :
    0 <= a < 4294967296 -> INET_TEXT <= size <= zlen buffer ->
    exists text, InetNtopW AF_INET a buffer size =
        text ++ 0 :: drop (S (length text)) buffer /\
      Forall (fun c => c <> 0) text /\ InetPton text = (1, a);
}.

(** [WideCharToMultiByte(CP_UTF8, 0, text, ...)]: the bytes written when there is
    room, whose number the call without a buffer returns. *)
Class WideChar := {
  utf8 : list Z -> list Z;
  utf8_ascii l : Forall (fun c => 0 <= c < 128) l -> utf8 l = l;
}.

Module AddrNames.
Section AddrNames.
Context `{InetNames, OS}.

(** The pattern of both: the call [q], then the text and the port. [port] and
    [addr] are what the out parameters hold before. *)
Definition name_of (q : sys) (port : Z) (addr : list Z) (addrLen : Z) (n : net)
  : bool * Z * list Z * net :=
  let sockaddr := written (log n) q in
  let '(res, _, n) := syscall q n in
  if res =? 0
  then let addr := InetNtopW AF_INET (sin_addr sockaddr) addr addrLen in
       (true, ntohs (sin_port sockaddr), addr, n)
  else (false, port, addr, n).

Definition GetSockName (socket : Z) : Z -> list Z -> Z -> net -> bool * Z * list Z * net :=
  name_of (getsockname socket).
Definition GetPeerName (socket : Z) : Z -> list Z -> Z -> net -> bool * Z * list Z * net :=
  name_of (getpeername socket).

(** The result of either call is the address the system wrote: read back with
    [AddrUtils::GetTcpAddress], the port and the text of the address give the same
    [SOCKADDR_IN]; on failure nothing is written. *)
Lemma name_of_reads q port buffer size n :
  INET_TEXT <= size <= zlen buffer ->
  let '(ok, port', buffer', n') := name_of q port buffer size n in
  log n' = log n ++ [ASys q (os_reply (log n) q).1 (os_reply (log n) q).2] /\
  ok = ((os_reply (log n) q).1 =? 0) /\
  (ok = false -> port' = port /\ buffer' = buffer) /\
  (ok = true -> sin_family (written (log n) q) = AF_INET ->
    AddrUtils.GetTcpAddress (c_text buffer') port' = written (log n) q).
Proof.
  intros Hs. unfold name_of, syscall. destruct (os_reply (log n) q) as [res err]. simpl.
  destruct (Z.eqb_spec res 0); [|done]. split_and!; try done.
  intros _ Hf. set (a := written (log n) q) in *.
  destruct (InetNtopW_text (sin_addr a) buffer size (written_addr _ _) Hs)
    as (text & -> & Hne & Hp).
  rewrite c_text_app by done. unfold AddrUtils.GetTcpAddress.
  rewrite Hp, htons_ntohs by apply written_port. simpl. rewrite <- Hf. by destruct a.
Qed.

(** The members of Session: the names of its own socket. *)
Definition Session_GetSockName (s : Session.t) := GetSockName (Session._socket s).
Definition Session_GetPeerName (s : Session.t) := GetPeerName (Session._socket s).

(** The port and the text that [Session::GetPeerName] returns for a buffer of
    at least 16 characters, given to [AddrUtils::GetTcpAddress], make again the
    address of the peer; when the system reports an error the call returns false
    and leaves both out parameters as they were. *)
Theorem GetPeerName_roundtrip (s : Session.t) port buffer size n :
  INET_TEXT <= size <= zlen buffer ->
  let q := getpeername (Session._socket s) in
  let '(ok, port', buffer', n') := Session_GetPeerName s port buffer size n in
  (ok = false -> port' = port /\ buffer' = buffer) /\
  (ok = true -> sin_family (written (log n) q) = AF_INET ->
    AddrUtils.GetTcpAddress (c_text buffer') port' = written (log n) q).
Proof.
  intros Hs q. pose proof (name_of_reads q port buffer size n Hs) as Hn.
  unfold Session_GetPeerName, GetPeerName. fold q.
  destruct (name_of q port buffer size n) as [[[ok port'] buffer'] n'].
  tauto.
Qed.
End AddrNames.
End AddrNames.

Module Utils.
Section Utils.
Context `{WideChar}.

(** [ToString(const std::wstring&)]: the size, a string of zeros, the bytes. *)
Definition ToString (wstr : list Z) : list Z :=
  match wstr with
  | [] => []
  | _ => let size_needed := zlen (utf8 wstr) in
         splice (replicate (Z.to_nat size_needed) 0) 0 (utf8 wstr)
  end.
(** [ToString(const wchar_t* )]. *)
Definition ToString_ptr (wchar : option (list Z)) : list Z :=
  match wchar with None => [] | Some wchar => ToString (c_text wchar) end.

(** ASCII text is copied as it is. *)
Theorem ToString_ascii wstr : Forall (fun c => 0 <= c < 128) wstr -> ToString wstr = wstr.
Proof.
  intros Ha. destruct wstr as [|c wstr]; [done|]. unfold ToString. set (l := c :: wstr) in *.
  rewrite (utf8_ascii l Ha). unfold splice. rewrite drop_ge.
  - by rewrite app_nil_r.
  - unfold zlen. rewrite length_replicate. lia.
Qed.
End Utils.
End Utils.

(** ** Instances: dotted quads, and code points below 128 *)
Module NamesSample.
(** The text of an octet. *)
Definition digits (b : Z) : list Z :=
  if b <? 10 then [b + 48]
  else if b <? 100 then [b / 10 + 48; b mod 10 + 48]
  else [b / 100 + 48; b / 10 mod 10 + 48; b mod 10 + 48].

Fixpoint octets (s : list Z) (cur : Z) : list Z :=
  match s with
  | [] => [cur]
  | c :: s => if c =? 46 then cur :: octets s 0 else octets s (cur * 10 + (c - 48))
  end.

Definition quad (a : Z) : list Z :=
  digits (a mod 256) ++ 46 :: digits (a / 256 mod 256) ++ 46 ::
  digits (a / 65536 mod 256) ++ 46 :: digits (a / 16777216).

Definition parse_quad (s : list Z) : Z * Z :=
  match octets s 0 with
  | [a; b; c; d] => (1, a + 256 * b + 65536 * c + 16777216 * d)
  | _ => (0, 0)
  end.

Lemma octets_digits b s : 0 <= b < 256 -> octets (digits b ++ s) 0 = octets s b.
Proof.
  intros Hb. assert (Hd : forall d s cur, 0 <= d < 10 ->
    octets (d + 48 :: s) cur = octets s (cur * 10 + d)).
  { intros d s' cur Hd. simpl. destruct (Z.eqb_spec (d + 48) 46); [lia|]. f_equal. lia. }
  pose proof (Z.mod_pos_bound b 10 ltac:(lia)). pose proof (Z.div_mod b 10 ltac:(lia)).
  pose proof (Z.mod_pos_bound (b / 10) 10 ltac:(lia)).
  pose proof (Z.div_mod (b / 10) 10 ltac:(lia)).
  assert (Eh : b / 100 = b / 10 / 10) by (rewrite Z.div_div by lia; done).
  unfold digits. destruct (Z.ltb_spec b 10); [|destruct (Z.ltb_spec b 100)]; simpl app;
    rewrite ?Hd by lia; f_equal; lia.
Qed.

Lemma digits_nonzero b : 0 <= b -> Forall (fun c => c <> 0) (digits b).
Proof.
  intros Hb. pose proof (Z.mod_pos_bound b 10 ltac:(lia)).
  pose proof (Z.mod_pos_bound (b / 10) 10 ltac:(lia)).
  pose proof (Z.div_pos b 10 Hb ltac:(lia)). pose proof (Z.div_pos b 100 Hb ltac:(lia)).
  unfold digits. destruct (b <? 10); [|destruct (b <? 100)]; repeat constructor; lia.
Qed.

Lemma parse_quad_quad a : 0 <= a < 4294967296 -> parse_quad (quad a) = (1, a).
Proof.
  intros Ha. assert (Hl : 0 <= a / 16777216 < 256)
    by (split; [apply Z.div_pos|apply Z.div_lt_upper_bound]; lia).
  assert (Hd : forall b s, 0 <= b < 256 ->
    octets (digits b ++ 46 :: s) 0 = b :: octets s 0).
  { intros b s Hb. by rewrite octets_digits. }
  assert (He : octets (digits (a / 16777216)) 0 = [a / 16777216]).
  { rewrite <- (app_nil_r (digits _)). by rewrite octets_digits. }
  unfold parse_quad, quad.
  rewrite !Hd, He by (done || apply Z.mod_pos_bound; lia). f_equal.
  pose proof (Z.div_mod a 256 ltac:(lia)).
  pose proof (Z.div_mod (a / 256) 256 ltac:(lia)) as H2.
  pose proof (Z.div_mod (a / 65536) 256 ltac:(lia)) as H3.
  assert (E2 : a / 256 / 256 = a / 65536) by (by rewrite Z.div_div by lia).
  assert (E3 : a / 65536 / 256 = a / 16777216) by (by rewrite Z.div_div by lia).
  rewrite E2 in H2. rewrite E3 in H3. lia.
Qed.

#[export] Instance inet : Inet.
Proof.
  refine {| AF_INET := 2; INADDR_ANY := 0;
    htons := @htons AddrUtils.little_endian; ntohs := @ntohs AddrUtils.little_endian;
    htonl a := a; InetPton := parse_quad |}.
  - exact (@htons_range AddrUtils.little_endian).
  - exact (@ntohs_htons AddrUtils.little_endian).
  - exact (@htons_0 AddrUtils.little_endian).
Defined.

(** Every peer is 127.0.0.1:8900. *)
Definition peer : SOCKADDR_IN := mk_addr 2 (8900 mod 256 * 256 + 8900 / 256) 16777343.

#[export] Instance names : @InetNames inet.
Proof.
  refine {| written _ _ := peer;
    InetNtopW _ a buffer _ := quad a ++ 0 :: drop (S (length (quad a))) buffer |}.
  - intros _ _. vm_compute. by split.
  - intros _ _. vm_compute. by split.
  - exact (@ntohs_htons AddrUtils.little_endian).
  - intros a buffer size Ha _. exists (quad a). split; [done|].
    split; [|by apply parse_quad_quad]. unfold quad.
    pose proof (Z.mod_pos_bound a 256 ltac:(lia)).
    pose proof (Z.mod_pos_bound (a / 256) 256 ltac:(lia)).
    pose proof (Z.mod_pos_bound (a / 65536) 256 ltac:(lia)).
    pose proof (Z.div_pos a 16777216 ltac:(lia) ltac:(lia)).
    repeat (apply Forall_app_2; [apply digits_nonzero; lia|constructor; [lia|]]).
    apply digits_nonzero. lia.
Defined.

#[export] Instance ascii : WideChar := {| utf8 l := l; utf8_ascii _ _ := eq_refl |}.
Definition os : OS := fun _ _ => (0, 0).

(** A session with socket 7. *)
Definition session : Session.t :=
  Session.mk false 7 1 true (Session.mk_event Send None) [] (Session.mk_event Recv None)
    (Session.mk_event Disconnect None) (RecvBuffer.RecvBuffer.new 16) [] false.

Lemma GetPeerName_roundtrip_witness :
  let '(ok, port, buffer, n) :=
    @AddrNames.Session_GetPeerName inet names os session 0 (replicate 22 0) 22 (mk_net [] 0) in
  ok = true /\ @AddrUtils.GetTcpAddress inet (c_text buffer) port = peer.
Proof.
  split; [reflexivity|].
  exact (proj2 (@AddrNames.GetPeerName_roundtrip inet names os session 0 (replicate 22 0) 22
    (mk_net [] 0) ltac:(vm_compute; split; discriminate)) eq_refl eq_refl).
Defined.

Lemma ToString_ascii_witness : @Utils.ToString ascii [49; 50; 55] = [49; 50; 55].
Proof. exact (@Utils.ToString_ascii ascii [49; 50; 55] ltac:(repeat constructor; lia)). Defined.
End NamesSample.
