(* ===== verification/FlatBuffers.v ===== *)
(** The FlatBuffers library, version 24.3.7, as the generated headers of
    src/commons/fbs use it. The library is not under src/: its builder, its reading
    functions and its verifier are the parameter [FlatBuffers], with their documented
    behaviour as laws. An offset is measured from the end of the buffer, as the
    builder returns it; a position is measured from its start. Module Reference
    gives a concrete instance. *)
From S2P Require Import Prelude.
From stdpp Require Import countable list.
#[local] Open Scope Z_scope.

(** ** Data *)

(** The types of inline fields: the scalars of the schemas, and structs of [n]
    four-byte words. *)
Inductive fb_type := UINT8 | INT8 | INT16 | INT32 | STRUCT (n : Z).
#[export] Instance fb_type_eq_dec : EqDecision fb_type.
Proof. solve_decision. Defined.

Definition in_type (ty : fb_type) (v : Z) : Prop :=
  match ty with
  | UINT8 => 0 <= v < 256
  | INT8 => -128 <= v < 128
  | INT16 => -32768 <= v < 32768
  | INT32 => -2147483648 <= v < 2147483648
  | STRUCT _ => False
  end.
Definition alignment (ty : fb_type) : Z :=
  match ty with UINT8 | INT8 => 1 | INT16 => 2 | INT32 | STRUCT _ => 4 end.

(** What a field of a table holds: a scalar, the reference of an object (an offset
    while building, a position in a buffer), or the words of a struct. *)
Inductive field := Scalar (ty : fb_type) (v : Z) | Ref (o : Z) | Inline (ws : list Z).
Notation table := (gmap Z field).
Inductive object := OString (s : list Z) | OVector (v : list Z) | OTable (t : table).

(** References of an object after the move from offsets to positions. *)
Definition relocate_field (size : Z) (f : field) : field :=
  match f with Ref o => Ref (size - o) | f => f end.
Definition relocate (size : Z) (x : object) : object :=
  match x with OTable t => OTable (relocate_field size <$> t) | x => x end.

(** ** The library *)
Class FlatBuffers := {
  builder : Type;
  (** The objects a builder has finished, and the table under construction with the
      number [StartTable] returned. *)
  objects : builder -> gmap Z object;
  pending : builder -> option (Z * table);
  new_builder : Z -> builder;
  CreateString : list Z -> builder -> Z * builder;
  CreateVector : list Z -> builder -> Z * builder;
  StartTable : builder -> Z * builder;
  AddElement : fb_type -> Z -> Z -> Z -> builder -> builder;
  AddOffset : Z -> Z -> builder -> builder;
  AddStruct : Z -> option (list Z) -> builder -> builder;
  EndTable : Z -> builder -> Z * builder;
  Finish : Z -> builder -> builder;
  FinishSizePrefixed : Z -> builder -> builder;
  (** The bytes from [GetBufferPointer()], [GetSize()] of them. *)
  GetBuffer : builder -> list Z;

  new_builder_empty n : objects (new_builder n) = ∅ /\ pending (new_builder n) = None;
  CreateString_ok s b : pending b = None ->
    let '(o, b') := CreateString s b in
    o <> 0 /\ objects b !! o = None /\ pending b' = None /\
    objects b' = <[o := OString s]> (objects b);
  CreateVector_ok v b : pending b = None ->
    let '(o, b') := CreateVector v b in
    o <> 0 /\ objects b !! o = None /\ pending b' = None /\
    objects b' = <[o := OVector v]> (objects b);
  StartTable_ok b : pending b = None ->
    let '(start, b') := StartTable b in
    pending b' = Some (start, ∅) /\ objects b' = objects b;
  (** A value equal to the default is not stored. *)
  AddElement_ok ty vt v d b start t :
    pending b = Some (start, t) -> t !! vt = None -> in_type ty v ->
    let b' := AddElement ty vt v d b in
    pending b' = Some (start, if v =? d then t else <[vt := Scalar ty v]> t) /\
    objects b' = objects b;
  (** Nor is a null offset, nor a null struct. *)
  AddOffset_ok vt o b start t :
    pending b = Some (start, t) -> t !! vt = None ->
    (o <> 0 -> is_Some (objects b !! o)) ->
    let b' := AddOffset vt o b in
    pending b' = Some (start, if o =? 0 then t else <[vt := Ref o]> t) /\
    objects b' = objects b;
  AddStruct_ok vt s b start t :
    pending b = Some (start, t) -> t !! vt = None ->
    let b' := AddStruct vt s b in
    pending b' = Some (start, match s with None => t | Some ws => <[vt := Inline ws]> t end) /\
    objects b' = objects b;
  EndTable_ok b start t : pending b = Some (start, t) ->
    let '(o, b') := EndTable start b in
    o <> 0 /\ objects b !! o = None /\ pending b' = None /\
    objects b' = <[o := OTable t]> (objects b);

  (** Reading: memory from a pointer on, and a position in it. *)
  GetRoot : list Z -> Z;
  GetSizePrefixedRoot : list Z -> Z;
  GetField : fb_type -> list Z -> Z -> Z -> Z -> outcome Z;
  GetPointer : list Z -> Z -> Z -> outcome (option Z);
  GetStruct : list Z -> Z -> Z -> outcome (option (list Z));
  (** The bytes of a string up to its terminator, which [c_str()] designates. *)
  c_str : list Z -> Z -> outcome (list Z);
  vector : list Z -> Z -> outcome (list Z);
  object_at : list Z -> Z -> object -> Prop;

  (** A finished buffer holds the builder's objects, whatever follows it. *)
  Finish_ok root b rest o x :
    pending b = None -> objects b !! root <> None -> objects b !! o = Some x ->
    let bytes := GetBuffer (Finish root b) in
    GetRoot (bytes ++ rest) = zlen bytes - root /\
    object_at (bytes ++ rest) (zlen bytes - o) (relocate (zlen bytes) x);
  FinishSizePrefixed_ok root b rest o x :
    pending b = None -> objects b !! root <> None -> objects b !! o = Some x ->
    let bytes := GetBuffer (FinishSizePrefixed root b) in
    GetSizePrefixedRoot (bytes ++ rest) = zlen bytes - root /\
    object_at (bytes ++ rest) (zlen bytes - o) (relocate (zlen bytes) x);
  GetField_ok ty mem p vt d t : object_at mem p (OTable t) ->
    (t !! vt = None -> GetField ty mem p vt d = Ret d) /\
    (forall v, t !! vt = Some (Scalar ty v) -> GetField ty mem p vt d = Ret v);
  GetPointer_ok mem p vt t : object_at mem p (OTable t) ->
    (t !! vt = None -> GetPointer mem p vt = Ret None) /\
    (forall o, t !! vt = Some (Ref o) -> GetPointer mem p vt = Ret (Some o));
  GetStruct_ok mem p vt t : object_at mem p (OTable t) ->
    (t !! vt = None -> GetStruct mem p vt = Ret None) /\
    (forall ws, t !! vt = Some (Inline ws) -> GetStruct mem p vt = Ret (Some ws));
  c_str_ok mem p s : object_at mem p (OString s) -> c_str mem p = Ret (c_text s);
  vector_ok mem p v : object_at mem p (OVector v) -> vector mem p = Ret v;

  (** [EndianScalar] and [IsOutRange]. *)
  EndianScalar : Z -> Z;
  EndianScalar_inv z : EndianScalar (EndianScalar z) = z;
  IsOutRange : Z -> Z -> Z -> bool;
  IsOutRange_spec e low high : IsOutRange e low high = (e <? low) || (high <? e);
}.

(** The verifier: it counts the depth of tables and their number. The functions
    that verify a table of a generated type take its [Verify] as an argument. *)
Class Verifier `{FlatBuffers} := {
  verifier : Type;
  depth : verifier -> Z;
  num_tables : verifier -> Z;
  max_depth : Z;
  max_tables : Z;
  VerifyTableStart : list Z -> Z -> verifier -> bool * verifier;
  VerifyField : fb_type -> list Z -> Z -> Z -> Z -> bool;
  VerifyOffset : list Z -> Z -> Z -> bool;
  VerifyString : list Z -> option Z -> bool;
  VerifyVector : list Z -> option Z -> bool;
  VerifierEndTable : verifier -> bool * verifier;
  VerifyTable : (list Z -> Z -> verifier -> outcome (bool * verifier)) ->
    list Z -> option Z -> verifier -> outcome (bool * verifier);
  VerifyBuffer : (list Z -> Z -> verifier -> outcome (bool * verifier)) ->
    list Z -> verifier -> outcome (bool * verifier);
  VerifySizePrefixedBuffer : (list Z -> Z -> verifier -> outcome (bool * verifier)) ->
    list Z -> verifier -> outcome (bool * verifier);
  VerifyTableStart_ok mem p t v :
    object_at mem p (OTable t) -> depth v < max_depth -> num_tables v < max_tables ->
    exists v', VerifyTableStart mem p v = (true, v') /\
      depth v' = depth v + 1 /\ num_tables v' = num_tables v + 1;
  VerifierEndTable_ok v : exists v', VerifierEndTable v = (true, v') /\
    depth v' = depth v - 1 /\ num_tables v' = num_tables v;
  VerifyField_ok ty mem p vt t : object_at mem p (OTable t) ->
    t !! vt = None \/ (exists v, t !! vt = Some (Scalar ty v)) \/
    (exists ws, t !! vt = Some (Inline ws) /\ ty = STRUCT (zlen ws)) ->
    VerifyField ty mem p vt (alignment ty) = true;
  VerifyOffset_ok mem p vt t : object_at mem p (OTable t) ->
    t !! vt = None \/ (exists o, t !! vt = Some (Ref o)) -> VerifyOffset mem p vt = true;
  VerifyString_ok mem o : (forall p, o = Some p -> exists s, object_at mem p (OString s)) ->
    VerifyString mem o = true;
  VerifyVector_ok mem o : (forall p, o = Some p -> exists v, object_at mem p (OVector v)) ->
    VerifyVector mem o = true;
  VerifyTable_null f mem v : VerifyTable f mem None v = Ret (true, v);
  VerifyTable_some f mem p v : VerifyTable f mem (Some p) v = f mem p v;
  (** Buffers are verified without what follows them. *)
  VerifyBuffer_ok f b root x v :
    pending b = None -> objects b !! root = Some x ->
    let bytes := GetBuffer (Finish root b) in
    VerifyBuffer f bytes v = f bytes (GetRoot bytes) v;
  VerifySizePrefixedBuffer_ok f b root x v :
    pending b = None -> objects b !! root = Some x ->
    let bytes := GetBuffer (FinishSizePrefixed root b) in
    VerifySizePrefixedBuffer f bytes v = f bytes (GetSizePrefixedRoot bytes) v;
}.

(** ** Building a table and reading it back *)
Section Tables.
Context `{FlatBuffers}.
Implicit Types (b : builder) (t : table) (os : gmap Z object).

(** What each [Add] call does to the table. *)
Definition set_scalar (ty : fb_type) (vt v d : Z) t : table :=
  if v =? d then t else <[vt := Scalar ty v]> t.
Definition set_ref (vt o : Z) t : table := if o =? 0 then t else <[vt := Ref o]> t.
Definition set_struct (vt : Z) (s : option (list Z)) t : table :=
  match s with None => t | Some ws => <[vt := Inline ws]> t end.

(** A builder in the middle of the table [t], with the finished objects [os]. *)
Definition building b os start t : Prop := pending b = Some (start, t) /\ objects b = os.

Lemma StartTable_building b : pending b = None ->
  building (StartTable b).2 (objects b) (StartTable b).1 ∅.
Proof.
  intros Hb. pose proof (StartTable_ok b Hb) as Hs. by destruct (StartTable b) as [start b'].
Qed.
Lemma AddElement_building ty vt v d b os start t :
  building b os start t -> t !! vt = None -> in_type ty v ->
  building (AddElement ty vt v d b) os start (set_scalar ty vt v d t).
Proof.
  intros [Hp <-] Ht Hv. exact (AddElement_ok ty vt v d b start t Hp Ht Hv).
Qed.
Lemma AddOffset_building vt o b os start t :
  building b os start t -> t !! vt = None -> (o <> 0 -> is_Some (os !! o)) ->
  building (AddOffset vt o b) os start (set_ref vt o t).
Proof.
  intros [Hp <-] Ht Ho. exact (AddOffset_ok vt o b start t Hp Ht Ho).
Qed.
Lemma AddStruct_building vt s b os start t :
  building b os start t -> t !! vt = None ->
  building (AddStruct vt s b) os start (set_struct vt s t).
Proof.
  intros [Hp <-] Ht. exact (AddStruct_ok vt s b start t Hp Ht).
Qed.

(** A builder between two objects, which now has the object [x] at [o]. *)
Definition has_new b os o (x : object) : Prop :=
  pending b = None /\ o <> 0 /\ os !! o = None /\ objects b = <[o := x]> os.

Lemma EndTable_new b os start t : building b os start t ->
  has_new (EndTable start b).2 os (EndTable start b).1 (OTable t).
Proof.
  intros [Hp <-]. pose proof (EndTable_ok b start t Hp) as He.
  destruct (EndTable start b) as [o b']. unfold has_new. simpl. tauto.
Qed.
Lemma CreateString_new s b : pending b = None ->
  has_new (CreateString s b).2 (objects b) (CreateString s b).1 (OString s).
Proof.
  intros Hp. pose proof (CreateString_ok s b Hp) as He.
  destruct (CreateString s b) as [o b']. unfold has_new. simpl. tauto.
Qed.
Lemma CreateVector_new v b : pending b = None ->
  has_new (CreateVector v b).2 (objects b) (CreateVector v b).1 (OVector v).
Proof.
  intros Hp. pose proof (CreateVector_ok v b Hp) as He.
  destruct (CreateVector v b) as [o b']. unfold has_new. simpl. tauto.
Qed.
Lemma has_new_lookup b os o x : has_new b os o x -> objects b !! o = Some x.
Proof. intros (_ & _ & _ & ->). by rewrite lookup_insert_eq. Qed.
(** Objects made before stay where they are. *)
Lemma has_new_old b os o x o' y :
  has_new b os o x -> os !! o' = Some y -> objects b !! o' = Some y.
Proof.
  intros (_ & _ & Ho & ->) Hy. rewrite lookup_insert_ne; [done|]. intros ->. congruence.
Qed.

(** Lookups through the [Add] calls. *)
Lemma set_scalar_ne ty vt v d t k : vt <> k -> set_scalar ty vt v d t !! k = t !! k.
Proof. intros Hne. unfold set_scalar. destruct (v =? d); [done|]. by rewrite lookup_insert_ne. Qed.
Lemma set_ref_ne vt o t k : vt <> k -> set_ref vt o t !! k = t !! k.
Proof. intros Hne. unfold set_ref. destruct (o =? 0); [done|]. by rewrite lookup_insert_ne. Qed.
Lemma set_struct_ne vt s t k : vt <> k -> set_struct vt s t !! k = t !! k.
Proof. intros Hne. destruct s; [|done]. simpl. by rewrite lookup_insert_ne. Qed.
Lemma set_scalar_eq ty vt v d t : t !! vt = None ->
  set_scalar ty vt v d t !! vt = if v =? d then None else Some (Scalar ty v).
Proof. intros Hn. unfold set_scalar. destruct (v =? d); [done|]. by rewrite lookup_insert_eq. Qed.
Lemma set_ref_eq vt o t : t !! vt = None ->
  set_ref vt o t !! vt = if o =? 0 then None else Some (Ref o).
Proof. intros Hn. unfold set_ref. destruct (o =? 0); [done|]. by rewrite lookup_insert_eq. Qed.
Lemma set_struct_eq vt s t : t !! vt = None -> set_struct vt s t !! vt = Inline <$> s.
Proof. intros Hn. destruct s; [|done]. simpl. by rewrite lookup_insert_eq. Qed.

(** A finished buffer [mem] of [size] bytes that holds the objects of [b]. *)
Definition finished b (size : Z) (mem : list Z) : Prop :=
  forall o x, objects b !! o = Some x -> object_at mem (size - o) (relocate size x).

Lemma Finish_finished root b x rest :
  pending b = None -> objects b !! root = Some x ->
  let bytes := GetBuffer (Finish root b) in
  finished b (zlen bytes) (bytes ++ rest) /\ GetRoot (bytes ++ rest) = zlen bytes - root.
Proof.
  intros Hp Hr bytes. assert (Hne : objects b !! root <> None) by congruence. split.
  - intros o y Ho. exact (proj2 (Finish_ok root b rest o y Hp Hne Ho)).
  - exact (proj1 (Finish_ok root b rest root x Hp Hne Hr)).
Qed.
Lemma FinishSizePrefixed_finished root b x rest :
  pending b = None -> objects b !! root = Some x ->
  let bytes := GetBuffer (FinishSizePrefixed root b) in
  finished b (zlen bytes) (bytes ++ rest) /\
  GetSizePrefixedRoot (bytes ++ rest) = zlen bytes - root.
Proof.
  intros Hp Hr bytes. assert (Hne : objects b !! root <> None) by congruence. split.
  - intros o y Ho. exact (proj2 (FinishSizePrefixed_ok root b rest o y Hp Hne Ho)).
  - exact (proj1 (FinishSizePrefixed_ok root b rest root x Hp Hne Hr)).
Qed.

(** The table at a position of a finished buffer. *)
Definition table_at (mem : list Z) (size p : Z) t : Prop :=
  object_at mem p (OTable (relocate_field size <$> t)).

Lemma read_scalar mem size p t ty vt v d :
  table_at mem size p t -> t !! vt = (if v =? d then None else Some (Scalar ty v)) ->
  GetField ty mem p vt d = Ret v.
Proof.
  intros Ht Hv. destruct (GetField_ok ty mem p vt d _ Ht) as [Hn Hs].
  rewrite lookup_fmap, Hv in Hn, Hs. destruct (Z.eqb_spec v d) as [->|]; simpl in *.
  - by apply Hn.
  - by apply Hs.
Qed.
Lemma read_ref mem size p t vt o :
  table_at mem size p t -> t !! vt = (if o =? 0 then None else Some (Ref o)) ->
  GetPointer mem p vt = Ret (if o =? 0 then None else Some (size - o)).
Proof.
  intros Ht Hv. destruct (GetPointer_ok mem p vt _ Ht) as [Hn Hs].
  rewrite lookup_fmap, Hv in Hn, Hs. destruct (o =? 0); simpl in *.
  - by apply Hn.
  - by apply Hs.
Qed.
Lemma read_struct mem size p t vt s :
  table_at mem size p t -> t !! vt = Inline <$> s -> GetStruct mem p vt = Ret s.
Proof.
  intros Ht Hv. destruct (GetStruct_ok mem p vt _ Ht) as [Hn Hs].
  rewrite lookup_fmap, Hv in Hn, Hs. destruct s; simpl in *.
  - by apply Hs.
  - by apply Hn.
Qed.

(** What an offset argument stands for: nothing, or an object made before. *)
Definition ref_to {A} (mk : A -> object) os (o : Z) (s : option A) : Prop :=
  match s with None => o = 0 | Some s => o <> 0 /\ os !! o = Some (mk s) end.
(** What a pointer read from a table designates. *)
Definition points_to {A} (mk : A -> object) (mem : list Z) (q : outcome (option Z))
  (s : option A) : Prop :=
  match s with
  | None => q = Ret None
  | Some s => exists p, q = Ret (Some p) /\ object_at mem p (mk s)
  end.

Lemma ref_to_some {A} (mk : A -> object) os o s :
  ref_to mk os o s -> o <> 0 -> is_Some (os !! o).
Proof. destruct s; [|done]. intros [_ ->]. by eexists. Qed.
Lemma ref_to_new {A} (mk : A -> object) b os o s : has_new b os o (mk s) ->
  ref_to mk (objects b) o (Some s).
Proof. intros Hn. split; [by apply Hn|by eapply has_new_lookup]. Qed.
Lemma ref_to_old {A} (mk : A -> object) b os o x o' s :
  has_new b os o x -> ref_to mk os o' s -> ref_to mk (objects b) o' s.
Proof. intros Hn. destruct s; [|done]. intros [Ho Hl]. split; [done|by eapply has_new_old]. Qed.

(** The optional strings and vectors of the [Create...Direct] functions: null makes
    nothing, and references made before stay good. *)
Definition keeps_refs b b' : Prop :=
  forall A (mk : A -> object) o s, ref_to mk (objects b) o s -> ref_to mk (objects b') o s.
Definition string_or_null (text : option (list Z)) b : Z * builder :=
  match text with Some text => CreateString (c_text text) b | None => (0, b) end.
Definition vector_or_null (v : option (list Z)) b : Z * builder :=
  match v with Some v => CreateVector v b | None => (0, b) end.

Lemma string_or_null_ok text b : pending b = None ->
  let '(o, b') := string_or_null text b in
  pending b' = None /\ ref_to OString (objects b') o (c_text <$> text) /\ keeps_refs b b'.
Proof.
  intros Hp. destruct text as [text|]; simpl; [|by unfold keeps_refs; split_and!; auto].
  pose proof (CreateString_new (c_text text) b Hp) as Hs.
  destruct (CreateString (c_text text) b) as [o b']. split; [apply Hs|].
  split; [by eapply (ref_to_new OString)|]. intros A mk o' s Hr. by eapply ref_to_old.
Qed.
Lemma vector_or_null_ok v b : pending b = None ->
  let '(o, b') := vector_or_null v b in
  pending b' = None /\ ref_to OVector (objects b') o v /\ keeps_refs b b'.
Proof.
  intros Hp. destruct v as [v|]; simpl; [|by unfold keeps_refs; split_and!; auto].
  pose proof (CreateVector_new v b Hp) as Hs.
  destruct (CreateVector v b) as [o b']. split; [apply Hs|].
  split; [by eapply (ref_to_new OVector)|]. intros A mk o' s Hr. by eapply ref_to_old.
Qed.

Lemma read_pointer {A} (mk : A -> object) b mem size p t vt o s :
  finished b size mem -> table_at mem size p t ->
  (forall s, relocate size (mk s) = mk s) -> ref_to mk (objects b) o s ->
  t !! vt = (if o =? 0 then None else Some (Ref o)) ->
  points_to mk mem (GetPointer mem p vt) s.
Proof.
  intros Hf Ht Hm Hr Hv. rewrite (read_ref mem size p t vt o Ht Hv).
  destruct s as [s|]; simpl in Hr; [|by subst o].
  destruct Hr as [Hne Hl]. destruct (Z.eqb_spec o 0); [done|].
  exists (size - o). split; [done|]. rewrite <- Hm. by apply Hf.
Qed.
End Tables.

(** Lookups of a field in a table made by [Add] calls on distinct fields. *)
Ltac fields :=
  repeat first [rewrite set_scalar_ne by discriminate | rewrite set_ref_ne by discriminate
    | rewrite set_struct_ne by discriminate];
  try first [apply lookup_empty | apply set_scalar_eq | apply set_ref_eq | apply set_struct_eq];
  repeat first [rewrite set_scalar_ne by discriminate | rewrite set_ref_ne by discriminate
    | rewrite set_struct_ne by discriminate];
  try apply lookup_empty.
(** The [Add] calls of a builder, from its last one. *)
Ltac add_fields :=
  repeat (first [eapply AddElement_building | eapply AddOffset_building
      | eapply AddStruct_building];
    [|solve [fields]|try first [eassumption | eapply ref_to_some; eassumption]..]);
  try eassumption.

(** ** Verifying a table: the checks of a [Verify] function, each if the ones before
    it succeeded. *)
Section Checks.
Context `{Verifier}.

Fixpoint all_checks (checks : list (verifier -> outcome (bool * verifier))) (v : verifier)
  : outcome (bool * verifier) :=
  match checks with
  | [] => Ret (true, v)
  | c :: checks => let! (ok, v) := c v in if ok then all_checks checks v else Ret (false, v)
  end.
Definition pure_check (ok : bool) (v : verifier) : outcome (bool * verifier) := Ret (ok, v).

Lemma all_checks_cons c checks v v' :
  c v = Ret (true, v') -> all_checks (c :: checks) v = all_checks checks v'.
Proof. intros E. simpl. by rewrite E. Qed.
Lemma all_checks_pure ok checks v :
  ok = true -> all_checks (pure_check ok :: checks) v = all_checks checks v.
Proof. by intros ->. Qed.
Lemma all_checks_end v : exists v', all_checks [fun v => Ret (VerifierEndTable v)] v = Ret (true, v') /\
  depth v' = depth v - 1 /\ num_tables v' = num_tables v.
Proof. destruct (VerifierEndTable_ok v) as (v' & E & Hd). exists v'. simpl. by rewrite E. Qed.

(** A field of a table that was built with its type passes its check. *)
Lemma check_scalar mem size p t ty vt v d : table_at mem size p t ->
  t !! vt = (if v =? d then None else Some (Scalar ty v)) ->
  VerifyField ty mem p vt (alignment ty) = true.
Proof.
  intros Ht Hv. eapply VerifyField_ok; [exact Ht|]. rewrite lookup_fmap, Hv.
  destruct (v =? d); simpl; eauto.
Qed.
Lemma check_struct mem size p t vt s n : table_at mem size p t ->
  t !! vt = Inline <$> s -> (forall ws, s = Some ws -> zlen ws = n) ->
  VerifyField (STRUCT n) mem p vt 4 = true.
Proof.
  intros Ht Hv Hs. apply (VerifyField_ok (STRUCT n) mem p vt _ Ht). rewrite lookup_fmap, Hv.
  destruct s as [ws|]; simpl; [|by left]. right. right. exists ws.
  by rewrite <- (Hs ws eq_refl).
Qed.
Lemma check_offset mem size p t vt o : table_at mem size p t ->
  t !! vt = (if o =? 0 then None else Some (Ref o)) -> VerifyOffset mem p vt = true.
Proof.
  intros Ht Hv. eapply VerifyOffset_ok; [exact Ht|]. rewrite lookup_fmap, Hv.
  destruct (o =? 0); simpl; eauto.
Qed.
(** A table with one scalar field. *)
Lemma check_one mem size p t ty vt x d v :
  table_at mem size p t -> t !! vt = (if x =? d then None else Some (Scalar ty x)) ->
  depth v < max_depth -> num_tables v < max_tables ->
  exists v', all_checks [fun v => Ret (VerifyTableStart mem p v);
      pure_check (VerifyField ty mem p vt (alignment ty)); fun v => Ret (VerifierEndTable v)] v
      = Ret (true, v') /\
    depth v' = depth v /\ num_tables v' = num_tables v + 1.
Proof.
  intros Ht Hx Hd Hn.
  destruct (VerifyTableStart_ok mem p _ v Ht Hd Hn) as (v1 & Ev & Hd1 & Hn1).
  rewrite (all_checks_cons _ _ v v1) by (by rewrite Ev).
  rewrite all_checks_pure by (by eapply check_scalar).
  destruct (all_checks_end v1) as (v2 & -> & Hd2 & Hn2). exists v2. split; [done|]. lia.
Qed.

(** A string or a vector behind a pointer passes its check. *)
Lemma check_string mem q s : points_to OString mem q s ->
  exists o, q = Ret o /\ VerifyString mem o = true.
Proof.
  destruct s as [s|]; simpl; [intros (p & -> & Hs)|intros ->]; eexists; split; try done;
    apply VerifyString_ok; [intros ? [= <-]; eauto|done].
Qed.
Lemma check_vector mem q s : points_to OVector mem q s ->
  exists o, q = Ret o /\ VerifyVector mem o = true.
Proof.
  destruct s as [s|]; simpl; [intros (p & -> & Hs)|intros ->]; eexists; split; try done;
    apply VerifyVector_ok; [intros ? [= <-]; eauto|done].
Qed.
End Checks.

(** ** A concrete instance

    A builder keeps its objects in a map; a buffer is the map and the root, written
    in bits and closed by a 2. *)
Module Reference.

Definition type_code (ty : fb_type) : Z * Z :=
  match ty with
  | UINT8 => (0, 0) | INT8 => (1, 0) | INT16 => (2, 0) | INT32 => (3, 0) | STRUCT n => (4, n)
  end.
Definition code_type (c : Z * Z) : fb_type :=
  match c.1 with 0 => UINT8 | 1 => INT8 | 2 => INT16 | 3 => INT32 | _ => STRUCT c.2 end.
Lemma code_type_code ty : code_type (type_code ty) = ty.
Proof. by destruct ty. Qed.

(** Trees of integers, which stdpp can write as positive numbers. *)
Notation tree := (gen_tree Z).
Definition leaf_list (l : list Z) : list tree := GenLeaf <$> l.
Definition list_leaf (l : list tree) : list Z :=
  (fun x => match x with GenLeaf z => z | _ => 0 end) <$> l.
Lemma list_leaf_list l : list_leaf (leaf_list l) = l.
Proof. unfold list_leaf, leaf_list. induction l as [|z l IH]; simpl; by f_equal. Qed.

Definition field_tree (f : field) : tree :=
  match f with
  | Scalar ty v => GenNode 0 (leaf_list [(type_code ty).1; (type_code ty).2; v])
  | Ref o => GenNode 1 (leaf_list [o])
  | Inline ws => GenNode 2 (leaf_list ws)
  end.
Definition tree_field (x : tree) : field :=
  match x with
  | GenNode 0 l => match list_leaf l with [a; b; v] => Scalar (code_type (a, b)) v | _ => Ref 0 end
  | GenNode 1 l => match list_leaf l with [o] => Ref o | _ => Ref 0 end
  | GenNode _ l => Inline (list_leaf l)
  | _ => Ref 0
  end.
Lemma tree_field_tree f : tree_field (field_tree f) = f.
Proof. destruct f as [ty v|o|ws]; simpl; [by destruct ty|done|by rewrite list_leaf_list]. Qed.

Definition entry_tree {A} (f : A -> tree) (e : Z * A) : tree := GenNode 0 [GenLeaf e.1; f e.2].
Definition tree_entry {A} (g : tree -> A) (x : tree) : Z * A :=
  match x with GenNode _ [GenLeaf z; y] => (z, g y) | _ => (0, g (GenLeaf 0)) end.
Lemma tree_entries {A} (f : A -> tree) g : (forall a, g (f a) = a) ->
  forall l : list (Z * A), tree_entry g <$> (entry_tree f <$> l) = l.
Proof.
  intros Hg l. induction l as [|[z a] l IH]; [done|]. simpl. rewrite Hg. f_equal. exact IH.
Qed.

Definition object_tree (x : object) : tree :=
  match x with
  | OString s => GenNode 0 (leaf_list s)
  | OVector v => GenNode 1 (leaf_list v)
  | OTable t => GenNode 2 (entry_tree field_tree <$> map_to_list t)
  end.
Definition tree_object (x : tree) : object :=
  match x with
  | GenNode 0 l => OString (list_leaf l)
  | GenNode 1 l => OVector (list_leaf l)
  | GenNode _ l => OTable (list_to_map (tree_entry tree_field <$> l))
  | _ => OString []
  end.
Lemma tree_object_tree x : tree_object (object_tree x) = x.
Proof.
  destruct x as [s|v|t]; simpl; rewrite ?list_leaf_list; try done.
  by rewrite (tree_entries _ _ tree_field_tree), list_to_map_to_list.
Qed.

(** The root and the objects. *)
Definition heap_tree (h : Z * gmap Z object) : tree :=
  GenNode 0 (GenLeaf h.1 :: (entry_tree object_tree <$> map_to_list h.2)).
Definition tree_heap (x : tree) : Z * gmap Z object :=
  match x with
  | GenNode _ (GenLeaf r :: l) => (r, list_to_map (tree_entry tree_object <$> l))
  | _ => (0, ∅)
  end.
Lemma tree_heap_tree h : tree_heap (heap_tree h) = h.
Proof.
  destruct h as [r m]. simpl.
  by rewrite (tree_entries _ _ tree_object_tree), list_to_map_to_list.
Qed.

(** A positive number as bits, closed by a 2. *)
Fixpoint bits (p : positive) : list Z :=
  match p with xH => [2] | xO p => 0 :: bits p | xI p => 1 :: bits p end.
Fixpoint unbits (l : list Z) : option (positive * Z) :=
  match l with
  | 0 :: l => match unbits l with Some (p, n) => Some (xO p, n + 1) | None => None end
  | 1 :: l => match unbits l with Some (p, n) => Some (xI p, n + 1) | None => None end
  | 2 :: _ => Some (xH, 1)
  | _ => None
  end.
Lemma unbits_bits p rest : unbits (bits p ++ rest) = Some (p, zlen (bits p)).
Proof.
  unfold zlen. induction p as [p IH|p IH|]; simpl; rewrite ?IH; try done; do 2 f_equal; lia.
Qed.

Definition write (h : Z * gmap Z object) : list Z := bits (encode (heap_tree h)).
(** The heap a memory starts with, and its size. *)
Definition read (mem : list Z) : option (Z * (Z * gmap Z object)) :=
  match unbits mem with
  | Some (p, n) => match decode (A := tree) p with Some x => Some (n, tree_heap x) | None => None end
  | None => None
  end.
Lemma read_write h rest : read (write h ++ rest) = Some (zlen (write h), h).
Proof. unfold read, write. by rewrite unbits_bits, decode_encode, tree_heap_tree. Qed.

Record builder := mk { objs : gmap Z object; pend : option (Z * table); root : Z }.
Definition fresh_offset (m : gmap Z object) : Z :=
  1 + foldr Z.max 0 (fst <$> map_to_list m).
Lemma fresh_offset_ok m : fresh_offset m <> 0 /\ m !! fresh_offset m = None.
Proof.
  assert (Hmax : forall l : list Z, Forall (fun z => z <= foldr Z.max 0 l) l /\
    0 <= foldr Z.max 0 l).
  { induction l as [|z l [IH Hp]]; simpl; [by split|]. split; [|lia]. constructor; [lia|].
    eapply Forall_impl; [exact IH|]. simpl. lia. }
  unfold fresh_offset. destruct (Hmax (fst <$> map_to_list m)) as [Hl Hp]. split; [lia|].
  destruct (m !! _) as [x|] eqn:E; [|done]. apply elem_of_map_to_list in E.
  rewrite Forall_fmap, Forall_forall in Hl. specialize (Hl _ E). simpl in Hl. lia.
Qed.

Definition put (x : object) (b : builder) : Z * builder :=
  let o := fresh_offset (objs b) in (o, mk (<[o := x]> (objs b)) None (root b)).
Definition add (vt : Z) (f : option field) (b : builder) : builder :=
  match pend b, f with
  | Some (start, t), Some f => mk (objs b) (Some (start, <[vt := f]> t)) (root b)
  | _, _ => b
  end.
Definition finish (r : Z) (b : builder) : builder := mk (objs b) None r.
Definition buffer (b : builder) : list Z := write (root b, objs b).

Definition get_root (mem : list Z) : Z :=
  match read mem with Some (n, (r, _)) => n - r | None => 0 end.
Definition lookup_at (mem : list Z) (p : Z) : option object :=
  match read mem with Some (n, (_, m)) => relocate n <$> m !! (n - p) | None => None end.
Definition get (mem : list Z) (p vt : Z) : outcome (option field) :=
  match lookup_at mem p with Some (OTable t) => Ret (t !! vt) | _ => Fault OutOfBounds end.

Lemma lookup_at_finished b r rest o x :
  objs b !! o = Some x ->
  get_root (buffer (finish r b) ++ rest) = zlen (buffer (finish r b)) - r /\
  lookup_at (buffer (finish r b) ++ rest) (zlen (buffer (finish r b)) - o) =
    Some (relocate (zlen (buffer (finish r b))) x).
Proof.
  intros Ho. unfold get_root, lookup_at, buffer. rewrite read_write.
  split; [done|]. cbn [objs root finish]. set (n := zlen _).
  replace (n - (n - o)) with o by lia. by rewrite Ho.
Qed.

Lemma fresh_ok x b : let '(o, b') := put x b in
  o <> 0 /\ objs b !! o = None /\ pend b' = None /\ objs b' = <[o := x]> (objs b).
Proof. simpl. destruct (fresh_offset_ok (objs b)). by split_and!. Qed.

#[export] Instance flat_buffers : FlatBuffers.
Proof.
  refine {|
  FlatBuffers.builder := builder;
  objects := objs;
  pending := pend;
  new_builder _ := mk ∅ None 0;
  CreateString s := put (OString s);
  CreateVector v := put (OVector v);
  StartTable b := (0, mk (objs b) (Some (0, ∅)) (root b));
  AddElement ty vt v d := add vt (if v =? d then None else Some (Scalar ty v));
  AddOffset vt o := add vt (if o =? 0 then None else Some (Ref o));
  AddStruct vt s := add vt (Inline <$> s);
  EndTable _ b := put (OTable match pend b with Some (_, t) => t | None => ∅ end) b;
  Finish := finish;
  FinishSizePrefixed := finish;
  GetBuffer := buffer;
  GetRoot := get_root;
  GetSizePrefixedRoot := get_root;
  GetField ty mem p vt d :=
    let! f := get mem p vt in
    match f with
    | None => Ret d
    | Some (Scalar ty' v) => if decide (ty = ty') then Ret v else Fault OutOfBounds
    | _ => Fault OutOfBounds
    end;
  GetPointer mem p vt :=
    let! f := get mem p vt in
    match f with None => Ret None | Some (Ref o) => Ret (Some o) | _ => Fault OutOfBounds end;
  GetStruct mem p vt :=
    let! f := get mem p vt in
    match f with None => Ret None | Some (Inline w) => Ret (Some w) | _ => Fault OutOfBounds end;
  c_str mem p :=
    match lookup_at mem p with Some (OString s) => Ret (c_text s) | _ => Fault OutOfBounds end;
  vector mem p :=
    match lookup_at mem p with Some (OVector v) => Ret v | _ => Fault OutOfBounds end;
  object_at mem p x := lookup_at mem p = Some x;
  EndianScalar z := z;
  IsOutRange e low high := (e <? low) || (high <? e);
|}; simpl; intros; try rewrite H; try done; try (by apply fresh_ok);
    try (unfold get; rewrite H; by split; intros; simplify_option_eq);
    try (unfold get; rewrite H; split; [by intros ->|by intros ? ->]);
    try (by apply lookup_at_finished).
  - (* AddElement *) unfold add. rewrite H. by destruct (v =? d).
  - (* AddOffset *) unfold add. rewrite H. by destruct (o =? 0).
  - (* AddStruct *) unfold add. rewrite H. by destruct s.
Defined.

Definition table_field (mem : list Z) (p vt : Z) (ok : field -> bool) : bool :=
  match get mem p vt with Ret None => true | Ret (Some f) => ok f | _ => false end.

#[export] Instance verifier : Verifier.
Proof.
  refine {|
  FlatBuffers.verifier := Z * Z;
  depth := fst;
  num_tables := snd;
  max_depth := 64;
  max_tables := 1000000;
  VerifyTableStart mem p v :=
    (match lookup_at mem p with Some (OTable _) => true | _ => false end &&
       (v.1 + 1 <=? 64) && (v.2 + 1 <=? 1000000), (v.1 + 1, v.2 + 1));
  VerifyField ty mem p vt align :=
    table_field mem p vt (fun f => match f with
      | Scalar ty' _ => bool_decide (ty = ty')
      | Inline ws => bool_decide (ty = STRUCT (zlen ws))
      | Ref _ => false
      end) && (align =? alignment ty);
  VerifyOffset mem p vt :=
    table_field mem p vt (fun f => match f with Ref _ => true | _ => false end);
  VerifyString mem o :=
    match o with
    | None => true
    | Some p => match lookup_at mem p with Some (OString _) => true | _ => false end
    end;
  VerifyVector mem o :=
    match o with
    | None => true
    | Some p => match lookup_at mem p with Some (OVector _) => true | _ => false end
    end;
  VerifierEndTable v := (true, (v.1 - 1, v.2));
  VerifyTable f mem o v := match o with None => Ret (true, v) | Some p => f mem p v end;
  VerifyBuffer f mem v := f mem (get_root mem) v;
  VerifySizePrefixedBuffer f mem v := f mem (get_root mem) v;
|}; simpl; intros; try done.
  - rewrite H. exists (v.1 + 1, v.2 + 1). split; [|done]. f_equal. simpl.
    apply andb_true_intro; split; apply Z.leb_le; lia.
  - by exists (v.1 - 1, v.2).
  - unfold table_field, get. rewrite H, Z.eqb_refl, andb_true_r.
    destruct H0 as [->|[[v ->]|(ws & -> & ->)]]; [done|by apply bool_decide_eq_true..].
  - unfold table_field, get. rewrite H. by destruct H0 as [->|[o ->]].
  - destruct o as [p|]; [|done]. by destruct (H p eq_refl) as [s ->].
  - destruct o as [p|]; [|done]. by destruct (H p eq_refl) as [v ->].
Defined.
End Reference.
