(* ===== verification/TestPacket.v ===== *)
(** commons/fbs/Packet_generated.h: the table TestPacket (a message and a number),
    its builder, its accessors and its verification, over the FlatBuffers library
    of FlatBuffers.v. *)
From S2P Require Import Prelude FlatBuffers.
#[local] Open Scope Z_scope.

Module TestPacket.
Section TestPacket.
Context `{FlatBuffers}.

Definition VT_MSG : Z := 4.
Definition VT_NUMBER : Z := 6.

(** The accessors of the table at position [p] of [mem]. *)
Definition msg (mem : list Z) (p : Z) : outcome (option Z) := GetPointer mem p VT_MSG.
Definition number (mem : list Z) (p : Z) : outcome Z := GetField INT32 mem p VT_NUMBER 0.

Definition Verify `{!Verifier} (mem : list Z) (p : Z) : verifier -> outcome (bool * verifier) :=
  all_checks [
    fun v => Ret (VerifyTableStart mem p v);
    pure_check (VerifyOffset mem p VT_MSG);
    fun v => let! m := msg mem p in Ret (VerifyString mem m, v);
    pure_check (VerifyField INT32 mem p VT_NUMBER 4);
    fun v => Ret (VerifierEndTable v)].
End TestPacket.
End TestPacket.

Module TestPacketBuilder.
Section TestPacketBuilder.
Context `{FlatBuffers}.

Record t := mk { fbb_ : builder; start_ : Z }.
Definition new (_fbb : builder) : t :=
  let '(start, fbb) := StartTable _fbb in mk fbb start.
Definition add_msg (msg : Z) (b : t) : t :=
  mk (AddOffset TestPacket.VT_MSG msg (fbb_ b)) (start_ b).
Definition add_number (number : Z) (b : t) : t :=
  mk (AddElement INT32 TestPacket.VT_NUMBER number 0 (fbb_ b)) (start_ b).
Definition Finish (b : t) : Z * builder := EndTable (start_ b) (fbb_ b).
End TestPacketBuilder.
End TestPacketBuilder.

Section Create.
Context `{FlatBuffers}.

Definition CreateTestPacket (_fbb : builder) (msg number : Z) : Z * builder :=
  let builder_ := TestPacketBuilder.new _fbb in
  let builder_ := TestPacketBuilder.add_number number builder_ in
  let builder_ := TestPacketBuilder.add_msg msg builder_ in
  TestPacketBuilder.Finish builder_.

(** [msg] is null or the memory at the pointer. *)
Definition CreateTestPacketDirect (_fbb : builder) (msg : option (list Z)) (number : Z)
  : Z * builder :=
  let '(msg__, _fbb) :=
    match msg with Some text => CreateString (c_text text) _fbb | None => (0, _fbb) end in
  CreateTestPacket _fbb msg__ number.

Definition GetTestPacket (buf : list Z) : Z := GetRoot buf.
Definition GetSizePrefixedTestPacket (buf : list Z) : Z := GetSizePrefixedRoot buf.
Definition FinishTestPacketBuffer (fbb : builder) (root : Z) : builder := Finish root fbb.
Definition FinishSizePrefixedTestPacketBuffer (fbb : builder) (root : Z) : builder :=
  FinishSizePrefixed root fbb.

Section Verify.
Context `{!Verifier}.
Definition VerifyTestPacketBuffer : list Z -> verifier -> outcome (bool * verifier) :=
  VerifyBuffer TestPacket.Verify.
Definition VerifySizePrefixedTestPacketBuffer
  : list Z -> verifier -> outcome (bool * verifier) :=
  VerifySizePrefixedBuffer TestPacket.Verify.
End Verify.

(** ** What the builder makes *)
Definition table_of (msg number : Z) : table :=
  set_ref TestPacket.VT_MSG msg (set_scalar INT32 TestPacket.VT_NUMBER number 0 ∅).

Lemma CreateTestPacket_new fbb msg number s :
  pending fbb = None -> ref_to OString (objects fbb) msg s -> in_type INT32 number ->
  has_new (CreateTestPacket fbb msg number).2 (objects fbb)
    (CreateTestPacket fbb msg number).1 (OTable (table_of msg number)).
Proof.
  intros Hp Hm Hn. unfold CreateTestPacket, TestPacketBuilder.new.
  pose proof (StartTable_building fbb Hp) as Hb.
  destruct (StartTable fbb) as [start b]. eapply EndTable_new. unfold table_of. add_fields.
Qed.

(** A table built from [msg] and [number], read in a finished buffer. *)
Lemma read_table b mem size p msg number s :
  finished b size mem -> table_at mem size p (table_of msg number) ->
  ref_to OString (objects b) msg s ->
  points_to OString mem (TestPacket.msg mem p) s /\ TestPacket.number mem p = Ret number.
Proof.
  intros Hf Ht Hm. split.
  - eapply (read_pointer OString); [done|done|done|exact Hm|]. unfold table_of. fields.
  - eapply read_scalar; [done|]. unfold table_of. fields.
Qed.

Lemma verify_table `{!Verifier} b mem size p msg number s v :
  finished b size mem -> table_at mem size p (table_of msg number) ->
  ref_to OString (objects b) msg s ->
  depth v < max_depth -> num_tables v < max_tables ->
  exists v', TestPacket.Verify mem p v = Ret (true, v') /\
    depth v' = depth v /\ num_tables v' = num_tables v + 1.
Proof.
  intros Hf Ht Hm Hd Hn. destruct (read_table b mem size p msg number s Hf Ht Hm) as [Hp _].
  destruct (VerifyTableStart_ok mem p _ v Ht Hd Hn) as (v1 & Ev & Hd1 & Hn1).
  destruct (check_string mem _ s Hp) as (o & Eo & Hs).
  unfold TestPacket.Verify. rewrite (all_checks_cons _ _ v v1) by (by rewrite Ev).
  rewrite all_checks_pure by (eapply check_offset; [done|]; unfold table_of; fields).
  rewrite (all_checks_cons _ _ v1 v1) by (by rewrite Eo; simpl; rewrite Hs).
  rewrite all_checks_pure
    by (apply (check_scalar mem size p _ INT32 _ number 0 Ht); unfold table_of; fields).
  destruct (all_checks_end v1) as (v2 & -> & Hd2 & Hn2). exists v2. split; [done|]. lia.
Qed.

Lemma TestPacket_reads fbb msg number s rest :
  pending fbb = None -> ref_to OString (objects fbb) msg s -> in_type INT32 number ->
  let '(o, fbb') := CreateTestPacket fbb msg number in
  let bytes := GetBuffer (FinishTestPacketBuffer fbb' o) in
  let p := GetTestPacket (bytes ++ rest) in
  points_to OString (bytes ++ rest) (TestPacket.msg (bytes ++ rest) p) s /\
  TestPacket.number (bytes ++ rest) p = Ret number /\
  forall V : Verifier, forall v, depth v < max_depth -> num_tables v < max_tables ->
    exists v', VerifyTestPacketBuffer bytes v = Ret (true, v').
Proof.
  intros Hp Hm Hn. pose proof (CreateTestPacket_new fbb msg number s Hp Hm Hn) as Hnew.
  destruct (CreateTestPacket fbb msg number) as [o b]. cbn [fst snd] in Hnew.
  pose proof (has_new_lookup _ _ _ _ Hnew) as Ho.
  pose proof (ref_to_old _ _ _ _ _ _ _ Hnew Hm) as Hm'.
  unfold FinishTestPacketBuffer, GetTestPacket.
  destruct (Finish_finished o b _ rest (proj1 Hnew) Ho) as [Hf Hr]. rewrite Hr.
  destruct (read_table b _ _ _ msg number s Hf (Hf _ _ Ho) Hm') as [H1 H2].
  split; [done|]. split; [done|]. intros V v Hd Hv.
  destruct (Finish_finished o b _ [] (proj1 Hnew) Ho) as [Hf0 Hr0].
  unfold VerifyTestPacketBuffer. rewrite (VerifyBuffer_ok _ b o _ v (proj1 Hnew) Ho).
  rewrite app_nil_r in Hf0, Hr0. rewrite Hr0.
  destruct (verify_table b _ _ _ msg number s v Hf0 (Hf0 _ _ Ho) Hm' Hd Hv) as (v' & E & _).
  by exists v'.
Qed.

(** A TestPacket created with a string (or without one) and finished is read
    back: [GetTestPacket] finds the table, [number()] is the number, [msg()]
    designates the string or is null, and [VerifyTestPacketBuffer] accepts the
    buffer; bytes that follow the buffer change nothing. *)
Theorem TestPacket_roundtrip fbb msg number s rest :
  pending fbb = None -> ref_to OString (objects fbb) msg s -> in_type INT32 number ->
  let '(o, fbb') := CreateTestPacket fbb msg number in
  let bytes := GetBuffer (FinishTestPacketBuffer fbb' o) in
  let p := GetTestPacket (bytes ++ rest) in
  points_to OString (bytes ++ rest) (TestPacket.msg (bytes ++ rest) p) s /\
  TestPacket.number (bytes ++ rest) p = Ret number /\
  forall V : Verifier, forall v, depth v < max_depth -> num_tables v < max_tables ->
    exists v', VerifyTestPacketBuffer bytes v = Ret (true, v').
Proof. apply TestPacket_reads. Qed.

(** [CreateTestPacketDirect] is [CreateTestPacket] on the string it made. *)
Lemma CreateTestPacketDirect_new fbb msg number :
  pending fbb = None -> in_type INT32 number ->
  exists fbb1 o1, CreateTestPacketDirect fbb msg number = CreateTestPacket fbb1 o1 number /\
    pending fbb1 = None /\ ref_to OString (objects fbb1) o1 (c_text <$> msg).
Proof.
  intros Hp Hn. unfold CreateTestPacketDirect.
  pose proof (string_or_null_ok msg fbb Hp) as Hs. unfold string_or_null in Hs.
  destruct (match msg with Some _ => _ | None => _ end) as [o1 b1]. exists b1, o1. tauto.
Qed.
End Create.

(** ** A concrete packet *)
#[local] Existing Instance Reference.flat_buffers.
#[local] Existing Instance Reference.verifier.
Definition hello : list Z := [104; 105].
Definition with_hello : builder := (CreateString hello (new_builder 1024)).2.

Lemma TestPacket_roundtrip_witness :
  let '(o, fbb') := CreateTestPacket with_hello 1 100 in
  let bytes := GetBuffer (FinishTestPacketBuffer fbb' o) in
  let mem := bytes ++ [7; 7] in
  TestPacket.number mem (GetTestPacket mem) = Ret 100 /\
  exists v, VerifyTestPacketBuffer bytes (0, 0) = Ret (true, v).
Proof.
  assert (Hm : ref_to OString (objects with_hello) 1 (Some hello))
    by (split; [discriminate|vm_compute; reflexivity]).
  assert (Hn : in_type INT32 100) by (simpl; lia).
  pose proof (TestPacket_roundtrip with_hello 1 100 (Some hello) [7; 7] eq_refl Hm Hn) as Ht.
  destruct (CreateTestPacket with_hello 1 100) as [o fbb'].
  destruct Ht as (_ & Hr & Hv). split; [exact Hr|].
  exact (Hv Reference.verifier (0, 0) eq_refl eq_refl).
Defined.
