(* ===== verification/TestSchema.v ===== *)
(** commons/fbs/Test_generated.h (Color, Vec3, Creature) and Test2_generated.h (the
    union Jobs, Player, Magician, Warrior): builders, accessors, verification, over
    the FlatBuffers library of FlatBuffers.v. A float is the word that holds it. *)
From S2P Require Import Prelude FlatBuffers.
From stdpp Require Import strings.
#[local] Open Scope Z_scope.

(** ** Enumerations *)
Section Enums.
Context `{FlatBuffers}.

(** [enum Color : int8_t]. *)
Definition Color_Red : Z := 1.
Definition Color_Green : Z := 2.
Definition Color_Blue : Z := 3.
Definition EnumValuesColor : list Z := [Color_Red; Color_Green; Color_Blue].
Definition EnumNamesColor : list (option string) :=
  [Some "Red"; Some "Green"; Some "Blue"; None]%string.
(** An index past the array is out of bounds. *)
Definition EnumNameColor (e : Z) : outcome (option string) :=
  if IsOutRange e Color_Red Color_Blue then Ret (Some ""%string)
  else let index := u64 (u64 e - u64 Color_Red) in
       match EnumNamesColor !! Z.to_nat index with Some n => Ret n | None => Fault OutOfBounds end.

(** [enum Jobs : uint8_t]. *)
Definition Jobs_NONE : Z := 0.
Definition Jobs_Magician : Z := 1.
Definition Jobs_Warrior : Z := 2.
Definition EnumValuesJobs : list Z := [Jobs_NONE; Jobs_Magician; Jobs_Warrior].
Definition EnumNamesJobs : list (option string) :=
  [Some "NONE"; Some "Magician"; Some "Warrior"; None]%string.
Definition EnumNameJobs (e : Z) : outcome (option string) :=
  if IsOutRange e Jobs_NONE Jobs_Warrior then Ret (Some ""%string)
  else match EnumNamesJobs !! Z.to_nat (u64 e) with Some n => Ret n | None => Fault OutOfBounds end.

(** Every enumerator has its name and every other value the empty one; the table of
    names is never read outside, nor at its null end. *)
Theorem enum_names (e : Z) : -128 <= e < 256 ->
  EnumNameColor e = Ret (Some (if e =? Color_Red then "Red"%string
    else if e =? Color_Green then "Green"%string
    else if e =? Color_Blue then "Blue"%string else ""%string)) /\
  EnumNameJobs e = Ret (Some (if e =? Jobs_NONE then "NONE"%string
    else if e =? Jobs_Magician then "Magician"%string
    else if e =? Jobs_Warrior then "Warrior"%string else ""%string)).
Proof.
  intros He. unfold EnumNameColor, EnumNameJobs. rewrite !IsOutRange_spec.
  unfold Color_Red, Color_Green, Color_Blue, Jobs_NONE, Jobs_Magician, Jobs_Warrior. split.
  - destruct (Z.ltb_spec e 1), (Z.ltb_spec 3 e); simpl;
      try (rewrite (proj2 (Z.eqb_neq e 1)), (proj2 (Z.eqb_neq e 2)), (proj2 (Z.eqb_neq e 3)) by lia; reflexivity).
    assert (e = 1 \/ e = 2 \/ e = 3) as [->|[->| ->]] by lia; reflexivity.
  - destruct (Z.ltb_spec e 0), (Z.ltb_spec 2 e); simpl;
      try (rewrite (proj2 (Z.eqb_neq e 0)), (proj2 (Z.eqb_neq e 1)), (proj2 (Z.eqb_neq e 2)) by lia; reflexivity).
    assert (e = 0 \/ e = 1 \/ e = 2) as [->|[->| ->]] by lia; reflexivity.
Qed.
End Enums.

(** ** Vec3 *)
Module Vec3.
Section Vec3.
Context `{FlatBuffers}.
Record t := mk { x_ : Z; y_ : Z; z_ : Z }.
(** [Vec3()], [Vec3(_x, _y, _z)] and the accessors. *)
Definition zero : t := mk 0 0 0.
Definition new (_x _y _z : Z) : t := mk (EndianScalar _x) (EndianScalar _y) (EndianScalar _z).
Definition x (v : t) : Z := EndianScalar (x_ v).
Definition y (v : t) : Z := EndianScalar (y_ v).
Definition z (v : t) : Z := EndianScalar (z_ v).
(** Its object representation, 12 bytes, and the cast of a pointer to them. *)
Definition words (v : t) : list Z := [x_ v; y_ v; z_ v].
Definition SIZEOF : Z := 12.
Definition of_words (ws : list Z) : t :=
  match ws with [a; b; c] => mk a b c | _ => zero end.
Lemma of_words_words v : of_words (words v) = v.
Proof. by destruct v. Qed.
End Vec3.
End Vec3.

(** ** Creature *)
Module Creature.
Section Creature.
Context `{FlatBuffers}.
Definition VT_FRIENDLY : Z := 4.
Definition VT_POS : Z := 6.
Definition VT_HP : Z := 8.
Definition VT_NAME : Z := 10.
Definition VT_DROPS : Z := 12.
Definition VT_COLOR : Z := 14.

Definition friendly (mem : list Z) (p : Z) : outcome bool :=
  let! v := GetField UINT8 mem p VT_FRIENDLY 0 in Ret (negb (v =? 0)).
Definition pos (mem : list Z) (p : Z) : outcome (option Vec3.t) :=
  let! ws := GetStruct mem p VT_POS in Ret (Vec3.of_words <$> ws).
Definition hp (mem : list Z) (p : Z) : outcome Z := GetField INT16 mem p VT_HP 1000.
Definition name (mem : list Z) (p : Z) : outcome (option Z) := GetPointer mem p VT_NAME.
Definition drops (mem : list Z) (p : Z) : outcome (option Z) := GetPointer mem p VT_DROPS.
Definition color (mem : list Z) (p : Z) : outcome Z := GetField INT8 mem p VT_COLOR 3.

Definition Verify `{!Verifier} (mem : list Z) (p : Z) : verifier -> outcome (bool * verifier) :=
  all_checks [
    fun v => Ret (VerifyTableStart mem p v);
    pure_check (VerifyField UINT8 mem p VT_FRIENDLY 1);
    pure_check (VerifyField (STRUCT 3) mem p VT_POS 4);
    pure_check (VerifyField INT16 mem p VT_HP 2);
    pure_check (VerifyOffset mem p VT_NAME);
    fun v => let! n := name mem p in Ret (VerifyString mem n, v);
    pure_check (VerifyOffset mem p VT_DROPS);
    fun v => let! d := drops mem p in Ret (VerifyVector mem d, v);
    pure_check (VerifyField INT8 mem p VT_COLOR 1);
    fun v => Ret (VerifierEndTable v)].
End Creature.
End Creature.

Module CreatureBuilder.
Section CreatureBuilder.
Context `{FlatBuffers}.
Record t := mk { fbb_ : builder; start_ : Z }.
Definition on (f : builder -> builder) (b : t) : t := mk (f (fbb_ b)) (start_ b).
Definition new (_fbb : builder) : t :=
  let '(start, fbb) := StartTable _fbb in mk fbb start.
Definition add_friendly (friendly : bool) : t -> t :=
  on (AddElement UINT8 Creature.VT_FRIENDLY (Z.b2z friendly) 0).
Definition add_pos (pos : option Vec3.t) : t -> t :=
  on (AddStruct Creature.VT_POS (Vec3.words <$> pos)).
Definition add_hp (hp : Z) : t -> t := on (AddElement INT16 Creature.VT_HP hp 1000).
Definition add_name (name : Z) : t -> t := on (AddOffset Creature.VT_NAME name).
Definition add_drops (drops : Z) : t -> t := on (AddOffset Creature.VT_DROPS drops).
Definition add_color (color : Z) : t -> t := on (AddElement INT8 Creature.VT_COLOR color 3).
Definition Finish (b : t) : Z * builder := EndTable (start_ b) (fbb_ b).
End CreatureBuilder.
End CreatureBuilder.

Section CreateCreature.
Context `{FlatBuffers}.

Definition CreateCreature (_fbb : builder) (friendly : bool) (pos : option Vec3.t) (hp name
  drops color : Z) : Z * builder :=
  let builder_ := CreatureBuilder.new _fbb in
  let builder_ := CreatureBuilder.add_drops drops builder_ in
  let builder_ := CreatureBuilder.add_name name builder_ in
  let builder_ := CreatureBuilder.add_pos pos builder_ in
  let builder_ := CreatureBuilder.add_hp hp builder_ in
  let builder_ := CreatureBuilder.add_color color builder_ in
  let builder_ := CreatureBuilder.add_friendly friendly builder_ in
  CreatureBuilder.Finish builder_.

Definition CreateCreatureDirect (_fbb : builder) (friendly : bool) (pos : option Vec3.t)
  (hp : Z) (name drops : option (list Z)) (color : Z) : Z * builder :=
  let '(name__, _fbb) :=
    match name with Some text => CreateString (c_text text) _fbb | None => (0, _fbb) end in
  let '(drops__, _fbb) :=
    match drops with Some v => CreateVector v _fbb | None => (0, _fbb) end in
  CreateCreature _fbb friendly pos hp name__ drops__ color.

Definition GetCreature (buf : list Z) : Z := GetRoot buf.
Definition GetSizePrefixedCreature (buf : list Z) : Z := GetSizePrefixedRoot buf.
Definition FinishCreatureBuffer (fbb : builder) (root : Z) : builder := Finish root fbb.
Definition FinishSizePrefixedCreatureBuffer (fbb : builder) (root : Z) : builder :=
  FinishSizePrefixed root fbb.
Definition VerifyCreatureBuffer `{!Verifier} : list Z -> verifier -> outcome (bool * verifier) :=
  VerifyBuffer Creature.Verify.
Definition VerifySizePrefixedCreatureBuffer `{!Verifier}
  : list Z -> verifier -> outcome (bool * verifier) := VerifySizePrefixedBuffer Creature.Verify.

(** The table of the arguments. *)
Definition creature_table (friendly : bool) (pos : option Vec3.t) (hp name drops color : Z)
  : table :=
  set_scalar UINT8 Creature.VT_FRIENDLY (Z.b2z friendly) 0
    (set_scalar INT8 Creature.VT_COLOR color 3
      (set_scalar INT16 Creature.VT_HP hp 1000
        (set_struct Creature.VT_POS (Vec3.words <$> pos)
          (set_ref Creature.VT_NAME name (set_ref Creature.VT_DROPS drops ∅))))).

Lemma CreateCreature_new fbb friendly pos hp name drops color n d :
  pending fbb = None -> in_type INT16 hp -> in_type INT8 color ->
  ref_to OString (objects fbb) name n -> ref_to OVector (objects fbb) drops d ->
  has_new (CreateCreature fbb friendly pos hp name drops color).2 (objects fbb)
    (CreateCreature fbb friendly pos hp name drops color).1
    (OTable (creature_table friendly pos hp name drops color)).
Proof.
  intros Hp Hh Hc Hn Hd. unfold CreateCreature, CreatureBuilder.new.
  pose proof (StartTable_building fbb Hp) as Hb.
  destruct (StartTable fbb) as [start b]. eapply EndTable_new. unfold creature_table.
  assert (in_type UINT8 (Z.b2z friendly)) by (by destruct friendly). add_fields.
Qed.

(** The accessors of a table with these arguments. *)
Definition creature_reads mem p (friendly : bool) pos hp n d color : Prop :=
  Creature.friendly mem p = Ret friendly /\ Creature.pos mem p = Ret pos /\
  Creature.hp mem p = Ret hp /\ points_to OString mem (Creature.name mem p) n /\
  points_to OVector mem (Creature.drops mem p) d /\ Creature.color mem p = Ret color.

Lemma read_creature b mem size p friendly pos hp name drops color n d :
  finished b size mem ->
  table_at mem size p (creature_table friendly pos hp name drops color) ->
  ref_to OString (objects b) name n -> ref_to OVector (objects b) drops d ->
  creature_reads mem p friendly pos hp n d color.
Proof.
  intros Hf Ht Hn Hd. unfold creature_reads, creature_table in *. split_and!.
  - unfold Creature.friendly.
    rewrite (read_scalar mem size p _ UINT8 _ (Z.b2z friendly) 0 Ht) by fields.
    by destruct friendly.
  - unfold Creature.pos. rewrite (read_struct mem size p _ _ (Vec3.words <$> pos) Ht) by fields.
    destruct pos as [[x y z]|]; done.
  - apply (read_scalar mem size p _ INT16 _ hp 1000 Ht). fields.
  - apply (read_pointer OString b mem size p _ _ name n Hf Ht); [done|done|]. fields.
  - apply (read_pointer OVector b mem size p _ _ drops d Hf Ht); [done|done|]. fields.
  - apply (read_scalar mem size p _ INT8 _ color 3 Ht). fields.
Qed.

Lemma verify_creature `{!Verifier} b mem size p friendly pos hp name drops color n d v :
  finished b size mem ->
  table_at mem size p (creature_table friendly pos hp name drops color) ->
  ref_to OString (objects b) name n -> ref_to OVector (objects b) drops d ->
  depth v < max_depth -> num_tables v < max_tables ->
  exists v', Creature.Verify mem p v = Ret (true, v') /\
    depth v' = depth v /\ num_tables v' = num_tables v + 1.
Proof.
  intros Hf Ht Hn Hd Hv1 Hv2.
  destruct (read_creature b mem size p friendly pos hp name drops color n d Hf Ht Hn Hd)
    as (_ & _ & _ & Rn & Rd & _).
  destruct (VerifyTableStart_ok mem p _ v Ht Hv1 Hv2) as (v1 & Ev & Hd1 & Hn1).
  destruct (check_string mem _ n Rn) as (o & Eo & Hs).
  destruct (check_vector mem _ d Rd) as (o' & Eo' & Hs').
  unfold creature_table in Ht. unfold Creature.Verify.
  rewrite (all_checks_cons _ _ v v1) by (by rewrite Ev).
  rewrite all_checks_pure
    by (apply (check_scalar mem size p _ UINT8 _ (Z.b2z friendly) 0 Ht); fields).
  rewrite all_checks_pure by (apply (check_struct mem size p _ _ (Vec3.words <$> pos) 3 Ht);
    [fields|by destruct pos; intros ? [= <-]]).
  rewrite all_checks_pure by (apply (check_scalar mem size p _ INT16 _ hp 1000 Ht); fields).
  rewrite all_checks_pure by (apply (check_offset mem size p _ _ name Ht); fields).
  rewrite (all_checks_cons _ _ v1 v1) by (by rewrite Eo; simpl; rewrite Hs).
  rewrite all_checks_pure by (apply (check_offset mem size p _ _ drops Ht); fields).
  rewrite (all_checks_cons _ _ v1 v1) by (by rewrite Eo'; simpl; rewrite Hs').
  rewrite all_checks_pure by (apply (check_scalar mem size p _ INT8 _ color 3 Ht); fields).
  destruct (all_checks_end v1) as (v2 & -> & Hd2 & Hn2). exists v2. split; [done|]. lia.
Qed.

(** A Creature built from its arguments (C++ pointers for the name and the drops) and
    finished gives back every argument through its accessors, defaults included, and
    is accepted by [VerifyCreatureBuffer]; bytes after the buffer change nothing. *)
Theorem Creature_roundtrip fbb friendly pos hp name drops color rest :
  pending fbb = None -> in_type INT16 hp -> in_type INT8 color ->
  let '(o, fbb') := CreateCreatureDirect fbb friendly pos hp name drops color in
  let bytes := GetBuffer (FinishCreatureBuffer fbb' o) in
  creature_reads (bytes ++ rest) (GetCreature (bytes ++ rest)) friendly pos hp
    (c_text <$> name) drops color /\
  forall V : Verifier, forall v, depth v < max_depth -> num_tables v < max_tables ->
    exists v', VerifyCreatureBuffer bytes v = Ret (true, v').
Proof.
  intros Hp Hh Hc. unfold CreateCreatureDirect.
  pose proof (string_or_null_ok name fbb Hp) as Hs. unfold string_or_null in Hs.
  destruct (match name with Some _ => _ | None => _ end) as [o1 b1].
  destruct Hs as (Hp1 & Hr1 & _). pose proof (vector_or_null_ok drops b1 Hp1) as Hv.
  unfold vector_or_null in Hv. destruct (match drops with Some _ => _ | None => _ end) as [o2 b2].
  destruct Hv as (Hp2 & Hr3 & Hk). apply Hk in Hr1 as Hr2.
  pose proof (CreateCreature_new b2 friendly pos hp o1 o2 color _ _ Hp2 Hh Hc Hr2 Hr3) as Hnew.
  destruct (CreateCreature b2 friendly pos hp o1 o2 color) as [o b]. cbn [fst snd] in Hnew.
  pose proof (has_new_lookup _ _ _ _ Hnew) as Ho.
  apply (ref_to_old OString _ _ _ _ _ _ Hnew) in Hr2.
  apply (ref_to_old OVector _ _ _ _ _ _ Hnew) in Hr3.
  unfold FinishCreatureBuffer, GetCreature.
  destruct (Finish_finished o b _ rest (proj1 Hnew) Ho) as [Hf Hr]. rewrite Hr.
  split; [exact (read_creature b _ _ _ _ _ _ _ _ _ _ _ Hf (Hf _ _ Ho) Hr2 Hr3)|].
  intros V v Hd Hv. destruct (Finish_finished o b _ [] (proj1 Hnew) Ho) as [Hf0 Hr0].
  unfold VerifyCreatureBuffer. rewrite (VerifyBuffer_ok _ b o _ v (proj1 Hnew) Ho).
  rewrite app_nil_r in Hf0, Hr0. rewrite Hr0.
  destruct (verify_creature b _ _ _ _ _ _ _ _ _ _ _ v Hf0 (Hf0 _ _ Ho) Hr2 Hr3 Hd Hv)
    as (v' & E & _). by exists v'.
Qed.
End CreateCreature.

(** ** Magician and Warrior *)
Module Magician.
Section Magician.
Context `{FlatBuffers}.
Definition VT_MAGIC : Z := 4.
Definition magic (mem : list Z) (p : Z) : outcome Z := GetField INT32 mem p VT_MAGIC 0.
Definition Verify `{!Verifier} (mem : list Z) (p : Z) : verifier -> outcome (bool * verifier) :=
  all_checks [
    fun v => Ret (VerifyTableStart mem p v);
    pure_check (VerifyField INT32 mem p VT_MAGIC 4);
    fun v => Ret (VerifierEndTable v)].
End Magician.
End Magician.

Module MagicianBuilder.
Section MagicianBuilder.
Context `{FlatBuffers}.
Record t := mk { fbb_ : builder; start_ : Z }.
Definition new (_fbb : builder) : t :=
  let '(start, fbb) := StartTable _fbb in mk fbb start.
Definition add_magic (magic : Z) (b : t) : t :=
  mk (AddElement INT32 Magician.VT_MAGIC magic 0 (fbb_ b)) (start_ b).
Definition Finish (b : t) : Z * builder := EndTable (start_ b) (fbb_ b).
End MagicianBuilder.
End MagicianBuilder.

Module Warrior.
Section Warrior.
Context `{FlatBuffers}.
Definition VT_ATTACK : Z := 4.
Definition attack (mem : list Z) (p : Z) : outcome Z := GetField INT16 mem p VT_ATTACK 0.
Definition Verify `{!Verifier} (mem : list Z) (p : Z) : verifier -> outcome (bool * verifier) :=
  all_checks [
    fun v => Ret (VerifyTableStart mem p v);
    pure_check (VerifyField INT16 mem p VT_ATTACK 2);
    fun v => Ret (VerifierEndTable v)].
End Warrior.
End Warrior.

Module WarriorBuilder.
Section WarriorBuilder.
Context `{FlatBuffers}.
Record t := mk { fbb_ : builder; start_ : Z }.
Definition new (_fbb : builder) : t :=
  let '(start, fbb) := StartTable _fbb in mk fbb start.
Definition add_attack (attack : Z) (b : t) : t :=
  mk (AddElement INT16 Warrior.VT_ATTACK attack 0 (fbb_ b)) (start_ b).
Definition Finish (b : t) : Z * builder := EndTable (start_ b) (fbb_ b).
End WarriorBuilder.
End WarriorBuilder.

Section Jobs.
Context `{FlatBuffers}.

Definition CreateMagician (_fbb : builder) (magic : Z) : Z * builder :=
  let builder_ := MagicianBuilder.new _fbb in
  let builder_ := MagicianBuilder.add_magic magic builder_ in
  MagicianBuilder.Finish builder_.
Definition CreateWarrior (_fbb : builder) (attack : Z) : Z * builder :=
  let builder_ := WarriorBuilder.new _fbb in
  let builder_ := WarriorBuilder.add_attack attack builder_ in
  WarriorBuilder.Finish builder_.

(** [VerifyJobs(verifier, obj, type)]: an unknown type is accepted. *)
Definition VerifyJobs `{!Verifier} (mem : list Z) (obj : option Z) (type : Z) (v : verifier)
  : outcome (bool * verifier) :=
  if type =? Jobs_NONE then Ret (true, v)
  else if type =? Jobs_Magician then VerifyTable Magician.Verify mem obj v
  else if type =? Jobs_Warrior then VerifyTable Warrior.Verify mem obj v
  else Ret (true, v).

(** The loop of [VerifyJobsVector]: [values->Get(i)] and [types->GetEnum(i)]. *)
Fixpoint VerifyJobsVector_loop `{!Verifier} (mem : list Z) (values types : list Z)
  (v : verifier) : outcome (bool * verifier) :=
  match values, types with
  | value :: values, type :: types =>
      let! (ok, v) := VerifyJobs mem (Some value) type v in
      if negb ok then Ret (false, v) else VerifyJobsVector_loop mem values types v
  | _, _ => Ret (true, v)
  end.
Definition VerifyJobsVector `{!Verifier} (mem : list Z) (values types : option (list Z))
  (v : verifier) : outcome (bool * verifier) :=
  match values, types with
  | Some values, Some types =>
      if negb (zlen values =? zlen types) then Ret (false, v)
      else VerifyJobsVector_loop mem values types v
  | None, None => Ret (true, v)
  | _, _ => Ret (false, v)
  end.
End Jobs.

(** ** Player *)
Module Player.
Section Player.
Context `{FlatBuffers}.
Definition VT_NAME : Z := 4.
Definition VT_POS : Z := 6.
Definition VT_JOB_TYPE : Z := 8.
Definition VT_JOB : Z := 10.

Definition name (mem : list Z) (p : Z) : outcome (option Z) := GetPointer mem p VT_NAME.
Definition pos (mem : list Z) (p : Z) : outcome (option Vec3.t) :=
  let! ws := GetStruct mem p VT_POS in Ret (Vec3.of_words <$> ws).
Definition job_type (mem : list Z) (p : Z) : outcome Z := GetField UINT8 mem p VT_JOB_TYPE 0.
Definition job (mem : list Z) (p : Z) : outcome (option Z) := GetPointer mem p VT_JOB.
Definition job_as_Magician (mem : list Z) (p : Z) : outcome (option Z) :=
  let! type := job_type mem p in if type =? Jobs_Magician then job mem p else Ret None.
Definition job_as_Warrior (mem : list Z) (p : Z) : outcome (option Z) :=
  let! type := job_type mem p in if type =? Jobs_Warrior then job mem p else Ret None.

Definition Verify `{!Verifier} (mem : list Z) (p : Z) : verifier -> outcome (bool * verifier) :=
  all_checks [
    fun v => Ret (VerifyTableStart mem p v);
    pure_check (VerifyOffset mem p VT_NAME);
    fun v => let! n := name mem p in Ret (VerifyString mem n, v);
    pure_check (VerifyField (STRUCT 3) mem p VT_POS 4);
    pure_check (VerifyField UINT8 mem p VT_JOB_TYPE 1);
    pure_check (VerifyOffset mem p VT_JOB);
    fun v => let! obj := job mem p in let! type := job_type mem p in VerifyJobs mem obj type v;
    fun v => Ret (VerifierEndTable v)].
End Player.
End Player.

Module PlayerBuilder.
Section PlayerBuilder.
Context `{FlatBuffers}.
Record t := mk { fbb_ : builder; start_ : Z }.
Definition on (f : builder -> builder) (b : t) : t := mk (f (fbb_ b)) (start_ b).
Definition new (_fbb : builder) : t :=
  let '(start, fbb) := StartTable _fbb in mk fbb start.
Definition add_name (name : Z) : t -> t := on (AddOffset Player.VT_NAME name).
Definition add_pos (pos : option Vec3.t) : t -> t :=
  on (AddStruct Player.VT_POS (Vec3.words <$> pos)).
Definition add_job_type (job_type : Z) : t -> t :=
  on (AddElement UINT8 Player.VT_JOB_TYPE job_type 0).
Definition add_job (job : Z) : t -> t := on (AddOffset Player.VT_JOB job).
Definition Finish (b : t) : Z * builder := EndTable (start_ b) (fbb_ b).
End PlayerBuilder.
End PlayerBuilder.

Section CreatePlayer.
Context `{FlatBuffers}.

Definition CreatePlayer (_fbb : builder) (name : Z) (pos : option Vec3.t) (job_type job : Z)
  : Z * builder :=
  let builder_ := PlayerBuilder.new _fbb in
  let builder_ := PlayerBuilder.add_job job builder_ in
  let builder_ := PlayerBuilder.add_pos pos builder_ in
  let builder_ := PlayerBuilder.add_name name builder_ in
  let builder_ := PlayerBuilder.add_job_type job_type builder_ in
  PlayerBuilder.Finish builder_.
Definition CreatePlayerDirect (_fbb : builder) (name : option (list Z)) (pos : option Vec3.t)
  (job_type job : Z) : Z * builder :=
  let '(name__, _fbb) :=
    match name with Some text => CreateString (c_text text) _fbb | None => (0, _fbb) end in
  CreatePlayer _fbb name__ pos job_type job.

Definition GetPlayer (buf : list Z) : Z := GetRoot buf.
Definition GetSizePrefixedPlayer (buf : list Z) : Z := GetSizePrefixedRoot buf.
Definition FinishPlayerBuffer (fbb : builder) (root : Z) : builder := Finish root fbb.
Definition FinishSizePrefixedPlayerBuffer (fbb : builder) (root : Z) : builder :=
  FinishSizePrefixed root fbb.
Definition VerifyPlayerBuffer `{!Verifier} : list Z -> verifier -> outcome (bool * verifier) :=
  VerifyBuffer Player.Verify.
Definition VerifySizePrefixedPlayerBuffer `{!Verifier}
  : list Z -> verifier -> outcome (bool * verifier) := VerifySizePrefixedBuffer Player.Verify.

(** The job of a player: none, a magician or a warrior. *)
Inductive job_spec := Jobless | AMagician (magic : Z) | AWarrior (attack : Z).
Definition type_of (j : job_spec) : Z :=
  match j with Jobless => Jobs_NONE | AMagician _ => Jobs_Magician | AWarrior _ => Jobs_Warrior end.
Definition job_ok (j : job_spec) : Prop :=
  match j with
  | Jobless => True | AMagician m => in_type INT32 m | AWarrior a => in_type INT16 a
  end.
Definition create_job (fbb : builder) (j : job_spec) : Z * builder :=
  match j with
  | Jobless => (0, fbb) | AMagician m => CreateMagician fbb m | AWarrior a => CreateWarrior fbb a
  end.
Definition job_table (j : job_spec) : option table :=
  match j with
  | Jobless => None
  | AMagician m => Some (set_scalar INT32 Magician.VT_MAGIC m 0 ∅)
  | AWarrior a => Some (set_scalar INT16 Warrior.VT_ATTACK a 0 ∅)
  end.

Lemma create_job_ref fbb j : pending fbb = None -> job_ok j ->
  pending (create_job fbb j).2 = None /\
  ref_to OTable (objects (create_job fbb j).2) (create_job fbb j).1 (job_table j).
Proof.
  intros Hp Hj. pose proof (StartTable_building fbb Hp) as Hb.
  destruct j as [|m|a]; simpl create_job; [done|..].
  - assert (Hn : has_new (CreateMagician fbb m).2 (objects fbb) (CreateMagician fbb m).1
      (OTable (set_scalar INT32 Magician.VT_MAGIC m 0 ∅))).
    { unfold CreateMagician, MagicianBuilder.new. destruct (StartTable fbb) as [start b].
      eapply EndTable_new. add_fields. }
    split; [apply Hn|by eapply (ref_to_new OTable)].
  - assert (Hn : has_new (CreateWarrior fbb a).2 (objects fbb) (CreateWarrior fbb a).1
      (OTable (set_scalar INT16 Warrior.VT_ATTACK a 0 ∅))).
    { unfold CreateWarrior, WarriorBuilder.new. destruct (StartTable fbb) as [start b].
      eapply EndTable_new. add_fields. }
    split; [apply Hn|by eapply (ref_to_new OTable)].
Qed.

Definition player_table (name : Z) (pos : option Vec3.t) (type job : Z) : table :=
  set_scalar UINT8 Player.VT_JOB_TYPE type 0
    (set_ref Player.VT_NAME name
      (set_struct Player.VT_POS (Vec3.words <$> pos) (set_ref Player.VT_JOB job ∅))).

Lemma CreatePlayer_new fbb name pos type job n j :
  pending fbb = None -> in_type UINT8 type ->
  ref_to OString (objects fbb) name n -> ref_to OTable (objects fbb) job j ->
  has_new (CreatePlayer fbb name pos type job).2 (objects fbb)
    (CreatePlayer fbb name pos type job).1 (OTable (player_table name pos type job)).
Proof.
  intros Hp Ht Hn Hj. unfold CreatePlayer, PlayerBuilder.new.
  pose proof (StartTable_building fbb Hp) as Hb.
  destruct (StartTable fbb) as [start b]. eapply EndTable_new. unfold player_table. add_fields.
Qed.

(** What the job accessors give for each job. *)
Definition job_reads (mem : list Z) (p : Z) (j : job_spec) : Prop :=
  match j with
  | Jobless => Player.job_as_Magician mem p = Ret None /\ Player.job_as_Warrior mem p = Ret None
  | AMagician m => Player.job_as_Warrior mem p = Ret None /\
      exists q, Player.job_as_Magician mem p = Ret (Some q) /\ Magician.magic mem q = Ret m
  | AWarrior a => Player.job_as_Magician mem p = Ret None /\
      exists q, Player.job_as_Warrior mem p = Ret (Some q) /\ Warrior.attack mem q = Ret a
  end.
Definition player_reads mem p n pos j : Prop :=
  points_to OString mem (Player.name mem p) n /\ Player.pos mem p = Ret pos /\
  Player.job_type mem p = Ret (type_of j) /\ job_reads mem p j.

(** The job behind the pointer of a finished buffer. *)
Definition job_at mem size (q : outcome (option Z)) (j : job_spec) : Prop :=
  match job_table j with
  | None => q = Ret None
  | Some t => exists p, q = Ret (Some p) /\ table_at mem size p t
  end.
Lemma read_job b mem size p name pos job j :
  finished b size mem -> table_at mem size p (player_table name pos (type_of j) job) ->
  ref_to OTable (objects b) job (job_table j) -> job_at mem size (Player.job mem p) j.
Proof.
  intros Hf Ht Hj. unfold Player.job, job_at. unfold player_table in Ht.
  rewrite (read_ref mem size p _ _ job Ht) by fields.
  destruct (job_table j) as [t|]; simpl in Hj; [|by subst job].
  destruct Hj as [Hne Hl]. destruct (Z.eqb_spec job 0); [done|].
  exists (size - job). split; [done|]. exact (Hf _ _ Hl).
Qed.

Lemma read_player b mem size p name pos job n j :
  finished b size mem -> table_at mem size p (player_table name pos (type_of j) job) ->
  ref_to OString (objects b) name n -> ref_to OTable (objects b) job (job_table j) ->
  player_reads mem p n pos j.
Proof.
  intros Hf Ht Hn Hj. pose proof (read_job b mem size p name pos job j Hf Ht Hj) as Hjob.
  assert (Htype : Player.job_type mem p = Ret (type_of j)).
  { apply (read_scalar mem size p _ UINT8 _ (type_of j) 0 Ht). unfold player_table. fields. }
  unfold player_table in Ht. split_and!; [..|done|].
  - apply (read_pointer OString b mem size p _ _ name n Hf Ht); [done|done|]. fields.
  - unfold Player.pos. rewrite (read_struct mem size p _ _ (Vec3.words <$> pos) Ht) by fields.
    destruct pos as [[x y z]|]; done.
  - unfold job_reads, Player.job_as_Magician, Player.job_as_Warrior. rewrite Htype.
    destruct j as [|m|a]; simpl; [done|..]; split; try done;
      destruct Hjob as (q & Eq & Hq); exists q; split; try done.
    + apply (read_scalar mem size q _ INT32 _ m 0 Hq). fields.
    + apply (read_scalar mem size q _ INT16 _ a 0 Hq). fields.
Qed.

(** A job passes [VerifyJobs], one table deeper. *)
Lemma verify_job `{!Verifier} mem size q j v :
  job_at mem size q j -> depth v < max_depth -> num_tables v < max_tables ->
  exists v', (let! obj := q in VerifyJobs mem obj (type_of j) v) = Ret (true, v') /\
    depth v' = depth v /\ num_tables v' <= num_tables v + 1.
Proof.
  intros Hj Hd Hn. unfold job_at in Hj. destruct j as [|m|a]; simpl in Hj.
  - subst q. exists v. split; [done|]. lia.
  - destruct Hj as (p & -> & Ht). cbn [obind]. unfold VerifyJobs. simpl.
    rewrite VerifyTable_some.
    destruct (check_one mem size p _ INT32 Magician.VT_MAGIC m 0 v Ht ltac:(fields) Hd Hn)
      as (v' & E & Hd' & Hn'). exists v'. split; [exact E|]. lia.
  - destruct Hj as (p & -> & Ht). cbn [obind]. unfold VerifyJobs. simpl.
    rewrite VerifyTable_some.
    destruct (check_one mem size p _ INT16 Warrior.VT_ATTACK a 0 v Ht ltac:(fields) Hd Hn)
      as (v' & E & Hd' & Hn'). exists v'. split; [exact E|]. lia.
Qed.

Lemma verify_player `{!Verifier} b mem size p name pos job n j v :
  finished b size mem -> table_at mem size p (player_table name pos (type_of j) job) ->
  ref_to OString (objects b) name n -> ref_to OTable (objects b) job (job_table j) ->
  depth v + 1 < max_depth -> num_tables v + 1 < max_tables ->
  exists v', Player.Verify mem p v = Ret (true, v') /\ depth v' = depth v.
Proof.
  intros Hf Ht Hn Hj Hv1 Hv2.
  destruct (read_player b mem size p name pos job n j Hf Ht Hn Hj) as (Rn & _ & Rt & _).
  pose proof (read_job b mem size p name pos job j Hf Ht Hj) as Rj.
  assert (Hd : depth v < max_depth) by lia. assert (Hk : num_tables v < max_tables) by lia.
  destruct (VerifyTableStart_ok mem p _ v Ht Hd Hk) as (v1 & Ev & Hd1 & Hn1).
  destruct (check_string mem _ n Rn) as (o & Eo & Hs).
  destruct (verify_job mem size _ j v1 Rj) as (v2 & Ej & Hd2 & _); [lia|lia|].
  unfold player_table in Ht. unfold Player.Verify.
  rewrite (all_checks_cons _ _ v v1) by (by rewrite Ev).
  rewrite all_checks_pure by (apply (check_offset mem size p _ _ name Ht); fields).
  rewrite (all_checks_cons _ _ v1 v1) by (by rewrite Eo; simpl; rewrite Hs).
  rewrite all_checks_pure by (apply (check_struct mem size p _ _ (Vec3.words <$> pos) 3 Ht);
    [fields|by destruct pos; intros ? [= <-]]).
  rewrite all_checks_pure by (apply (check_scalar mem size p _ UINT8 _ (type_of j) 0 Ht); fields).
  rewrite all_checks_pure by (apply (check_offset mem size p _ _ job Ht); fields).
  rewrite (all_checks_cons _ _ v1 v2) by (rewrite Rt; exact Ej).
  destruct (all_checks_end v2) as (v3 & -> & Hd3 & _). exists v3. split; [done|]. lia.
Qed.

(** C11: a Player with no job, a magician or a warrior, built in one builder and
    finished, gives back its name, its position and its job: the accessor of the
    right job type finds the table with its value and the other one is null; and
    [VerifyPlayerBuffer] accepts the buffer, which nests two tables. *)
Theorem Player_roundtrip fbb name pos j rest :
  pending fbb = None -> job_ok j ->
  let '(job, fbb) := create_job fbb j in
  let '(o, fbb) := CreatePlayerDirect fbb name pos (type_of j) job in
  let bytes := GetBuffer (FinishPlayerBuffer fbb o) in
  player_reads (bytes ++ rest) (GetPlayer (bytes ++ rest)) (c_text <$> name) pos j /\
  forall V : Verifier, forall v, depth v + 1 < max_depth -> num_tables v + 1 < max_tables ->
    exists v', VerifyPlayerBuffer bytes v = Ret (true, v').
Proof.
  intros Hp Hj. destruct (create_job_ref fbb j Hp Hj) as [Hp0 Hr0].
  destruct (create_job fbb j) as [job b0]. cbn [fst snd] in Hp0, Hr0.
  unfold CreatePlayerDirect.
  pose proof (string_or_null_ok name b0 Hp0) as Hs. unfold string_or_null in Hs.
  destruct (match name with Some _ => _ | None => _ end) as [o1 b1].
  destruct Hs as (Hp1 & Hr1 & Hk). apply Hk in Hr0 as Hr2.
  assert (Ht : in_type UINT8 (type_of j)) by (by destruct j).
  pose proof (CreatePlayer_new b1 o1 pos (type_of j) job _ _ Hp1 Ht Hr1 Hr2) as Hnew.
  destruct (CreatePlayer b1 o1 pos (type_of j) job) as [o b]. cbn [fst snd] in Hnew.
  pose proof (has_new_lookup _ _ _ _ Hnew) as Ho.
  apply (ref_to_old OString _ _ _ _ _ _ Hnew) in Hr1.
  apply (ref_to_old OTable _ _ _ _ _ _ Hnew) in Hr2.
  unfold FinishPlayerBuffer, GetPlayer.
  destruct (Finish_finished o b _ rest (proj1 Hnew) Ho) as [Hf Hr]. rewrite Hr.
  split; [exact (read_player b _ _ _ _ _ _ _ _ Hf (Hf _ _ Ho) Hr1 Hr2)|].
  intros V v Hd Hv. destruct (Finish_finished o b _ [] (proj1 Hnew) Ho) as [Hf' Hr'].
  unfold VerifyPlayerBuffer. rewrite (VerifyBuffer_ok _ b o _ v (proj1 Hnew) Ho).
  rewrite app_nil_r in Hf', Hr'. rewrite Hr'.
  destruct (verify_player b _ _ _ _ _ _ _ j v Hf' (Hf' _ _ Ho) Hr1 Hr2 Hd Hv) as (v' & E & _).
  by exists v'.
Qed.
End CreatePlayer.

(** ** [VerifyJobsVector] *)
Section JobsVector.
Context `{Verifier}.

Lemma VerifyJobsVector_loop_ok mem size values js : forall v,
  Forall2 (fun p j => j <> Jobless /\ job_at mem size (Ret (Some p)) j) values js ->
  depth v < max_depth -> num_tables v + zlen js <= max_tables ->
  exists v', VerifyJobsVector_loop mem values (type_of <$> js) v = Ret (true, v').
Proof.
  intros v Hj. revert v.
  induction Hj as [|p j values js [Hne Hp] _ IH]; intros v Hd Hn; simpl; [by exists v|].
  assert (Hz : zlen (j :: js) = zlen js + 1) by (unfold zlen; simpl; lia).
  pose proof (zlen_nonneg js).
  destruct (verify_job mem size _ j v Hp) as (v' & E & Hd' & Hn'); [lia|lia|].
  simpl in E. rewrite E. simpl. apply IH; lia.
Qed.

(** [VerifyJobsVector] refuses a null vector beside a vector and vectors of different
    lengths, accepts two null ones, and accepts two vectors of one length whose
    elements are jobs of the types given, as long as the tables can be counted. *)
Theorem VerifyJobsVector_cases mem size values js v :
  (forall l, VerifyJobsVector mem None None v = Ret (true, v) /\
     VerifyJobsVector mem (Some l) None v = Ret (false, v) /\
     VerifyJobsVector mem None (Some l) v = Ret (false, v)) /\
  (forall types, zlen values <> zlen types ->
     VerifyJobsVector mem (Some values) (Some types) v = Ret (false, v)) /\
  (Forall2 (fun p j => j <> Jobless /\ job_at mem size (Ret (Some p)) j) values js ->
   depth v < max_depth -> num_tables v + zlen js <= max_tables ->
   exists v', VerifyJobsVector mem (Some values) (Some (type_of <$> js)) v = Ret (true, v')).
Proof.
  split; [done|]. split.
  - intros types Hne. simpl. by destruct (Z.eqb_spec (zlen values) (zlen types)).
  - intros Hj Hd Hn. simpl. unfold zlen at 1 2. rewrite length_fmap.
    rewrite (Forall2_length _ _ _ Hj), Z.eqb_refl. simpl.
    by eapply VerifyJobsVector_loop_ok.
Qed.
End JobsVector.

(** ** A concrete player *)
#[local] Existing Instance Reference.flat_buffers.
#[local] Existing Instance Reference.verifier.

Lemma Player_roundtrip_witness :
  let '(job, fbb) := create_job (new_builder 64) (AMagician 77) in
  let '(o, fbb) := CreatePlayerDirect fbb (Some [66; 111; 98; 0; 9]) (Some (Vec3.new 1 2 3))
    Jobs_Magician job in
  let bytes := GetBuffer (FinishPlayerBuffer fbb o) in
  let p := GetPlayer bytes in
  Player.job_as_Warrior bytes p = Ret None /\
  (exists q, Player.job_as_Magician bytes p = Ret (Some q) /\ Magician.magic bytes q = Ret 77) /\
  exists v, VerifyPlayerBuffer bytes (0, 0) = Ret (true, v).
Proof.
  pose proof (Player_roundtrip (new_builder 64) (Some [66; 111; 98; 0; 9])
    (Some (Vec3.new 1 2 3)) (AMagician 77) [] eq_refl ltac:(simpl; lia)) as Ht.
  destruct (create_job (new_builder 64) (AMagician 77)) as [job fbb].
  change (type_of (AMagician 77)) with Jobs_Magician in Ht.
  destruct (CreatePlayerDirect fbb _ _ Jobs_Magician job) as [o fbb'].
  destruct Ht as ((_ & _ & _ & Hw & Hm) & Hv). rewrite app_nil_r in Hw, Hm.
  split; [exact Hw|]. split; [exact Hm|].
  exact (Hv Reference.verifier (0, 0) eq_refl eq_refl).
Defined.
