(* ===== verification/SendPath.v ===== *)
(** Session.cpp, [_send], [_register_send] and, as far as it concerns them, [_clear],
    with any number of threads: one step per access to shared memory. The write lock
    [send] is the exclusive lock proved in RWLock.v; [_clear] changes the queue without
    it, and two threads that are both about to change the queue are a data race. *)
From S2P Require Import Prelude Session.
#[local] Open Scope Z_scope.

Module SendPath.
Section SendPath.
(** The type of the queued buffers ([WSABUF]). *)
Context {B : Type}.

(** The members the functions share; whether [_service] is set. [posted] is the list of
    [WSASend] calls, [pending] and [disconnects] the numbers of sends and of
    [DisconnectEx] that have not completed; [appended], [unposted] and [cleared] are
    ghosts: everything ever queued, what was taken off the queue and not yet given to
    [WSASend], and, after [_clear], what had been taken off the queue before it and what
    it threw away. *)
Record shared := mk {
  _sendQueue : list B;
  _segments : list B;
  _sending : bool;
  wlock : option nat;
  _connected : bool;
  _service : bool;
  posted : list (list B);
  pending : Z;
  disconnects : Z;
  appended : list B;
  unposted : list B;
  cleared : option (list B * list B);
}.
Definition set_wlock (l : option nat) (s : shared) : shared :=
  mk (_sendQueue s) (_segments s) (_sending s) l (_connected s) (_service s) (posted s)
    (pending s) (disconnects s) (appended s) (unposted s) (cleared s).
Definition set_sending (b : bool) (s : shared) : shared :=
  mk (_sendQueue s) (_segments s) b (wlock s) (_connected s) (_service s) (posted s)
    (pending s) (disconnects s) (appended s) (unposted s) (cleared s).
Definition set_connected (b : bool) (s : shared) : shared :=
  mk (_sendQueue s) (_segments s) (_sending s) (wlock s) b (_service s) (posted s)
    (pending s) (disconnects s) (appended s) (unposted s) (cleared s).
Definition set_service (b : bool) (s : shared) : shared :=
  mk (_sendQueue s) (_segments s) (_sending s) (wlock s) (_connected s) b (posted s)
    (pending s) (disconnects s) (appended s) (unposted s) (cleared s).
Definition set_pending (n d : Z) (s : shared) : shared :=
  mk (_sendQueue s) (_segments s) (_sending s) (wlock s) (_connected s) (_service s) (posted s)
    n d (appended s) (unposted s) (cleared s).

(** Where a thread is. *)
Inductive pc :=
| Idle
(** [_send]: before [WRITE_LOCK(send)], before the queue append, before the
    exchange of [_sending], before the unlock with [sendFlag]. *)
| S_lock (buffers : list B) | S_append (buffers : list B) | S_exchange | S_unlock (sendFlag : bool)
(** [_register_send]: the test of [_connected], the event, the lock, the move,
    the unlock, [WSASend], [_segments.clear()], [_sending.store(false)]. *)
| R_check | R_event | R_lock | R_move | R_unlock | R_post | R_clear | R_store
(** [_clear], on the completion of a disconnection: before the use of [_service] and its
    reset, before [_sendQueue.clear()], before [_connected = false]. *)
| K_service | K_queue | K_connected.

(** One step of [_send] on thread [i]; [None] when it has to wait. *)
Definition send_step (i : nat) (p : pc) (s : shared) : option (pc * shared) :=
  match p with
  | S_lock b =>
      match wlock s with
      | Some _ => None
      | None => Some (S_append b, set_wlock (Some i) s)
      end
  | S_append b =>
      Some (S_exchange, mk (_sendQueue s ++ b) (_segments s) (_sending s) (wlock s)
              (_connected s) (_service s) (posted s) (pending s) (disconnects s)
              (appended s ++ b) (unposted s) (cleared s))
  | S_exchange => Some (S_unlock (negb (_sending s)), set_sending true s)
  | S_unlock sendFlag => Some (if sendFlag then R_check else Idle, set_wlock None s)
  | _ => None
  end.

(** One step of [_register_send]; [ok] tells whether [WSASend] started the operation. *)
Definition register_send_step (ok : bool) (i : nat) (p : pc) (s : shared) : option (pc * shared) :=
  match p with
  | R_check => Some (if negb (_connected s) then Idle else R_event, s)
  | R_event => Some (R_lock, s)
  | R_lock =>
      match wlock s with
      | Some _ => None
      | None => Some (R_move, set_wlock (Some i) s)
      end
  | R_move =>
      Some (R_unlock, mk [] (_segments s ++ _sendQueue s) (_sending s) (wlock s)
              (_connected s) (_service s) (posted s) (pending s) (disconnects s)
              (appended s) (_segments s ++ _sendQueue s) (cleared s))
  | R_unlock => Some (R_post, set_wlock None s)
  | R_post =>
      Some (R_clear, mk (_sendQueue s) (_segments s) (_sending s) (wlock s) (_connected s)
              (_service s) (posted s ++ [_segments s]) (if ok then pending s + 1 else pending s)
              (disconnects s) (appended s) [] (cleared s))
  | R_clear =>
      Some (R_store, mk (_sendQueue s) [] (_sending s) (wlock s) (_connected s) (_service s)
              (posted s) (pending s) (disconnects s) (appended s) (unposted s) (cleared s))
  | R_store => Some (Idle, set_sending false s)
  | _ => None
  end.

(** One step of [_clear], with [_service] set where it is used. *)
Definition clear_step (p : pc) (s : shared) : option (pc * shared) :=
  match p with
  | K_service => Some (K_queue, set_service false s)
  | K_queue =>
      Some (K_connected, mk [] (_segments s) (_sending s) (wlock s) (_connected s) (_service s)
              (posted s) (pending s) (disconnects s) (appended s) (unposted s)
              (Some (concat (posted s) ++ unposted s, _sendQueue s)))
  | K_connected => Some (Idle, set_connected false s)
  | _ => None
  end.

(** One step of a thread. *)
Definition thread_step (ok : bool) (i : nat) (p : pc) (s : shared) : option (pc * shared) :=
  match p with
  | Idle => None
  | S_lock _ | S_append _ | S_exchange | S_unlock _ => send_step i p s
  | K_service | K_queue | K_connected => clear_step p s
  | _ => register_send_step ok i p s
  end.
(** The steps that change [_sendQueue]. *)
Definition touches_queue (p : pc) : bool :=
  match p with S_append _ | R_move | K_queue => true | _ => false end.

(** [_send] of an empty vector returns at once. *)
Definition entry (buffers : list B) : pc :=
  match buffers with [] => Idle | _ => S_lock buffers end.

Record system := mk_sys { ths : list pc; sh : shared }.

(** What can happen: a call of [_send]; a step, in which [WSASend] works or not; the
    completion of a [WSASend]; [Disconnect()], resp. the [_disconnect] of an error path,
    whose [DisconnectEx] works or not; the completion of a [DisconnectEx] on a thread. *)
Inductive event := ECall (i : nat) (buffers : list B) | EStep (i : nat) | EFail (i : nat)
| EComplete | EDisconnect (ok : bool) | EError (ok : bool) | EDisconnected (i : nat).

Definition go (ok : bool) (i : nat) (s : system) : option (outcome system) :=
  match ths s !! i with
  | Some p =>
      match thread_step ok i p (sh s) with
      | Some (p', x) =>
          if touches_queue p && existsb touches_queue (delete i (ths s)) then Some (Fault DataRace)
          else match p, _service (sh s) with
               | K_service, false => Some (Fault NullDeref)
               | _, _ => Some (Ret (mk_sys (<[i := p']> (ths s)) x))
               end
      | None => None
      end
  | None => None
  end.
Definition play1 (e : event) (s : system) : option (outcome system) :=
  let x := sh s in
  match e with
  | ECall i b =>
      match ths s !! i with
      | Some Idle => Some (Ret (mk_sys (<[i := entry b]> (ths s)) x))
      | _ => None
      end
  | EStep i => go true i s
  | EFail i => go false i s
  | EComplete =>
      if 0 <? pending x then Some (Ret (mk_sys (ths s) (set_pending (pending x - 1) (disconnects x) x)))
      else None
  | EDisconnect ok =>
      let d := if _connected x && ok then disconnects x + 1 else disconnects x in
      Some (Ret (mk_sys (ths s) (set_connected false (set_pending (pending x) d x))))
  | EError ok =>
      let d := if _connected x && ok then disconnects x + 1 else disconnects x in
      Some (Ret (mk_sys (ths s) (set_pending (pending x) d x)))
  | EDisconnected i =>
      match ths s !! i with
      | Some Idle =>
          if 0 <? disconnects x then
            Some (Ret (mk_sys (<[i := K_service]> (ths s)) (set_pending (pending x) (disconnects x - 1) x)))
          else None
      | _ => None
      end
  end.
Definition step (s s' : system) : Prop := exists e, play1 e s = Some (Ret s').
Fixpoint play (es : list event) (s : system) : option (outcome system) :=
  match es with
  | [] => Some (Ret s)
  | e :: es => match play1 e s with Some (Ret s) => play es s | x => x end
  end.

(** A connected session and [n] threads outside [_send]. *)
Definition init (n : nat) : system :=
  mk_sys (replicate n Idle) (mk [] [] false None true true [] 0 0 [] [] None).

(** ** Invariant *)
Definition locked (p : pc) : bool :=
  match p with S_append _ | S_exchange | S_unlock _ | R_move | R_unlock => true | _ => false end.
(** Threads that have taken [_sending]. *)
Definition token (p : pc) : bool :=
  match p with
  | S_unlock f => f
  | R_check | R_event | R_lock | R_move | R_unlock | R_post | R_clear | R_store => true
  | _ => false
  end.
(** Threads whose [_segments] hold data not given to [WSASend], resp. any data. *)
Definition holding (p : pc) : bool := match p with R_unlock | R_post => true | _ => false end.
Definition carrying (p : pc) : bool :=
  match p with R_unlock | R_post | R_clear => true | _ => false end.

(** Where everything queued is: given to [WSASend], taken off the queue, or in the
    queue, in this order; but for what [_clear] threw away, which was queued after all
    that had been taken off the queue by then. *)
Definition accounted (x : shared) : Prop :=
  match cleared x with
  | None => appended x = concat (posted x) ++ unposted x ++ _sendQueue x
  | Some (before, lost) => exists after,
      appended x = before ++ lost ++ after ++ _sendQueue x /\
      concat (posted x) ++ unposted x = before ++ after
  end.

Record inv (s : system) : Prop := {
  inv_lock i p : ths s !! i = Some p -> locked p = true -> wlock (sh s) = Some i;
  inv_unique i j p q : ths s !! i = Some p -> ths s !! j = Some q ->
    token p = true -> token q = true -> i = j;
  inv_sending i p : ths s !! i = Some p -> token p = true -> _sending (sh s) = true;
  inv_data : accounted (sh s);
  inv_hold i p : ths s !! i = Some p -> holding p = true ->
    unposted (sh s) = _segments (sh s);
  inv_none : (forall i p, ths s !! i = Some p -> holding p = false) -> unposted (sh s) = [];
  inv_seg : (forall i p, ths s !! i = Some p -> carrying p = false) -> _segments (sh s) = [];
  inv_clear i : ths s !! i = Some K_queue -> _service (sh s) = false /\ cleared (sh s) = None;
  inv_one i j : ths s !! i = Some K_queue -> ths s !! j = Some K_queue -> i = j;
  inv_cleared : is_Some (cleared (sh s)) -> _service (sh s) = false;
}.

Lemma carrying_token p : carrying p = true -> token p = true.
Proof. by destruct p. Qed.
Lemma holding_carrying p : holding p = true -> carrying p = true.
Proof. by destruct p. Qed.

(** With [p] at [i] not satisfying [f], nobody did before a step if nobody does
    after it. *)
Lemma none_before (f : pc -> bool) (l : list pc) i p p' :
  l !! i = Some p -> f p = false ->
  (forall j q, <[i := p']> l !! j = Some q -> f q = false) ->
  forall j q, l !! j = Some q -> f q = false.
Proof.
  intros Hi Hp Hall j q Hj. destruct (decide (i = j)) as [<-|Hne]; [congruence|].
  apply (Hall j q). by rewrite list_lookup_insert_ne.
Qed.

(** No other thread satisfies a property of token holders. *)
Lemma none_else (f : pc -> bool) s i p :
  inv s -> ths s !! i = Some p -> token p = true -> f p = false ->
  (forall q, f q = true -> token q = true) ->
  forall j q, ths s !! j = Some q -> f q = false.
Proof.
  intros Hs Hi Ht Hp Hf j q Hj. destruct (f q) eqn:E; [|done]. exfalso.
  assert (i = j) as <- by exact (inv_unique s Hs i j p q Hi Hj Ht (Hf q E)). congruence.
Qed.

(** A thread after a step is the one that moved or another one. *)
Lemma moved (l : list pc) i p' j q :
  <[i := p']> l !! j = Some q -> (i = j /\ q = p') \/ (i <> j /\ l !! j = Some q).
Proof. intros [(-> & -> & _)|[? ?]]%list_lookup_insert_Some; auto. Qed.

(** Case analysis on the instruction at [p]. *)
Ltac cases p :=
  destruct p; simpl in *;
  repeat match goal with
    | H : context [match wlock ?s with _ => _ end] |- _ => destruct (wlock s) eqn:?
    end; simplify_eq; simpl in *.

Lemma step_lock ok i p p' (s : system) x :
  inv s -> ths s !! i = Some p -> thread_step ok i p (sh s) = Some (p', x) ->
  forall j q, <[i := p']> (ths s) !! j = Some q -> locked q = true -> wlock x = Some j.
Proof.
  intros Hs Hi Hst j q Hj Hq. pose proof (inv_lock s Hs i p Hi) as Hme.
  apply moved in Hj as [[<- ->]|[Hne Hj]].
  - cases p; eauto; repeat case_match; done.
  - pose proof (inv_lock s Hs j q Hj Hq) as Ho.
    cases p; try congruence; specialize (Hme eq_refl); congruence.
Qed.

Lemma step_unique ok i p p' (s : system) x :
  inv s -> ths s !! i = Some p -> thread_step ok i p (sh s) = Some (p', x) ->
  forall j k q r, <[i := p']> (ths s) !! j = Some q -> <[i := p']> (ths s) !! k = Some r ->
    token q = true -> token r = true -> j = k.
Proof.
  intros Hs Hi Hst.
  assert (Hnew : token p' = true -> token p = false -> _sending (sh s) = false).
  { intros H1 H2. cases p; try done; by destruct (_sending (sh s)). }
  assert (Ho : forall j q, i <> j -> ths s !! j = Some q -> token q = true ->
     token p' = true -> False).
  { intros j q Hne Hj Hq Hp'. destruct (token p) eqn:Hp.
    - apply Hne. exact (inv_unique s Hs i j p q Hi Hj Hp Hq).
    - pose proof (inv_sending s Hs j q Hj Hq). rewrite Hnew in *; done. }
  intros j k q r [[<- ->]|[Hne1 Hj]]%moved [[<- ->]|[Hne2 Hk]]%moved Hq Hr; [done| | |].
  - by destruct (Ho k r Hne2 Hk Hr Hq).
  - by destruct (Ho j q Hne1 Hj Hq Hr).
  - exact (inv_unique s Hs j k q r Hj Hk Hq Hr).
Qed.

Lemma step_sending ok i p p' (s : system) x :
  inv s -> ths s !! i = Some p -> thread_step ok i p (sh s) = Some (p', x) ->
  forall j q, <[i := p']> (ths s) !! j = Some q -> token q = true -> _sending x = true.
Proof.
  intros Hs Hi Hst j q Hj Hq. pose proof (inv_sending s Hs i p Hi) as Hme.
  apply moved in Hj as [[<- ->]|[Hne Hj]].
  - cases p; eauto; repeat case_match; try done; eauto.
  - pose proof (inv_sending s Hs j q Hj Hq) as Ho.
    cases p; try done. destruct Hne. exact (inv_unique s Hs i j _ q Hi Hj eq_refl Hq).
Qed.

(** At the move nothing is held: the segments are empty. *)
Lemma move_empty i (s : system) :
  inv s -> ths s !! i = Some R_move -> _segments (sh s) = [] /\ unposted (sh s) = [].
Proof.
  intros Hs Hi. split.
  - apply (inv_seg s Hs), (none_else carrying s i R_move Hs Hi eq_refl eq_refl).
    exact carrying_token.
  - apply (inv_none s Hs), (none_else holding s i R_move Hs Hi eq_refl eq_refl).
    intros q Hq. by apply carrying_token, holding_carrying.
Qed.

Lemma step_data ok i p p' (s : system) x :
  inv s -> ths s !! i = Some p -> thread_step ok i p (sh s) = Some (p', x) ->
  accounted x.
Proof.
  intros Hs Hi Hst. pose proof (inv_data s Hs) as Hd. unfold accounted in *.
  cases p; try done.
  - destruct (cleared (sh s)) as [[before lost]|]; [|by rewrite Hd, <- !app_assoc].
    destruct Hd as (after & -> & E). exists after. by rewrite <- !app_assoc.
  - destruct (move_empty i s Hs Hi) as [Hg Hu].
    destruct (cleared (sh s)) as [[before lost]|]; [|by rewrite Hd, Hg, Hu, app_nil_r].
    destruct Hd as (after & -> & E). exists (after ++ _sendQueue (sh s)).
    rewrite Hu, app_nil_r in E. by rewrite Hg, E, !app_nil_r, <- !app_assoc.
  - pose proof (inv_hold s Hs i R_post Hi eq_refl) as Hh. rewrite concat_app. simpl.
    rewrite !app_nil_r, <- Hh. destruct (cleared (sh s)) as [[before lost]|]; [done|].
    by rewrite Hd, <- app_assoc.
  - destruct (inv_clear s Hs i Hi) as [_ Hc]. rewrite Hc in Hd.
    exists []. simpl. by rewrite Hd, !app_nil_r, <- app_assoc.
Qed.

Lemma step_hold ok i p p' (s : system) x :
  inv s -> ths s !! i = Some p -> thread_step ok i p (sh s) = Some (p', x) ->
  forall j q, <[i := p']> (ths s) !! j = Some q -> holding q = true ->
    unposted x = _segments x.
Proof.
  intros Hs Hi Hst j q Hj Hq. pose proof (inv_hold s Hs i p Hi) as Hme.
  apply moved in Hj as [[<- ->]|[Hne Hj]].
  - cases p; try done; repeat case_match; try done; by apply Hme.
  - pose proof (inv_hold s Hs j q Hj Hq) as Ho.
    assert (Ht : token q = true) by by apply carrying_token, holding_carrying.
    cases p; try done; destruct Hne; exact (inv_unique s Hs i j _ q Hi Hj eq_refl Ht).
Qed.

Lemma step_none ok i p p' (s : system) x :
  inv s -> ths s !! i = Some p -> thread_step ok i p (sh s) = Some (p', x) ->
  (forall j q, <[i := p']> (ths s) !! j = Some q -> holding q = false) -> unposted x = [].
Proof.
  intros Hs Hi Hst Hall.
  assert (Hlt : (i < length (ths s))%nat) by (by eapply lookup_lt_Some).
  pose proof (Hall i p' (list_lookup_insert_eq _ _ _ Hlt)) as Hp'.
  assert (Hold : holding p = false -> unposted (sh s) = []).
  { intros Hp. apply (inv_none s Hs). exact (none_before holding _ i p p' Hi Hp Hall). }
  cases p; try done; by apply Hold.
Qed.

Lemma step_seg ok i p p' (s : system) x :
  inv s -> ths s !! i = Some p -> thread_step ok i p (sh s) = Some (p', x) ->
  (forall j q, <[i := p']> (ths s) !! j = Some q -> carrying q = false) -> _segments x = [].
Proof.
  intros Hs Hi Hst Hall.
  assert (Hlt : (i < length (ths s))%nat) by (by eapply lookup_lt_Some).
  pose proof (Hall i p' (list_lookup_insert_eq _ _ _ Hlt)) as Hp'.
  assert (Hold : carrying p = false -> _segments (sh s) = []).
  { intros Hp. apply (inv_seg s Hs). exact (none_before carrying _ i p p' Hi Hp Hall). }
  cases p; try done; by apply Hold.
Qed.

(** [_clear] gets past [_service] once. *)
Lemma step_clear ok i p p' (s : system) x :
  inv s -> ths s !! i = Some p -> thread_step ok i p (sh s) = Some (p', x) ->
  (p = K_service -> _service (sh s) = true) ->
  (forall j, <[i := p']> (ths s) !! j = Some K_queue -> _service x = false /\ cleared x = None) /\
  (forall j k, <[i := p']> (ths s) !! j = Some K_queue -> <[i := p']> (ths s) !! k = Some K_queue ->
     j = k) /\
  (is_Some (cleared x) -> _service x = false).
Proof.
  intros Hs Hi Hst Hk.
  pose proof (inv_clear s Hs) as Hc. pose proof (inv_one s Hs) as Ho. pose proof (inv_cleared s Hs) as Hd.
  assert (Hnone : _service (sh s) = true -> cleared (sh s) = None).
  { intros Ht. destruct (cleared (sh s)); [|done]. rewrite Hd in Ht by eauto. done. }
  assert (Hdec : p' = K_queue \/ p' <> K_queue) by (destruct p'; (by left) || by right).
  destruct Hdec as [->|Hne].
  - assert (p = K_service /\ x = set_service false (sh s)) as [-> ->].
    { cases p; try done; repeat case_match; done. }
    assert (Hothers : forall j, ths s !! j <> Some K_queue).
    { intros j Hj. destruct (Hc j Hj) as [Hf _]. by rewrite Hk in Hf. }
    split_and!; [by intros; simpl; auto| |done].
    intros j k [[<- _]|[_ Hj]]%moved [[<- _]|[_ Hk']]%moved; [done|..]; exfalso; by eapply Hothers.
  - assert (Hold : forall j, <[i := p']> (ths s) !! j = Some K_queue -> i <> j /\ ths s !! j = Some K_queue).
    { intros j [[_ E]|[Hij Hj]]%moved; [by destruct Hne|done]. }
    split_and!.
    + intros j [Hij Hj]%Hold. destruct (Hc j Hj) as [F1 F2].
      cases p; try done. destruct Hij. by apply Ho.
    + intros j k [_ Hj]%Hold [_ Hk']%Hold. by apply Ho.
    + cases p; try done. intros _. by destruct (Hc i Hi).
Qed.

Lemma sendpath_thread_step_inv ok i p p' (s : system) x :
  inv s -> ths s !! i = Some p -> thread_step ok i p (sh s) = Some (p', x) ->
  (p = K_service -> _service (sh s) = true) -> inv (mk_sys (<[i := p']> (ths s)) x).
Proof.
  intros Hs Hi Hst Hk. destruct (step_clear ok i p p' s x Hs Hi Hst Hk) as (C1 & C2 & C3).
  split; simpl.
  - exact (step_lock ok i p p' s x Hs Hi Hst).
  - exact (step_unique ok i p p' s x Hs Hi Hst).
  - exact (step_sending ok i p p' s x Hs Hi Hst).
  - exact (step_data ok i p p' s x Hs Hi Hst).
  - exact (step_hold ok i p p' s x Hs Hi Hst).
  - exact (step_none ok i p p' s x Hs Hi Hst).
  - exact (step_seg ok i p p' s x Hs Hi Hst).
  - exact C1.
  - exact C2.
  - exact C3.
Qed.

(** A place that holds nothing. *)
Definition plain (p : pc) : Prop :=
  locked p = false /\ token p = false /\ carrying p = false /\ holding p = false /\ p <> K_queue.
Lemma entry_plain (b : list B) : plain (entry b).
Proof. by destruct b. Qed.

(** A thread leaves [Idle] for such a place. *)
Lemma call_inv i q (s : system) :
  inv s -> ths s !! i = Some Idle -> plain q -> inv (mk_sys (<[i := q]> (ths s)) (sh s)).
Proof.
  intros Hs Hi (El & Et & Ec & Eh & Ek). pose proof Hs as [H1 H2 H3 H4 H5 H6 H7 H8 H9 H10].
  split; simpl; try done.
  - intros j p [[<- ->]|[_ Hj]]%moved Hq; [congruence|eauto].
  - intros j k p r [[<- ->]|[_ Hj]]%moved [[<- ->]|[_ Hk]]%moved Hq Hr;
      try congruence. exact (H2 j k p r Hj Hk Hq Hr).
  - intros j p [[<- ->]|[_ Hj]]%moved Hq; [congruence|eauto].
  - intros j p [[<- ->]|[_ Hj]]%moved Hq; [congruence|eauto].
  - intros Hall. apply H6. exact (none_before holding _ i Idle _ Hi eq_refl Hall).
  - intros Hall. apply H7. exact (none_before carrying _ i Idle _ Hi eq_refl Hall).
  - intros j [[<- E]|[_ Hj]]%moved; [by destruct Ek|eauto].
  - intros j k [[<- E]|[_ Hj]]%moved [[<- E']|[_ Hk]]%moved; try (by destruct Ek). eauto.
Qed.

(** What no thread looks at, and [_connected], may change. *)
Lemma outside_inv c n d (s : system) :
  inv s -> inv (mk_sys (ths s) (set_connected c (set_pending n d (sh s)))).
Proof. intros [H1 H2 H3 H4 H5 H6 H7 H8 H9 H10]. by split. Qed.
Lemma set_connected_id (x : shared) n d :
  set_pending n d x = set_connected (_connected x) (set_pending n d x).
Proof. by destruct x. Qed.

Lemma go_inv ok i (s s' : system) : inv s -> go ok i s = Some (Ret s') -> inv s'.
Proof.
  intros Hs. unfold go. destruct (ths s !! i) as [p|] eqn:Hi; [|done].
  destruct (thread_step ok i p (sh s)) as [[p' x]|] eqn:Hst; [|done].
  destruct (touches_queue p && _); [done|]. intros He.
  assert (Hk : s' = mk_sys (<[i := p']> (ths s)) x /\ (p = K_service -> _service (sh s) = true)).
  { destruct p; (destruct (_service (sh s)); [|try done]; by injection He as <-). }
  destruct Hk as [-> Hk]. exact (sendpath_thread_step_inv ok i p p' s x Hs Hi Hst Hk).
Qed.

Lemma sendpath_step_inv (s s' : system) : inv s -> step s s' -> inv s'.
Proof.
  intros Hs [e He]. destruct e as [i b|i|i| |ok|ok|i]; cbn [play1] in He.
  - destruct (ths s !! i) as [[]|] eqn:Hi; simplify_eq. apply call_inv; [done..|apply entry_plain].
  - exact (go_inv _ _ _ _ Hs He).
  - exact (go_inv _ _ _ _ Hs He).
  - destruct (0 <? _); simplify_eq. rewrite set_connected_id. by apply outside_inv.
  - injection He as <-. by apply outside_inv.
  - injection He as <-. rewrite set_connected_id. by apply outside_inv.
  - destruct (ths s !! i) as [[]|] eqn:Hi; simplify_eq. destruct (0 <? _); simplify_eq.
    rewrite set_connected_id. apply (call_inv i K_service (mk_sys (ths s) _)); [by apply outside_inv|done|done].
Qed.

Lemma sendpath_init_inv n : inv (init n).
Proof.
  assert (Hr : forall i (p : pc), replicate n Idle !! i = Some p -> p = Idle)
    by (intros i p [? _]%lookup_replicate; done).
  split; simpl; try done; intros; repeat match goal with
    | H : replicate n Idle !! _ = Some _ |- _ => apply Hr in H; subst
    end; done.
Qed.

Lemma sendpath_play_run es : forall (s s' : system), play es s = Some (Ret s') -> run step s s'.
Proof.
  induction es as [|e es IH]; intros s s'; cbn [play]; [intros [= <-]; constructor|].
  destruct (play1 e s) as [[s1| | |]|] eqn:E; try done. intros Hp.
  apply (run_trans step s s1); [|by apply IH].
  apply (run_step s s s1); [constructor|]. by exists e.
Qed.

(** C6: over every interleaving, without a data race, of calls of [_send] by any number
    of threads with completions, disconnections and [_clear]: at most one thread is in
    [_register_send]; what has been given to [WSASend], followed by what that thread has
    taken off the queue, is what was queued, in the order of the critical sections,
    without loss or duplication, up to what is still in [_sendQueue]; but when a
    disconnection has completed, what [_clear] found in the queue is missing in it, and
    nothing else is; and no disconnection has completed while [_service] is set. *)
Theorem sendpath_order n (s : system) :
  run step (init n) s ->
  (forall i j p q, ths s !! i = Some p -> ths s !! j = Some q ->
     token p = true -> token q = true -> i = j) /\
  match cleared (sh s) with
  | None => appended (sh s) = concat (posted (sh s)) ++ unposted (sh s) ++ _sendQueue (sh s)
  | Some (before, lost) => exists after,
      appended (sh s) = before ++ lost ++ after ++ _sendQueue (sh s) /\
      concat (posted (sh s)) ++ unposted (sh s) = before ++ after
  end /\
  ((forall i p, ths s !! i = Some p -> token p = false) -> unposted (sh s) = []) /\
  (_service (sh s) = true -> cleared (sh s) = None).
Proof.
  intros Hr.
  assert (Hs : inv s) by exact (run_invariant step inv _ _ sendpath_step_inv (sendpath_init_inv n) Hr).
  split; [exact (inv_unique s Hs)|]. split; [exact (inv_data s Hs)|]. split.
  - intros Hnone. apply (inv_none s Hs).
    intros i p Hi. specialize (Hnone i p Hi). destruct (holding p) eqn:E; [|done].
    apply holding_carrying, carrying_token in E. congruence.
  - intros Ht. destruct (cleared (sh s)) eqn:Ec; [|done].
    rewrite (inv_cleared s Hs) in Ht by (rewrite Ec; eauto). done.
Qed.

(** [_clear] takes no lock: while thread 0 is about to append to [_sendQueue], thread 1
    completes a disconnection and comes to [_sendQueue.clear()]. *)
Theorem clear_races_with_send (b : list B) :
  b <> [] ->
  exists s, run step (init 2) s /\ ths s = [S_append b; K_queue] /\
    play1 (EStep 0) s = Some (Fault DataRace) /\ play1 (EStep 1) s = Some (Fault DataRace).
Proof.
  intros Hb. destruct b as [|x b]; [done|].
  destruct (play [ECall 0 (x :: b); EStep 0; EDisconnect true; EDisconnected 1; EStep 1] (init 2))
    as [[s| | |]|] eqn:E; try (vm_compute in E; discriminate E).
  exists s. split; [exact (sendpath_play_run _ _ _ E)|].
  vm_compute in E. injection E as <-. split_and!; reflexivity.
Qed.

(** Thread 1 queues while thread 0 is between [WSASend] and
    [_sending.store(false)]. *)
Definition lost_schedule (b1 b2 : list B) : list event :=
  ECall 0 b1 :: replicate 10 (EStep 0) ++ ECall 1 b2 :: replicate 4 (EStep 1) ++
  replicate 2 (EStep 0).

(** C34: a wake-up can be lost: there is a run of two threads that each call
    [_send] once on a connected session after which both have returned,
    [_sending] is false, and the second thread's buffers are left in
    [_sendQueue] with nobody to send them. *)
Theorem wakeup_can_be_lost (b1 b2 : list B) :
  b1 <> [] -> b2 <> [] ->
  exists s, run step (init 2) s /\ ths s = [Idle; Idle] /\ _connected (sh s) = true /\
    _sending (sh s) = false /\ posted (sh s) = [b1] /\ _sendQueue (sh s) = b2.
Proof.
  intros H1 H2. destruct b1 as [|x b1]; [done|]. destruct b2 as [|y b2]; [done|].
  destruct (play (lost_schedule (x :: b1) (y :: b2)) (init 2)) as [[s| | |]|] eqn:E;
    try (vm_compute in E; discriminate E).
  exists s. split; [exact (sendpath_play_run _ _ _ E)|].
  vm_compute in E. injection E as <-. split_and!; reflexivity.
Qed.

(** [_sending] is cleared when [WSASend] returns, not when it completes: two
    sends in a row leave two operations outstanding on the one [OVERLAPPED] of
    [_sendEvent]. *)
Theorem send_event_reused_while_pending (b1 b2 : list B) :
  b1 <> [] -> b2 <> [] ->
  exists s, run step (init 1) s /\ ths s = [Idle] /\ pending (sh s) = 2 /\
    posted (sh s) = [b1; b2].
Proof.
  intros H1 H2. destruct b1 as [|x b1]; [done|]. destruct b2 as [|y b2]; [done|].
  destruct (play (ECall 0 (x :: b1) :: replicate 12 (EStep 0) ++
    ECall 0 (y :: b2) :: replicate 12 (EStep 0)) (init 1)) as [[s| | |]|] eqn:E;
    try (vm_compute in E; discriminate E).
  exists s. split; [exact (sendpath_play_run _ _ _ E)|].
  vm_compute in E. injection E as <-. split_and!; reflexivity.
Qed.

Lemma play_call i b es (s : system) :
  ths s !! i = Some Idle ->
  play (ECall i b :: es) s = play es (mk_sys (<[i := entry b]> (ths s)) (sh s)).
Proof. intros Hi. cbn [play play1]. by rewrite Hi. Qed.

(** A thread running alone, in [_send] or [_register_send]. *)
Lemma idle_untouched i p (l : list pc) :
  (forall j q, l !! j = Some q -> q = Idle) -> existsb touches_queue (delete i (<[i := p]> l)) = false.
Proof.
  intros Hl. rewrite delete_insert_same. apply existsb_delete_false. intros j q _ Hj. by rewrite (Hl j q Hj).
Qed.
Lemma play_alone es i p x (l : list pc) :
  (i < length l)%nat -> (forall j q, l !! j = Some q -> q = Idle) -> p <> K_service ->
  play (EStep i :: es) (mk_sys (<[i := p]> l) x) =
  match thread_step true i p x with
  | Some (p', x') => play es (mk_sys (<[i := p']> l) x')
  | None => None
  end.
Proof.
  intros Hi Hl Hp. cbn [play play1]. unfold go. cbn [ths sh]. rewrite list_lookup_insert_eq by done.
  destruct (thread_step true i p x) as [[p' x']|]; [|done].
  rewrite idle_untouched, andb_false_r, list_insert_insert_eq by done. by destruct p.
Qed.

(** C23: a later [_send] repairs it: from any reachable state in which all
    threads have returned, the session is connected and [_sending] is false, one
    undisturbed call sends everything that was left in the queue, then its own
    buffers, in one [WSASend]. *)
Theorem next_send_drains n i (b : list B) (s : system) :
  run step (init n) s -> (forall j p, ths s !! j = Some p -> p = Idle) ->
  (i < length (ths s))%nat -> b <> [] ->
  _connected (sh s) = true -> _sending (sh s) = false -> wlock (sh s) = None ->
  exists s', play (ECall i b :: replicate 12 (EStep i)) s = Some (Ret s') /\
    _sendQueue (sh s') = [] /\ posted (sh s') = posted (sh s) ++ [_sendQueue (sh s) ++ b] /\
    _sending (sh s') = false /\ ths s' = ths s.
Proof.
  intros Hr Hidle Hi Hb Hc Hsd Hw.
  assert (Hs : inv s) by exact (run_invariant step inv _ _ sendpath_step_inv (sendpath_init_inv n) Hr).
  assert (Hseg : _segments (sh s) = []).
  { apply (inv_seg s Hs). intros j p Hj. by rewrite (Hidle j p Hj). }
  destruct (lookup_lt_is_Some_2 _ _ Hi) as [p Hp].
  pose proof (Hidle i p Hp) as ->.
  destruct s as [l [q g sd w cn se po pe di ap un cl]]. simpl in * |-. subst.
  cbn [ths sh posted _sendQueue].
  destruct b as [|y b]; [done|].
  rewrite play_call by done. cbn [entry replicate ths sh].
  do 12 (rewrite (play_alone _ i) by done;
    cbn [thread_step send_step register_send_step set_wlock set_sending wlock _sendQueue _segments
         _sending _connected _service posted pending disconnects appended unposted cleared negb]).
  eexists. split; [reflexivity|]. simpl. split_and!; [done|done|done|].
  by apply list_insert_id.
Qed.
End SendPath.
Arguments shared B : clear implicits.
Arguments pc B : clear implicits.
Arguments system B : clear implicits.
Arguments event B : clear implicits.

(** Two sends, of which the second is left in the queue, a completed disconnection,
    which throws it away, and one more send. *)
Definition cleared_schedule : list (event Z) :=
  lost_schedule [1; 2] [3] ++ [EDisconnect true; EDisconnected 0; EStep 0; EStep 0; EStep 0;
  ECall 1 [4]; EStep 1; EStep 1; EStep 1; EStep 1; EStep 1].
Lemma sendpath_order_witness :
  exists s : system Z, run step (init 2) s /\
    appended (sh s) = [1; 2; 3; 4] /\ posted (sh s) = [[1; 2]] /\ _sendQueue (sh s) = [4] /\
    cleared (sh s) = Some ([1; 2], [3]) /\ unposted (sh s) = [] /\
    exists after, appended (sh s) = [1; 2] ++ [3] ++ after ++ _sendQueue (sh s) /\
      concat (posted (sh s)) ++ unposted (sh s) = [1; 2] ++ after.
Proof.
  destruct (play cleared_schedule (init 2)) as [[s| | |]|] eqn:E;
    try (vm_compute in E; discriminate E).
  pose proof (sendpath_play_run _ _ _ E) as Hr. exists s.
  vm_compute in E. injection E as E.
  assert (Ec : cleared (sh s) = Some ([1; 2], [3])) by (by rewrite <- E).
  destruct (sendpath_order 2 s Hr) as (_ & Hd & Hn & _). rewrite Ec in Hd.
  split; [exact Hr|]. split; [by rewrite <- E|]. split; [by rewrite <- E|].
  split; [by rewrite <- E|]. split; [exact Ec|]. split; [|exact Hd].
  apply Hn. rewrite <- E. intros [|[|i]] p; simpl; intros; by simplify_eq.
Defined.

Lemma clear_races_with_send_witness :
  exists s : system Z, run step (init 2) s /\ play1 (EStep 1) s = Some (Fault DataRace).
Proof.
  destruct (clear_races_with_send [5] ltac:(discriminate)) as (s & Hr & _ & _ & E).
  exists s. split; [exact Hr|exact E].
Defined.

Lemma wakeup_can_be_lost_witness :
  exists s : system Z, run step (init 2) s /\ ths s = [Idle; Idle] /\
    _connected (sh s) = true /\ _sending (sh s) = false /\ posted (sh s) = [[7]] /\
    _sendQueue (sh s) = [8; 9].
Proof. apply (wakeup_can_be_lost [7] [8; 9]); discriminate. Defined.

Lemma send_event_reused_while_pending_witness :
  exists s : system Z, run step (init 1) s /\ ths s = [Idle] /\ pending (sh s) = 2 /\
    posted (sh s) = [[7]; [8]].
Proof. apply (send_event_reused_while_pending [7] [8]); discriminate. Defined.

Lemma next_send_drains_witness :
  exists s s' : system Z, run step (init 2) s /\ _sendQueue (sh s) = [3] /\
    play (ECall 1 [4] :: replicate 12 (EStep 1)) s = Some (Ret s') /\
    _sendQueue (sh s') = [] /\ posted (sh s') = [[1; 2]; [3; 4]].
Proof.
  destruct (play (lost_schedule [1; 2] [3]) (init 2)) as [[s| | |]|] eqn:E;
    try (vm_compute in E; discriminate E).
  pose proof (sendpath_play_run _ _ _ E) as Hr. exists s.
  vm_compute in E. injection E as E.
  assert (Hi : forall j p, ths s !! j = Some p -> p = Idle).
  { rewrite <- E. intros [|[|i]] p; simpl; intros; by simplify_eq. }
  assert (Hlt : (1 < length (ths s))%nat) by (rewrite <- E; simpl; lia).
  assert (Hf : _connected (sh s) = true /\ _sending (sh s) = false /\ wlock (sh s) = None /\
    _sendQueue (sh s) = [3] /\ posted (sh s) = [[1; 2]]).
  { rewrite <- E. split_and!; reflexivity. }
  destruct Hf as (F1 & F2 & F3 & F4 & F5).
  destruct (next_send_drains 2 1 [4] s Hr Hi Hlt ltac:(discriminate) F1 F2 F3)
    as (s' & Q1 & Q2 & Q3 & _).
  exists s'. split; [exact Hr|]. split; [exact F4|]. split; [exact Q1|].
  split; [exact Q2|]. by rewrite Q3, F4, F5.
Defined.
End SendPath.
