(* ===== verification/LockContainers.v ===== *)
(** LockQueue.h, LockStack.h and LockPriorityQueue.h: containers whose members
    hold a write or read lock for their whole body, each as one operation on the
    underlying standard container (that they are atomic over the lock is proved in
    LockedMembers.v). [std::priority_queue] is an interface with its documented laws. *)
From Stdlib Require Import Sorted.
From stdpp Require Import sorting.
From S2P Require Import Prelude.
#[local] Open Scope Z_scope.

(** A value type: [T()] and its conversion to [bool] in a condition. *)
Class Value (T : Type) := { T0 : T; truthy : T -> bool }.

(** Shared pointers: null is [None]. *)
#[export] Instance option_Value {A} : Value (option A) :=
  {| T0 := None; truthy x := match x with Some _ => true | None => false end |}.
(** Integers. *)
#[export] Instance Z_Value : Value Z := {| T0 := 0; truthy x := negb (x =? 0) |}.

(** ** [std::priority_queue] with [Less] given by a key *)
Class PriorityQueue (T Q : Type) (key : T -> Z) := {
  pq_list : Q -> list T;
  pq_new : Q;
  pq_push : T -> Q -> Q;
  pq_top : Q -> option T;
  pq_pop : Q -> Q;
  pq_new_list : pq_list pq_new = [];
  pq_push_list x q : pq_list (pq_push x q) ≡ₚ x :: pq_list q;
  pq_top_none q : pq_top q = None -> pq_list q = [];
  pq_top_some q x : pq_top q = Some x ->
    pq_list q ≡ₚ x :: pq_list (pq_pop q) /\ forall y, y ∈ pq_list q -> key y <= key x;
}.

(** ** What a container promises to [Clear(popped)]: the order in which repeated
    removals yield its items. *)
Class Container (T C : Type) := {
  order : C -> list T;
  remove : C -> option (T * C);
  remove_order c :
    match remove c with
    | None => order c = []
    | Some (x, c') => order c = x :: order c'
    end;
}.

Module Locked.
Section Pop.
Context {T C : Type} `{Value T, Container T C}.

(** [Pop()]: [T()] when the container is empty. *)
Definition Pop (c : C) : T * C :=
  match remove c with Some (x, c) => (x, c) | None => (T0, c) end.

(** [TryPop(item)] and [TryPeek(item)]: the out parameter when successful. *)
Definition TryPop (c : C) : option T * C :=
  match remove c with Some (x, c) => (Some x, c) | None => (None, c) end.
Definition TryPeek (c : C) : option T :=
  match remove c with Some (x, _) => Some x | None => None end.
(** [Front()], [Top()]. *)
Definition Front (c : C) : T := match TryPeek c with Some x => x | None => T0 end.

(** [Clear()]: pops until empty. *)
Fixpoint Clear_loop (fuel : nat) (c : C) : outcome C :=
  match fuel with
  | O => NoFuel
  | S fuel => match remove c with Some (_, c) => Clear_loop fuel c | None => Ret c end
  end.
Definition Clear (c : C) : outcome C := Clear_loop (S (length (order c))) c.

(** [Clear(popped)]: [while (T element = Pop()) popped.push_back(element)]. *)
Fixpoint ClearTo (fuel : nat) (popped : list T) (c : C) : outcome (list T * C) :=
  match fuel with
  | O => NoFuel
  | S fuel =>
      let '(element, c) := Pop c in
      if truthy element then ClearTo fuel (popped ++ [element]) c else Ret (popped, c)
  end.

(** [PopAll(items, condition)]. *)
Fixpoint PopAll (fuel : nat) (condition : T -> bool) (items : list T) (c : C)
  : outcome (list T * C) :=
  match fuel with
  | O => NoFuel
  | S fuel =>
      match remove c with
      | None => Ret (items, c)
      | Some (item, c') =>
          if condition item then PopAll fuel condition (items ++ [item]) c'
          else Ret (items, c)
      end
  end.

(** ** Lemmas *)
Fixpoint take_while (f : T -> bool) (l : list T) : list T :=
  match l with [] => [] | x :: l => if f x then x :: take_while f l else [] end.
Fixpoint drop_while (f : T -> bool) (l : list T) : list T :=
  match l with [] => [] | x :: l' => if f x then drop_while f l' else l end.

Lemma take_drop_while f l : take_while f l ++ drop_while f l = l.
Proof. induction l as [|x l IH]; simpl; [done|]. destruct (f x); simpl; congruence. Qed.
Lemma take_while_all f l : Forall (fun x => f x = true) l -> take_while f l = l.
Proof. induction 1 as [|x l Hx _ IH]; simpl; [done|]. by rewrite Hx, IH. Qed.
Lemma drop_while_all f l : Forall (fun x => f x = true) l -> drop_while f l = [].
Proof. induction 1 as [|x l Hx _ IH]; simpl; [done|]. by rewrite Hx. Qed.

Lemma Clear_ok c : exists c', Clear c = Ret c' /\ order c' = [].
Proof.
  unfold Clear. remember (length (order c)) as n eqn:Hn. revert c Hn.
  induction n as [|n IH]; intros c Hn; cbn [Clear_loop];
    pose proof (remove_order c) as Hr; destruct (remove c) as [[x c']|]; eauto.
  - rewrite Hr in Hn. discriminate.
  - rewrite Hr in Hn. simpl in Hn. apply IH. lia.
Qed.

(** [Clear(popped)] when [T()] is false. *)
Lemma ClearTo_ok c : forall fuel popped,
  truthy T0 = false -> (length (order c) < fuel)%nat ->
  exists c', ClearTo fuel popped c = Ret (popped ++ take_while truthy (order c), c') /\
    order c' = tail (drop_while truthy (order c)).
Proof.
  remember (order c) as l eqn:Hl. revert c Hl.
  induction l as [|x l IH]; intros c Hl fuel popped HT Hf; (destruct fuel; [simpl in Hf; lia|]);
    cbn [ClearTo]; unfold Pop; pose proof (remove_order c) as Hr; rewrite <- Hl in Hr;
    destruct (remove c) as [[y c']|]; try discriminate.
  - rewrite HT. exists c. by rewrite app_nil_r, <- Hl.
  - injection Hr as -> Hl'. simpl. destruct (truthy y).
    + destruct (IH c' Hl' fuel (popped ++ [y]) HT) as (c2 & -> & E); [simpl in Hf; lia|].
      exists c2. by rewrite <- app_assoc.
    + exists c'. by rewrite app_nil_r, <- Hl'.
Qed.

Lemma PopAll_ok f c : forall fuel items,
  (length (order c) < fuel)%nat ->
  exists c', PopAll fuel f items c = Ret (items ++ take_while f (order c), c') /\
    order c' = drop_while f (order c).
Proof.
  remember (order c) as l eqn:Hl. revert c Hl.
  induction l as [|x l IH]; intros c Hl fuel items Hf; (destruct fuel; [simpl in Hf; lia|]);
    cbn [PopAll]; pose proof (remove_order c) as Hr; rewrite <- Hl in Hr;
    destruct (remove c) as [[y c']|]; try discriminate.
  - exists c. by rewrite app_nil_r, <- Hl.
  - injection Hr as -> Hl'. simpl. destruct (f y).
    + destruct (IH c' Hl' fuel (items ++ [y])) as (c2 & -> & E); [simpl in Hf; lia|].
      exists c2. by rewrite <- app_assoc.
    + exists c. by rewrite app_nil_r, <- Hl.
Qed.

(** [Clear(popped)] of any of the containers, for a type whose [T()] is false:
    it returns the items up to the first false one and throws that one away,
    leaving the rest; when all items are true (non-null pointers) it hands out
    everything in removal order and leaves the container empty. *)
Theorem ClearTo_drops_first_false c :
  truthy T0 = false ->
  exists popped c', ClearTo (S (length (order c))) [] c = Ret (popped, c') /\
    popped = take_while truthy (order c) /\
    order c' = tail (drop_while truthy (order c)) /\
    (Forall (fun x => truthy x = true) (order c) -> popped = order c /\ order c' = []).
Proof.
  intros HT. destruct (ClearTo_ok c (S (length (order c))) [] HT ltac:(lia)) as (c' & E & Ho).
  exists (take_while truthy (order c)), c'. split; [exact E|]. split; [done|].
  split; [exact Ho|]. intros Hall. by rewrite Ho, take_while_all, drop_while_all.
Qed.

(** For a type whose [T()] is true, [Clear(popped)] never returns once the
    remaining items are true: no fuel is enough. *)
Lemma ClearTo_true_default_hangs c fuel popped :
  truthy T0 = true -> Forall (fun x => truthy x = true) (order c) ->
  ClearTo fuel popped c = NoFuel.
Proof.
  intros HT. revert c popped.
  induction fuel as [|fuel IH]; intros c popped Hall; [done|].
  cbn [ClearTo]. unfold Pop. pose proof (remove_order c) as Hr.
  destruct (remove c) as [[x c']|].
  - rewrite Hr in Hall. apply Forall_cons in Hall as [Hx Hall]. rewrite Hx. by apply IH.
  - rewrite HT. by apply IH.
Qed.
End Pop.
End Locked.
Export Locked.

(** ** The three containers *)
Module LockQueue.
Section LockQueue.
Context {T : Type} `{Value T}.
(** [Queue<T> _queue], front first. *)
Record t := mk { _queue : list T }.
Definition new : t := mk [].
Definition Push (item : T) (q : t) : t := mk (_queue q ++ [item]).
(** [_queue.front()] and [_queue.pop()]. *)
Definition take_front (q : t) : option (T * t) :=
  match _queue q with [] => None | x :: l => Some (x, mk l) end.
Definition SetNew (_ : t) : t := mk [].
#[global, refine] Instance queue_container : Container T t :=
  {| order := _queue; remove := take_front |}.
Proof. intros [[|x l]]; done. Defined.
End LockQueue.
Arguments t T : clear implicits.
End LockQueue.

Module LockStack.
Section LockStack.
Context {T : Type} `{Value T}.
(** [Stack<T> _stack], top first. *)
Record t := mk { _stack : list T }.
Definition new : t := mk [].
Definition Push (item : T) (s : t) : t := mk (item :: _stack s).
(** [_stack.top()] and [_stack.pop()]. *)
Definition take_top (s : t) : option (T * t) :=
  match _stack s with [] => None | x :: l => Some (x, mk l) end.
Definition SetNew (_ : t) : t := mk [].
#[global, refine] Instance stack_container : Container T t :=
  {| order := _stack; remove := take_top |}.
Proof. intros [[|x l]]; done. Defined.
(** [Pop], [Top] and [Clear(popped)] do not compile and have no meaning. *)
Definition TryPop (s : t) : option T * t := Locked.TryPop s.
Definition TryPeek (s : t) : option T := Locked.TryPeek s.
Definition Clear (s : t) : outcome t := Locked.Clear s.

(** Last in, first out. *)
Lemma TryPop_Push item s : TryPop (Push item s) = (Some item, s).
Proof. by destruct s. Qed.
End LockStack.
Arguments t T : clear implicits.
End LockStack.

Module LockPriorityQueue.
Section LockPriorityQueue.
Context {T Q : Type} {key : T -> Z} `{!Value T, !PriorityQueue T Q key}.
Implicit Types q : Q.

(** The order of repeated [top]/[pop]. *)
Fixpoint pq_order (n : nat) (q : Q) : list T :=
  match n with
  | O => []
  | S n => match pq_top q with None => [] | Some x => x :: pq_order n (pq_pop q) end
  end.
Definition order_of (q : Q) : list T := pq_order (length (pq_list q)) q.
(** [_pq.top()] and [_pq.pop()]. *)
Definition take_top (q : Q) : option (T * Q) :=
  match pq_top q with None => None | Some x => Some (x, pq_pop q) end.

Definition Push (item : T) (q : Q) : Q := pq_push item q.
Definition SetNew (_ : Q) : Q := pq_new.
Definition size (q : Q) : Z := zlen (pq_list q).

(** [TryPop(item, condition)]. *)
Definition TryPopIf (condition : T -> bool) (q : Q) : option T * Q :=
  match pq_top q with
  | None => (None, q)
  | Some top => if condition top then (Some top, pq_pop q) else (None, q)
  end.

Lemma top_length q x :
  pq_top q = Some x -> length (pq_list q) = S (length (pq_list (pq_pop q))).
Proof. intros E. apply pq_top_some in E as [-> _]. done. Qed.

#[global, refine] Instance pq_container : Container T Q :=
  {| order := order_of; remove := take_top |}.
Proof.
  intros q. unfold take_top. destruct (pq_top q) as [x|] eqn:E.
  - unfold order_of. rewrite (top_length q x E). simpl. by rewrite E.
  - unfold order_of. by rewrite (pq_top_none q E).
Defined.

Lemma order_perm q : order_of q ≡ₚ pq_list q.
Proof.
  unfold order_of. remember (length (pq_list q)) as n eqn:Hn. revert q Hn.
  induction n as [|n IH]; intros q Hn; simpl.
  - destruct (pq_list q); [done|discriminate].
  - destruct (pq_top q) as [x|] eqn:E.
    + destruct (pq_top_some q x E) as [Hp _]. rewrite Hp, <- IH; [done|].
      rewrite (top_length q x E) in Hn. lia.
    + by rewrite (pq_top_none q E).
Qed.

Lemma order_sorted q : StronglySorted (fun x y => key y <= key x) (order_of q).
Proof.
  unfold order_of. remember (length (pq_list q)) as n eqn:Hn. revert q Hn.
  induction n as [|n IH]; intros q Hn; simpl; [constructor|].
  destruct (pq_top q) as [x|] eqn:E; [|constructor].
  destruct (pq_top_some q x E) as [Hp Hmax].
  assert (Hl : n = length (pq_list (pq_pop q))) by (rewrite (top_length q x E) in Hn; lia).
  constructor; [by apply IH|]. apply Forall_forall. intros y Hy.
  apply Hmax. rewrite Hp. right. rewrite <- (order_perm (pq_pop q)). unfold order_of.
  by rewrite <- Hl.
Qed.

Lemma filter_none (f : T -> bool) l :
  Forall (fun x => f x = false) l -> List.filter f l = [].
Proof. induction 1 as [|x l Hx _ IH]; [done|]. simpl. by rewrite Hx. Qed.
Lemma filter_every (f : T -> bool) l :
  Forall (fun x => f x = true) l -> List.filter f l = l.
Proof. induction 1 as [|x l Hx _ IH]; [done|]. simpl. by rewrite Hx, IH. Qed.
Lemma filter_perm (f : T -> bool) l l' : l ≡ₚ l' -> List.filter f l ≡ₚ List.filter f l'.
Proof.
  induction 1 as [|x l l' _ IH|x y l|l1 l2 l3 _ IH1 _ IH2]; simpl; [done| | |by rewrite IH1].
  - destruct (f x); by rewrite IH.
  - destruct (f x), (f y); try done. apply Permutation_swap.
Qed.
Lemma filter_sorted (f : T -> bool) (R : T -> T -> Prop) l :
  StronglySorted R l -> StronglySorted R (List.filter f l).
Proof.
  induction 1 as [|x l _ IH Hx]; simpl; [constructor|]. destruct (f x); [|done].
  constructor; [done|]. apply Forall_forall. intros y Hy.
  apply list_elem_of_In, filter_In in Hy as [Hy _].
  rewrite Forall_forall in Hx. by apply Hx, list_elem_of_In.
Qed.

(** On a list sorted by key, a condition closed under larger keys holds on a
    prefix. *)
Lemma take_while_sorted (f : T -> bool) l :
  (forall x y, key y <= key x -> f y = true -> f x = true) ->
  StronglySorted (fun x y => key y <= key x) l ->
  take_while f l = List.filter f l /\
  drop_while f l = List.filter (fun x => negb (f x)) l.
Proof.
  intros Hf. induction 1 as [|x l Hs IH Hx]; [done|]. simpl.
  destruct (f x) eqn:E; simpl.
  - by destruct IH as [-> ->].
  - assert (Hall : Forall (fun y => f y = false) l).
    { eapply Forall_impl; [exact Hx|]. intros y Hy. destruct (f y) eqn:Ey; [|done].
      by rewrite (Hf x y Hy Ey) in E. }
    rewrite filter_none by done. rewrite filter_every; [done|].
    eapply Forall_impl; [exact Hall|]. by intros y ->.
Qed.

(** The members that compile, for this container; [TryPop(item)] and [Peek] do not. *)
Definition Pop (q : Q) : T * Q := Locked.Pop q.
Definition TryPeek (q : Q) : option T := Locked.TryPeek q.
Definition Clear (q : Q) : outcome Q := Locked.Clear q.
Definition ClearTo (q : Q) : outcome (list T * Q) :=
  Locked.ClearTo (S (length (pq_list q))) [] q.
(** [PopAll] returns whether the queue is empty. *)
Definition PopAll (condition : T -> bool) (q : Q) : outcome (bool * list T * Q) :=
  let! (items, q) := Locked.PopAll (S (length (pq_list q))) condition [] q in
  Ret (match pq_top q with None => true | Some _ => false end, items, q).

(** [PopAll] with a condition that is closed under larger priority removes
    exactly the items that satisfy it, largest first, keeps the others, and returns
    whether none is left. *)
Theorem PopAll_exact condition q :
  (forall x y, key y <= key x -> condition y = true -> condition x = true) ->
  exists b items q', PopAll condition q = Ret (b, items, q') /\
    (b = true -> pq_list q' = []) /\
    items ≡ₚ List.filter condition (pq_list q) /\
    StronglySorted (fun x y => key y <= key x) items /\
    pq_list q' ≡ₚ List.filter (fun x => negb (condition x)) (pq_list q).
Proof.
  intros Hf. assert (Hl : (length (order q) < S (length (pq_list q)))%nat).
  { simpl. rewrite order_perm. lia. }
  destruct (PopAll_ok condition q _ [] Hl) as (q' & E & Ho).
  destruct (take_while_sorted condition (order_of q) Hf (order_sorted q)) as [Ht Hd].
  unfold PopAll. rewrite E. cbn [obind]. simpl in Ho.
  eexists _, (take_while condition (order_of q)), q'. split; [reflexivity|].
  split; [destruct (pq_top q') eqn:Et; [done|by intros _; apply pq_top_none]|].
  split; [rewrite Ht; by apply filter_perm, order_perm|]. split.
  - rewrite Ht. apply filter_sorted, order_sorted.
  - rewrite <- (order_perm q'), Ho, Hd. by apply filter_perm, order_perm.
Qed.
End LockPriorityQueue.
End LockPriorityQueue.

(** ** A priority queue as a list whose largest item is searched *)
Section ListPQ.
Context {T : Type} (key : T -> Z).

Fixpoint take_max (x : T) (l : list T) : T * list T :=
  match l with
  | [] => (x, [])
  | y :: l =>
      if key x <? key y then let '(m, r) := take_max y l in (m, x :: r)
      else let '(m, r) := take_max x l in (m, y :: r)
  end.

Lemma take_max_ok l : forall x m r, take_max x l = (m, r) ->
  x :: l ≡ₚ m :: r /\ forall y, y ∈ x :: l -> key y <= key m.
Proof.
  induction l as [|y l IH]; intros x m r; simpl.
  { intros [= <- <-]. split; [done|]. intros y ->%list_elem_of_singleton. lia. }
  destruct (Z.ltb_spec (key x) (key y)) as [Hlt|Hle].
  - destruct (take_max y l) as [m' r'] eqn:E. intros [= <- <-].
    destruct (IH _ _ _ E) as [Hp Hm]. split.
    + by rewrite Hp, Permutation_swap.
    + intros z [->|Hz]%elem_of_cons; [|by apply Hm].
      specialize (Hm y ltac:(left)). lia.
  - destruct (take_max x l) as [m' r'] eqn:E. intros [= <- <-].
    destruct (IH _ _ _ E) as [Hp Hm]. split.
    + by rewrite Permutation_swap, Hp, Permutation_swap.
    + intros z [->|[->|Hz]%elem_of_cons]%elem_of_cons.
      * apply Hm. left.
      * specialize (Hm x ltac:(left)). lia.
      * apply Hm. by right.
Qed.

Definition list_top (l : list T) : option T :=
  match l with [] => None | x :: l => Some (take_max x l).1 end.
Definition list_pop (l : list T) : list T :=
  match l with [] => [] | x :: l => (take_max x l).2 end.

Definition list_pq : PriorityQueue T (list T) key.
Proof.
  refine {| pq_list l := l; pq_new := []; pq_push x l := x :: l; pq_top := list_top;
            pq_pop := list_pop |}.
  - done.
  - done.
  - by intros [|x l].
  - intros [|x l] y; [done|]. simpl. destruct (take_max x l) as [m r] eqn:E.
    intros [= <-]. by apply take_max_ok.
Defined.
End ListPQ.

Module Samples.
Lemma ClearTo_drops_first_false_witness :
  ClearTo (C := LockQueue.t Z) 5 [] (LockQueue.mk [3; 4; 0; 5]) = Ret ([3; 4], LockQueue.mk [5]) /\
  exists popped c', ClearTo 5 [] (LockQueue.mk [3; 4; 0; 5]) = Ret (popped, c') /\
    popped = [3; 4] /\ order c' = [5].
Proof.
  split; [reflexivity|].
  destruct (@ClearTo_drops_first_false Z (LockQueue.t Z) Z_Value LockQueue.queue_container
    (LockQueue.mk [3; 4; 0; 5]) eq_refl)
    as (p & c & E1 & E2 & E3 & _).
  exists p, c. split; [exact E1|]. split; [exact E2|exact E3].
Defined.

Lemma PopAll_exact_witness :
  exists b items q', @LockPriorityQueue.PopAll Z (list Z) id (list_pq id) (fun x => 4 <=? x) [2; 9; 4; 7] =
      Ret (b, items, q') /\ items ≡ₚ [9; 4; 7] /\ q' ≡ₚ [2].
Proof.
  destruct (@LockPriorityQueue.PopAll_exact Z (list Z) id (list_pq id)
    (fun x => 4 <=? x) [2; 9; 4; 7]) as (b & items & q' & E & _ & Hi & _ & Hq).
  - intros x y. simpl. lia.
  - exists b, items, q'. split; [exact E|]. split; [exact Hi|exact Hq].
Defined.
End Samples.
