(* ===== verification/LockedProgram.v ===== *)
(** Lock.h, and the members of LockQueue.h, LockStack.h and LockPriorityQueue.h
    as programs: the scoped guards of [_WRITE_LOCK] and [_READ_LOCK] are steps on
    the read-write lock of RWLock.v, every use of the standard container is an
    access that begins and ends, and two threads whose accesses overlap, one of
    them a write, race. A guard discipline on programs and the exclusion of the
    lock give linearizability: every interleaving is explained by an atomic object
    that performs each member in one step between its call and its return. *)
From S2P Require Import Prelude ErrorHandler RWLock.
#[local] Open Scope Z_scope.

Module LockedProgram.
Import RWLock.

(** [WriteLock] and [ReadLock] of Lock.h. *)
Inductive guard := AWriteLock | AReadLock.
Definition construct (g : guard) : call :=
  match g with AWriteLock => CWriteLock | AReadLock => CReadLock end.
Definition destroy (g : guard) : call :=
  match g with AWriteLock => CWriteUnlock | AReadLock => CReadUnlock end.

(** A member's body on a container [C] that returns an [R]. [Rounds] bounds a loop
    by the current container and is no access; [Undefined] is a standard container
    used outside its contract; [Exhausted] a loop that used up its rounds. *)
Inductive body (C R : Type) : Type :=
| Acquire (g : guard) (b : body C R)
| Release (g : guard) (b : body C R)
| Read (k : C -> body C R)
| Write (f : C -> option C) (b : body C R)
| Rounds (k : C -> body C R)
| Done (r : R)
| Undefined
| Exhausted.
Arguments Acquire {C R} g b.
Arguments Release {C R} g b.
Arguments Read {C R} k.
Arguments Write {C R} f b.
Arguments Rounds {C R} k.
Arguments Done {C R} r.
Arguments Undefined {C R}.
Arguments Exhausted {C R}.

Fixpoint bind {C A B : Type} (k : A -> body C B) (b : body C A) : body C B :=
  match b with
  | Acquire g b => Acquire g (bind k b)
  | Release g b => Release g (bind k b)
  | Read f => Read (fun c => bind k (f c))
  | Write f b => Write f (bind k b)
  | Rounds f => Rounds (fun c => bind k (f c))
  | Done r => k r
  | Undefined => Undefined
  | Exhausted => Exhausted
  end.
#[export] Instance body_bind {C} : MBind (body C) := fun A B => @bind C A B.
#[export] Instance body_ret {C} : MRet (body C) := fun A => @Done C A.

(** A guard variable: constructed before the rest of its scope, destroyed when the
    scope is left, after the result is computed. *)
Definition with_guard {C R} (g : guard) (b : body C R) : body C R :=
  Acquire g (r ← b; Release g (mret r)).

(** What a body does when nobody else is there. *)
Fixpoint alone {C R} (b : body C R) (c : C) : outcome (R * C) :=
  match b with
  | Acquire _ b | Release _ b => alone b c
  | Read k | Rounds k => alone (k c) c
  | Write f b => match f c with Some c' => alone b c' | None => Fault OutOfBounds end
  | Done r => Ret (r, c)
  | Undefined => Fault OutOfBounds
  | Exhausted => NoFuel
  end.

Lemma alone_bind {C A B} (k : A -> body C B) (b : body C A) c :
  alone (b ≫= k) c = let! (a, c') := alone b c in alone (k a) c'.
Proof.
  revert c. induction b as [g b IH|g b IH|f IH|f b IH|f IH|r| |]; intros c;
    cbn [mbind body_bind bind alone]; try apply IH; try done.
  - destruct (f c) as [c'|]; [apply IH|done].
Qed.

Lemma alone_guard {C R} g (b : body C R) c : alone (with_guard g b) c = alone b c.
Proof.
  unfold with_guard. cbn [alone]. rewrite alone_bind. by destruct (alone b c) as [[]| | |].
Qed.

(** ** The discipline of the guards *)

(** Guards one thread nests: a member's own and that of a member it calls. *)
Definition depth : nat := 2.

(** [disciplined used w r b Q]: with [w] write and [r] read guards in scope the body
    reads the container only under a guard, writes it only under a write guard,
    constructs no write guard inside a read guard, nests at most [depth], and has a
    single outermost scope ([used]); [Q] holds where it is done. *)
Fixpoint disciplined {C R} (used : bool) (w r : nat) (b : body C R)
    (Q : bool -> nat -> nat -> R -> Prop) : Prop :=
  match b with
  | Acquire g b =>
      ((w + r = 0)%nat -> used = false) /\ (w + r < depth)%nat /\
      match g with
      | AWriteLock => r = 0%nat /\ disciplined true (S w) r b Q
      | AReadLock => disciplined true w (S r) b Q
      end
  | Release AWriteLock b =>
      r = 0%nat /\ (0 < w)%nat /\ disciplined used (pred w) r b Q
  | Release AReadLock b => (0 < r)%nat /\ disciplined used w (pred r) b Q
  | Read k | Rounds k => (0 < w + r)%nat /\ forall c, disciplined used w r (k c) Q
  | Write _ b => (0 < w)%nat /\ disciplined used w r b Q
  | Done x => Q used w r x
  | Undefined | Exhausted => True
  end.

Lemma disciplined_bind {C A B} u w r (k : A -> body C B) (b : body C A) Q :
  disciplined u w r b (fun u w r x => disciplined u w r (k x) Q) ->
  disciplined u w r (b ≫= k) Q.
Proof.
  revert u w r. induction b as [g b IH|g b IH|f IH|f b IH|f IH|x| |]; intros u w r;
    cbn [mbind body_bind bind disciplined]; try done.
  - destruct g; intuition auto.
  - destruct g; intuition auto.
  - intros [? H]. split; [done|]. intros c. apply IH, H.
  - intros [? H]. split; [done|]. apply IH, H.
  - intros [? H]. split; [done|]. intros c. apply IH, H.
Qed.

Lemma disciplined_mono {C R} u w r (b : body C R) (P Q : bool -> nat -> nat -> R -> Prop) :
  (forall u w r x, P u w r x -> Q u w r x) ->
  disciplined u w r b P -> disciplined u w r b Q.
Proof.
  intros HPQ. revert u w r. induction b as [g b IH|g b IH|f IH|f b IH|f IH|x| |];
    intros u w r; cbn [disciplined]; auto.
  - destruct g; intuition auto.
  - destruct g; intuition auto.
  - intros [? H]. split; auto.
  - intros [? H]. split; auto.
  - intros [? H]. split; auto.
Qed.

(** The counters are where they were: what a scope leaves. *)
Definition same {R} (u : bool) (w r : nat) : bool -> nat -> nat -> R -> Prop :=
  fun u' w' r' _ => u' = u /\ w' = w /\ r' = r.

Lemma disciplined_guard {C R} u w r g (b : body C R) :
  ((w + r = 0)%nat -> u = false) -> (w + r < depth)%nat ->
  match g with
  | AWriteLock => r = 0%nat /\ disciplined true (S w) r b (same true (S w) r)
  | AReadLock => disciplined true w (S r) b (same true w (S r))
  end ->
  disciplined u w r (with_guard g b) (same true w r).
Proof.
  intros Hu Hd Hb. unfold with_guard. cbn [disciplined]. split_and!; [done|done|].
  destruct g; [destruct Hb as [Hr Hb]; split; [done|]|]; apply disciplined_bind;
    (eapply disciplined_mono; [|exact Hb]); intros u' w' r' x (-> & -> & ->);
    cbn [disciplined mret body_ret pred]; split_and!; (done || lia).
Qed.

(** Read guards alone change nothing. *)
Lemma reader_keeps {C R} (b : body C R) r Q c x c' :
  disciplined true 0 r b Q -> alone b c = Ret (x, c') -> c' = c.
Proof.
  revert r c. induction b as [g b IH|g b IH|f IH|f b IH|f IH|y| |]; intros r c;
    cbn [disciplined alone]; intros Hd E; try discriminate E.
  - destruct g; [destruct Hd as (Hu & _ & -> & _); discriminate (Hu eq_refl)|].
    destruct Hd as (_ & _ & Hd). by eapply IH.
  - destruct g; [lia|]. destruct Hd as [_ Hd]. by eapply IH.
  - destruct Hd as [_ Hd]. by eapply IH.
  - lia.
  - destruct Hd as [_ Hd]. by eapply IH.
  - congruence.
Qed.

(** After its outermost scope a body only returns. *)
Lemma released_done {C R} (b : body C R) Q c x c' :
  disciplined true 0 0 b Q -> alone b c = Ret (x, c') -> b = Done x /\ c' = c.
Proof.
  destruct b as [g b|g b|f|f b|f|y| |]; cbn [disciplined alone]; intros Hd E;
    try discriminate E.
  - destruct Hd as (Hu & _). discriminate (Hu eq_refl).
  - destruct g; [destruct Hd as (_ & ? & _)|destruct Hd as (? & _)]; lia.
  - lia.
  - lia.
  - lia.
  - by simplify_eq.
Qed.

(** ** Objects: what a locked class promises to its users *)
Class Members (M C R : Type) := {
  program : M -> body C R;
  atomically : M -> C -> R * C;
  program_disciplined m : disciplined false 0 0 (program m) (same true 0 0);
  program_alone m c : alone (program m) c = Ret (atomically m c);
}.

Section Object.
Context {M C R : Type} `{!Members M C R}.

Inductive event := Call (i : nat) (m : M) | Return (i : nat) (x : R).

(** A thread: its view of the lock, the rest of the member it is in, and the access
    it has begun. *)
Record client := mk_client {
  lth : RWLock.thread;
  cur : option (body C R);
  acc : option guard }.

(** The object and its threads; [hist] is what the callers have seen. *)
Record state := mk_state {
  lk : RWLock.lock; data : C; clients : list client; hist : list event }.
Inductive stop := Aborted (code : Z) | Race | Misuse | Endless.
Inductive system := Up (s : state) | Down (o : stop).

Definition set_client (i : nat) (cl : client) (s : state) : state :=
  mk_state (lk s) (data s) (<[i := cl]> (clients s)) (hist s).

(** Accesses that may not overlap with [g]. *)
Definition conflicts (g : guard) (cl : client) : bool :=
  match g, acc cl with
  | _, None | AReadLock, Some AReadLock => false
  | _, Some _ => true
  end.
Definition begin_access (g : guard) (i : nat) (cl : client) (s : state) : system :=
  if existsb (conflicts g) (delete i (clients s)) then Down Race
  else Up (set_client i (mk_client (lth cl) (cur cl) (Some g)) s).

(** The next step of a thread in a member; [tick] as in RWLock.v. *)
Definition go (tick : Z) (i : nat) (cl : client) (s : state) : option system :=
  match thread_step tick (lk s) (lth cl) with
  | Some (Ret (l, th)) =>
      Some (Up (mk_state l (data s) (<[i := mk_client th (cur cl) (acc cl)]> (clients s))
                  (hist s)))
  | Some (Crash e) => Some (Down (Aborted e))
  | Some _ => Some (Down Misuse)
  | None =>
      match cur cl, acc cl with
      | Some (Acquire g b), None =>
          Some (Up (set_client i (mk_client (goto (entry (construct g)) (lth cl)) (Some b) None) s))
      | Some (Release g b), None =>
          Some (Up (set_client i (mk_client (goto (entry (destroy g)) (lth cl)) (Some b) None) s))
      | Some (Read _), None => Some (begin_access AReadLock i cl s)
      | Some (Read k), Some AReadLock =>
          Some (Up (set_client i (mk_client (lth cl) (Some (k (data s))) None) s))
      | Some (Write _ _), None => Some (begin_access AWriteLock i cl s)
      | Some (Write f b), Some AWriteLock =>
          Some (match f (data s) with
                | Some c => Up (mk_state (lk s) c
                              (<[i := mk_client (lth cl) (Some b) None]> (clients s)) (hist s))
                | None => Down Misuse
                end)
      | Some (Rounds k), None =>
          Some (Up (set_client i (mk_client (lth cl) (Some (k (data s))) None) s))
      | Some (Done x), None =>
          Some (Up (mk_state (lk s) (data s) (<[i := mk_client (lth cl) None None]> (clients s))
                      (hist s ++ [Return i x])))
      | Some Undefined, _ => Some (Down Misuse)
      | Some Exhausted, _ => Some (Down Endless)
      | _, _ => None
      end
  end.

(** A thread calls a member, or takes its next step. *)
Inductive choice := Enter (i : nat) (m : M) | Go (i : nat) (tick : Z).
Definition play1 (e : choice) (sy : system) : option system :=
  match sy with
  | Down _ => None
  | Up s =>
      match e with
      | Enter i m =>
          cl ← clients s !! i;
          match cur cl with
          | Some _ => None
          | None => Some (Up (mk_state (lk s) (data s)
              (<[i := mk_client (lth cl) (Some (program m)) None]> (clients s))
              (hist s ++ [Call i m])))
          end
      | Go i tick => cl ← clients s !! i; go tick i cl s
      end
  end.
Definition step (sy sy' : system) : Prop := exists e, play1 e sy = Some sy'.
Definition play (es : list choice) (sy : system) : option system :=
  foldl (fun o e => o ≫= play1 e) (Some sy) es.

(** A new object and the threads that will use it. *)
Definition start (c : C) (ids : list Z) : system :=
  Up (mk_state (mk_lock EMPTY 0) c
        (map (fun i => mk_client (RWLock.mk_thread i Idle 0 0) None None) ids) []).

(** ** The atomic object *)

(** A caller: outside, waiting for its member to happen, or about to return. *)
Inductive caller := Outside | Waiting (m : M) | Happened (x : R).
Record atomic := mk_atomic {
  adata : C; callers : list caller; ahist : list event }.
Inductive astep : atomic -> atomic -> Prop :=
| A_call c cs h i m :
    cs !! i = Some Outside ->
    astep (mk_atomic c cs h) (mk_atomic c (<[i := Waiting m]> cs) (h ++ [Call i m]))
| A_happen c cs h i m x c' :
    cs !! i = Some (Waiting m) -> atomically m c = (x, c') ->
    astep (mk_atomic c cs h) (mk_atomic c' (<[i := Happened x]> cs) h)
| A_return c cs h i x :
    cs !! i = Some (Happened x) ->
    astep (mk_atomic c cs h) (mk_atomic c (<[i := Outside]> cs) (h ++ [Return i x])).
Definition astart (c : C) (n : nat) : atomic := mk_atomic c (replicate n Outside) [].
End Object.
Arguments client C R : clear implicits.
Arguments state M C R : clear implicits.
Arguments system M C R : clear implicits.
Arguments atomic M C R : clear implicits.
Arguments caller M R : clear implicits.
Arguments event M R : clear implicits.
Arguments choice M : clear implicits.


(** ** Simulation *)
Section Simulation.
Context {M C R : Type} `{!Members M C R}.

Lemma members_play_run es sy sy' : play es sy = Some sy' -> run step sy sy'.
Proof.
  revert sy'. induction es as [|e es IH] using rev_ind; intros sy'; unfold play.
  - intros [= <-]. apply run_refl.
  - rewrite foldl_app. cbn [foldl]. destruct (foldl _ _ es) as [s1|] eqn:E; [|discriminate].
    intros H. eapply run_step; [by apply IH|]. by exists e.
Qed.


(** The guards of a thread once the operation it is in is over. *)
Definition after (th : RWLock.thread) : nat * nat :=
  match at_pc th with
  | Idle | WU_store => (wh th, rh th)
  | WL_load | WL_tick | WL_spin _ _ _ | WL_timeout _ _ | WL_inc => (S (wh th), rh th)
  | WU_check | WU_dec => (pred (wh th), rh th)
  | RL_load | RL_add | RL_tick | RL_spin _ _ | RL_cas _ _ _ | RL_timeout _ =>
      (wh th, S (rh th))
  | RU_sub => (wh th, pred (rh th))
  end.
Definition acquiring (th : RWLock.thread) : Prop :=
  match at_pc th with Idle | WU_check | WU_dec | WU_store | RU_sub => False | _ => True end.
Definition outside (th : RWLock.thread) : Prop := wh th = 0%nat /\ rh th = 0%nat.
Definition fits (acc : option guard) (th : RWLock.thread) (b : body C R) : Prop :=
  match acc with
  | None => True
  | Some AReadLock => at_pc th = Idle /\ exists k, b = Read k
  | Some AWriteLock => at_pc th = Idle /\ exists f b', b = Write f b'
  end.
Definition goes (th : RWLock.thread) (b : body C R) : Prop :=
  disciplined true (fst (after th)) (snd (after th)) b (same true 0 0).

(** A thread and the caller of the atomic object it stands for, on container [d]
    and atomic container [ad]. A member happens when it has its outermost guard. *)
Inductive client_rel (d ad : C) : client C R -> caller M R -> Prop :=
| R_outside th :
    at_pc th = Idle -> outside th -> client_rel d ad (mk_client th None None) Outside
| R_start th m :
    at_pc th = Idle -> outside th ->
    client_rel d ad (mk_client th (Some (program m)) None) (Waiting m)
| R_acquiring th m b :
    acquiring th -> outside th -> goes th b ->
    (forall c, alone b c = Ret (atomically m c)) ->
    client_rel d ad (mk_client th (Some b) None) (Waiting m)
| R_inside th b acc x :
    (0 < wh th + rh th)%nat -> goes th b -> fits acc th b ->
    alone b d = Ret (x, if (wh th =? 0)%nat then d else ad) ->
    client_rel d ad (mk_client th (Some b) acc) (Happened x)
| R_over th x :
    at_pc th = Idle \/ at_pc th = WU_store -> outside th ->
    client_rel d ad (mk_client th (Some (Done x)) None) (Happened x).

Definition no_writer (cs : list (client C R)) : Prop :=
  Forall (fun cl => wh (lth cl) = 0%nat) cs.

Record sim_up (s : state M C R) (a : atomic M C R) : Prop := {
  sim_lock : RWLock.inv depth (Running (lk s) (map lth (clients s)));
  sim_hist : ahist a = hist s;
  sim_each : Forall2 (client_rel (data s) (adata a)) (clients s) (callers a);
  sim_data : no_writer (clients s) -> adata a = data s }.
Definition sim (sy : system M C R) (a : atomic M C R) : Prop :=
  match sy with Up s => sim_up s a | Down o => o = Aborted (code THREAD_LOCK_TIMEOUT) end.

Lemma after_step t l th l' th' :
  thread_step t l th = Some (Ret (l', th')) -> after th' = after th.
Proof.
  unfold thread_step, after, ErrorHandler.AssertCrash1, ErrorHandler.ASSERT_CRASH.
  destruct (at_pc th); simpl; intros E; try discriminate E;
    repeat match type of E with
      | context [if ?c then _ else _] => destruct c
      end; try discriminate E; by injection E as <- <-.
Qed.

Lemma acquiring_step t l th l' th' :
  acquiring th -> outside th -> thread_step t l th = Some (Ret (l', th')) ->
  (acquiring th' /\ outside th') \/
  (at_pc th' = Idle /\ (wh th', rh th') = after th /\ (0 < wh th' + rh th')%nat).
Proof.
  intros Ha [Hw Hr]. revert Ha.
  unfold thread_step, after, acquiring, outside, ErrorHandler.AssertCrash1, ErrorHandler.ASSERT_CRASH.
  destruct (at_pc th); simpl; intros Ha E; try done;
    repeat match type of E with
      | context [if ?c then _ else _] => destruct c
      end; try discriminate E; injection E as <- <-; simpl; auto;
    right; split_and!; (done || lia).
Qed.

Lemma inside_step t l th l' th' :
  thread_ok depth th -> (0 < wh th + rh th)%nat ->
  thread_step t l th = Some (Ret (l', th')) ->
  ((wh th' =? 0)%nat = (wh th =? 0)%nat /\ (0 < wh th' + rh th')%nat) \/
  ((at_pc th' = Idle \/ at_pc th' = WU_store) /\ outside th').
Proof.
  intros [_ _ Hpc _] Hin. revert Hpc.
  unfold thread_step, outside, ErrorHandler.AssertCrash1, ErrorHandler.ASSERT_CRASH.
  destruct (at_pc th); simpl; intros Hpc E; try discriminate E;
    repeat match type of E with
      | context [if ?c then _ else _] => destruct c
      end; try discriminate E; injection E as <- <-; simpl;
    destruct (wh th) as [|[|w]], (rh th) as [|[|r]]; simpl in *;
    first [lia | left; split; (done || lia) | right; auto].
Qed.

(** ** Each step is simulated *)

Lemma each_update d ad d' ad' (cs : list (client C R)) (acs : list (caller M R)) i cl ac :
  Forall2 (client_rel d ad) cs acs -> client_rel d' ad' cl ac ->
  (d = d' /\ ad = ad') \/
    (forall j o, cs !! j = Some o -> j <> i -> outside (lth o)) ->
  Forall2 (client_rel d' ad') (<[i := cl]> cs) (<[i := ac]> acs).
Proof.
  intros Hall Hcl Hother. apply Forall2_same_length_lookup.
  split; [rewrite !length_insert; by eapply Forall2_length|].
  intros j x y Hx Hy. apply list_lookup_insert_Some in Hx as [(<- & <- & ?)|[Hne Hx]];
    apply list_lookup_insert_Some in Hy as [(? & <- & ?)|[? Hy]]; try done.
  assert (Hxy : client_rel d ad x y) by (by eapply Forall2_lookup_lr).
  destruct Hother as [[-> ->]|Ho]; [done|].
  specialize (Ho j x Hx (not_eq_sym Hne)).
  destruct Hxy as [| | |? ? ? ? Hin|]; [by constructor..| |by constructor].
  destruct Ho as [Hw Hr]. simpl in *. lia.
Qed.

Lemma lock_moves t l l' (cs : list (client C R)) i cl th' c g :
  RWLock.inv depth (Running l (map lth cs)) -> cs !! i = Some cl ->
  thread_step t l (lth cl) = Some (Ret (l', th')) ->
  RWLock.inv depth (Running l' (map lth (<[i := mk_client th' c g]> cs))).
Proof.
  intros Hinv Hi E. eapply lock_step_inv; [exact Hinv|].
  apply (play1_step depth (EStep i t)). cbn [RWLock.play1].
  change (map lth cs) with (lth <$> cs).
  rewrite list_lookup_fmap, Hi. cbn [fmap option_fmap option_map]. rewrite E.
  change (map lth ?x) with (lth <$> x). rewrite list_fmap_insert.
  rewrite insert_take_drop; [done|]. rewrite length_fmap. by eapply lookup_lt_Some.
Qed.

Lemma lock_calls (l : RWLock.lock) (cs : list (client C R)) i cl k c g :
  RWLock.inv depth (Running l (map lth cs)) -> cs !! i = Some cl ->
  at_pc (lth cl) = Idle -> allowed depth k (lth cl) ->
  RWLock.inv depth (Running l (map lth (<[i := mk_client (goto (entry k) (lth cl)) c g]> cs))).
Proof.
  intros Hinv Hi Hp Ha. eapply lock_step_inv; [exact Hinv|].
  change (map lth ?x) with (lth <$> x). rewrite list_fmap_insert.
  rewrite insert_take_drop by (rewrite length_fmap; by eapply lookup_lt_Some).
  rewrite <- (take_drop_middle (lth <$> cs) i (lth cl)) at 1
    by by rewrite list_lookup_fmap, Hi.
  by apply step_call.
Qed.

(** A client changes outside of the lock. *)
Lemma lock_keeps (l : RWLock.lock) (cs : list (client C R)) i cl c g :
  RWLock.inv depth (Running l (map lth cs)) -> cs !! i = Some cl ->
  RWLock.inv depth (Running l (map lth (<[i := mk_client (lth cl) c g]> cs))).
Proof.
  intros Hinv Hi. change (map lth ?x) with (lth <$> x). rewrite list_fmap_insert.
  by rewrite list_insert_id by by rewrite list_lookup_fmap, Hi.
Qed.

(** Where a thread has a guard, the other threads. *)
Lemma others_outside (l : RWLock.lock) (cs : list (client C R)) i cl :
  RWLock.inv depth (Running l (map lth cs)) -> cs !! i = Some cl ->
  (0 < wh (lth cl))%nat ->
  forall j o, cs !! j = Some o -> j <> i -> outside (lth o).
Proof.
  intros Hinv Hi Hw j o Ho Hne. change (map lth cs) with (lth <$> cs) in Hinv.
  apply (writer_excludes_at depth l (lth <$> cs) j i (lth cl)); try done;
    by rewrite list_lookup_fmap, ?Hi, ?Ho.
Qed.

Lemma others_no_writer (l : RWLock.lock) (cs : list (client C R)) i cl :
  RWLock.inv depth (Running l (map lth cs)) -> cs !! i = Some cl ->
  (0 < wh (lth cl) + rh (lth cl))%nat ->
  forall j o, cs !! j = Some o -> j <> i -> wh (lth o) = 0%nat.
Proof.
  intros Hinv Hi Hw j o Ho Hne. destruct (wh (lth o)) eqn:E; [done|].
  destruct (others_outside l cs j o Hinv Ho) with (j := i) (o := cl) as [? ?];
    [lia|done|congruence|lia].
Qed.

Lemma no_writer_insert (cs : list (client C R)) i cl cl' :
  cs !! i = Some cl -> wh (lth cl) = 0%nat ->
  no_writer (<[i := cl']> cs) -> no_writer cs.
Proof.
  unfold no_writer. rewrite !Forall_lookup. intros Hi Hw H j o Ho.
  destruct (decide (j = i)) as [->|Hne]; [congruence|].
  apply (H j). by rewrite list_lookup_insert_ne.
Qed.

(** The outermost guard is there: the member happens. *)
Lemma happens s a i cl m b l' th' :
  sim_up s a -> clients s !! i = Some cl -> callers a !! i = Some (Waiting m) ->
  outside (lth cl) ->
  RWLock.inv depth (Running l' (map lth (<[i := mk_client th' (Some b) None]> (clients s)))) ->
  (0 < wh th' + rh th')%nat -> goes th' b ->
  (forall c, alone b c = Ret (atomically m c)) ->
  at_pc th' = Idle ->
  exists a', run astep a a' /\
    sim_up (mk_state l' (data s) (<[i := mk_client th' (Some b) None]> (clients s)) (hist s)) a'.
Proof.
  intros [Hl Hh He Hd] Hi Hai [Hw0 Hr0] Hinv Hin Hgo Hb Hp.
  set (cs' := <[i := mk_client th' (Some b) None]> (clients s)) in *.
  assert (Hi' : cs' !! i = Some (mk_client th' (Some b) None)).
  { apply list_lookup_insert_eq. by eapply lookup_lt_Some. }
  assert (Had : adata a = data s).
  { apply Hd, Forall_lookup. intros j o Ho. destruct (decide (j = i)) as [->|Hne]; [congruence|].
    apply (others_no_writer l' cs' i _ Hinv Hi' Hin j); [|done].
    unfold cs'. by rewrite list_lookup_insert_ne. }
  destruct (atomically m (adata a)) as [x c'] eqn:Ex.
  assert (Hba : alone b (data s) = Ret (x, c')) by (by rewrite Hb, <- Had, Ex).
  exists (mk_atomic c' (<[i := Happened x]> (callers a)) (ahist a)).
  split.
  { destruct a as [c0 acs h]. eapply run_step; [apply run_refl|]. by eapply A_happen. }
  assert (Hread : wh th' = 0%nat -> c' = data s).
  { intros Hw. unfold goes, after in Hgo. rewrite Hp, Hw in Hgo. simpl in Hgo.
    by eapply reader_keeps. }
  split; cbn [lk data clients hist adata callers ahist]; [done|done| |].
  - eapply each_update; [exact He| |].
    + apply R_inside; [done|done|done|]. rewrite Hba.
      destruct (Nat.eqb_spec (wh th') 0) as [Hw|_]; [by rewrite (Hread Hw)|done].
    + destruct (Nat.eq_dec (wh th') 0%nat) as [Hw|Hw].
      * left. split; [done|]. rewrite Had. by rewrite (Hread Hw).
      * right. intros j o Ho Hne. eapply (others_outside l' cs' i _ Hinv Hi'); [simpl; lia| |done].
        unfold cs'. rewrite list_lookup_insert_ne by done. exact Ho.
  - intros Hnw. apply Hread. unfold no_writer in Hnw. rewrite Forall_lookup in Hnw.
    apply (Hnw i _ Hi').
Qed.

(** A step that the atomic object does not see. *)
Lemma silent s a i cl cl' ac l' :
  sim_up s a -> clients s !! i = Some cl -> callers a !! i = Some ac ->
  RWLock.inv depth (Running l' (map lth (<[i := cl']> (clients s)))) ->
  client_rel (data s) (adata a) cl' ac ->
  wh (lth cl) = 0%nat \/ wh (lth cl') <> 0%nat \/ adata a = data s ->
  exists a', run astep a a' /\
    sim_up (mk_state l' (data s) (<[i := cl']> (clients s)) (hist s)) a'.
Proof.
  intros [Hl Hh He Hd] Hi Hai Hinv Hr Hdata. exists a. split; [apply run_refl|].
  split; cbn [lk data clients hist]; [done|done| |].
  - rewrite <- (list_insert_id (callers a) i ac Hai).
    eapply each_update; [exact He|exact Hr|by left].
  - intros Hnw. destruct Hdata as [Hw|[Hw|?]]; [|destruct Hw|done].
    + by eapply Hd, no_writer_insert.
    + unfold no_writer in Hnw. rewrite Forall_lookup in Hnw. apply (Hnw i cl').
      apply list_lookup_insert_eq. by eapply lookup_lt_Some.
Qed.

Lemma idle_no_step t l th : at_pc th = Idle -> thread_step t l th = None.
Proof. intros E. unfold thread_step. by rewrite E. Qed.
Lemma no_step_idle t l th : thread_step t l th = None -> at_pc th = Idle.
Proof. unfold thread_step. by destruct (at_pc th). Qed.
Lemma step_returns_or_crashes t l th r :
  thread_step t l th = Some r -> (exists l' th', r = Ret (l', th')) \/ exists e, r = Crash e.
Proof.
  unfold thread_step, ErrorHandler.AssertCrash1, ErrorHandler.ASSERT_CRASH.
  destruct (at_pc th); simpl; intros E; try discriminate E;
    repeat match type of E with
      | context [if ?c then _ else _] => destruct c
      end; injection E as <-; eauto.
Qed.

Lemma client_ok s a i cl :
  sim_up s a -> clients s !! i = Some cl -> thread_ok depth (lth cl).
Proof.
  intros [(Hok & _) _ _ _] Hi. rewrite Forall_lookup in Hok. apply (Hok i).
  change (map lth (clients s)) with (lth <$> clients s).
  by rewrite list_lookup_fmap, Hi.
Qed.

(** A step inside an operation of the lock. *)
Lemma sim_lock_step s a i cl t l' th' :
  sim_up s a -> clients s !! i = Some cl ->
  thread_step t (lk s) (lth cl) = Some (Ret (l', th')) ->
  exists a', run astep a a' /\
    sim_up (mk_state l' (data s) (<[i := mk_client th' (cur cl) (acc cl)]> (clients s)) (hist s)) a'.
Proof.
  intros Hs Hi E. pose proof (client_ok _ _ _ _ Hs Hi) as Hok.
  pose proof (lock_moves _ _ _ _ _ _ _ (cur cl) (acc cl) (sim_lock _ _ Hs) Hi E) as Hinv.
  pose proof (after_step _ _ _ _ _ E) as Haft.
  destruct (Forall2_lookup_l _ _ _ _ _ (sim_each _ _ Hs) Hi) as (ac & Hai & Hr).
  assert (Hpc : at_pc (lth cl) <> Idle).
  { intros Hp. by rewrite (idle_no_step _ _ _ Hp) in E. }
  inversion Hr as [th Hp|th m Hp|th m b Ha Ho Hg Hb|th b ac' x Hin Hg Hf Hb|th x Hp Ho];
    subst; cbn [lth cur acc] in *; try done.
  - destruct (acquiring_step _ _ _ _ _ Ha Ho E) as [[Ha' Ho']|(Hp' & Haf & Hin)].
    + eapply silent; [done..| |left; apply Ho]. apply R_acquiring; auto.
      unfold goes. by rewrite Haft.
    + eapply happens; [done..| |done|done]. unfold goes. by rewrite Haft.
  - assert (ac' = None) as -> by (destruct ac' as [[]|]; [by destruct Hf..|done]).
    destruct (inside_step _ _ _ _ _ Hok Hin E) as [[Hw Hin']|[Hp' Ho']].
    + eapply silent; [done..| |].
      * apply R_inside; [done| |done|by rewrite Hw]. unfold goes. by rewrite Haft.
      * cbn [lth]. destruct (Nat.eqb_spec (wh th) 0); [by left|].
        destruct (Nat.eqb_spec (wh th') 0); [done|by right; left].
    + unfold goes in Hg. rewrite <- Haft in Hg. destruct Ho' as [Hw0 Hr0].
      assert (Hz : after th' = (0%nat, 0%nat)).
      { unfold after. rewrite Hw0, Hr0. by destruct Hp' as [-> | ->]. }
      rewrite Hz in Hg. destruct (released_done _ _ _ _ _ Hg Hb) as [-> Hd'].
      eapply silent; [done..| |].
      * by apply R_over.
      * cbn [lth]. destruct (Nat.eqb_spec (wh th) 0); auto.
  - destruct Hp as [|Hp]; [done|]. unfold thread_step in E. rewrite Hp in E.
    injection E as <- <-. eapply silent; [done..| |left; apply Ho].
    apply R_over; [by left|exact Ho].
Qed.

Lemma lock_crashes t (l : RWLock.lock) (cs : list (client C R)) i cl e :
  RWLock.inv depth (Running l (map lth cs)) -> cs !! i = Some cl ->
  thread_step t l (lth cl) = Some (Crash e) -> e = code THREAD_LOCK_TIMEOUT.
Proof.
  intros Hinv Hi E. change e with (match Crashed e with Crashed e => e | _ => 0 end).
  apply (lock_step_inv depth _ (Crashed e) Hinv). apply (play1_step depth (EStep i t)).
  cbn [RWLock.play1]. change (map lth cs) with (lth <$> cs).
  rewrite list_lookup_fmap, Hi. cbn [fmap option_fmap option_map]. by rewrite E.
Qed.

(** What a thread with a guard finds: no access of another thread that conflicts. *)
Lemma no_race s a i th b g x :
  sim_up s a -> clients s !! i = Some (mk_client th (Some b) None) ->
  callers a !! i = Some (Happened x) ->
  (0 < wh th + rh th)%nat -> (g = AWriteLock -> 0 < wh th)%nat ->
  existsb (conflicts g) (delete i (clients s)) = false.
Proof.
  intros Hs Hi Hai Hin Hg. apply not_true_is_false. intros (o & Ho & Hc)%existsb_exists.
  apply list_elem_of_In, list_elem_of_lookup in Ho as [j Hj].
  assert (exists j', clients s !! j' = Some o /\ j' <> i) as (j' & Hj' & Hne).
  { destruct (decide (j < i)%nat).
    - rewrite list_lookup_delete_lt in Hj by done. exists j. split; [done|lia].
    - rewrite list_lookup_delete_ge in Hj by lia. exists (S j). split; [done|lia]. }
  destruct (Forall2_lookup_l _ _ _ _ _ (sim_each _ _ Hs) Hj') as (ac & _ & Hr).
  assert (Hacc : exists b', acc o = Some b' /\ (0 < wh (lth o) + rh (lth o))%nat /\
            (b' = AWriteLock -> 0 < wh (lth o))%nat).
  { unfold conflicts in Hc. destruct Hr as [| | |th' b' [g'|] y Hin' Hgo Hf _|]; cbn [acc lth] in *;
      try (by destruct g). exists g'. split_and!; [done|done|]. intros ->.
    destruct Hf as [Hp (f & b2 & ->)]. unfold goes in Hgo.
    unfold after in Hgo. rewrite Hp in Hgo. apply Hgo. }
  destruct Hacc as (b' & Eo & Ho1 & Ho2).
  pose proof (others_outside _ _ i _ (sim_lock _ _ Hs) Hi) as Hx.
  pose proof (others_no_writer _ _ i _ (sim_lock _ _ Hs) Hi Hin j' o Hj' Hne) as Hy.
  unfold conflicts in Hc. rewrite Eo in Hc. destruct g.
  - destruct (Hx (Hg eq_refl) j' o Hj' Hne). lia.
  - destruct b'; [|done]. specialize (Ho2 eq_refl). lia.
Qed.

Lemma goes_idle th b :
  at_pc th = Idle -> goes th b -> disciplined true (wh th) (rh th) b (same true 0 0).
Proof. unfold goes, after. by intros ->. Qed.
Lemma idle_goes th b :
  at_pc th = Idle -> disciplined true (wh th) (rh th) b (same true 0 0) -> goes th b.
Proof. unfold goes, after. by intros ->. Qed.

(** The container changes only at the end of a write access. *)
Lemma sim_write_step s a i th f b x c :
  sim_up s a -> clients s !! i = Some (mk_client th (Some (Write f b)) (Some AWriteLock)) ->
  callers a !! i = Some (Happened x) -> at_pc th = Idle -> (0 < wh th)%nat ->
  disciplined true (wh th) (rh th) b (same true 0 0) ->
  alone b c = Ret (x, if (wh th =? 0)%nat then data s else adata a) ->
  exists a', run astep a a' /\
    sim_up (mk_state (lk s) c (<[i := mk_client th (Some b) None]> (clients s)) (hist s)) a'.
Proof.
  intros Hs Hi Hai Hp Hw Hgo Hb. pose proof (sim_lock _ _ Hs) as Hl.
  assert (Hwb : (wh th =? 0)%nat = false) by (apply Nat.eqb_neq; lia).
  exists a. split; [apply run_refl|]. rewrite Hwb in Hb.
  split; cbn [lk data clients hist]; [by apply (lock_keeps _ _ _ _ _ _ Hl Hi)|apply Hs| |].
  - rewrite <- (list_insert_id (callers a) i _ Hai).
    eapply each_update; [apply Hs| |right].
    + apply R_inside; [lia|by apply idle_goes|done|]. by rewrite Hwb.
    + intros j o Ho Hne. by eapply (others_outside _ _ i _ Hl Hi).
  - unfold no_writer. rewrite Forall_lookup. intros Hnw. exfalso.
    specialize (Hnw i _ (list_lookup_insert_eq _ _ _ (lookup_lt_Some _ _ _ Hi))).
    cbn [lth] in Hnw. lia.
Qed.

Lemma fits_access g th b :
  fits g th b ->
  match b with
  | Read _ => g = None \/ g = Some AReadLock
  | Write _ _ => g = None \/ g = Some AWriteLock
  | _ => g = None
  end.
Proof.
  destruct g as [[]|]; [intros (_ & f & b' & ->)|intros (_ & k & ->)|destruct b]; auto.
Qed.

(** The thread has a guard: the next step of its member. *)
Lemma sim_inside_step s a i th b g x t sy :
  sim_up s a -> clients s !! i = Some (mk_client th (Some b) g) ->
  callers a !! i = Some (Happened x) -> at_pc th = Idle ->
  (0 < wh th + rh th)%nat -> goes th b -> fits g th b ->
  alone b (data s) = Ret (x, if (wh th =? 0)%nat then data s else adata a) ->
  go t i (mk_client th (Some b) g) s = Some sy ->
  exists a', run astep a a' /\ sim sy a'.
Proof.
  intros Hs Hi Hai Hp Hin Hgo Hf%fits_access Hb E. pose proof (sim_lock _ _ Hs) as Hl.
  apply goes_idle in Hgo; [|done]. unfold go in E. cbn [lth cur acc] in E.
  rewrite (idle_no_step _ _ _ Hp) in E.
  assert (Hdata : forall th', wh th' = wh th ->
            wh th = 0%nat \/ wh th' <> 0%nat \/ adata a = data s) by (intros; lia).
  assert (Hkeep := fun c g => lock_keeps _ _ _ _ c g Hl Hi).
  destruct b as [g' b|g' b|k|f b|k|y| |]; cbn [disciplined alone] in Hgo, Hb;
    try discriminate Hb; try subst g.
  - injection E as <-. eapply silent; [done..| | |by apply Hdata].
    + apply (lock_calls (lk s) (clients s) i _ (construct g') (Some b) None Hl Hi); [done|].
      destruct g'; simpl; lia.
    + apply R_inside; [done| |done|done]. unfold goes, after. destruct g'; simpl; tauto.
  - injection E as <-. eapply silent; [done..| | |by apply Hdata].
    + apply (lock_calls (lk s) (clients s) i _ (destroy g') (Some b) None Hl Hi); [done|].
      destruct g'; simpl; tauto.
    + apply R_inside; [done| |done|done]. unfold goes, after. destruct g'; simpl; tauto.
  - destruct Hf as [-> | ->]; injection E as <-.
    + unfold begin_access. rewrite (no_race s a i th _ AReadLock x) by done.
      eapply silent; [done..|by apply Hkeep| |by apply Hdata].
      apply R_inside; [done|by apply idle_goes| |done]. split; eauto.
    + eapply silent; [done..|by apply Hkeep| |by apply Hdata].
      apply R_inside; [done| |done|done]. apply idle_goes; [done|apply Hgo].
  - destruct Hgo as [Hw Hgo]. destruct Hf as [-> | ->]; injection E as <-.
    + unfold begin_access. rewrite (no_race s a i th _ AWriteLock x) by done.
      eapply silent; [done..|by apply Hkeep| |by apply Hdata].
      apply R_inside; [done|by apply idle_goes| |done]. split; eauto.
    + destruct (f (data s)) as [c|] eqn:Ef; [|discriminate Hb].
      by eapply sim_write_step.
  - injection E as <-. eapply silent; [done..|by apply Hkeep| |by apply Hdata].
    apply R_inside; [done| |done|done]. apply idle_goes; [done|apply Hgo].
  - destruct Hgo as (_ & ? & ?). lia.
Qed.

(** A thread that has not entered its outermost scope. *)
Lemma sim_first_step s a i th m t sy :
  sim_up s a -> clients s !! i = Some (mk_client th (Some (program m)) None) ->
  callers a !! i = Some (Waiting m) -> at_pc th = Idle -> outside th ->
  go t i (mk_client th (Some (program m)) None) s = Some sy ->
  exists a', run astep a a' /\ sim sy a'.
Proof.
  intros Hs Hi Hai Hp [Hw Hr] E. pose proof (sim_lock _ _ Hs) as Hl.
  pose proof (program_disciplined (R := R) m) as Hd. pose proof (program_alone (R := R) m) as Hb.
  unfold go in E. cbn [lth cur acc] in E. rewrite (idle_no_step _ _ _ Hp) in E.
  destruct (program m) as [g b|g b|k|f b|k|y| |]; cbn [disciplined alone] in Hd, Hb; try lia.
  - injection E as <-. destruct Hd as (_ & _ & Hd). eapply silent; [done..| | |by left].
    + apply (lock_calls (lk s) (clients s) i _ (construct g) (Some b) None Hl Hi); [done|].
      destruct g; simpl; unfold depth; lia.
    + apply R_acquiring; [by destruct g|done| |done]. unfold goes, after.
      destruct g; simpl; rewrite Hw, Hr; tauto.
  - destruct g; lia.
  - by destruct Hd.
  - discriminate (Hb (data s)).
  - discriminate (Hb (data s)).
Qed.

(** Every step is one of the atomic object, some of them none. *)
Lemma sim_step sy sy' a : sim sy a -> step sy sy' -> exists a', run astep a a' /\ sim sy' a'.
Proof.
  intros Hs [e E]. destruct sy as [s|]; [|done]. destruct e as [i m|i t]; cbn [play1] in E;
    (destruct (clients s !! i) as [cl|] eqn:Hi; [|discriminate E]); cbn [mbind option_bind] in E;
    destruct (Forall2_lookup_l _ _ _ _ _ (sim_each _ _ Hs) Hi) as (ac & Hai & Hr).
  - destruct Hr as [th Hp Ho| | | |]; cbn [cur lth] in E; try discriminate E. injection E as <-.
    exists (mk_atomic (adata a) (<[i := Waiting m]> (callers a)) (ahist a ++ [Call i m])).
    split; [destruct a; eapply run_step; [apply run_refl|by apply A_call]|].
    destruct Hs as [Hl Hh He Hd]. split; cbn; [by apply (lock_keeps _ _ _ _ _ _ Hl Hi)|by rewrite Hh| |].
    + eapply each_update; [exact He|by apply R_start|by left].
    + intros Hnw. eapply Hd, no_writer_insert; [exact Hi|apply Ho|exact Hnw].
  - destruct (thread_step t (lk s) (lth cl)) as [r|] eqn:Et.
    + destruct (step_returns_or_crashes _ _ _ _ Et) as [(l' & th' & ->)|[c ->]];
        unfold go in E; rewrite Et in E; injection E as <-.
      * by apply sim_lock_step with t.
      * exists a. split; [apply run_refl|]. simpl. f_equal.
        by apply (lock_crashes t (lk s) (clients s) i cl); [apply Hs| |].
    + pose proof (no_step_idle _ _ _ Et) as Hp.
      destruct Hr as [th _ Ho|th m _ Ho|th m b Ha|th b g x Hin Hg Hf Hb|th x _ Ho]; cbn [lth] in Hp.
      * unfold go in E. cbn [lth cur acc] in E, Et. rewrite Et in E. discriminate E.
      * by eapply sim_first_step.
      * unfold acquiring in Ha. by rewrite Hp in Ha.
      * by eapply sim_inside_step.
      * unfold go in E. cbn [lth cur acc] in E, Et. rewrite Et in E. injection E as <-.
        exists (mk_atomic (adata a) (<[i := Outside]> (callers a)) (ahist a ++ [Return i x])).
        split; [destruct a; eapply run_step; [apply run_refl|by apply A_return]|].
        destruct Hs as [Hl Hh He Hd].
        split; cbn; [by apply (lock_keeps _ _ _ _ _ _ Hl Hi)|by rewrite Hh| |].
        -- eapply each_update; [exact He|by apply R_outside|by left].
        -- intros Hnw. eapply Hd, no_writer_insert; [exact Hi|apply Ho|exact Hnw].
Qed.

Lemma sim_start c ids :
  NoDup ids -> Forall (fun i => 1 <= i < 65536) ids ->
  Z.of_nat (length ids) * Z.of_nat depth < 65536 ->
  sim (start (M := M) (C := C) c ids) (astart c (length ids)).
Proof.
  intros Hn Hf Hl. split; cbn; [|done| |done].
  - rewrite map_map. cbn [lth]. by apply (lock_init_inv depth ids).
  - clear. induction ids; simpl; constructor; [by constructor|done].
Qed.

(** The object is linearizable. *)
Lemma linearizable c ids sy :
  NoDup ids -> Forall (fun i => 1 <= i < 65536) ids ->
  Z.of_nat (length ids) * Z.of_nat depth < 65536 ->
  run step (start (M := M) (C := C) c ids) sy ->
  match sy with
  | Down o => o = Aborted (code THREAD_LOCK_TIMEOUT)
  | Up s => exists a, run astep (astart c (length ids)) a /\ ahist a = hist s /\
      (no_writer (clients s) -> adata a = data s)
  end.
Proof.
  intros Hn Hf Hl Hr.
  destruct (run_simulation _ _ _ (fun s s' a => sim_step s s' a) _ _ Hr _ (sim_start c ids Hn Hf Hl))
    as (a & Ha & Hs).
  destruct sy as [s|o]; [|exact Hs]. exists a. split_and!; [done|apply Hs|apply Hs].
Qed.

End Simulation.

End LockedProgram.
