(* ===== verification/LockedMembers.v ===== *)
(** The members of LockQueue.h, LockStack.h and LockPriorityQueue.h, access by
    access, and what they do: with the lock of RWLock.v each class is linearizable,
    so that the other files may take a member as one function of LockContainers.v. *)
From S2P Require Import Prelude ErrorHandler RWLock LockContainers LockedProgram.
#[local] Open Scope Z_scope.
Import LockedProgram.

(** What a member returns, with its out parameters. *)
Inductive reply (T : Type) : Type :=
| Nothing
| Item (item : T)
| Maybe (item : option T)
| Items (items : list T)
| Cleared (empty : bool) (items : list T)
| Size (n : Z).
Arguments Nothing {T}.
Arguments Item {T} item.
Arguments Maybe {T} item.
Arguments Items {T} items.
Arguments Cleared {T} empty items.
Arguments Size {T} n.

(** ** The bodies the classes share *)
Module Members.
Section Members.
Context {T C : Type} `{Value T, Container T C}.

(** [empty()], [front()] or [top()], and [pop()] of the standard container. *)
Definition empty : body C bool :=
  Read (fun c => mret match remove c with Some _ => false | None => true end).
Definition front : body C T :=
  Read (fun c => match remove c with Some (x, _) => mret x | None => Undefined end).
Definition pop : body C unit := Write (fun c => snd <$> remove c) (mret tt).

Definition Pop : body C T :=
  with_guard AWriteLock (
    e ← empty;
    if e : bool then mret T0
    else front ← front; _ ← pop; mret front).

Definition TryPop : body C (option T) :=
  with_guard AWriteLock (
    e ← empty;
    if e : bool then mret None
    else item ← front; _ ← pop; mret (Some item)).

Definition Front : body C T :=
  with_guard AReadLock (
    e ← empty;
    if e : bool then mret T0 else front).

Definition TryPeek : body C (option T) :=
  with_guard AReadLock (
    e ← empty;
    if e : bool then mret None else item ← front; mret (Some item)).

(** [while (empty() == false) pop()]. *)
Fixpoint Clear_while (rounds : nat) : body C unit :=
  match rounds with
  | O => Exhausted
  | S rounds =>
      e ← empty;
      if e : bool then mret tt else _ ← pop; Clear_while rounds
  end.
Definition Clear : body C unit :=
  with_guard AWriteLock (Rounds (fun c => Clear_while (S (length (order c))))).

(** [while (T element = Pop()) popped.push_back(element)], with [Pop] the member,
    which constructs its own guard inside this one's. *)
Fixpoint ClearTo_while (rounds : nat) (popped : list T) : body C (list T) :=
  match rounds with
  | O => Exhausted
  | S rounds =>
      element ← Pop;
      if truthy element then ClearTo_while rounds (popped ++ [element]) else mret popped
  end.
Definition ClearTo (popped : list T) : body C (list T) :=
  with_guard AWriteLock (Rounds (fun c => ClearTo_while (S (length (order c))) popped)).

(** [Push] and [SetNew] only write. *)
Definition update (f : C -> C) : body C unit :=
  with_guard AWriteLock (Write (fun c => Some (f c)) (mret tt)).

(** ** What they do alone *)
Lemma alone_Pop c : alone Pop c = Ret (Locked.Pop c).
Proof.
  unfold Pop, Locked.Pop. rewrite alone_guard. cbn.
  destruct (remove c) as [[x c']|] eqn:E; cbn; by rewrite ?E; cbn; rewrite ?E.
Qed.
Lemma alone_TryPop c : alone TryPop c = Ret (Locked.TryPop c).
Proof.
  unfold TryPop, Locked.TryPop. rewrite alone_guard. cbn.
  destruct (remove c) as [[x c']|] eqn:E; cbn; by rewrite ?E; cbn; rewrite ?E.
Qed.
Lemma alone_Front c : alone Front c = Ret (Locked.Front c, c).
Proof.
  unfold Front, Locked.Front, Locked.TryPeek. rewrite alone_guard. cbn.
  destruct (remove c) as [[x c']|] eqn:E; cbn; by rewrite ?E.
Qed.
Lemma alone_TryPeek c : alone TryPeek c = Ret (Locked.TryPeek c, c).
Proof.
  unfold TryPeek, Locked.TryPeek. rewrite alone_guard. cbn.
  destruct (remove c) as [[x c']|] eqn:E; cbn; by rewrite ?E.
Qed.
Lemma alone_update f c : alone (update f) c = Ret (tt, f c).
Proof. done. Qed.

Lemma alone_Clear_while n c :
  alone (Clear_while n) c = let! c' := Locked.Clear_loop n c in Ret (tt, c').
Proof.
  revert c. induction n as [|n IH]; intros c; [done|]. cbn [Clear_while Locked.Clear_loop].
  rewrite alone_bind. cbn. destruct (remove c) as [[x c']|] eqn:E; [|done].
  cbn. rewrite E. apply IH.
Qed.
Lemma alone_Clear c : alone Clear c = let! c' := Locked.Clear c in Ret (tt, c').
Proof. unfold Clear. rewrite alone_guard. apply alone_Clear_while. Qed.

Lemma alone_ClearTo_while n popped c :
  alone (ClearTo_while n popped) c = Locked.ClearTo n popped c.
Proof.
  revert popped c. induction n as [|n IH]; intros popped c; [done|].
  cbn [ClearTo_while Locked.ClearTo]. rewrite alone_bind, alone_Pop. cbn.
  destruct (Locked.Pop c) as [x c']. by destruct (truthy x); [apply IH|].
Qed.
Lemma alone_ClearTo popped c :
  alone (ClearTo popped) c = Locked.ClearTo (S (length (order c))) popped c.
Proof. unfold ClearTo. rewrite alone_guard. apply alone_ClearTo_while. Qed.

End Members.

(** ** Their guards *)
Ltac scan :=
  cbn [disciplined mbind mret body_bind body_ret bind empty front pop];
  repeat (match goal with
    | |- context [match remove ?c with _ => _ end] => destruct (remove c) as [[]|]
    | |- _ /\ _ => split
    | |- forall _, _ => intros ?
    end; cbn [disciplined mbind mret body_bind body_ret bind empty front pop]);
  try done; try (unfold depth in *; lia).

Section Guards.
Context {T C : Type} `{Value T, Container T C}.
Lemma disciplined_Pop w : (w < 2)%nat ->
  forall u, (w = 0%nat -> u = false) -> disciplined u w 0 (Pop : body C _) (same true w 0).
Proof. intros Hw u Hu. apply disciplined_guard; [intros; apply Hu; lia|scan..]. Qed.
Lemma disciplined_Pop_outermost : disciplined false 0 0 (Pop : body C _) (same true 0 0).
Proof. apply disciplined_Pop; [lia|done]. Qed.
Lemma disciplined_TryPop : disciplined false 0 0 (TryPop : body C _) (same true 0 0).
Proof. apply disciplined_guard; scan. Qed.
Lemma disciplined_Front : disciplined false 0 0 (Front : body C _) (same true 0 0).
Proof. apply disciplined_guard; scan. Qed.
Lemma disciplined_TryPeek : disciplined false 0 0 (TryPeek : body C _) (same true 0 0).
Proof. apply disciplined_guard; scan. Qed.
Lemma disciplined_update (f : C -> C) : disciplined false 0 0 (update f) (same true 0 0).
Proof. apply disciplined_guard; scan. Qed.
Lemma disciplined_Clear : disciplined false 0 0 (Clear : body C _) (same true 0 0).
Proof.
  apply disciplined_guard; scan. generalize (S (length (order c))) as n.
  induction n as [|n IH]; cbn [Clear_while]; scan.
Qed.
Lemma disciplined_ClearTo popped : disciplined false 0 0 (ClearTo popped : body C (list T)) (same true 0 0).
Proof.
  apply disciplined_guard; scan. generalize (S (length (order c))) as n.
  intros n. revert popped. induction n as [|n IH]; intros popped; [done|].
  cbn [ClearTo_while]. apply disciplined_bind.
  eapply disciplined_mono; [|apply (disciplined_Pop 1); [lia|done]].
  intros u w r x (-> & -> & ->). destruct (truthy x); [apply IH|done].
Qed.
End Guards.
End Members.

Create HintDb members discriminated.
#[export] Hint Resolve Members.disciplined_TryPop Members.disciplined_Front
  Members.disciplined_TryPeek Members.disciplined_Clear Members.disciplined_ClearTo
  Members.disciplined_update Members.disciplined_Pop_outermost : members.

(** A type whose [T()] is false, which [Clear(popped)] relies on to stop. *)
Class FalseDefault (T : Type) `{Value T} := false_default : truthy T0 = false.
#[export] Instance option_FalseDefault {A} : FalseDefault (option A) := eq_refl.
#[export] Instance Z_FalseDefault : FalseDefault Z := eq_refl.

(** A member whose result is wrapped. *)
Definition give {C A R} (f : A -> R) (b : body C A) : body C R := x ← b; mret (f x).

Lemma disciplined_give {C A R} (f : A -> R) (b : body C A) :
  disciplined false 0 0 b (same true 0 0) -> disciplined false 0 0 (give f b) (same true 0 0).
Proof.
  intros Hb. apply disciplined_bind. eapply disciplined_mono; [|exact Hb].
  by intros u w r x (-> & -> & ->).
Qed.
Lemma alone_give {C A R} (f : A -> R) (b : body C A) c x c' :
  alone b c = Ret (x, c') -> alone (give f b) c = Ret (f x, c').
Proof. intros E. unfold give. by rewrite alone_bind, E. Qed.

(** The value of an outcome that is known to be one. *)
Definition value {A} (d : A) (o : outcome A) : A := match o with Ret a => a | _ => d end.

Section Give.
Context {T C : Type} `{Value T, Container T C}.
Lemma give_Pop c :
  alone (give Item Members.Pop) c = Ret (let '(x, c) := Locked.Pop c in (Item x, c)).
Proof. destruct (Locked.Pop c) eqn:E. apply alone_give. by rewrite Members.alone_Pop, E. Qed.
Lemma give_TryPop c :
  alone (give Maybe Members.TryPop) c = Ret (let '(x, c) := Locked.TryPop c in (Maybe x, c)).
Proof. destruct (Locked.TryPop c) eqn:E. apply alone_give. by rewrite Members.alone_TryPop, E. Qed.
Lemma give_Front c : alone (give Item Members.Front) c = Ret (Item (Locked.Front c), c).
Proof. apply alone_give, Members.alone_Front. Qed.
Lemma give_TryPeek c : alone (give Maybe Members.TryPeek) c = Ret (Maybe (Locked.TryPeek c), c).
Proof. apply alone_give, Members.alone_TryPeek. Qed.
Lemma give_Clear c :
  alone (give (fun _ => @Nothing T) Members.Clear) c = Ret (Nothing, value c (Locked.Clear c)).
Proof.
  destruct (Locked.Clear_ok c) as (c' & E & _). rewrite E.
  apply (alone_give (fun _ : unit => Nothing) Members.Clear c tt c').
  by rewrite Members.alone_Clear, E.
Qed.
Lemma give_ClearTo `{!FalseDefault T} popped c :
  alone (give Items (Members.ClearTo popped)) c =
  Ret (let '(items, c) := value (popped, c) (Locked.ClearTo (S (length (order c))) popped c) in
       (Items items, c)).
Proof.
  destruct (Locked.ClearTo_ok c (S (length (order c))) popped false_default ltac:(lia))
    as (c' & E & _). rewrite E. apply alone_give. by rewrite Members.alone_ClearTo.
Qed.
End Give.
#[export] Hint Resolve give_Pop give_TryPop give_Front give_TryPeek give_Clear
  give_ClearTo : members.

(** ** LockQueue *)
Module QueueMembers.
Section Queue.
Context {T : Type} `{!Value T}.
Inductive call :=
| Push (item : T) | Pop | TryPop | Front | TryPeek | Clear | ClearTo (popped : list T) | SetNew.

Definition program (m : call) : body (LockQueue.t T) (reply T) :=
  match m with
  | Push item => give (fun _ => Nothing) (Members.update (LockQueue.Push item))
  | Pop => give Item Members.Pop
  | TryPop => give Maybe Members.TryPop
  | Front => give Item Members.Front
  | TryPeek => give Maybe Members.TryPeek
  | Clear => give (fun _ => Nothing) Members.Clear
  | ClearTo popped => give Items (Members.ClearTo popped)
  | SetNew => give (fun _ => Nothing) (Members.update LockQueue.SetNew)
  end.

(** The members as LockContainers.v has them. *)
Definition atomically (m : call) (q : LockQueue.t T) : reply T * LockQueue.t T :=
  match m with
  | Push item => (Nothing, LockQueue.Push item q)
  | Pop => let '(x, q) := Locked.Pop q in (Item x, q)
  | TryPop => let '(x, q) := Locked.TryPop q in (Maybe x, q)
  | Front => (Item (Locked.Front q), q)
  | TryPeek => (Maybe (Locked.TryPeek q), q)
  | Clear => (Nothing, value q (Locked.Clear q))
  | ClearTo popped =>
      let '(items, q) := value (popped, q) (Locked.ClearTo (S (length (order q))) popped q) in
      (Items items, q)
  | SetNew => (Nothing, LockQueue.SetNew q)
  end.

#[global, refine] Instance queue_members `{!FalseDefault T} :
    Members call (LockQueue.t T) (reply T) :=
  {| LockedProgram.program := program; LockedProgram.atomically := atomically |}.
Proof.
  - intros []; apply disciplined_give; auto with members.
  - intros [] q; cbn [program atomically]; auto with members.
Defined.
End Queue.
Arguments call T : clear implicits.
End QueueMembers.

(** ** LockStack: the members that C++ accepts *)
Module StackMembers.
Section Stack.
Context {T : Type} `{!Value T}.
Inductive call := Push (item : T) | TryPop | TryPeek | Clear | SetNew.

Definition program (m : call) : body (LockStack.t T) (reply T) :=
  match m with
  | Push item => give (fun _ => Nothing) (Members.update (LockStack.Push item))
  | TryPop => give Maybe Members.TryPop
  | TryPeek => give Maybe Members.TryPeek
  | Clear => give (fun _ => Nothing) Members.Clear
  | SetNew => give (fun _ => Nothing) (Members.update LockStack.SetNew)
  end.
Definition atomically (m : call) (s : LockStack.t T) : reply T * LockStack.t T :=
  match m with
  | Push item => (Nothing, LockStack.Push item s)
  | TryPop => let '(x, s) := LockStack.TryPop s in (Maybe x, s)
  | TryPeek => (Maybe (LockStack.TryPeek s), s)
  | Clear => (Nothing, value s (LockStack.Clear s))
  | SetNew => (Nothing, LockStack.SetNew s)
  end.

#[global, refine] Instance stack_members : Members call (LockStack.t T) (reply T) :=
  {| LockedProgram.program := program; LockedProgram.atomically := atomically |}.
Proof.
  - intros []; apply disciplined_give; auto with members.
  - intros [] s; cbn [program atomically];
      unfold LockStack.TryPop, LockStack.TryPeek, LockStack.Clear; auto with members.
Defined.
End Stack.
Arguments call T : clear implicits.
End StackMembers.

(** ** LockPriorityQueue *)
Module PriorityQueueMembers.
Section PriorityQueue.
Context {T Q : Type} {key : T -> Z} `{!Value T, !PriorityQueue T Q key}.
Implicit Types q : Q.

(** [TryPop(item, condition)]. *)
Definition TryPopIf_body (condition : T -> bool) : body Q (option T) :=
  with_guard AWriteLock (
    e ← Members.empty;
    if e : bool then mret None
    else
      top ← Members.front;
      if condition top then item ← Members.front; _ ← Members.pop; mret (Some item)
      else mret None).

Fixpoint PopAll_while (rounds : nat) (condition : T -> bool) (items : list T)
  : body Q (list T) :=
  match rounds with
  | O => Exhausted
  | S rounds =>
      e ← Members.empty;
      if e : bool then mret items
      else
        item ← Members.front;
        if condition item
        then _ ← Members.pop; PopAll_while rounds condition (items ++ [item])
        else mret items
  end.
Definition PopAll_body (condition : T -> bool) (items : list T) : body Q (bool * list T) :=
  with_guard AWriteLock (
    items ← Rounds (fun q => PopAll_while (S (length (order q))) condition items);
    e ← Members.empty;
    mret (e, items)).

Definition size_body : body Q Z :=
  with_guard AReadLock (Read (fun q => mret (LockPriorityQueue.size q))).

Inductive call :=
| Push (item : T) | Pop | TryPopIf (condition : T -> bool)
| PopAll (items : list T) (condition : T -> bool)
| TryPeek | Clear | ClearTo (elements : list T) | SetNew | size.

Definition program (m : call) : body Q (reply T) :=
  match m with
  | Push item => give (fun _ => Nothing) (Members.update (LockPriorityQueue.Push item))
  | Pop => give Item Members.Pop
  | TryPopIf condition => give Maybe (TryPopIf_body condition)
  | PopAll items condition =>
      give (fun r => Cleared (fst r) (snd r)) (PopAll_body condition items)
  | TryPeek => give Maybe Members.TryPeek
  | Clear => give (fun _ => Nothing) Members.Clear
  | ClearTo elements => give Items (Members.ClearTo elements)
  | SetNew => give (fun _ => Nothing) (Members.update LockPriorityQueue.SetNew)
  | size => give Size size_body
  end.

Definition atomically (m : call) (q : Q) : reply T * Q :=
  match m with
  | Push item => (Nothing, LockPriorityQueue.Push item q)
  | Pop => let '(x, q) := LockPriorityQueue.Pop q in (Item x, q)
  | TryPopIf condition => let '(x, q) := LockPriorityQueue.TryPopIf condition q in (Maybe x, q)
  | PopAll items condition =>
      let '(items, q) := value (items, q) (Locked.PopAll (S (length (order q))) condition items q) in
      (Cleared (match pq_top q with None => true | Some _ => false end) items, q)
  | TryPeek => (Maybe (LockPriorityQueue.TryPeek q), q)
  | Clear => (Nothing, value q (LockPriorityQueue.Clear q))
  | ClearTo elements =>
      let '(items, q) := value (elements, q) (Locked.ClearTo (S (length (order q))) elements q) in
      (Items items, q)
  | SetNew => (Nothing, LockPriorityQueue.SetNew q)
  | size => (Size (LockPriorityQueue.size q), q)
  end.

Lemma alone_PopAll_while n condition items q :
  alone (PopAll_while n condition items) q = Locked.PopAll n condition items q.
Proof.
  revert items q. induction n as [|n IH]; intros items q; [done|].
  cbn [PopAll_while Locked.PopAll]. rewrite alone_bind. cbn -[remove].
  destruct (remove q) as [[x q']|] eqn:E; [|done]. cbn -[remove]. rewrite E. cbn -[remove].
  destruct (condition x); [|done]. cbn -[remove]. rewrite E. apply IH.
Qed.

Lemma give_PopAll condition items q :
  alone (give (fun r => Cleared (fst r) (snd r)) (PopAll_body condition items)) q =
  Ret (atomically (PopAll items condition) q).
Proof.
  destruct (Locked.PopAll_ok condition q (S (length (order q))) items ltac:(lia)) as (q' & E & _).
  cbn [atomically]. rewrite E. cbn [value].
  apply (alone_give (fun r : bool * list T => Cleared (fst r) (snd r)) _ _ (_, _)).
  unfold PopAll_body. rewrite alone_guard, alone_bind. cbn [alone].
  rewrite alone_PopAll_while, E. cbn. unfold LockPriorityQueue.take_top.
  by destruct (pq_top q').
Qed.

Lemma give_TryPopIf condition q :
  alone (give Maybe (TryPopIf_body condition)) q = Ret (atomically (TryPopIf condition) q).
Proof.
  cbn [atomically]. destruct (LockPriorityQueue.TryPopIf condition q) as [x q'] eqn:E.
  apply alone_give. unfold TryPopIf_body. rewrite alone_guard. revert E.
  unfold LockPriorityQueue.TryPopIf. cbn. unfold LockPriorityQueue.take_top.
  destruct (pq_top q) as [top|] eqn:Et; cbn; [|by intros [= <- <-]].
  rewrite Et. cbn. destruct (condition top); cbn; rewrite ?Et; cbn; rewrite ?Et; by intros [= <- <-].
Qed.

Lemma disciplined_PopAll condition items :
  disciplined false 0 0 (PopAll_body condition items) (same true 0 0).
Proof.
  apply disciplined_guard; [done|unfold depth; lia|]. split; [done|]. apply disciplined_bind.
  split; [lia|]. intros q. generalize (S (length (order q))) as n. intros n. revert items.
  induction n as [|n IH]; intros items; [done|]. cbn [PopAll_while].
  Members.scan. destruct (condition _); Members.scan.
Qed.
Lemma disciplined_TryPopIf condition :
  disciplined false 0 0 (TryPopIf_body condition) (same true 0 0).
Proof. apply disciplined_guard; Members.scan. destruct (condition _); Members.scan. Qed.
Lemma disciplined_size : disciplined false 0 0 size_body (same true 0 0).
Proof. apply disciplined_guard; Members.scan. Qed.
#[local] Hint Resolve disciplined_PopAll disciplined_TryPopIf disciplined_size
  give_PopAll give_TryPopIf : members.

#[global, refine] Instance priority_queue_members `{!FalseDefault T} :
    Members call Q (reply T) :=
  {| LockedProgram.program := program; LockedProgram.atomically := atomically |}.
Proof.
  - intros []; apply disciplined_give; auto with members.
  - intros [] q; cbn [program]; auto with members; cbn [atomically];
      unfold LockPriorityQueue.Pop, LockPriorityQueue.TryPeek, LockPriorityQueue.Clear;
      auto with members.
Defined.
End PriorityQueue.
Arguments call T : clear implicits.
End PriorityQueueMembers.

(** ** Linearizability of the three classes *)

(** C2: A LockQueue shared by threads with distinct ids in 1..65535 whose members run
    on its read-write lock, interleaved in every way: no two accesses to the standard
    queue race, it is never used outside its contract, no loop runs out, the only stop
    is THREAD_LOCK_TIMEOUT, and the calls and results the threads see are those of
    an atomic queue that performs each member in one step between its call and its
    return. *)
Theorem queue_linearizable {T} `{FalseDefault T} ids sy :
  NoDup ids -> Forall (fun i => 1 <= i < 65536) ids ->
  Z.of_nat (length ids) * Z.of_nat depth < 65536 ->
  run step (start (M := QueueMembers.call T) (C := LockQueue.t T) (R := reply T) LockQueue.new ids) sy ->
  match sy with
  | Down o => o = Aborted (code THREAD_LOCK_TIMEOUT)
  | Up s => exists a, run astep (astart (C := LockQueue.t T) LockQueue.new (length ids)) a /\ ahist a = hist s /\
      (no_writer (clients s) -> adata a = data s)
  end.
Proof. apply linearizable. Qed.

(** A LockStack is linearizable in the same sense. *)
Theorem stack_linearizable {T} `{Value T} ids sy :
  NoDup ids -> Forall (fun i => 1 <= i < 65536) ids ->
  Z.of_nat (length ids) * Z.of_nat depth < 65536 ->
  run step (start (M := StackMembers.call T) (C := LockStack.t T) (R := reply T) LockStack.new ids) sy ->
  match sy with
  | Down o => o = Aborted (code THREAD_LOCK_TIMEOUT)
  | Up s => exists a, run astep (astart (C := LockStack.t T) LockStack.new (length ids)) a /\ ahist a = hist s /\
      (no_writer (clients s) -> adata a = data s)
  end.
Proof. apply linearizable. Qed.

(** C4: A LockPriorityQueue is linearizable in the same sense, [PopAll] and [TryPop]
    with their conditions included: what the threads see is an atomic priority queue. *)
Theorem priority_queue_linearizable {T Q} {key : T -> Z}
    `{FalseDefault T, !PriorityQueue T Q key} ids sy :
  NoDup ids -> Forall (fun i => 1 <= i < 65536) ids ->
  Z.of_nat (length ids) * Z.of_nat depth < 65536 ->
  run step (start (M := PriorityQueueMembers.call T) (C := Q) (R := reply T) pq_new ids) sy ->
  match sy with
  | Down o => o = Aborted (code THREAD_LOCK_TIMEOUT)
  | Up s => exists a, run astep (astart (C := Q) pq_new (length ids)) a /\ ahist a = hist s /\
      (no_writer (clients s) -> adata a = data s)
  end.
Proof. apply linearizable. Qed.


Module MemberSamples.
#[local] Instance sample_pq : PriorityQueue Z (list Z) id := list_pq id.

(** What the calls of a run returned. *)
Definition returned {M C R} (o : option (system M C R)) : list (nat * R) :=
  match o with
  | Some (Up s) =>
      omap (fun e => match e with Return i x => Some (i, x) | Call _ _ => None end) (hist s)
  | _ => []
  end.
Lemma returned_up {M C R} (o : option (system M C R)) :
  returned o <> [] -> exists s, o = Some (Up s).
Proof. destruct o as [[s|]|]; try done. eauto. Qed.

Definition interleaved {M} n m : list (choice M) :=
  concat (replicate n [Go 0%nat 0; Go 1%nat 0]) ++ replicate m (Go 1%nat 0).
Definition queue_run : option (system (QueueMembers.call Z) (LockQueue.t Z) (reply Z)) :=
  play ([Enter 0%nat (QueueMembers.Push 5); Enter 1%nat QueueMembers.TryPop] ++ interleaved 12 11)
    (start LockQueue.new [1; 2]).
Definition pq_run : option (system (PriorityQueueMembers.call Z) (list Z) (reply Z)) :=
  play (Members0 := PriorityQueueMembers.priority_queue_members (key := id))
    ([Enter 0%nat (PriorityQueueMembers.Push 5); Enter 1%nat PriorityQueueMembers.TryPeek] ++
        interleaved 12 6 ++
        Enter 0%nat (PriorityQueueMembers.PopAll [] (fun x => 4 <=? x)) :: replicate 21 (Go 0%nat 0))
    (start [] [1; 2]).

Lemma queue_run_up : exists s, queue_run = Some (Up s).
Proof. apply returned_up. vm_compute. discriminate. Qed.
Lemma queue_run_steps sy : queue_run = Some sy -> run step (start LockQueue.new [1; 2]) sy.
Proof. apply members_play_run. Qed.
Lemma pq_run_up : exists s, pq_run = Some (Up s).
Proof. apply returned_up. vm_compute. discriminate. Qed.
Lemma pq_run_steps sy :
  pq_run = Some sy ->
  run (step (Members0 := PriorityQueueMembers.priority_queue_members (key := id)))
    (start [] [1; 2]) sy.
Proof. apply members_play_run. Qed.

(** One thread pushes while another, which spins on the lock meanwhile, pops. *)
Lemma queue_linearizable_witness :
  returned queue_run = [(0%nat, Nothing); (1%nat, Maybe (Some 5))] /\
  exists s a, queue_run = Some (Up s) /\
    run astep (astart (C := LockQueue.t Z) LockQueue.new 2) a /\ ahist a = hist s.
Proof.
  split; [vm_compute; reflexivity|].
  destruct queue_run_up as [s E].
  destruct (queue_linearizable (T := Z) [1; 2] (Up s)) as (a & Ha & Hh & _).
  - exact (bool_decide_unpack (NoDup [1; 2]) I).
  - repeat constructor; lia.
  - vm_compute; reflexivity.
  - exact (queue_run_steps _ E).
  - exists s, a. split; [exact E|]. split; [exact Ha|exact Hh].
Defined.

(** One thread pushes and pops all while another peeks. *)
Lemma priority_queue_linearizable_witness :
  returned pq_run =
    [(0%nat, Nothing); (1%nat, Maybe (Some 5)); (0%nat, Cleared true [5])] /\
  exists s a, pq_run = Some (Up s) /\
    run astep (astart (M := PriorityQueueMembers.call Z) (C := list Z) [] 2) a /\ ahist a = hist s.
Proof.
  split; [vm_compute; reflexivity|].
  destruct pq_run_up as [s E].
  destruct (priority_queue_linearizable (T := Z) (Q := list Z) (key := id) [1; 2] (Up s))
    as (a & Ha & Hh & _).
  - exact (bool_decide_unpack (NoDup [1; 2]) I).
  - repeat constructor; lia.
  - vm_compute; reflexivity.
  - exact (pq_run_steps _ E).
  - exists s, a. split; [exact E|]. split; [exact Ha|exact Hh].
Defined.
End MemberSamples.
