(* ===== verification/LockedProgress.v ===== *)
(** Members of the locked containers return: a thread that is in a member while the
    others are outside of the lock finishes it, in any state the object can reach. *)
From S2P Require Import Prelude ErrorHandler RWLock LockContainers LockedProgram LockedMembers.
#[local] Open Scope Z_scope.
Import RWLock LockedProgram.

Section Progress.
Context {M C R : Type} `{!Members M C R}.
Implicit Types (s : state M C R) (a : atomic M C R).

(** A thread outside of the lock and of its operations. *)
Definition away (th : RWLock.thread) : Prop := at_pc th = Idle /\ outside th.
(** Every thread but [i] is. *)
Definition quiet (i : nat) s : Prop :=
  forall j o, clients s !! j = Some o -> j <> i -> away (lth o).

(** [n] steps of a thread inside the lock. *)
Fixpoint lock_steps (n : nat) (t : Z) (l : RWLock.lock) (th : RWLock.thread)
  : option (RWLock.lock * RWLock.thread) :=
  match n with
  | O => Some (l, th)
  | S n =>
      match thread_step t l th with
      | Some (Ret (l, th)) => lock_steps n t l th
      | _ => None
      end
  end.

Lemma members_play_cons e es (sy : system M C R) sy1 :
  LockedProgram.play1 e sy = Some sy1 -> LockedProgram.play (e :: es) sy = LockedProgram.play es sy1.
Proof. intros E. unfold LockedProgram.play. cbn [foldl]. by rewrite <- E. Qed.

Lemma members_play_app es1 es2 (sy sy1 : system M C R) :
  LockedProgram.play es1 sy = Some sy1 ->
  LockedProgram.play (es1 ++ es2) sy = LockedProgram.play es2 sy1.
Proof. intros E. unfold LockedProgram.play in *. by rewrite foldl_app, E. Qed.

(** They are steps of the object. *)
Lemma play_lock_steps n t i b : forall s th l' th',
  clients s !! i = Some (mk_client th b None) -> lock_steps n t (lk s) th = Some (l', th') ->
  LockedProgram.play (replicate n (Go i t)) (Up s) =
    Some (Up (mk_state l' (data s) (<[i := mk_client th' b None]> (clients s)) (hist s))).
Proof.
  induction n as [|n IH]; intros s th l' th' Hi E; cbn [lock_steps] in E.
  - injection E as <- <-. rewrite list_insert_id by done. by destruct s.
  - destruct (thread_step t (lk s) th) as [[[l1 th1]| | |]|] eqn:Et; try discriminate E.
    cbn [replicate]. erewrite members_play_cons.
    2: { cbn [LockedProgram.play1]. rewrite Hi. cbn [mbind option_bind]. unfold go. cbn [lth cur acc].
         rewrite Et. reflexivity. }
    rewrite (IH _ th1 l' th'); cbn [clients lk data hist]; [|by apply list_lookup_insert_eq; eapply lookup_lt_Some|done].
    by rewrite list_insert_insert_eq.
Qed.

(** What the word is when only this thread uses the lock. *)
Definition own_word (l : RWLock.lock) (th : RWLock.thread) : Prop :=
  _lockFlag l = (if (wh th =? 0)%nat then 0 else TLS_Id th * 65536) + Z.of_nat (rh th) /\
  _writeCount l = Z.of_nat (wh th) /\ 1 <= TLS_Id th < 65536 /\ (wh th + rh th <= 2)%nat.

Lemma total_rh_away l : Forall away l -> total_rh l = 0.
Proof.
  induction 1 as [|o l [_ [_ E]] _ IH]; [done|].
  change (Z.of_nat (rh o) + total_rh l = 0). rewrite E. lia.
Qed.
Lemma away_not_owner o : away o -> ~ owner o.
Proof. intros [Hp [Hw _]]. unfold owner. rewrite Hp. naive_solver lia. Qed.

Lemma own_word_split l th1 th th2 :
  word_ok l (th1 ++ th :: th2) -> Forall away (th1 ++ th2) -> at_pc th = Idle ->
  1 <= TLS_Id th < 65536 -> (wh th + rh th <= 2)%nat -> own_word l th.
Proof.
  intros Hw Ha Hp Hid Hd. pose proof (total_rh_away _ Ha) as Htot.
  rewrite Forall_forall in Ha. unfold own_word.
  destruct Hw as [Hb Hf Hc|p1 o p2 E Ho _ Hf Hc].
  - assert (wh th = 0%nat) as Ez.
    { apply Forall_app in Hb as [_ [Hb _]%Forall_cons]. destruct (wh th) eqn:Ew; [done|].
      destruct Hb. left. lia. }
    rewrite Ez, Hf, Hc. rewrite total_rh_app in *. cbn [Nat.eqb total_rh foldr].
    change (foldr _ 0 th2) with (total_rh th2). split_and!; lia.
  - assert (Hin : o ∈ th1 ++ th2 -> False) by (intros Hin; by destruct (away_not_owner o (Ha o Hin))).
    apply app_cons_cases in E as [(_ & <- & _)|[(m & -> & ->)|(m & -> & ->)]];
      [|destruct Hin; rewrite !elem_of_app, ?elem_of_cons; auto..].
    destruct Ho as [Ho|Ho]; [|rewrite Hp in Ho; naive_solver].
    destruct (Nat.eqb_spec (wh th) 0); [lia|]. by split_and!; try lia.
Qed.

Lemma quiet_word s a i cl :
  sim_up s a -> quiet i s -> clients s !! i = Some cl -> at_pc (lth cl) = Idle ->
  own_word (lk s) (lth cl).
Proof.
  intros Hs Hq Hi Hp. destruct (client_ok s a i cl Hs Hi) as [Hid Hd _ _].
  destruct (sim_lock _ _ Hs) as (_ & _ & _ & Hw).
  change (map lth (clients s)) with (lth <$> clients s) in Hw.
  assert (Hth : (lth <$> clients s) !! i = Some (lth cl)) by by rewrite list_lookup_fmap, Hi.
  rewrite <- (take_drop_middle _ i _ Hth) in Hw. eapply own_word_split; try done.
  apply Forall_forall. intros o [Ho|Ho]%elem_of_app; apply list_elem_of_lookup in Ho as [j Hj].
  - apply lookup_take_Some in Hj as [Hj Hlt]. rewrite list_lookup_fmap in Hj.
    destruct (clients s !! j) as [c|] eqn:Ec; [|done]. injection Hj as <-. apply (Hq j c Ec). lia.
  - rewrite lookup_drop, list_lookup_fmap in Hj.
    destruct (clients s !! (S i + j)%nat) as [c|] eqn:Ec; [|done]. injection Hj as <-.
    apply (Hq _ c Ec). lia.
Qed.

(** ** The operations of the lock end *)
Lemma acquire_ends t g l th :
  own_word l th -> (g = AWriteLock -> rh th = 0%nat) ->
  exists n l' th', lock_steps n t l (goto (entry (construct g)) th) = Some (l', th') /\
    at_pc th' = Idle /\ (wh th', rh th') = after (goto (entry (construct g)) th).
Proof.
  destruct l as [f c]. intros (Hf & Hc & Hid & Hd) Hg. cbn [_lockFlag _writeCount] in Hf, Hc.
  destruct g; (destruct (Nat.eqb_spec (wh th) 0) as [Ez|Hne]; [eexists 4%nat, _, _|eexists 2%nat, _, _]).
  - assert (f = 0) as -> by (rewrite Hf, (Hg eq_refl); done).
    cbn -[_get_lock_thread_id]. change (_get_lock_thread_id 0) with 0.
    destruct (Z.eqb_spec (TLS_Id th) 0); [lia|]. by cbn.
  - assert (Ht : _get_lock_thread_id f = TLS_Id th) by (rewrite Hf; apply thread_id_word; lia).
    cbn -[_get_lock_thread_id]. rewrite Ht, Z.eqb_refl. by cbn.
  - assert (Ht : _get_lock_thread_id f = 0) by (rewrite Hf; apply (thread_id_word 0); lia).
    assert (Hr : _get_read_lock_count f = f).
    { rewrite Hf at 1. rewrite (read_count_word 0) by lia. lia. }
    cbn -[_get_lock_thread_id _get_read_lock_count]. rewrite Ht.
    destruct (Z.eqb_spec (TLS_Id th) 0); [lia|].
    cbn -[_get_read_lock_count]. rewrite Hr, Z.eqb_refl. by cbn.
  - assert (Ht : _get_lock_thread_id f = TLS_Id th) by (rewrite Hf; apply thread_id_word; lia).
    cbn -[_get_lock_thread_id]. rewrite Ht, Z.eqb_refl. by cbn.
Qed.

Lemma release_ends t g l th :
  own_word l th ->
  match g with AWriteLock => rh th = 0%nat /\ (0 < wh th)%nat | AReadLock => (0 < rh th)%nat end ->
  exists n l' th', lock_steps n t l (goto (entry (destroy g)) th) = Some (l', th') /\
    at_pc th' = Idle /\ (wh th', rh th') = after (goto (entry (destroy g)) th).
Proof.
  intros (Hf & Hc & Hid & Hd). destruct g.
  - intros [Hr Hw]. destruct (Nat.eqb_spec (wh th) 0); [lia|]. rewrite Hr in Hf.
    assert (Hcount : u16 (_writeCount l - 1) = Z.of_nat (pred (wh th))) by (rewrite u16_small; lia).
    assert (Hrc : _get_read_lock_count (_lockFlag l) = 0) by (rewrite Hf, read_count_word; lia).
    destruct (Z.eqb_spec (Z.of_nat (pred (wh th))) 0) as [Ez|Hne].
    + eexists 3%nat, _, _. cbn [lock_steps destroy entry goto thread_step at_pc]. rewrite Hrc. cbn.
      rewrite Hcount, Ez. cbn. done.
    + eexists 2%nat, _, _. cbn [lock_steps destroy entry goto thread_step at_pc]. rewrite Hrc. cbn.
      rewrite Hcount. destruct (Z.eqb_spec (Z.of_nat (pred (wh th))) 0); [done|]. done.
  - intros Hr. eexists 1%nat, _, _. cbn [lock_steps destroy entry goto thread_step at_pc].
    assert (Hrc : _get_read_lock_count (_lockFlag l) = Z.of_nat (rh th)).
    { rewrite Hf. destruct (wh th =? 0)%nat; [change 0 with (0 * 65536) at 1|];
        rewrite read_count_word; lia. }
    rewrite Hrc. destruct (Z.eqb_spec (Z.of_nat (rh th)) 0); [lia|]. done.
Qed.
(** ** The member ends *)

(** The state after steps of thread [i] alone. *)
Definition reaches (i : nat) (t : Z) s s' : Prop :=
  exists n, LockedProgram.play (replicate n (Go i t)) (Up s) = Some (Up s').

Lemma reaches_trans i t s1 s2 s3 : reaches i t s1 s2 -> reaches i t s2 s3 -> reaches i t s1 s3.
Proof.
  intros [n1 E1] [n2 E2]. exists (n1 + n2)%nat. rewrite replicate_add. by rewrite (members_play_app _ _ _ _ E1).
Qed.

Lemma reaches_go i t s s' cl :
  clients s !! i = Some cl -> go t i cl s = Some (Up s') -> reaches i t s s'.
Proof.
  intros Hi E. exists 1%nat. cbn [replicate]. unfold LockedProgram.play. cbn [foldl mbind option_bind play1].
  by rewrite Hi.
Qed.

Lemma reaches_sim i t s s' a : sim_up s a -> reaches i t s s' -> exists a', sim_up s' a'.
Proof.
  intros Hs [n E]. apply members_play_run in E.
  destruct (run_simulation _ _ _ sim_step _ _ E a Hs) as (a' & _ & Hs'). by exists a'.
Qed.

(** Thread [i] is between two steps of the body [b], the others away from the lock. *)
Record ready (i : nat) (th : RWLock.thread) (b : body C R) s : Prop := {
  ready_sim : exists a, sim_up s a;
  ready_quiet : quiet i s;
  ready_client : clients s !! i = Some (mk_client th (Some b) None);
  ready_pc : at_pc th = Idle }.

Lemma quiet_insert i s s' cl :
  quiet i s -> clients s' = <[i := cl]> (clients s) -> quiet i s'.
Proof. intros Hq E j o Hj Hne. rewrite E, list_lookup_insert_ne in Hj by done. by apply (Hq j o). Qed.

Lemma ready_next i t th b s s' th' b' :
  ready i th b s -> reaches i t s s' ->
  clients s' = <[i := mk_client th' (Some b') None]> (clients s) -> at_pc th' = Idle ->
  ready i th' b' s'.
Proof.
  intros [[a Ha] Hq Hc _] Hr E Hp. split; [by eapply reaches_sim|by eapply quiet_insert| |done].
  rewrite E. apply list_lookup_insert_eq. by eapply lookup_lt_Some.
Qed.

(** Nobody else is in an access. *)
Lemma quiet_no_conflict i s a g :
  sim_up s a -> quiet i s -> existsb (conflicts g) (delete i (clients s)) = false.
Proof.
  intros Hs Hq. apply not_true_is_false. intros (o & Ho & Hc)%existsb_exists.
  apply list_elem_of_In, list_elem_of_lookup in Ho as [j Hj].
  assert (exists j', clients s !! j' = Some o /\ j' <> i) as (j' & Hj' & Hne).
  { destruct (decide (j < i)%nat).
    - rewrite list_lookup_delete_lt in Hj by done. exists j. split; [done|lia].
    - rewrite list_lookup_delete_ge in Hj by lia. exists (S j). split; [done|lia]. }
  destruct (Forall2_lookup_l _ _ _ _ _ (sim_each _ _ Hs) Hj') as (ac & _ & Hr).
  destruct (Hq j' o Hj' Hne) as [_ [Hw Hrh]]. unfold conflicts in Hc.
  destruct Hr as [| | |? ? ? ? Hin|]; cbn [acc lth] in *; [by destruct g..| |by destruct g]. lia.
Qed.

(** An access: its beginning, then its end. *)
Lemma access_ends i t th b s g s' :
  ready i th b s ->
  (g = AReadLock /\ (exists k, b = Read k) \/ g = AWriteLock /\ exists f b', b = Write f b') ->
  go t i (mk_client th (Some b) (Some g)) (set_client i (mk_client th (Some b) (Some g)) s) =
    Some (Up s') ->
  reaches i t s s'.
Proof.
  intros [[a Ha] Hq Hc Hp] Hb E.
  apply (reaches_trans i t s (set_client i (mk_client th (Some b) (Some g)) s)).
  - eapply reaches_go; [exact Hc|]. unfold go. cbn [lth cur acc]. rewrite (idle_no_step _ _ _ Hp).
    destruct Hb as [[-> [k ->]]|[-> (f & b' & ->)]]; unfold begin_access;
      by rewrite (quiet_no_conflict i s a _ Ha Hq).
  - eapply reaches_go; [|exact E]. cbn [set_client clients]. apply list_lookup_insert_eq.
    by eapply lookup_lt_Some.
Qed.

(** An operation of the lock: its beginning, then its steps. *)
Lemma lock_op_ends i t th b b' k s n l' th' :
  ready i th b s ->
  go t i (mk_client th (Some b) None) s =
    Some (Up (set_client i (mk_client (goto (entry k) th) (Some b') None) s)) ->
  lock_steps n t (lk s) (goto (entry k) th) = Some (l', th') -> at_pc th' = Idle ->
  exists s', reaches i t s s' /\ ready i th' b' s' /\ data s' = data s /\ hist s' = hist s.
Proof.
  intros Hr E Hn Hp. pose proof (ready_client _ _ _ _ Hr) as Hc.
  set (s1 := set_client i (mk_client (goto (entry k) th) (Some b') None) s) in *.
  assert (Hlt := lookup_lt_Some _ _ _ Hc).
  assert (Hreach : reaches i t s (mk_state l' (data s) (<[i := mk_client th' (Some b') None]> (clients s)) (hist s))).
  { eapply reaches_trans; [by eapply reaches_go|]. exists n.
    rewrite (play_lock_steps n t i (Some b') s1 (goto (entry k) th) l' th'); [|by apply list_lookup_insert_eq|done].
    cbn. by rewrite list_insert_insert_eq. }
  eexists. split; [exact Hreach|]. split; [|done]. by eapply ready_next.
Qed.

Lemma ready_word i th b s : ready i th b s -> own_word (lk s) th.
Proof. intros [[a Ha] Hq Hc Hp]. by apply (quiet_word s a i _ Ha Hq Hc). Qed.

(** By induction on what is left of the body. *)
Lemma body_completes i t b : forall u th s x c,
  ready i th b s -> disciplined u (wh th) (rh th) b (same true 0 0) ->
  alone b (data s) = Ret (x, c) ->
  exists s' th', reaches i t s s' /\ clients s' !! i = Some (mk_client th' None None) /\
    hist s' = hist s ++ [Return i x] /\ data s' = c.
Proof.
  induction b as [g b IH|g b IH|k IH|f b IH|k IH|y| |]; intros u th s x c Hr Hd Ha;
    cbn [disciplined alone] in Hd, Ha; try discriminate Ha;
    pose proof (ready_client _ _ _ _ Hr) as Hc; pose proof (ready_pc _ _ _ _ Hr) as Hp;
    pose proof (ready_word _ _ _ _ Hr) as Hw; assert (Hlt := lookup_lt_Some _ _ _ Hc).
  - destruct Hd as (_ & _ & Hd).
    destruct (acquire_ends t g (lk s) th Hw) as (n & l' & th' & Hn & Hp' & Hcnt).
    { intros ->. apply Hd. }
    destruct (lock_op_ends i t th (Acquire g b) b (construct g) s n l' th' Hr) as (s1 & R1 & Hr1 & D1 & H1);
      [unfold go; cbn [lth cur acc]; by rewrite (idle_no_step _ _ _ Hp)|done|done|].
    destruct (IH true th' s1 x c) as (s' & th2 & R2 & F1 & F2 & F3);
      [done|unfold after in Hcnt; destruct g; injection Hcnt as -> ->; apply Hd|by rewrite D1|].
    exists s', th2. rewrite F2, H1. split; [by eapply reaches_trans|done].
  - destruct (release_ends t g (lk s) th Hw) as (n & l' & th' & Hn & Hp' & Hcnt).
    { destruct g; [split|]; apply Hd. }
    destruct (lock_op_ends i t th (Release g b) b (destroy g) s n l' th' Hr) as (s1 & R1 & Hr1 & D1 & H1);
      [unfold go; cbn [lth cur acc]; by rewrite (idle_no_step _ _ _ Hp)|done|done|].
    destruct (IH u th' s1 x c) as (s' & th2 & R2 & F1 & F2 & F3);
      [done|unfold after in Hcnt; destruct g; injection Hcnt as -> ->; apply Hd|by rewrite D1|].
    exists s', th2. rewrite F2, H1. split; [by eapply reaches_trans|done].
  - set (s1 := set_client i (mk_client th (Some (k (data s))) None) s).
    assert (R1 : reaches i t s s1).
    { eapply (access_ends i t th _ s AReadLock _ Hr); [left; eauto|]. unfold go. cbn [lth cur acc].
      rewrite (idle_no_step _ _ _ Hp). unfold s1, set_client. cbn. by rewrite list_insert_insert_eq. }
    destruct (IH (data s) u th s1 x c) as (s' & th2 & R2 & F);
      [by eapply ready_next|apply Hd|done|]. exists s', th2. split; [by eapply reaches_trans|done].
  - destruct (f (data s)) as [c1|] eqn:Ef; [|discriminate Ha].
    set (s1 := mk_state (lk s) c1 (<[i := mk_client th (Some b) None]> (clients s)) (hist s)).
    assert (R1 : reaches i t s s1).
    { eapply (access_ends i t th _ s AWriteLock _ Hr); [right; eauto|]. unfold go. cbn [lth cur acc].
      rewrite (idle_no_step _ _ _ Hp). cbn. rewrite Ef. unfold s1. by rewrite list_insert_insert_eq. }
    destruct (IH u th s1 x c) as (s' & th2 & R2 & F);
      [by eapply ready_next|apply Hd|done|]. exists s', th2. split; [by eapply reaches_trans|done].
  - set (s1 := set_client i (mk_client th (Some (k (data s))) None) s).
    assert (R1 : reaches i t s s1).
    { eapply reaches_go; [exact Hc|]. unfold go. cbn [lth cur acc]. by rewrite (idle_no_step _ _ _ Hp). }
    destruct (IH (data s) u th s1 x c) as (s' & th2 & R2 & F);
      [by eapply ready_next|apply Hd|done|]. exists s', th2. split; [by eapply reaches_trans|done].
  - injection Ha as <- <-. eexists _, th. split.
    { eapply reaches_go; [exact Hc|]. unfold go. cbn [lth cur acc]. by rewrite (idle_no_step _ _ _ Hp). }
    cbn. split; [by apply list_lookup_insert_eq|done].
Qed.

(** C5: Members return. In any state a locked object can reach from a new one, under
    threads with distinct ids in 1..65535, a thread that calls a member while no other
    thread holds a guard or is inside an operation of the lock finishes it by its own
    steps: it returns what the atomic member returns on the present contents, and
    leaves what the atomic member leaves. *)
Theorem members_return_alone c ids s i cl m t :
  NoDup ids -> Forall (fun i => 1 <= i < 65536) ids ->
  Z.of_nat (length ids) * Z.of_nat depth < 65536 ->
  run LockedProgram.step (start (M := M) (C := C) c ids) (Up s) ->
  clients s !! i = Some cl -> cur cl = None -> quiet i s ->
  exists n s' th', LockedProgram.play (Enter i m :: replicate n (Go i t)) (Up s) = Some (Up s') /\
    clients s' !! i = Some (mk_client th' None None) /\
    hist s' = hist s ++ [Call i m; Return i (fst (atomically m (data s)))] /\
    data s' = snd (atomically m (data s)).
Proof.
  intros Hn Hf Hl Hr Hc Hcur Hq.
  destruct (run_simulation _ _ _ sim_step _ _ Hr _ (sim_start c ids Hn Hf Hl)) as (a & _ & Ha).
  destruct (Forall2_lookup_l _ _ _ _ _ (sim_each _ _ Ha) Hc) as (ac & _ & Hrel).
  destruct Hrel as [th Hp [Hw0 Hr0]| | | |]; try discriminate Hcur.
  set (s1 := mk_state (lk s) (data s) (<[i := mk_client th (Some (program m)) None]> (clients s))
               (hist s ++ [Call i m])).
  assert (E : LockedProgram.play1 (Enter i m) (Up s) = Some (Up s1)).
  { cbn [LockedProgram.play1]. rewrite Hc. reflexivity. }
  destruct (sim_step (Up s) (Up s1) a Ha (ex_intro _ _ E)) as (a1 & _ & Ha1).
  assert (Hready : ready i th (program m) s1).
  { split; [by exists a1|by eapply quiet_insert| |done].
    apply list_lookup_insert_eq. by eapply lookup_lt_Some. }
  destruct (atomically m (data s)) as [x c'] eqn:Ex.
  destruct (body_completes i t (program m) false th s1 x c') as (s' & th' & [n Hplay] & F1 & F2 & F3).
  - exact Hready.
  - rewrite Hw0, Hr0. apply program_disciplined.
  - rewrite program_alone. by rewrite <- Ex.
  - exists n, s', th'. rewrite (members_play_cons _ _ _ _ E). split; [exact Hplay|]. split; [exact F1|].
    split; [|exact F3]. rewrite F2. cbn. by rewrite <- app_assoc.
Qed.
End Progress.

Module ProgressSample.
(** A queue after a first thread pushed; a second one pops. *)
Definition pushed : option (system (QueueMembers.call Z) (LockQueue.t Z) (reply Z)) :=
  LockedProgram.play (Enter 0%nat (QueueMembers.Push 5) :: replicate 12 (Go 0%nat 0))
    (start LockQueue.new [1; 2]).
Lemma pushed_steps sy :
  pushed = Some sy -> run LockedProgram.step (start LockQueue.new [1; 2]) sy.
Proof. apply members_play_run. Qed.
Definition pushed_state : state (QueueMembers.call Z) (LockQueue.t Z) (reply Z) :=
  mk_state (mk_lock 0 0) (LockQueue.mk [5])
    [mk_client (RWLock.mk_thread 1 Idle 0 0) None None; mk_client (RWLock.mk_thread 2 Idle 0 0) None None]
    [Call 0%nat (QueueMembers.Push 5); Return 0%nat Nothing].
Lemma pushed_eq : pushed = Some (Up pushed_state).
Proof. vm_compute. reflexivity. Qed.

Lemma members_return_alone_witness :
  exists n s', LockedProgram.play (Enter 1%nat QueueMembers.Pop :: replicate n (Go 1%nat 0)) (Up pushed_state) =
      Some (Up s') /\
    hist s' = hist pushed_state ++ [Call 1%nat QueueMembers.Pop; Return 1%nat (Item 5)] /\
    data s' = LockQueue.mk [].
Proof.
  destruct (members_return_alone (M := QueueMembers.call Z) (R := reply Z) LockQueue.new [1; 2]
    pushed_state 1 (mk_client (RWLock.mk_thread 2 Idle 0 0) None None) QueueMembers.Pop 0)
    as (n & s' & th' & E & _ & Hh & Hd).
  - exact (bool_decide_unpack (NoDup [1; 2]) I).
  - repeat constructor; lia.
  - vm_compute; reflexivity.
  - exact (pushed_steps _ pushed_eq).
  - reflexivity.
  - reflexivity.
  - intros [|[|j]] o Ho Hne; [|done|done]. injection Ho as <-. by repeat split.
  - exists n, s'. split; [exact E|]. split; [exact Hh|exact Hd].
Defined.
End ProgressSample.
