(* ===== verification/JobSerializer.v ===== *)
(** JobSerializer.h/.cpp and the queue of JobWorker.h: [JobSerializer::Push]
    and [ExecuteJobs] run by any number of threads on one serializer, one step
    per access to shared memory. Other serializers appear as the executions
    [X_other] and the entries [false] of the global worker's queue. *)
From S2P Require Import Prelude LockContainers.
#[local] Open Scope Z_scope.

Module JobSerializer.
Section JobSerializer.
(** Jobs, which are non-null pointers. *)
Context {J : Type}.

(** [_jobs], [_queuedCount] and the entries of [GGlobalJobWorker]'s queue;
    ghosts: jobs queued, jobs whose execution has begun, jobs taken off the queue
    and not begun, calls of [Push] begun. *)
Record shared := mk {
  _jobs : LockQueue.t J;
  _queuedCount : Z;
  _jobQueue : LockQueue.t bool;
  pushed : list J;
  executed : list J;
  taken : list J;
  started : Z;
}.

(** [Push(job)]: before the [fetch_add], before [_jobs.Push], before the
    branches, before [AddJobSerializer]. *)
Inductive push_pc := P_add (job : J) | P_queue (job : J) (prevCount : Z)
| P_branch (prevCount : Z) | P_worker.

(** [ExecuteJobs()]: before the assignment of [TLS_CurrentJobSerializer], before
    [_jobs.Clear], before the next job with the jobs left and [currentCount],
    inside a job, before the clock test, before [AddJobSerializer]; [X_other]
    executes another serializer. *)
Inductive exec_pc := X_begin | X_clear | X_run (jobs : list J) (currentCount : Z)
| X_job (jobs : list J) (currentCount : Z) | X_tick | X_add | X_other.

Record thread := mk_thread { exec : option exec_pc; push : option push_pc }.

(** [TLS_CurrentJobSerializer != nullptr]. *)
Definition TLS_CurrentJobSerializer (th : thread) : bool :=
  match exec th with None | Some X_begin | Some X_add => false | _ => true end.

Definition set_push (p : option push_pc) (th : thread) : thread := mk_thread (exec th) p.
Definition set_exec (x : option exec_pc) (th : thread) : thread := mk_thread x (push th).
Definition set_worker (q : LockQueue.t bool) (s : shared) : shared :=
  mk (_jobs s) (_queuedCount s) q (pushed s) (executed s) (taken s) (started s).

Definition push_step (p : push_pc) (th : thread) (s : shared) : thread * shared :=
  match p with
  | P_add job =>
      (set_push (Some (P_queue job (_queuedCount s))) th,
       mk (_jobs s) (s32 (_queuedCount s + 1)) (_jobQueue s) (pushed s) (executed s)
         (taken s) (started s + 1))
  | P_queue job prevCount =>
      (set_push (Some (P_branch prevCount)) th,
       mk (LockQueue.Push job (_jobs s)) (_queuedCount s) (_jobQueue s) (pushed s ++ [job])
         (executed s) (taken s) (started s))
  | P_branch prevCount =>
      if prevCount =? 0 then
        if negb (TLS_CurrentJobSerializer th) then (mk_thread (Some X_begin) None, s)
        else (set_push (Some P_worker) th, s)
      else (set_push None th, s)
  | P_worker => (set_push None th, set_worker (LockQueue.Push true (_jobQueue s)) s)
  end.

(** [timeout]: [nowTick - startTick >= TLS_GlobalJobsExecutionMaxTickCount]. *)
Definition exec_step (timeout : bool) (x : exec_pc) (th : thread) (s : shared)
  : thread * shared :=
  match x with
  | X_begin => (set_exec (Some X_clear) th, s)
  | X_clear =>
      let jobs := LockQueue._queue (_jobs s) in
      (set_exec (Some (X_run jobs (zlen jobs))) th,
       mk LockQueue.new (_queuedCount s) (_jobQueue s) (pushed s) (executed s)
         (taken s ++ jobs) (started s))
  | X_run (job :: jobs) n =>
      (set_exec (Some (X_job jobs n)) th,
       mk (_jobs s) (_queuedCount s) (_jobQueue s) (pushed s) (executed s ++ [job])
         (tail (taken s)) (started s))
  | X_job jobs n => (set_exec (Some (X_run jobs n)) th, s)
  | X_run [] n =>
      (set_exec (if _queuedCount s =? n then None else Some X_tick) th,
       mk (_jobs s) (s32 (_queuedCount s - n)) (_jobQueue s) (pushed s) (executed s)
         (taken s) (started s))
  | X_tick => (set_exec (Some (if timeout then X_add else X_clear)) th, s)
  | X_add => (set_exec None th, set_worker (LockQueue.Push true (_jobQueue s)) s)
  | X_other => (set_exec None th, s)
  end.

Record system := mk_sys { ths : list thread; sh : shared }.

(** A thread may call [Push] when it is idle or runs a job; an idle thread may
    take a serializer from the worker ([DoJobs]) or execute another one, which may
    also be queued in the worker. *)
Inductive event := EPush (i : nat) (job : J) | EStep (i : nat) (timeout : bool)
| EWork (i : nat) | EOther (i : nat) | EOtherAdd.

Definition can_push (th : thread) : bool :=
  match push th, exec th with
  | None, (None | Some (X_job _ _) | Some X_other) => true
  | _, _ => false
  end.
Definition idle (th : thread) : bool :=
  match push th, exec th with None, None => true | _, _ => false end.

Definition play1 (e : event) (s : system) : option system :=
  match e with
  | EPush i job =>
      match ths s !! i with
      | Some th => if can_push th then
          Some (mk_sys (<[i := set_push (Some (P_add job)) th]> (ths s)) (sh s)) else None
      | None => None
      end
  | EStep i timeout =>
      match ths s !! i with
      | Some th =>
          match push th, exec th with
          | Some p, _ => let '(th', x) := push_step p th (sh s) in
              Some (mk_sys (<[i := th']> (ths s)) x)
          | None, Some x => let '(th', x) := exec_step timeout x th (sh s) in
              Some (mk_sys (<[i := th']> (ths s)) x)
          | None, None => None
          end
      | None => None
      end
  | EWork i =>
      match ths s !! i with
      | Some th =>
          if idle th then
            match LockQueue.take_front (_jobQueue (sh s)) with
            | Some (this, q) =>
                Some (mk_sys (<[i := set_exec (Some (if this then X_begin else X_other)) th]> (ths s))
                        (set_worker q (sh s)))
            | None => None
            end
          else None
      | None => None
      end
  | EOther i =>
      match ths s !! i with
      | Some th => if idle th then
          Some (mk_sys (<[i := set_exec (Some X_other) th]> (ths s)) (sh s)) else None
      | None => None
      end
  | EOtherAdd =>
      Some (mk_sys (ths s) (set_worker (LockQueue.Push false (_jobQueue (sh s))) (sh s)))
  end.
Definition step (s s' : system) : Prop := exists e, play1 e s = Some s'.
Fixpoint play (es : list event) (s : system) : option system :=
  match es with
  | [] => Some s
  | e :: es => match play1 e s with Some s => play es s | None => None end
  end.
Definition init (n : nat) : system :=
  mk_sys (replicate n (mk_thread None None)) (mk LockQueue.new 0 LockQueue.new [] [] [] 0).

(** ** The invariant *)
(** The right to execute the serializer. *)
Definition token (th : thread) : Z :=
  match push th with
  | Some (P_queue _ prev) | Some (P_branch prev) => if prev =? 0 then 1 else 0
  | Some P_worker => 1
  | _ => 0
  end +
  match exec th with None | Some X_other => 0 | _ => 1 end.
(** Jobs counted in [_queuedCount] that are not in [_jobs]. *)
Definition outside (th : thread) : Z :=
  match push th with Some (P_queue _ _) => 1 | _ => 0 end +
  match exec th with Some (X_run _ n) | Some (X_job _ n) => n | _ => 0 end.
Definition jobs_of (th : thread) : list J :=
  match exec th with Some (X_run l _) | Some (X_job l _) => l | _ => [] end.
Definition waiting (q : LockQueue.t bool) : Z :=
  sum_of (fun b : bool => if b then 1 else 0) (LockQueue._queue q).
Definition pending (s : system) : Z :=
  zlen (LockQueue._queue (_jobs (sh s))) + sum_of outside (ths s).
Definition tokens (s : system) : Z := sum_of token (ths s) + waiting (_jobQueue (sh s)).

(** Shape of a thread: where pushes are made and the counts it carries. *)
Definition thread_ok (th : thread) : Prop :=
  match exec th with
  | Some (X_run l n) => zlen l <= n /\ push th = None
  | Some (X_job l n) => zlen l < n
  | Some X_other | None => True
  | _ => push th = None
  end.

Record inv (s : system) : Prop := {
  inv_threads i th : ths s !! i = Some th -> thread_ok th;
  inv_count : _queuedCount (sh s) = pending s;
  inv_started : pending s <= started (sh s);
  inv_tokens : tokens s = if pending s =? 0 then 0 else 1;
  inv_fifo : pushed (sh s) =
    executed (sh s) ++ taken (sh s) ++ LockQueue._queue (_jobs (sh s));
  inv_taken i th : ths s !! i = Some th -> jobs_of th <> [] -> taken (sh s) = jobs_of th;
  inv_none : (forall i th, ths s !! i = Some th -> jobs_of th = []) -> taken (sh s) = [];
}.

(** ** Lemmas on threads *)
Definition executing (th : thread) : bool :=
  match exec th with None | Some X_other => false | _ => true end.

Lemma token_nonneg th : 0 <= token th.
Proof. unfold token. destruct (push th) as [[]|], (exec th) as [[]|]; case_bools; lia. Qed.
Lemma executing_token th : executing th = true -> 1 <= token th.
Proof.
  unfold executing, token. destruct (exec th) as [[]|]; try discriminate;
    destruct (push th) as [[]|]; intros; case_bools; lia.
Qed.
Lemma jobs_executing th : jobs_of th <> [] -> executing th = true.
Proof. unfold jobs_of, executing. by destruct (exec th) as [[]|]. Qed.
Lemma outside_nonneg th : thread_ok th -> 0 <= outside th.
Proof.
  unfold thread_ok, outside. pose proof (@zlen_nonneg J).
  destruct (push th) as [[]|], (exec th) as [[]|]; intros; deex; simpl in *;
    try lia; match goal with l : list J |- _ => pose proof (zlen_nonneg l); lia end.
Qed.

Lemma waiting_nonneg q : 0 <= waiting q.
Proof. apply sum_of_nonneg. intros []; lia. Qed.
Lemma waiting_push b q : waiting (LockQueue.Push b q) = waiting q + if b then 1 else 0.
Proof. unfold waiting. simpl. rewrite sum_of_app. unfold sum_of at 2. simpl. lia. Qed.

Lemma outside_all s : inv s -> Forall (fun th => 0 <= outside th) (ths s).
Proof.
  intros Hs. apply Forall_lookup. intros i th Hi.
  exact (outside_nonneg th (inv_threads s Hs i th Hi)).
Qed.

Lemma pending_nonneg s : inv s -> 0 <= pending s.
Proof.
  intros Hs. unfold pending. pose proof (zlen_nonneg (LockQueue._queue (_jobs (sh s)))).
  pose proof (sum_of_nonneg_on outside _ (outside_all s Hs)). lia.
Qed.

Lemma tokens_le_1 s : inv s -> sum_of token (ths s) <= 1.
Proof.
  intros Hs. pose proof (inv_tokens s Hs) as Ht. unfold tokens in Ht.
  pose proof (waiting_nonneg (_jobQueue (sh s))). destruct (pending s =? 0); lia.
Qed.

(** One thread at a time executes the serializer. *)
Lemma executing_unique s i j th1 th2 :
  inv s -> ths s !! i = Some th1 -> ths s !! j = Some th2 ->
  executing th1 = true -> executing th2 = true -> i = j.
Proof.
  intros Hs Hi Hj H1 H2. destruct (decide (i = j)) as [|Hne]; [done|]. exfalso.
  pose proof (sum_of_two token _ i j th1 th2 token_nonneg Hi Hj Hne).
  pose proof (tokens_le_1 s Hs).
  pose proof (executing_token th1 H1). pose proof (executing_token th2 H2). lia.
Qed.

(** A token holder shows that something is pending. *)
Lemma token_pending s i th :
  inv s -> ths s !! i = Some th -> 1 <= token th -> pending s <> 0 /\ token th = 1.
Proof.
  intros Hs Hi Ht. pose proof (inv_tokens s Hs) as Htk. unfold tokens in Htk.
  pose proof (sum_of_elem token _ i th token_nonneg Hi).
  pose proof (waiting_nonneg (_jobQueue (sh s))).
  destruct (Z.eqb_spec (pending s) 0); lia.
Qed.

(** The step of one thread, by the changes [dp] of the pending jobs and [dt] of the
    tokens. *)
Lemma inv_update s i th th' x dp dt :
  inv s -> ths s !! i = Some th -> thread_ok th' ->
  zlen (LockQueue._queue (_jobs x)) - zlen (LockQueue._queue (_jobs (sh s))) +
    (outside th' - outside th) = dp ->
  waiting (_jobQueue x) - waiting (_jobQueue (sh s)) + (token th' - token th) = dt ->
  _queuedCount x = pending s + dp -> pending s + dp <= started x ->
  tokens s + dt = (if pending s + dp =? 0 then 0 else 1) ->
  pushed x = executed x ++ taken x ++ LockQueue._queue (_jobs x) ->
  (taken x = taken (sh s) /\ jobs_of th' = jobs_of th) \/
  (taken x = jobs_of th' /\ executing th = true) ->
  inv (mk_sys (<[i := th']> (ths s)) x).
Proof.
  intros Hs Hi Hok Hdp Hdt Hc Hst Htk Hf Htaken.
  assert (EP : pending (mk_sys (<[i := th']> (ths s)) x) = pending s + dp).
  { unfold pending. simpl. rewrite (sum_of_insert outside _ i th th' Hi). lia. }
  split; simpl.
  - intros j t [(<- & <- & _)|[_ Hj]]%list_lookup_insert_Some; [done|].
    by apply (inv_threads s Hs j).
  - by rewrite EP.
  - by rewrite EP.
  - rewrite EP, <- Htk. unfold tokens. simpl.
    rewrite (sum_of_insert token _ i th th' Hi). lia.
  - exact Hf.
  - intros j t [(<- & <- & _)|[Hne Hj]]%list_lookup_insert_Some Ht.
    + destruct Htaken as [[-> E]|[-> _]]; [|done]. rewrite E in *.
      exact (inv_taken s Hs i th Hi Ht).
    + destruct Htaken as [[-> _]|[_ He]]; [exact (inv_taken s Hs j t Hj Ht)|].
      destruct Hne. exact (executing_unique s i j th t Hs Hi Hj He (jobs_executing t Ht)).
  - intros Hall. assert (Hlt : (i < length (ths s))%nat) by (by eapply lookup_lt_Some).
    pose proof (Hall i th' (list_lookup_insert_eq _ _ _ Hlt)) as Hn.
    destruct Htaken as [[-> E]|[-> _]]; [|done].
    apply (inv_none s Hs). intros j t Hj. destruct (decide (i = j)) as [<-|Hne].
    + rewrite Hi in Hj. injection Hj as <-. by rewrite <- E.
    + apply (Hall j). by rewrite list_lookup_insert_ne.
Qed.

(** A step that neither adds nor finishes jobs nor moves the token. *)
Lemma inv_update_same s i th th' x :
  inv s -> ths s !! i = Some th -> thread_ok th' ->
  zlen (LockQueue._queue (_jobs x)) - zlen (LockQueue._queue (_jobs (sh s))) +
    (outside th' - outside th) = 0 ->
  waiting (_jobQueue x) - waiting (_jobQueue (sh s)) + (token th' - token th) = 0 ->
  _queuedCount x = _queuedCount (sh s) -> started x = started (sh s) ->
  pushed x = executed x ++ taken x ++ LockQueue._queue (_jobs x) ->
  (taken x = taken (sh s) /\ jobs_of th' = jobs_of th) \/
  (taken x = jobs_of th' /\ executing th = true) ->
  inv (mk_sys (<[i := th']> (ths s)) x).
Proof.
  intros Hs Hi Hok Hdp Hdt Hc Hst Hf Htaken.
  apply (inv_update s i th th' x 0 0 Hs Hi Hok Hdp Hdt); try done; rewrite Z.add_0_r.
  - by rewrite Hc, (inv_count s Hs).
  - rewrite Hst. exact (inv_started s Hs).
  - rewrite Z.add_0_r. exact (inv_tokens s Hs).
Qed.

(** ** Every step preserves the invariant *)
Lemma thread_ok_push ex p q : thread_ok (mk_thread ex (Some p)) -> thread_ok (mk_thread ex q).
Proof. unfold thread_ok. simpl. destruct ex as [[]|]; intros; deex; done. Qed.

Ltac same Hs Hi :=
  apply (inv_update_same _ _ _ _ _ Hs Hi); unfold outside, token; simpl;
  rewrite ?waiting_push; try done; try (left; done); try lia.

Lemma push_step_inv s i th p th' x :
  inv s -> ths s !! i = Some th -> push th = Some p ->
  push_step p th (sh s) = (th', x) -> started x < 2 ^ 31 ->
  inv (mk_sys (<[i := th']> (ths s)) x).
Proof.
  intros Hs Hi Hp Hst Hb. destruct th as [ex pu]. simpl in Hp. subst pu.
  pose proof (inv_threads s Hs i _ Hi) as Hok.
  pose proof (pending_nonneg s Hs) as Hpn. pose proof (inv_started s Hs) as Hsta.
  pose proof (inv_count s Hs) as Hc. pose proof (inv_tokens s Hs) as Htk.
  pose proof (inv_fifo s Hs) as Hf.
  destruct p as [job|job prev|prev|]; simpl in Hst.
  - injection Hst as <- <-. simpl in Hb.
    apply (inv_update s i _ _ _ 1 (if pending s =? 0 then 1 else 0) Hs Hi);
      unfold outside, token; simpl; try done; try lia.
    + by eapply thread_ok_push.
    + rewrite Hc. lia.
    + rewrite Hc, s32_small; lia.
    + rewrite Htk. destruct (Z.eqb_spec (pending s) 0), (Z.eqb_spec (pending s + 1) 0); lia.
    + by left.
  - injection Hst as <- <-. same Hs Hi.
    + by eapply thread_ok_push.
    + rewrite zlen_app. unfold zlen at 2. simpl. lia.
    + by rewrite Hf, <- !app_assoc.
  - destruct (Z.eqb_spec prev 0) as [->|Hne].
    + assert (Ht1 : token (mk_thread ex (Some (P_branch 0))) = 1).
      { apply (token_pending s i _ Hs Hi). unfold token. simpl.
        destruct ex as [[]|]; lia. }
      assert (Hno : ex = None \/ ex = Some X_other).
      { unfold token in Ht1. simpl in Ht1. destruct ex as [[]|]; auto; lia. }
      destruct Hno as [-> | ->]; simpl in Hst; injection Hst as <- <-; same Hs Hi.
    + injection Hst as <- <-. same Hs Hi.
      * by eapply thread_ok_push.
      * destruct (Z.eqb_spec prev 0); lia.
  - injection Hst as <- <-. same Hs Hi. by eapply thread_ok_push.
Qed.

Lemma exec_step_inv s i th e timeout th' x :
  inv s -> ths s !! i = Some th -> push th = None -> exec th = Some e ->
  exec_step timeout e th (sh s) = (th', x) -> started x < 2 ^ 31 ->
  inv (mk_sys (<[i := th']> (ths s)) x).
Proof.
  intros Hs Hi Hp He Hst Hb. destruct th as [ex pu]. simpl in Hp, He. subst pu ex.
  pose proof (inv_threads s Hs i _ Hi) as Hok.
  pose proof (pending_nonneg s Hs) as Hpn. pose proof (inv_started s Hs) as Hsta.
  pose proof (inv_count s Hs) as Hc. pose proof (inv_tokens s Hs) as Htk.
  pose proof (inv_fifo s Hs) as Hf.
  destruct e as [| |[|job l] n|l n| | |]; simpl in Hst; injection Hst as <- <-.
  - same Hs Hi.
  - assert (Htn : taken (sh s) = []).
    { apply (inv_none s Hs). intros j t Hj.
      destruct (jobs_of t) eqn:E; [done|]. exfalso.
      assert (Hx : executing t = true) by (apply jobs_executing; by rewrite E).
      assert (i = j) as <- by exact (executing_unique s i j _ _ Hs Hi Hj eq_refl Hx).
      rewrite Hi in Hj. injection Hj as <-. done. }
    same Hs Hi.
    + unfold zlen at 1. simpl. lia.
    + by rewrite Hf, app_nil_r.
    + right. by rewrite Htn.
  - assert (Hn : 0 <= n) by (unfold thread_ok, zlen in Hok; simpl in Hok; lia).
    destruct (token_pending s i _ Hs Hi) as [Hp0 _]; [unfold token; simpl; lia|].
    assert (Hle : n <= pending s).
    { unfold pending. pose proof (zlen_nonneg (LockQueue._queue (_jobs (sh s)))).
      pose proof (sum_of_elem_on outside _ i _ (outside_all s Hs) Hi) as Hin.
      unfold outside in Hin at 1. simpl in Hin. lia. }
    simpl in Hb.
    apply (inv_update s i _ _ _ (- n) (if pending s =? n then -1 else 0) Hs Hi);
      unfold outside, token; simpl; rewrite ?Hc; try done; try lia.
    + destruct (pending s =? n); exact I || exact eq_refl.
    + destruct (pending s =? n); simpl; lia.
    + destruct (pending s =? n); simpl; lia.
    + rewrite s32_small; lia.
    + rewrite Htk. destruct (Z.eqb_spec (pending s) n), (Z.eqb_spec (pending s) 0),
        (Z.eqb_spec (pending s + - n) 0); lia.
    + left. split; [done|]. by destruct (pending s =? n).
  - assert (Htn : taken (sh s) = job :: l)
      by (apply (inv_taken s Hs i _ Hi); unfold jobs_of; simpl; done).
    same Hs Hi.
    + unfold thread_ok in *. simpl in *. unfold zlen in *. simpl in Hok. lia.
    + rewrite Hf, Htn. simpl. by rewrite <- app_assoc.
    + right. by rewrite Htn.
  - same Hs Hi. unfold thread_ok in *. simpl in *. split; [lia|done].
  - destruct timeout; same Hs Hi.
  - same Hs Hi.
  - same Hs Hi.
Qed.

Lemma push_step_started p th (s : shared) :
  started s <= started (push_step p th s).2.
Proof. destruct p; simpl; repeat case_match; simpl; lia. Qed.
Lemma exec_step_started t e th (s : shared) :
  started (exec_step t e th s).2 = started s.
Proof. by destruct e as [| |[]| | | |]. Qed.

(** A thread between calls that starts one, or takes a serializer. *)
Lemma can_push_inv s i th job :
  inv s -> ths s !! i = Some th -> can_push th = true ->
  inv (mk_sys (<[i := set_push (Some (P_add job)) th]> (ths s)) (sh s)).
Proof.
  intros Hs Hi Hc. pose proof (inv_threads s Hs i th Hi) as Hok.
  destruct th as [ex [?|]]; [by destruct ex as [[]|]|].
  apply (inv_update_same s i _ _ _ Hs Hi); unfold outside, token; simpl;
    try done; try (left; done); try lia; [|apply (inv_fifo s Hs)].
  unfold thread_ok in *. simpl in *. by destruct ex as [[]|].
Qed.

Lemma idle_eq th : idle th = true -> th = mk_thread None None.
Proof. by destruct th as [[] []]. Qed.

Lemma enter_other_inv s i th :
  inv s -> ths s !! i = Some th -> idle th = true ->
  inv (mk_sys (<[i := set_exec (Some X_other) th]> (ths s)) (sh s)).
Proof.
  intros Hs Hi ->%idle_eq. apply (inv_update_same s i _ _ _ Hs Hi);
    unfold outside, token; simpl; try done; try (left; done); try lia.
  apply (inv_fifo s Hs).
Qed.

Lemma work_inv s i th b q :
  inv s -> ths s !! i = Some th -> idle th = true ->
  LockQueue.take_front (_jobQueue (sh s)) = Some (b, q) ->
  inv (mk_sys (<[i := set_exec (Some (if b then X_begin else X_other)) th]> (ths s))
         (set_worker q (sh s))).
Proof.
  intros Hs Hi ->%idle_eq Hq.
  assert (Hw : waiting (_jobQueue (sh s)) = waiting q + if b then 1 else 0).
  { unfold LockQueue.take_front in Hq. unfold waiting.
    destruct (LockQueue._queue (_jobQueue (sh s))) as [|c l]; [done|].
    injection Hq as -> <-. unfold sum_of. simpl. lia. }
  destruct b; apply (inv_update_same s i _ _ _ Hs Hi); unfold outside, token; simpl;
    try (left; done); try apply (inv_fifo s Hs); try (exact I || exact eq_refl); lia.
Qed.

Lemma add_other_inv s :
  inv s -> inv (mk_sys (ths s) (set_worker (LockQueue.Push false (_jobQueue (sh s))) (sh s))).
Proof.
  intros [H1 H2 H3 H4 H5 H6 H7]. split; try done. unfold tokens in *. simpl.
  rewrite waiting_push. rewrite Z.add_0_r. exact H4.
Qed.

(** The counter does not wrap as long as fewer than [2^31] pushes were begun. *)
Definition inv_bounded (s : system) : Prop := started (sh s) < 2 ^ 31 -> inv s.

Lemma serializer_step_inv s s' : inv_bounded s -> step s s' -> inv_bounded s'.
Proof.
  intros Hs [e He] Hb. destruct e as [i job|i t|i|i|]; simpl in He.
  - destruct (ths s !! i) as [th|] eqn:Hi; [|done].
    destruct (can_push th) eqn:Hc; [|done]. injection He as <-.
    exact (can_push_inv s i th job (Hs Hb) Hi Hc).
  - destruct (ths s !! i) as [th|] eqn:Hi; [|done].
    destruct (push th) as [p|] eqn:Hp.
    + pose proof (push_step_started p th (sh s)) as Hm.
      destruct (push_step p th (sh s)) as [th' x] eqn:E. simpl in Hm.
      injection He as <-. simpl in Hb.
      assert (Hb0 : started (sh s) < 2 ^ 31) by lia.
      exact (push_step_inv s i th p th' x (Hs Hb0) Hi Hp E Hb).
    + destruct (exec th) as [x0|] eqn:Hx; [|done].
      pose proof (exec_step_started t x0 th (sh s)) as Hm.
      destruct (exec_step t x0 th (sh s)) as [th' x] eqn:E. simpl in Hm.
      injection He as <-. simpl in Hb.
      assert (Hb0 : started (sh s) < 2 ^ 31) by lia.
      exact (exec_step_inv s i th x0 t th' x (Hs Hb0) Hi Hp Hx E Hb).
  - destruct (ths s !! i) as [th|] eqn:Hi; [|done].
    destruct (idle th) eqn:Hid; [|done].
    destruct (LockQueue.take_front _) as [[b q]|] eqn:Hq; [|done]. injection He as <-.
    exact (work_inv s i th b q (Hs Hb) Hi Hid Hq).
  - destruct (ths s !! i) as [th|] eqn:Hi; [|done].
    destruct (idle th) eqn:Hid; [|done]. injection He as <-.
    exact (enter_other_inv s i th (Hs Hb) Hi Hid).
  - injection He as <-. exact (add_other_inv s (Hs Hb)).
Qed.

Lemma serializer_init_inv n : inv_bounded (init n).
Proof.
  intros _. assert (Hr : forall i (th : thread),
    replicate n (mk_thread None None) !! i = Some th -> th = mk_thread None None)
    by (intros i th [? _]%lookup_replicate; done).
  assert (E : pending (init n) = 0 /\ tokens (init n) = 0).
  { unfold pending, tokens. simpl. rewrite !sum_of_zero; [done|..];
      intros i th ->%Hr; done. }
  destruct E as [E1 E2]. split; rewrite ?E1, ?E2; simpl; try done.
  - intros i th ->%Hr. done.
  - intros i th ->%Hr. done.
Qed.

Lemma serializer_run_inv n s : run step (init n) s -> started (sh s) < 2 ^ 31 -> inv s.
Proof. intros Hr. exact (run_invariant step inv_bounded _ _ serializer_step_inv (serializer_init_inv n) Hr). Qed.

(** C12: over every interleaving of pushes, executions and worker threads, with
    fewer than 2^31 pushes: jobs of one serializer never run at the same time,
    and they are executed once each, in the order in which they were queued. *)
Theorem jobs_run_one_by_one_in_order n s :
  run step (init n) s -> started (sh s) < 2 ^ 31 ->
  (forall i j th1 th2 l1 n1 l2 n2, ths s !! i = Some th1 -> ths s !! j = Some th2 ->
     exec th1 = Some (X_job l1 n1) -> exec th2 = Some (X_job l2 n2) -> i = j) /\
  exists rest, pushed (sh s) = executed (sh s) ++ rest.
Proof.
  intros Hr Hb. pose proof (serializer_run_inv n s Hr Hb) as Hs. split.
  - intros i j th1 th2 l1 n1 l2 n2 Hi Hj H1 H2.
    apply (executing_unique s i j th1 th2 Hs Hi Hj); unfold executing; by rewrite ?H1, ?H2.
  - rewrite (inv_fifo s Hs). eauto.
Qed.

(** C13: no job is stranded: when no thread is pushing to or executing the
    serializer, either every queued job has been executed and the counter is 0, or
    the serializer is in the worker's queue exactly once. *)
Theorem no_job_is_stranded n s :
  run step (init n) s -> started (sh s) < 2 ^ 31 ->
  (forall i th, ths s !! i = Some th -> push th = None /\ executing th = false) ->
  (_queuedCount (sh s) = 0 /\ executed (sh s) = pushed (sh s) /\
     waiting (_jobQueue (sh s)) = 0) \/
  (_queuedCount (sh s) <> 0 /\ waiting (_jobQueue (sh s)) = 1).
Proof.
  intros Hr Hb Hidle. pose proof (serializer_run_inv n s Hr Hb) as Hs.
  assert (Hz : forall i th, ths s !! i = Some th -> token th = 0 /\ outside th = 0 /\ jobs_of th = []).
  { intros i th Hi. destruct (Hidle i th Hi) as [Hp He].
    unfold token, outside, jobs_of, executing in *. rewrite Hp.
    by destruct (exec th) as [[]|]. }
  assert (Hto : sum_of token (ths s) = 0) by (apply sum_of_zero; intros i th Hi; by apply (Hz i)).
  assert (Hou : sum_of outside (ths s) = 0) by (apply sum_of_zero; intros i th Hi; by apply (Hz i)).
  pose proof (inv_tokens s Hs) as Ht. unfold tokens in Ht. rewrite Hto in Ht.
  rewrite (inv_count s Hs). unfold pending in *. rewrite Hou, Z.add_0_r in *.
  destruct (Z.eqb_spec (zlen (LockQueue._queue (_jobs (sh s)))) 0) as [E|]; [left|right; split; [done|lia]].
  split; [done|]. split; [|lia]. rewrite (inv_fifo s Hs).
  rewrite (inv_none s Hs) by (intros i th Hi; by apply (Hz i)).
  destruct (LockQueue._queue (_jobs (sh s))); [|unfold zlen in E; simpl in E; lia].
  by rewrite !app_nil_r.
Qed.

(** ** A worker that is left alone finishes *)
Definition steps_of (i : nat) (es : list event) : Prop :=
  Forall (fun e => match e with EStep j _ => j = i | _ => False end) es.

Lemma play_exec es i e (l : list thread) (x : shared) :
  (i < length l)%nat ->
  play (EStep i false :: es) (mk_sys (<[i := mk_thread (Some e) None]> l) x) =
  play es (mk_sys (<[i := (exec_step false e (mk_thread (Some e) None) x).1]> l)
             (exec_step false e (mk_thread (Some e) None) x).2).
Proof.
  intros Hi. cbn [play play1 ths sh]. rewrite list_lookup_insert_eq by done. cbn [push exec].
  destruct (exec_step false e _ x) as [th' x']. by rewrite list_insert_insert_eq.
Qed.

Lemma play_app e1 e2 : forall s s1,
  play e1 s = Some s1 -> play (e1 ++ e2) s = play e2 s1.
Proof.
  induction e1 as [|e e1 IH]; intros s s1; cbn [play app]; [by intros [= ->]|].
  destruct (play1 e s); [|done]. apply IH.
Qed.

(** [DoJobs] takes the first serializer of the worker's queue. *)
Lemma play_work es i (l : list thread) (x : shared) b q :
  l !! i = Some (mk_thread None None) ->
  LockQueue.take_front (_jobQueue x) = Some (b, q) ->
  play (EWork i :: es) (mk_sys l x) =
  play es (mk_sys (<[i := mk_thread (Some (if b then X_begin else X_other)) None]> l)
             (set_worker q x)).
Proof.
  intros Hi Hq. cbn [play play1 ths sh]. rewrite Hi. cbn [idle push exec]. by rewrite Hq.
Qed.

(** Executing the jobs in hand. *)
Lemma run_jobs i (l : list thread) jobs : forall n (x : shared),
  (i < length l)%nat -> taken x = jobs ->
  exists es, steps_of i es /\
    play es (mk_sys (<[i := mk_thread (Some (X_run jobs n)) None]> l) x) =
    Some (mk_sys (<[i := mk_thread (Some (X_run [] n)) None]> l)
      (mk (_jobs x) (_queuedCount x) (_jobQueue x) (pushed x) (executed x ++ jobs) []
         (started x))).
Proof.
  induction jobs as [|job jobs IH]; intros n x Hi Ht.
  { exists []. split; [constructor|]. cbn [play]. rewrite app_nil_r. destruct x. simpl in *. by subst. }
  destruct (IH n (mk (_jobs x) (_queuedCount x) (_jobQueue x) (pushed x)
    (executed x ++ [job]) jobs (started x)) Hi eq_refl) as (es & Hes & E).
  exists (EStep i false :: EStep i false :: es). split; [by repeat constructor|].
  rewrite play_exec by done. cbn [exec_step fst snd]; unfold set_exec; cbn [push].
  rewrite play_exec by done. cbn [exec_step fst snd]; unfold set_exec; cbn [push].
  rewrite Ht. cbn [tail]. rewrite E. simpl. by rewrite <- app_assoc.
Qed.

(** C26: when every thread is out of the serializer and it is first in the worker's
    queue, one worker thread that runs undisturbed executes everything that was
    queued, resets the counter and returns. *)
Theorem worker_executes_everything n i q s :
  run step (init n) s -> started (sh s) < 2 ^ 31 ->
  (forall j th, ths s !! j = Some th -> push th = None /\ executing th = false) ->
  ths s !! i = Some (mk_thread None None) ->
  LockQueue.take_front (_jobQueue (sh s)) = Some (true, q) ->
  exists es s', steps_of i es /\ play (EWork i :: es) s = Some s' /\ ths s' = ths s /\
    executed (sh s') = pushed (sh s) /\ pushed (sh s') = pushed (sh s) /\
    _queuedCount (sh s') = 0.
Proof.
  intros Hr Hb Hidle Hi Hq. pose proof (serializer_run_inv n s Hr Hb) as Hs.
  assert (Hlt : (i < length (ths s))%nat) by (by eapply lookup_lt_Some).
  assert (Hz : forall j th, ths s !! j = Some th -> outside th = 0 /\ jobs_of th = []).
  { intros j th Hj. destruct (Hidle j th Hj) as [Hp He].
    unfold outside, jobs_of, executing in *. rewrite Hp. by destruct (exec th) as [[]|]. }
  assert (Htk : taken (sh s) = []) by (apply (inv_none s Hs); intros j th Hj; by apply (Hz j)).
  pose proof (inv_count s Hs) as Hc. unfold pending in Hc.
  rewrite sum_of_zero, Z.add_0_r in Hc by (intros j th Hj; by apply (Hz j)).
  pose proof (inv_fifo s Hs) as Hf. rewrite Htk in Hf. simpl in Hf.
  destruct s as [l x]. cbn [ths sh] in *. set (jobs := LockQueue._queue (_jobs x)) in *.
  destruct (run_jobs i l jobs (zlen jobs) (mk LockQueue.new (_queuedCount x) q (pushed x)
    (executed x) jobs (started x)) Hlt eq_refl) as (es & Hes & E).
  exists (EStep i false :: EStep i false :: es ++ [EStep i false]).
  eexists. split; [repeat constructor; apply Forall_app; by repeat constructor|].
  rewrite (play_work _ i l x true q Hi Hq).
  rewrite play_exec by done. cbn [exec_step fst snd]; unfold set_exec; cbn [push].
  rewrite play_exec by done. cbn [exec_step fst snd]; unfold set_exec; cbn [push].
  unfold set_worker. cbn [_jobs _queuedCount _jobQueue pushed executed taken started].
  rewrite Htk. cbn [app]. fold jobs. rewrite (play_app _ _ _ _ E).
  rewrite play_exec by done. cbn [play exec_step fst snd]. unfold set_exec.
  cbn [push _jobs _queuedCount _jobQueue pushed executed taken started].
  rewrite Hc, Z.eqb_refl. split; [reflexivity|]. cbn [ths sh executed pushed _queuedCount].
  rewrite Z.sub_diag. split; [by apply list_insert_id|]. split_and!; done.
Qed.
End JobSerializer.
Arguments shared J : clear implicits.
Arguments thread J : clear implicits.
Arguments system J : clear implicits.
Arguments event J : clear implicits.

(** Thread 0 pushes job 1, executes it, and inside it pushes job 2 while thread 1
    pushes job 3; thread 0 is out of time and hands the serializer to the worker. *)
Definition sample : list (event Z) :=
  [EPush 0 1; EStep 0 false; EStep 0 false; EStep 0 false; EStep 0 false; EStep 0 false;
   EStep 0 false; EPush 0 2; EStep 0 false; EStep 0 false; EStep 0 false;
   EPush 1 3; EStep 1 false; EStep 1 false; EStep 1 false;
   EStep 0 false; EStep 0 false; EStep 0 true; EStep 0 false].
Definition sample_end : system Z :=
  mk_sys [mk_thread None None; mk_thread None None]
    (mk (LockQueue.mk [2; 3]) 2 (LockQueue.mk [true]) [1; 2; 3] [1] [] 3).

Lemma serializer_play_run {J} es : forall (s s' : system J), play es s = Some s' -> run step s s'.
Proof.
  induction es as [|e es IH]; intros s s'; cbn [play]; [intros [= <-]; constructor|].
  destruct (play1 e s) as [s1|] eqn:E; [|done]. intros Hp.
  apply (run_trans step s s1); [|by apply IH].
  apply (run_step s s s1); [constructor|]. by exists e.
Qed.

Lemma serializer_sample_run : run step (init 2) sample_end.
Proof. apply (serializer_play_run sample). vm_compute. reflexivity. Qed.

Lemma sample_idle i th :
  ths sample_end !! i = Some th -> push th = None /\ executing th = false.
Proof. destruct i as [|[|i]]; simpl; intros; by simplify_eq. Qed.

Lemma jobs_run_one_by_one_in_order_witness :
  run step (init 2) sample_end /\
  exists rest, pushed (sh sample_end) = executed (sh sample_end) ++ rest.
Proof.
  split; [exact serializer_sample_run|].
  exact (proj2 (jobs_run_one_by_one_in_order 2 sample_end serializer_sample_run eq_refl)).
Defined.

Lemma no_job_is_stranded_witness :
  (_queuedCount (sh sample_end) = 0 /\ executed (sh sample_end) = pushed (sh sample_end) /\
     waiting (_jobQueue (sh sample_end)) = 0) \/
  (_queuedCount (sh sample_end) <> 0 /\ waiting (_jobQueue (sh sample_end)) = 1).
Proof. exact (no_job_is_stranded 2 sample_end serializer_sample_run eq_refl sample_idle). Defined.

Lemma worker_executes_everything_witness :
  exists es s', steps_of 1 es /\ play (EWork 1 :: es) sample_end = Some s' /\
    executed (sh s') = [1; 2; 3] /\ _queuedCount (sh s') = 0.
Proof.
  destruct (worker_executes_everything 2 1 (LockQueue.mk []) sample_end serializer_sample_run eq_refl
    sample_idle eq_refl eq_refl) as (es & s' & H1 & H2 & _ & H3 & _ & H4).
  exists es, s'. split; [exact H1|]. split; [exact H2|]. split; [exact H3|exact H4].
Defined.
End JobSerializer.
