(* ===== verification/Job.v ===== *)
(** Job.h and the functions [PushJob] of JobSerializer.h: what a job is, what
    executing it does to the objects of the program, and the jobs of a serializer that
    any number of threads push to and execute ([JobSerializer.step]). *)
From S2P Require Import Prelude LockContainers JobSerializer.
#[local] Open Scope Z_scope.

(** What a move leaves behind in a value of the program's types. *)
Class Movable (V : Type) := { moved : V -> V }.

Module Job.
Section Job.
(** [W]: the state of the objects that jobs work on. *)
Context {W V : Type} `{!Movable V}.

(** An argument kept in the tuple of a job, by the type of the parameter it is for:
    a value parameter is initialised by a move from the tuple, a [const] reference is
    bound to it. *)
Inductive argument := ByValue (v : V) | ByConstRef (v : V).
Definition value (a : argument) : V := match a with ByValue v | ByConstRef v => v end.
Definition forwarded (a : argument) : argument :=
  match a with ByValue v => ByValue (moved v) | ByConstRef v => ByConstRef v end.

(** A member function, of the object at an address. *)
Definition method : Type := Z -> list V -> W -> outcome W.
(** The two kinds of callable a [Job] holds. *)
Inductive task :=
| Function (f : W -> outcome W)
| Method (ptr : Z) (pfunc : method) (args : list argument).

Record t := mk { _task : option task }.

(** [Job(std::function<void()>&& func)]; an empty function is [None]. *)
Definition new_function (func : option (W -> outcome W)) : t := mk (Function <$> func).
(** [Job(std::shared_ptr<T> ptr, Ret(T::* pfunc)(Args...), Args&&... args)]. *)
Definition new_method (ptr : Z) (pfunc : method) (args : list argument) : t :=
  mk (Some (Method ptr pfunc args)).

(** [Execute()]: the lambda is [mutable] and gives its arguments away. *)
Definition Execute (j : t) (w : W) : outcome (t * W) :=
  match _task j with
  | None => Ret (j, w)
  | Some (Function f) => let! w := f w in Ret (j, w)
  | Some (Method ptr pfunc args) =>
      if ptr =? 0 then Fault NullDeref
      else
        let! w := pfunc ptr (map value args) w in
        Ret (mk (Some (Method ptr pfunc (map forwarded args))), w)
  end.

(** What the program asks for with [PushJob], and what the call is to do. *)
Inductive request :=
| RFunction (func : option (W -> outcome W))
| RMethod (pfunc : method) (args : list argument).
Definition effect (this : Z) (r : request) (w : W) : outcome W :=
  match r with
  | RFunction None => Ret w
  | RFunction (Some f) => f w
  | RMethod pfunc args => pfunc this (map value args) w
  end.
Fixpoint effects (this : Z) (rs : list request) (w : W) : outcome W :=
  match rs with [] => Ret w | r :: rs => let! w := effect this r w in effects this rs w end.

(** [PushJob(func)] and [PushJob(pfunc, args...)] make this job; [this] is
    [shared_from_this()]. *)
Definition PushJob (this : Z) (r : request) : t :=
  match r with
  | RFunction func => new_function func
  | RMethod pfunc args => new_method this pfunc args
  end.

(** The job after its first execution. *)
Definition spent (this : Z) (r : request) : t :=
  match r with
  | RFunction func => new_function func
  | RMethod pfunc args => new_method this pfunc (map forwarded args)
  end.

Lemma Execute_PushJob this r w :
  this <> 0 ->
  Execute (PushJob this r) w = let! w := effect this r w in Ret (spent this r, w).
Proof.
  intros Hthis. destruct r as [[f|]|pfunc args]; [done..|]. unfold Execute. simpl.
  by destruct (Z.eqb_spec this 0).
Qed.

Lemma effects_app this rs1 rs2 w :
  effects this (rs1 ++ rs2) w = let! w := effects this rs1 w in effects this rs2 w.
Proof.
  revert w. induction rs1 as [|r rs1 IH]; intros w; simpl; [done|].
  destruct (effect this r w); simpl; done.
Qed.

Lemma map_forwarded args :
  map value (map forwarded args) =
  map (fun a => match a with ByValue v => moved v | ByConstRef v => v end) args.
Proof. rewrite map_map. apply map_ext. by intros []. Qed.

(** A method job that is executed a second time calls the function with what the
    first execution left of its value arguments. *)
Theorem second_execution_gets_moved_arguments this pfunc args w w1 w2 :
  this <> 0 ->
  pfunc this (map value args) w = Ret w1 ->
  pfunc this (map (fun a => match a with ByValue v => moved v | ByConstRef v => v end) args) w1
    = Ret w2 ->
  exists j1 j2, Execute (PushJob this (RMethod pfunc args)) w = Ret (j1, w1) /\
    Execute j1 w1 = Ret (j2, w2).
Proof.
  intros Hthis E1 E2. eexists _, _. rewrite (Execute_PushJob this _ w Hthis). simpl. rewrite E1.
  split; [reflexivity|]. unfold Execute. simpl. rewrite map_forwarded, E2.
  by destruct (Z.eqb_spec this 0).
Qed.
End Job.
Arguments t W V : clear implicits.
Arguments request W V : clear implicits.
End Job.

(** ** The jobs of one serializer *)
(** The threads and the queue are those of JobSerializer.v; a job is an identity, its
    contents are in a store, and when a thread begins a job the job is executed. No
    other job of the serializer runs meanwhile ([jobs_run_one_by_one_in_order]). *)
Module Actor.
Import JobSerializer Job.
Section Actor.
Context {W V : Type} `{!Movable V}.
Variable this : Z.
Hypothesis this_nonnull : this <> 0.

(** [requests] is a ghost: what each job was made for. *)
Record actor := mk { sys : system Z; jobs : gmap Z (Job.t W V); world : W;
                     requests : gmap Z (request W V) }.

Fixpoint execute_all (ids : list Z) (js : gmap Z (Job.t W V)) (w : W)
  : outcome (gmap Z (Job.t W V) * W) :=
  match ids with
  | [] => Ret (js, w)
  | id :: ids =>
      match js !! id with
      | None => Fault Dangling
      | Some j => let! (j, w) := Execute j w in execute_all ids (<[id := j]> js) w
      end
  end.

(** A thread calls [PushJob], or anything else happens. *)
Inductive actor_event := APush (i : nat) (id : Z) (r : request W V) | AStep (e : event Z).

(** The jobs an event begins. *)
Definition begun (s s' : system Z) : list Z :=
  drop (length (executed (sh s))) (executed (sh s')).

Definition aplay1 (e : actor_event) (a : actor) : option (outcome actor) :=
  match e with
  | APush i id r =>
      match jobs a !! id, play1 (EPush i id) (sys a) with
      | None, Some s' =>
          Some (Ret (mk s' (<[id := PushJob this r]> (jobs a)) (world a)
                       (<[id := r]> (requests a))))
      | _, _ => None
      end
  | AStep (EPush _ _) => None
  | AStep e =>
      match play1 e (sys a) with
      | Some s' =>
          Some (let! (js, w) := execute_all (begun (sys a) s') (jobs a) (world a) in
                Ret (mk s' js w (requests a)))
      | None => None
      end
  end.
Definition astep (a a' : actor) : Prop := exists e, aplay1 e a = Some (Ret a').
Definition ainit (n : nat) (w : W) : actor := mk (init n) ∅ w ∅.

(** ** What a step of the serializer does to the jobs *)
(** The job a thread is about to queue. *)
Definition carried (th : thread Z) : list Z :=
  match push th with Some (P_add job) | Some (P_queue job _) => [job] | _ => [] end.
Definition known (s : system Z) : list Z := pushed (sh s) ++ concat (map carried (ths s)).
Definition pushed_by (e : event Z) : list Z := match e with EPush _ job => [job] | _ => [] end.

Lemma push_step_known p th (x : shared Z) : push th = Some p ->
  let '(th', x') := push_step p th x in
  pushed x' ++ carried th' ≡ₚ pushed x ++ carried th /\ executed x' = executed x.
Proof.
  intros Hp. unfold carried. rewrite Hp.
  destruct p; simpl; [done|by rewrite app_nil_r| |done].
  destruct (prevCount =? 0); [destruct (TLS_CurrentJobSerializer th)|]; done.
Qed.
Lemma exec_step_known t x th (s : shared Z) : push th = None ->
  let '(th', s') := exec_step t x th s in
  pushed s' = pushed s /\ push th' = None /\
  (executed s' = executed s \/ exists job, executed s' = executed s ++ [job]).
Proof. intros Hp. destruct x as [| |[|]| | | |]; simpl; eauto. Qed.

Lemma known_insert (s : system Z) i th th' (x : shared Z) l :
  ths s !! i = Some th -> pushed x ++ carried th' ≡ₚ l ++ pushed (sh s) ++ carried th ->
  known (mk_sys (<[i := th']> (ths s)) x) ≡ₚ l ++ known s.
Proof.
  intros Hi E. unfold known. cbn [ths sh].
  rewrite (concat_insert carried i _ th th' Hi), (concat_others carried i _ th Hi).
  rewrite !app_assoc, <- (app_assoc l), E. solve_Permutation.
Qed.

(** A step knows no new job but the one it pushes, begins at most one job and counts
    no push away. *)
Lemma play1_known e (s s' : system Z) : play1 e s = Some s' ->
  known s' ≡ₚ pushed_by e ++ known s /\ started (sh s) <= started (sh s') /\
  (executed (sh s') = executed (sh s) \/
   exists job, executed (sh s') = executed (sh s) ++ [job] /\ pushed (sh s') = pushed (sh s) /\
     started (sh s') = started (sh s)).
Proof.
  destruct e as [i job|i t|i|i|]; simpl; intros He.
  - destruct (ths s !! i) as [th|] eqn:Hi; [|done].
    destruct (can_push th) eqn:Hc; [|done]. injection He as <-. split; [|split; [done|by left]].
    apply (known_insert s i th _ _ [job] Hi). unfold carried, can_push in *. simpl.
    destruct (push th); [done|]. rewrite app_nil_r. apply Permutation_app_comm.
  - destruct (ths s !! i) as [th|] eqn:Hi; [|done]. destruct (push th) as [p|] eqn:Hp.
    + pose proof (push_step_known p th (sh s) Hp) as Hk.
      pose proof (push_step_started p th (sh s)) as Hm.
      destruct (push_step p th (sh s)) as [th' x]. injection He as <-. destruct Hk as [Hk Hx].
      split; [exact (known_insert s i th th' x [] Hi Hk)|]. split; [exact Hm|by left].
    + destruct (exec th) as [x0|]; [|done].
      pose proof (exec_step_known t x0 th (sh s) Hp) as Hk.
      pose proof (exec_step_started t x0 th (sh s)) as Hm.
      destruct (exec_step t x0 th (sh s)) as [th' x]. injection He as <-.
      destruct Hk as (Hk & Hp' & Hx). split; [|split; [simpl in *; lia|]].
      2: { destruct Hx as [Hx|[job Hx]]; [by left|]. right. exists job. simpl in *. split_and!; done. }
      apply (known_insert s i th th' x [] Hi). unfold carried. by rewrite Hk, Hp, Hp'.
  - destruct (ths s !! i) as [th|] eqn:Hi; [|done]. destruct (idle th) eqn:Hid; [|done].
    destruct (LockQueue.take_front _) as [[b q]|]; [|done]. injection He as <-.
    split; [|split; [done|by left]]. apply (known_insert s i th _ _ [] Hi).
    by rewrite (idle_eq th Hid).
  - destruct (ths s !! i) as [th|] eqn:Hi; [|done]. destruct (idle th) eqn:Hid; [|done].
    injection He as <-. split; [|split; [done|by left]]. apply (known_insert s i th _ _ [] Hi).
    by rewrite (idle_eq th Hid).
  - injection He as <-. split; [done|split; [done|by left]].
Qed.

(** The pushes a thread has not counted yet. *)
Definition uncounted (th : thread Z) : Z :=
  match push th with Some (P_add _) => 1 | _ => 0 end.
Lemma exec_step_uncounted t x th (s : shared Z) : push th = None ->
  uncounted (exec_step t x th s).1 = 0 /\ started (exec_step t x th s).2 = started s.
Proof. intros Hp. unfold uncounted. destruct x as [| |[|]| | | |]; simpl; by rewrite Hp. Qed.
Lemma push_step_uncounted p th (s : shared Z) : push th = Some p ->
  started (push_step p th s).2 + uncounted (push_step p th s).1 = started s + uncounted th.
Proof.
  intros Hp. unfold uncounted. rewrite Hp. destruct p; simpl; try lia.
  repeat case_match; simpl in *; lia || congruence.
Qed.

(** Every push is counted once, at its beginning. *)
Lemma play1_counts e (s s' : system Z) : play1 e s = Some s' ->
  started (sh s') + sum_of uncounted (ths s') =
  started (sh s) + sum_of uncounted (ths s) + zlen (pushed_by e).
Proof.
  destruct e as [i job|i t|i|i|]; simpl; intros He.
  - destruct (ths s !! i) as [th|] eqn:Hi; [|done].
    destruct (can_push th) eqn:Hc; [|done]. injection He as <-. cbn [ths sh].
    rewrite (sum_of_insert uncounted _ _ _ _ Hi). unfold can_push, uncounted in *. simpl.
    destruct (push th); [done|]. unfold zlen. simpl. lia.
  - destruct (ths s !! i) as [th|] eqn:Hi; [|done]. change (zlen (@nil Z)) with 0.
    destruct (push th) as [p|] eqn:Hp.
    + pose proof (push_step_uncounted p th (sh s) Hp) as Hk.
      destruct (push_step p th (sh s)) as [th' x]. injection He as <-. cbn [ths sh fst snd] in *.
      rewrite (sum_of_insert uncounted _ _ _ _ Hi). lia.
    + destruct (exec th) as [x0|]; [|done].
      pose proof (exec_step_uncounted t x0 th (sh s) Hp) as [H1 H2].
      destruct (exec_step t x0 th (sh s)) as [th' x]. injection He as <-. cbn [ths sh fst snd] in *.
      rewrite (sum_of_insert uncounted _ _ _ _ Hi). unfold uncounted at 2. rewrite Hp. lia.
  - destruct (ths s !! i) as [th|] eqn:Hi; [|done]. destruct (idle th) eqn:Hid; [|done].
    destruct (LockQueue.take_front _) as [[b q]|]; [|done]. injection He as <-. cbn [ths sh].
    rewrite (sum_of_insert uncounted _ _ _ _ Hi), (idle_eq th Hid). unfold zlen. simpl.
    unfold uncounted. simpl. lia.
  - destruct (ths s !! i) as [th|] eqn:Hi; [|done]. destruct (idle th) eqn:Hid; [|done].
    injection He as <-. cbn [ths sh].
    rewrite (sum_of_insert uncounted _ _ _ _ Hi), (idle_eq th Hid). unfold zlen. simpl.
    unfold uncounted. simpl. lia.
  - injection He as <-. unfold zlen. simpl. lia.
Qed.

(** So no more pushes have begun than jobs are known. *)
Lemma started_known n (s : system Z) : run step (init n) s ->
  started (sh s) <= zlen (known s).
Proof.
  intros Hr. assert (He : started (sh s) + sum_of uncounted (ths s) = zlen (known s)).
  - revert Hr. apply (run_invariant step
      (fun s => started (sh s) + sum_of uncounted (ths s) = zlen (known s))).
    + clear s. intros s s' E [e He]. pose proof (play1_counts e s s' He) as Hc.
      destruct (play1_known e s s' He) as (Hk & _ & _).
      unfold zlen in *. rewrite (Permutation_length Hk), length_app. lia.
    + unfold known, init. cbn [ths sh started pushed app]. induction n as [|n IH]; [done|].
      simpl in *. exact IH.
  - pose proof (sum_of_nonneg uncounted (ths s)
      ltac:(intros th; unfold uncounted; by repeat case_match)) as Hn. lia.
Qed.

(** ** The invariant *)
Definition requests_of (a : actor) (ids : list Z) : list (request W V) :=
  omap (fun id => requests a !! id) ids.
Record ainv (n : nat) (w0 : W) (a : actor) : Prop := {
  ai_inv : inv (sys a);
  ai_nodup : NoDup (known (sys a));
  ai_known id : id ∈ known (sys a) -> is_Some (requests a !! id);
  ai_dom id : is_Some (requests a !! id) -> is_Some (jobs a !! id);
  ai_fresh id r : requests a !! id = Some r -> id ∉ executed (sh (sys a)) ->
    jobs a !! id = Some (PushJob this r);
  ai_world : effects this (requests_of a (executed (sh (sys a)))) w0 = Ret (world a);
}.

Lemma executed_known (s : system Z) id : inv s -> id ∈ executed (sh s) -> id ∈ known s.
Proof.
  intros Hs Hin. unfold known. rewrite (inv_fifo s Hs). rewrite !elem_of_app. auto.
Qed.

(** The next job is one that was queued, is not executed yet and is as it was made. *)
Lemma next_job n w0 a s' job :
  ainv n w0 a -> inv s' -> executed (sh s') = executed (sh (sys a)) ++ [job] ->
  pushed (sh s') = pushed (sh (sys a)) ->
  job ∉ executed (sh (sys a)) /\
  exists r, requests a !! job = Some r /\ jobs a !! job = Some (PushJob this r) /\
    exists rest, pushed (sh (sys a)) = executed (sh (sys a)) ++ job :: rest.
Proof.
  intros Ha Hs' Ex Ep. pose proof (inv_fifo s' Hs') as Hf. rewrite Ep, Ex in Hf.
  rewrite <- app_assoc in Hf. cbn [app] in Hf.
  pose proof (ai_nodup _ _ _ Ha) as Hn. unfold known in Hn. rewrite Hf in Hn.
  apply NoDup_app in Hn as (Hn & _). apply NoDup_app in Hn as (_ & Hn & _).
  assert (Hne : job ∉ executed (sh (sys a))) by (intros Hin; apply (Hn job Hin); set_solver).
  split; [exact Hne|].
  destruct (ai_known _ _ _ Ha job) as [r Hr];
    [unfold known; rewrite Hf, !elem_of_app, elem_of_cons; auto|].
  exists r. split; [done|]. split; [exact (ai_fresh _ _ _ Ha job r Hr Hne)|eauto].
Qed.

Lemma begun_none (s s' : system Z) : executed (sh s') = executed (sh s) -> begun s s' = [].
Proof. intros E. unfold begun. by rewrite E, drop_all. Qed.
Lemma begun_one (s s' : system Z) job :
  executed (sh s') = executed (sh s) ++ [job] -> begun s s' = [job].
Proof. intros E. unfold begun. by rewrite E, drop_app_length. Qed.

Lemma execute_one a job r :
  jobs a !! job = Some (PushJob this r) ->
  execute_all [job] (jobs a) (world a) =
  let! w := effect this r (world a) in Ret (<[job := spent this r]> (jobs a), w).
Proof.
  intros Hj. cbn [execute_all]. rewrite Hj, (Execute_PushJob this r (world a) this_nonnull).
  by destruct (effect this r (world a)).
Qed.
Lemma requests_push a a' id r ids :
  requests a' = <[id := r]> (requests a) -> id ∉ ids -> requests_of a' ids = requests_of a ids.
Proof.
  intros E Hid. unfold requests_of. rewrite E. induction ids as [|x ids IH]; [done|].
  apply not_elem_of_cons in Hid as [Hx Hid]. simpl. rewrite lookup_insert_ne by done.
  destruct (requests a !! x); [f_equal|]; exact (IH Hid).
Qed.

Lemma push_ainv n w0 i id r a s' :
  ainv n w0 a -> inv s' -> jobs a !! id = None -> play1 (EPush i id) (sys a) = Some s' ->
  ainv n w0 (mk s' (<[id := PushJob this r]> (jobs a)) (world a) (<[id := r]> (requests a))).
Proof.
  intros Ha Hs' Hid He. destruct (play1_known _ _ _ He) as (Hk & _ & Hx). simpl in Hk.
  assert (Hex : executed (sh s') = executed (sh (sys a))).
  { revert He. simpl. repeat case_match; [|done..]. by intros [= <-]. }
  assert (Hno : id ∉ known (sys a)).
  { intros Hin. destruct (ai_dom _ _ _ Ha id (ai_known _ _ _ Ha id Hin)) as [? E].
    by rewrite E in Hid. }
  assert (Hne : id ∉ executed (sh (sys a)))
    by (intros Hin; apply Hno, executed_known; [apply (ai_inv _ _ _ Ha)|done]).
  split; cbn [sys jobs world requests].
  - exact Hs'.
  - rewrite Hk. apply NoDup_cons. split; [done|apply (ai_nodup _ _ _ Ha)].
  - intros id'. rewrite Hk, elem_of_cons. intros [->|Hin]; [by rewrite lookup_insert_eq|].
    apply lookup_insert_is_Some'. right. exact (ai_known _ _ _ Ha id' Hin).
  - intros id' Hr. apply lookup_insert_is_Some' in Hr as [->|Hr]; apply lookup_insert_is_Some';
      [by left|right; exact (ai_dom _ _ _ Ha id' Hr)].
  - intros id' r' Hr. rewrite Hex. intros Hn. destruct (decide (id = id')) as [<-|Hd].
    + rewrite lookup_insert_eq in Hr. injection Hr as <-. by rewrite lookup_insert_eq.
    + rewrite lookup_insert_ne in Hr by done. rewrite lookup_insert_ne by done. exact (ai_fresh _ _ _ Ha id' r' Hr Hn).
  - rewrite Hex. etransitivity; [|exact (ai_world _ _ _ Ha)]. f_equal.
    apply (requests_push a _ id r); [reflexivity|exact Hne].
Qed.

(** The invariant without any job begun. *)
Lemma quiet_ainv n w0 a s' : ainv n w0 a -> inv s' -> known s' ≡ₚ known (sys a) ->
  executed (sh s') = executed (sh (sys a)) -> ainv n w0 (mk s' (jobs a) (world a) (requests a)).
Proof.
  intros Ha Hs' Hk Hex. destruct Ha as [_ Hn Hkn Hd Hf Hw].
  split; cbn [sys jobs world requests]; rewrite ?Hex; try done; [by rewrite Hk|].
  intros id. rewrite Hk. apply Hkn.
Qed.

Lemma begin_ainv n w0 a s' job r w' :
  ainv n w0 a -> inv s' -> known s' ≡ₚ known (sys a) ->
  executed (sh s') = executed (sh (sys a)) ++ [job] -> job ∉ executed (sh (sys a)) ->
  requests a !! job = Some r -> effect this r (world a) = Ret w' ->
  ainv n w0 (mk s' (<[job := spent this r]> (jobs a)) w' (requests a)).
Proof.
  intros Ha Hs' Hk Hex Hne Hr Hw. split; cbn [sys jobs world requests].
  - exact Hs'.
  - rewrite Hk. apply (ai_nodup _ _ _ Ha).
  - intros id. rewrite Hk. apply (ai_known _ _ _ Ha).
  - intros id Hid. apply lookup_insert_is_Some'. right. exact (ai_dom _ _ _ Ha id Hid).
  - intros id r'. rewrite Hex, elem_of_app, list_elem_of_singleton. intros Hr' Hn.
    rewrite lookup_insert_ne by (intros ->; apply Hn; by right).
    apply (ai_fresh _ _ _ Ha id r' Hr'). tauto.
  - unfold requests_of. rewrite Hex, omap_app, effects_app.
    pose proof (ai_world _ _ _ Ha) as E. unfold requests_of in E. cbn [requests]. rewrite E.
    cbn [obind]. simpl. rewrite Hr. simpl. by rewrite Hw.
Qed.

(** What an event that is not a push does. *)
Lemma step_result n w0 e a o :
  ainv n w0 a -> aplay1 (AStep e) a = Some o ->
  exists s', play1 e (sys a) = Some s' /\ started (sh (sys a)) <= started (sh s') /\
    ((started (sh s') = started (sh (sys a)) -> inv s') ->
     (exists a', o = Ret a' /\ sys a' = s' /\ (inv s' -> ainv n w0 a')) \/
     returns o = false /\ exists job r rest,
       pushed (sh (sys a)) = executed (sh (sys a)) ++ job :: rest /\
       requests a !! job = Some r /\ returns (effect this r (world a)) = false).
Proof.
  intros Ha Ho. assert (He : exists s', play1 e (sys a) = Some s' /\ pushed_by e = [] /\
    o = let! (js, w) := execute_all (begun (sys a) s') (jobs a) (world a) in
        Ret (mk s' js w (requests a))).
  { unfold aplay1 in Ho. destruct e; [done|..]; (case_match; [|done]); injection Ho as <-; eauto. }
  destruct He as (s' & Hp & Hby & ->). destruct (play1_known _ _ _ Hp) as (Hk & Hm & Hx).
  rewrite Hby in Hk. cbn [app] in Hk. exists s'. split; [done|]. split; [done|]. intros Hb.
  destruct Hx as [Hx|(job & Hx & Hpu & Hst)].
  - rewrite (begun_none _ _ Hx). left. eexists. split; [reflexivity|]. split; [done|].
    intros Hs'. exact (quiet_ainv n w0 a s' Ha Hs' Hk Hx).
  - pose proof (Hb Hst) as Hs'.
    destruct (next_job n w0 a s' job Ha Hs' Hx Hpu) as (Hne & r & Hr & Hj & rest & Hrest).
    rewrite (begun_one _ _ _ Hx), (execute_one a job r Hj).
    destruct (effect this r (world a)) as [w'| | |] eqn:Hw;
      [left|right; split; [done|]; exists job, r, rest; by rewrite Hw..].
    eexists. split; [reflexivity|]. split; [done|]. intros _.
    exact (begin_ainv n w0 a s' job r w' Ha Hs' Hk Hx Hne Hr Hw).
Qed.

Definition reached (n : nat) (w0 : W) (a : actor) : Prop :=
  run step (init n) (sys a) /\ (started (sh (sys a)) < 2 ^ 31 -> ainv n w0 a).

Lemma known_init n : known (init n) = [].
Proof. unfold known. simpl. induction n as [|n IH]; [done|exact IH]. Qed.

Lemma ainit_reached n w0 : reached n w0 (ainit n w0).
Proof.
  split; [constructor|]. intros Hb. unfold ainit. split; cbn [sys jobs world requests].
  - exact (serializer_init_inv n Hb).
  - rewrite known_init. constructor.
  - intros id. rewrite known_init. set_solver.
  - intros id [? H]. by rewrite lookup_empty in H.
  - intros id r H. by rewrite lookup_empty in H.
  - done.
Qed.

Lemma astep_sys e a a' : aplay1 (AStep e) a = Some (Ret a') -> play1 e (sys a) = Some (sys a').
Proof.
  unfold aplay1. intros Ho. destruct e; [done|..]; (case_match; [|done]);
    injection Ho as Ho; apply obind_ret in Ho as ([js w] & _ & Ho); by injection Ho as <-.
Qed.

Lemma astep_reached n w0 a a' : reached n w0 a -> astep a a' -> reached n w0 a'.
Proof.
  intros [Hrun Ha] [e He]. destruct e as [i id r|e].
  - simpl in He. destruct (jobs a !! id) eqn:Hid; [done|].
    destruct (play1 (EPush i id) (sys a)) as [s'|] eqn:Hp; simpl in Hp; rewrite Hp in He; [|done].
    injection He as <-. change (play1 (EPush i id) (sys a) = Some s') in Hp.
    assert (Hrun' : run step (init n) s') by (eapply run_step; [exact Hrun|by exists (EPush i id)]).
    destruct (play1_known _ _ _ Hp) as (_ & Hm & _). split; cbn [sys]; [done|]. intros Hb.
    apply push_ainv with (i := i); [apply Ha; lia|exact (serializer_run_inv n s' Hrun' Hb)|done..].
  - pose proof (astep_sys e a a' He) as Hp.
    assert (Hrun' : run step (init n) (sys a')) by (eapply run_step; [exact Hrun|by exists e]).
    split; [done|]. intros Hb. destruct (play1_known _ _ _ Hp) as (_ & Hm & _).
    pose proof (serializer_run_inv n _ Hrun' Hb) as Hs'.
    destruct (step_result n w0 e a _ (Ha ltac:(lia)) He) as (s' & Hp' & _ & Hres).
    rewrite Hp in Hp'. injection Hp' as <-.
    destruct (Hres (fun _ => Hs')) as [(a1 & [= <-] & _ & Hi)|[? _]]; [exact (Hi Hs')|done].
Qed.

Lemma run_reached n w0 a : run astep (ainit n w0) a -> reached n w0 a.
Proof. apply run_invariant; [apply astep_reached|apply ainit_reached]. Qed.

(** C14: jobs of a serializer that any number of threads push with [PushJob] and
    execute: at every moment the objects are as if the queued calls had been made one
    after the other, in the order of the queue, each with the arguments it was pushed
    with. The jobs themselves never fail: a step fails only when the next queued call
    does. *)
Theorem jobs_take_effect_in_order n w0 a :
  run astep (ainit n w0) a -> started (sh (sys a)) < 2 ^ 31 ->
  NoDup (pushed (sh (sys a))) /\
  (exists rest, pushed (sh (sys a)) = executed (sh (sys a)) ++ rest) /\
  Forall (fun id => is_Some (requests a !! id)) (executed (sh (sys a))) /\
  effects this (requests_of a (executed (sh (sys a)))) w0 = Ret (world a) /\
  forall e o, aplay1 e a = Some o -> returns o = false ->
    exists job r rest, pushed (sh (sys a)) = executed (sh (sys a)) ++ job :: rest /\
      requests a !! job = Some r /\ returns (effect this r (world a)) = false.
Proof.
  intros Hr Hb. destruct (run_reached n w0 a Hr) as [Hrun Hinv]. pose proof (Hinv Hb) as Ha.
  pose proof (ai_inv _ _ _ Ha) as Hs. split; [|split; [|split; [|split]]].
  - pose proof (ai_nodup _ _ _ Ha) as Hn. unfold known in Hn. by apply NoDup_app in Hn as [Hn _].
  - rewrite (inv_fifo _ Hs). eauto.
  - apply Forall_forall. intros id Hin. apply (ai_known _ _ _ Ha).
    by apply executed_known.
  - exact (ai_world _ _ _ Ha).
  - intros [i id r|e] o Ho Hf.
    + simpl in Ho. repeat case_match; try done; injection Ho as <-; done.
    + destruct (step_result n w0 e a o Ha Ho) as (s' & Hp & _ & Hres).
      destruct Hres as [(a' & -> & _)|[_ Hfail]]; [|done|exact Hfail].
      intros Hst. apply (serializer_run_inv n s'); [|by rewrite Hst].
      eapply run_step; [exact Hrun|by exists e].
Qed.
End Actor.
Arguments actor W V : clear implicits.
Arguments actor_event W V : clear implicits.
End Actor.

(** Two threads and texts as arguments, which a move empties; the method appends its
    argument to a log. *)
Module ActorSample.
Import JobSerializer Job Actor.
#[local] Instance texts : Movable (list Z) := {| moved _ := [] |}.
Definition log_text (ptr : Z) (args : list (list Z)) (w : list (list Z)) : outcome (list (list Z)) :=
  Ret (w ++ args).
Fixpoint aplay (es : list (actor_event (list (list Z)) (list Z)))
  (a : actor (list (list Z)) (list Z)) : option (actor (list (list Z)) (list Z)) :=
  match es with
  | [] => Some a
  | e :: es => match aplay1 64 e a with Some (Ret a) => aplay es a | _ => None end
  end.
Lemma aplay_run es : forall a a', aplay es a = Some a' -> run (astep 64) a a'.
Proof.
  induction es as [|e es IH]; intros a a'; cbn [aplay]; [intros [= <-]; constructor|].
  destruct (aplay1 64 e a) as [[a1| | |]|] eqn:E; try done. intros Hp.
  apply (run_trans _ a a1); [|by apply IH].
  apply (run_step a a a1); [constructor|]. by exists e.
Qed.

Definition say (text : list Z) : request (list (list Z)) (list Z) :=
  RMethod log_text [ByValue text].
(** Thread 0 pushes and executes job 1; inside it, it pushes job 2, and thread 1 pushes
    job 3 meanwhile. *)
Definition events : list (actor_event (list (list Z)) (list Z)) :=
  [APush 0 1 (say [104; 105])] ++ replicate 6 (AStep (EStep 0 false)) ++
  [APush 0 2 (say [50])] ++ replicate 3 (AStep (EStep 0 false)) ++
  [APush 1 3 (say [51])] ++ replicate 3 (AStep (EStep 1 false)) ++
  replicate 7 (AStep (EStep 0 false)).
Definition start : actor (list (list Z)) (list Z) := ainit 2 [].
Definition finish := default start (aplay events start).

Lemma second_execution_gets_moved_arguments_witness :
  exists j1 j2 : Job.t (list (list Z)) (list Z),
    Execute (PushJob 64 (say [104; 105])) [] = Ret (j1, [[104; 105]]) /\
    Execute j1 [[104; 105]] = Ret (j2, [[104; 105]; []]).
Proof.
  apply (second_execution_gets_moved_arguments 64 log_text [ByValue [104; 105]]);
    [lia|reflexivity..].
Defined.

Lemma jobs_take_effect_in_order_witness :
  run (astep 64) start finish /\ executed (sh (sys finish)) = [1; 2; 3] /\
  world finish = [[104; 105]; [50]; [51]] /\
  effects 64 (requests_of finish (executed (sh (sys finish)))) [] = Ret (world finish).
Proof.
  assert (E : (if aplay events start then true else false) = true) by (vm_compute; reflexivity).
  assert (Hr : run (astep 64) start finish).
  { apply (aplay_run events). unfold finish. by destruct (aplay events start). }
  split; [exact Hr|]. split; [vm_compute; reflexivity|]. split; [vm_compute; reflexivity|].
  destruct (jobs_take_effect_in_order 64 ltac:(lia) 2 [] finish Hr ltac:(vm_compute; reflexivity))
    as (_ & _ & _ & H & _).
  exact H.
Defined.
End ActorSample.
