(* ===== verification/JobWorker.v ===== *)
(** JobWorker.h/.cpp and ReservableJob.h/.cpp: the global worker's reserved jobs,
    checked by any number of threads, and its queue of serializers. The members
    under [reservableJobQueue]'s lock are atomic; [CheckReservedJob] interleaves
    with everything else. *)
From Stdlib Require Import Sorted.
From S2P Require Import Prelude LockContainers.
#[local] Open Scope Z_scope.

Module JobWorker.
Section Reserved.
Context {J : Type}.

(** A [ReservableJob] and its [JobData], identified by [rid]; [_canceled] and the
    life of the data and of the owner are kept in the state. *)
Record reservable := mk_res { rid : nat; _executionTick : Z; _job : J; _owner : nat }.

(** [PushReservableJob(tickAfter, ...)] at tick [now]. *)
Definition PushReservableJob (id : nat) (tickAfter now : Z) (job : J) (self : nat) : reservable :=
  mk_res id (u64 (tickAfter + now)) job self.
Definition GetExecutionTick (r : reservable) : Z := _executionTick r.
(** [ReservableJobCompare]: the earliest job has the largest key. *)
Definition ReservableJobCompare (r : reservable) : Z := - _executionTick r.

Context {Q : Type} `{!PriorityQueue reservable Q ReservableJobCompare}.

(** The loop of [CheckReservedJob] under the lock. *)
Fixpoint due_loop (fuel : nat) (nowTick : Z) (jobs : list reservable) (q : Q)
  : outcome (list reservable * Q) :=
  match fuel with
  | O => NoFuel
  | S fuel =>
      match pq_top q with
      | None => Ret (jobs, q)
      | Some job =>
          if nowTick <? GetExecutionTick job then Ret (jobs, q)
          else due_loop fuel nowTick (jobs ++ [job]) (pq_pop q)
      end
  end.

(** A thread in [CheckReservedJob]: before the loop under the lock, before the
    next [PushJobToSerializer], inside [owner->Push] of one. *)
Inductive pc := Idle | C_copy (nowTick : Z) | C_push (nowTick : Z) (jobs : list reservable)
| C_release (nowTick : Z) (job : reservable) (jobs : list reservable).

(** The worker, the flags of the reserved jobs, the owners that are gone, the
    threads; ghosts: the jobs reserved, the jobs whose [JobData] is released, the
    jobs dropped by [ClearReservedJobs], the calls of [owner->Push] with the tick
    of their check. *)
Record system := mk {
  _reservableQueue : Q;
  _executingReservables : bool;
  _canceled : gset nat;
  expired : gset nat;
  pcs : list pc;
  added : list reservable;
  released : list reservable;
  cleared : list reservable;
  pushes : list (Z * reservable);
}.

Definition set_pc (i : nat) (p : pc) (s : system) : system :=
  mk (_reservableQueue s) (_executingReservables s) (_canceled s) (expired s)
    (<[i := p]> (pcs s)) (added s) (released s) (cleared s) (pushes s).
Definition set_executing (b : bool) (s : system) : system :=
  mk (_reservableQueue s) b (_canceled s) (expired s) (pcs s) (added s) (released s)
    (cleared s) (pushes s).
Definition set_queue (q : Q) (s : system) : system :=
  mk q (_executingReservables s) (_canceled s) (expired s) (pcs s) (added s) (released s)
    (cleared s) (pushes s).
(** [ObjectPool<JobData>::Release(_jobData)]. *)
Definition release_data (r : reservable) (s : system) : system :=
  mk (_reservableQueue s) (_executingReservables s) (_canceled s) (expired s) (pcs s)
    (added s) (released s ++ [r]) (cleared s) (pushes s).
Definition add_push (nowTick : Z) (r : reservable) (s : system) : system :=
  mk (_reservableQueue s) (_executingReservables s) (_canceled s) (expired s) (pcs s)
    (added s) (released s) (cleared s) (pushes s ++ [(nowTick, r)]).

(** [PushJobToSerializer] up to [owner->Push]: [JobData] that was released is
    gone; a cancelled job or one without owner is only released. *)
Definition PushJobToSerializer (i : nat) (nowTick : Z) (r : reservable)
    (jobs : list reservable) (s : system) : outcome system :=
  if decide (rid r ∈ rid <$> released s) then Fault Dangling
  else if decide (rid r ∈ _canceled s \/ _owner r ∈ expired s) then
    Ret (set_pc i (C_push nowTick jobs) (release_data r s))
  else Ret (set_pc i (C_release nowTick r jobs) (add_push nowTick r s)).

Definition check_step (i : nat) (p : pc) (s : system) : option (outcome system) :=
  match p with
  | Idle => None
  | C_copy nowTick =>
      Some (let! (jobs, q) := due_loop (S (length (pq_list (_reservableQueue s)))) nowTick []
                                (_reservableQueue s) in
            Ret (set_pc i (C_push nowTick jobs) (set_queue q s)))
  | C_push nowTick (r :: jobs) => Some (PushJobToSerializer i nowTick r jobs s)
  | C_push _ [] => Some (Ret (set_pc i Idle (set_executing false s)))
  | C_release nowTick r jobs =>
      Some (Ret (set_pc i (C_push nowTick jobs) (release_data r s)))
  end.

(** [ECheck] is the call of [CheckReservedJob] up to the [exchange] and its test; a
    job run by [owner->Push] may call it, too. *)
Inductive event := EAdd (r : reservable) | ECancel (id : nat) | EExpire (owner : nat)
| EClear | ECheck (i : nat) (nowTick : Z) | EStep (i : nat).

Definition play1 (e : event) (s : system) : option (outcome system) :=
  match e with
  | EAdd job =>
      Some (Ret (mk (pq_push job (_reservableQueue s)) (_executingReservables s)
        (_canceled s) (expired s) (pcs s) (added s ++ [job]) (released s) (cleared s)
        (pushes s)))
  | ECancel id =>
      Some (Ret (mk (_reservableQueue s) (_executingReservables s) ({[id]} ∪ _canceled s)
        (expired s) (pcs s) (added s) (released s) (cleared s) (pushes s)))
  | EExpire o =>
      Some (Ret (mk (_reservableQueue s) (_executingReservables s) (_canceled s)
        ({[o]} ∪ expired s) (pcs s) (added s) (released s) (cleared s) (pushes s)))
  | EClear =>
      Some (let! q := Clear (_reservableQueue s) in
            Ret (mk q (_executingReservables s) (_canceled s) (expired s) (pcs s) (added s)
                   (released s) (cleared s ++ pq_list (_reservableQueue s)) (pushes s)))
  | ECheck i nowTick =>
      match pcs s !! i with
      | Some _ => if _executingReservables s then Some (Ret s)
                  else Some (Ret (set_pc i (C_copy nowTick) (set_executing true s)))
      | None => None
      end
  | EStep i => match pcs s !! i with Some p => check_step i p s | None => None end
  end.
Definition step (s s' : system) : Prop := exists e, play1 e s = Some (Ret s').
Fixpoint play (es : list event) (s : system) : option (outcome system) :=
  match es with
  | [] => Some (Ret s)
  | e :: es => match play1 e s with Some (Ret s) => play es s | x => x end
  end.
Definition init (n : nat) : system :=
  mk pq_new false ∅ ∅ (replicate n Idle) [] [] [] [].

(** ** The loop is [PopAll] *)
Definition due (nowTick : Z) (r : reservable) : bool := GetExecutionTick r <=? nowTick.
Definition earlier (r1 r2 : reservable) : Prop := GetExecutionTick r1 <= GetExecutionTick r2.

Lemma due_loop_PopAll fuel nowTick : forall jobs q,
  due_loop fuel nowTick jobs q = PopAll fuel (due nowTick) jobs q.
Proof.
  induction fuel as [|fuel IH]; intros jobs q; [done|].
  cbn [due_loop PopAll remove LockPriorityQueue.pq_container]. unfold LockPriorityQueue.take_top.
  destruct (pq_top q) as [job|]; [|done]. unfold due.
  rewrite Z.ltb_antisym. destruct (GetExecutionTick job <=? nowTick); simpl; [apply IH|done].
Qed.

Lemma sorted_weaken {A} (R R' : A -> A -> Prop) l :
  (forall x y, R x y -> R' x y) -> StronglySorted R l -> StronglySorted R' l.
Proof.
  intros HR. induction 1 as [|x l _ IH Hx]; constructor; [done|].
  eapply Forall_impl; [exact Hx|]. apply HR.
Qed.

Lemma due_loop_ok nowTick q :
  exists q', due_loop (S (length (pq_list q))) nowTick [] q =
      Ret (List.filter (due nowTick) (LockPriorityQueue.order_of q), q') /\
    pq_list q' ≡ₚ List.filter (fun r => negb (due nowTick r)) (pq_list q) /\
    StronglySorted earlier (LockPriorityQueue.order_of q).
Proof.
  rewrite due_loop_PopAll.
  assert (Hl : (length (order q) < S (length (pq_list q)))%nat)
    by (simpl; rewrite LockPriorityQueue.order_perm; lia).
  destruct (PopAll_ok (due nowTick) q _ [] Hl) as (q' & E & Ho). simpl in Ho.
  destruct (LockPriorityQueue.take_while_sorted (key := ReservableJobCompare) (due nowTick)
    (LockPriorityQueue.order_of q)) as [Ht Hd]; [|apply LockPriorityQueue.order_sorted|].
  { intros x y. unfold due, ReservableJobCompare, GetExecutionTick. lia. }
  exists q'. rewrite E. simpl. rewrite Ht. split; [done|]. split.
  - rewrite <- (LockPriorityQueue.order_perm q'), Ho, Hd.
    by apply LockPriorityQueue.filter_perm, LockPriorityQueue.order_perm.
  - apply (sorted_weaken (fun x y => ReservableJobCompare y <= ReservableJobCompare x));
      [|apply LockPriorityQueue.order_sorted].
    intros x y. unfold ReservableJobCompare, earlier, GetExecutionTick. lia.
Qed.

(** ** The invariant *)
(** The jobs a checking thread has in hand, and the one inside [owner->Push]. *)
Definition hand (p : pc) : list reservable :=
  match p with C_push _ l => l | C_release _ r l => r :: l | _ => [] end.
Definition pushing (p : pc) : list reservable :=
  match p with C_release _ r _ => [r] | _ => [] end.
Definition tick_ok (p : pc) : Prop :=
  match p with
  | C_push n l => Forall (fun r => due n r = true) l
  | C_release n r l => Forall (fun r => due n r = true) l
  | _ => True
  end.
Definition ids (l : list reservable) : list nat := rid <$> l.

(** The state of the checking thread: the only one that is not idle. *)
Definition checker (s : system) (p : pc) : Prop :=
  if _executingReservables s
  then p <> Idle /\ exists i, forall j q, pcs s !! j = Some q -> q = if decide (j = i) then p else Idle
  else p = Idle /\ forall j q, pcs s !! j = Some q -> q = Idle.

Record inv_at (s : system) (p : pc) : Prop := {
  inv_checker : checker s p;
  inv_jobs : added s ≡ₚ pq_list (_reservableQueue s) ++ hand p ++ released s ++ cleared s;
  inv_pushes : (snd <$> pushes s) ⊆+ released s ++ pushing p;
  inv_ticks : Forall (fun x => GetExecutionTick x.2 <= x.1) (pushes s);
  inv_hand : tick_ok p;
}.

Lemma checker_lookup s p i q :
  checker s p -> pcs s !! i = Some q -> q <> Idle -> q = p /\ _executingReservables s = true.
Proof.
  unfold checker. destruct (_executingReservables s); intros [? Hc] Hi Hq.
  - destruct Hc as [j Hc]. pose proof (Hc i q Hi). destruct (decide (i = j)); done.
  - destruct Hq. exact (Hc i q Hi).
Qed.

(** A step of the checking thread that stays inside. *)
Lemma checker_set s s1 p p' i :
  checker s p -> pcs s !! i = Some p -> p <> Idle -> p' <> Idle ->
  pcs s1 = pcs s -> _executingReservables s1 = _executingReservables s ->
  checker (set_pc i p' s1) p'.
Proof.
  intros Hc Hi Hp Hp' E1 E2. destruct (checker_lookup s p i p Hc Hi Hp) as [_ Ht].
  unfold checker in *. simpl. rewrite E2, Ht, E1 in *. destruct Hc as [_ [k Hc]].
  split; [done|]. exists i. intros j q [(<- & <- & _)|[Hne Hj]]%list_lookup_insert_Some.
  - by rewrite decide_True.
  - rewrite decide_False by done. pose proof (Hc i p Hi) as Hk. pose proof (Hc j q Hj) as Hq.
    destruct (decide (i = k)) as [<-|]; [|done]. by rewrite decide_False in Hq.
Qed.

(** The return of [CheckReservedJob]. *)
Lemma checker_leave s p i :
  checker s p -> pcs s !! i = Some p -> p <> Idle ->
  checker (set_pc i Idle (set_executing false s)) Idle.
Proof.
  intros Hc Hi Hp. destruct (checker_lookup s p i p Hc Hi Hp) as [_ Ht].
  unfold checker in *. simpl. rewrite Ht in Hc. destruct Hc as [_ [k Hc]]. split; [done|].
  intros j q [(<- & <- & _)|[Hne Hj]]%list_lookup_insert_Some; [done|].
  pose proof (Hc i p Hi) as Hk. pose proof (Hc j q Hj) as Hq.
  destruct (decide (i = k)) as [<-|]; [|done]. by rewrite decide_False in Hq.
Qed.

Lemma checker_enter s n i q :
  checker s Idle -> _executingReservables s = false -> pcs s !! i = Some q ->
  checker (set_pc i (C_copy n) (set_executing true s)) (C_copy n).
Proof.
  unfold checker. intros Hc Hf Hi. rewrite Hf in Hc. destruct Hc as [_ Hc]. simpl.
  split; [done|]. exists i. intros j p [(<- & <- & _)|[Hne Hj]]%list_lookup_insert_Some.
  - by rewrite decide_True.
  - rewrite decide_False by done. exact (Hc j p Hj).
Qed.

(** With one reservation per id, a job in hand has its data. *)
Lemma hand_not_released s p r l :
  inv_at s p -> hand p = r :: l -> NoDup (ids (added s)) -> rid r ∉ ids (released s).
Proof.
  intros Hs Hh Hn Hin. unfold ids in *. rewrite (inv_jobs s p Hs), Hh in Hn.
  rewrite !fmap_app in Hn. apply NoDup_app in Hn as (_ & _ & Hn).
  simpl in Hn. apply NoDup_cons in Hn as [Hn _].
  apply Hn. rewrite !elem_of_app. auto.
Qed.

Lemma PushJobToSerializer_eq i n r l s p :
  inv_at s p -> hand p = r :: l -> NoDup (ids (added s)) ->
  PushJobToSerializer i n r l s =
  Ret (if decide (rid r ∈ _canceled s \/ _owner r ∈ expired s)
       then set_pc i (C_push n l) (release_data r s)
       else set_pc i (C_release n r l) (add_push n r s)).
Proof.
  intros Hs Hh Hn. unfold PushJobToSerializer.
  rewrite decide_False by (exact (hand_not_released s p r l Hs Hh Hn)).
  by destruct (decide _).
Qed.

Lemma filter_split (f : reservable -> bool) l :
  l ≡ₚ List.filter (fun r => negb (f r)) l ++ List.filter f l.
Proof.
  induction l as [|x l IH]; [done|]. simpl. destruct (f x); simpl.
  - rewrite <- Permutation_middle. by rewrite <- IH.
  - by rewrite <- IH.
Qed.
Lemma filter_all_true (f : reservable -> bool) l :
  Forall (fun r => f r = true) (List.filter f l).
Proof. apply Forall_forall. intros r Hr%list_elem_of_In%filter_In. by destruct Hr. Qed.

(** No step of a checking thread faults, and each keeps the invariant. *)
Lemma check_step_ok s i p :
  inv_at s p -> pcs s !! i = Some p -> p <> Idle -> NoDup (ids (added s)) ->
  exists s' p', check_step i p s = Some (Ret s') /\ inv_at s' p' /\ added s' = added s.
Proof.
  intros Hs Hi Hp Hn. destruct p as [|n|n [|r l]|n r l]; [done|..]; cbn [check_step].
  - destruct (due_loop_ok n (_reservableQueue s)) as (q' & -> & Hq & _). cbn [obind].
    eexists _, (C_push n _). split; [reflexivity|]. split; [|done].
    destruct Hs as [Hc Hj Hpu Ht Hh]. split; try done.
    + by apply (checker_set s _ _ _ i Hc Hi).
    + simpl. simpl in Hj. rewrite Hj, Hq.
      rewrite (filter_split (due n) (pq_list (_reservableQueue s))) at 1.
      rewrite <- !app_assoc. apply Permutation_app_head, Permutation_app_tail.
      symmetry. apply LockPriorityQueue.filter_perm, LockPriorityQueue.order_perm.
    + apply filter_all_true.
  - eexists _, Idle. split; [reflexivity|]. split; [|done].
    destruct Hs as [Hc Hj Hpu Ht Hh]. split; try done. by apply (checker_leave s (C_push n [])).
  - rewrite (PushJobToSerializer_eq i n r l s (C_push n (r :: l)) Hs eq_refl Hn).
    destruct Hs as [Hc Hj Hpu Ht Hh]. simpl in *. apply Forall_cons in Hh as [Hr Hl].
    destruct (decide (rid r ∈ _canceled s \/ _owner r ∈ expired s)).
    + eexists _, (C_push n l). split; [reflexivity|]. split; [|done]. split; simpl; try done.
      * by apply (checker_set s _ _ _ i Hc Hi).
      * rewrite Hj. apply Permutation_app_head. simpl. rewrite <- !app_assoc. simpl.
        by rewrite (app_assoc l), (app_assoc l), <- Permutation_middle.
      * rewrite app_nil_r in *. etransitivity; [exact Hpu|]. by apply submseteq_inserts_r.
    + eexists _, (C_release n r l). split; [reflexivity|]. split; [|done]. split; simpl; try done.
      * by apply (checker_set s _ _ _ i Hc Hi).
      * rewrite fmap_app. simpl. rewrite app_nil_r in Hpu.
        by apply submseteq_skips_r.
      * apply Forall_app. split; [done|]. repeat constructor. simpl. unfold due in Hr. lia.
  - eexists _, (C_push n l). split; [reflexivity|].
    destruct Hs as [Hc Hj Hpu Ht Hh]. simpl in *. split; [|done]. split; simpl; try done.
    + by apply (checker_set s _ _ _ i Hc Hi).
    + rewrite Hj. apply Permutation_app_head. simpl. rewrite <- !app_assoc. simpl.
      by rewrite (app_assoc l), (app_assoc l), <- Permutation_middle.
    + by rewrite app_nil_r.
Qed.

(** Changes outside the checking thread. *)
Lemma inv_outside s s' p :
  inv_at s p -> pcs s' = pcs s -> _executingReservables s' = _executingReservables s ->
  released s' = released s -> pushes s' = pushes s ->
  added s' ≡ₚ pq_list (_reservableQueue s') ++ hand p ++ released s ++ cleared s' ->
  inv_at s' p.
Proof.
  intros [Hc Hj Hpu Ht Hh] E1 E2 E3 E4 E. split; rewrite ?E3, ?E4; try done.
  unfold checker in *. by rewrite E1, E2.
Qed.

Definition inv (s : system) : Prop := NoDup (ids (added s)) -> exists p, inv_at s p.

Lemma check_step_added i p s s' :
  check_step i p s = Some (Ret s') -> added s' = added s.
Proof.
  destruct p as [|n|n [|r l]|n r l]; cbn [check_step]; [done|..];
    intros E%(inj Some).
  - destruct (due_loop_ok n (_reservableQueue s)) as (q' & Eq & _).
    rewrite Eq in E. cbn [obind] in E. by injection E as <-.
  - by injection E as <-.
  - unfold PushJobToSerializer in E. destruct (decide (rid r ∈ _)); [done|].
    destruct (decide _); by injection E as <-.
  - by injection E as <-.
Qed.

(** Every event that is possible returns and keeps the invariant. *)
Lemma play1_ok e s o :
  inv s -> play1 e s = Some o ->
  (NoDup (ids (added s)) -> exists s', o = Ret s') /\ forall s', o = Ret s' -> inv s'.
Proof.
  intros Hs He. unfold inv in *.
  destruct e as [job|id|ow| |i n|i]; cbn [play1] in He.
  - injection He as <-. split; [by eexists|]. intros s' [= <-] Hn. simpl in Hn.
    unfold ids in Hn. rewrite fmap_app in Hn. apply NoDup_app in Hn as (Hn & _ & _).
    destruct (Hs Hn) as [p Hp]. exists p. apply (inv_outside s _ p Hp); try done. simpl.
    rewrite (inv_jobs s p Hp), pq_push_list. by rewrite <- Permutation_cons_append.
  - injection He as <-. split; [by eexists|]. intros s' [= <-] Hn.
    destruct (Hs Hn) as [p Hp]. exists p. apply (inv_outside s _ p Hp); try done.
    exact (inv_jobs s p Hp).
  - injection He as <-. split; [by eexists|]. intros s' [= <-] Hn.
    destruct (Hs Hn) as [p Hp]. exists p. apply (inv_outside s _ p Hp); try done.
    exact (inv_jobs s p Hp).
  - destruct (Clear_ok (_reservableQueue s)) as (q & Eq & Hq). rewrite Eq in He.
    cbn [obind] in He. injection He as <-. split; [by eexists|]. intros s' [= <-] Hn.
    destruct (Hs Hn) as [p Hp]. exists p. apply (inv_outside s _ p Hp); try done. simpl.
    assert (Hnil : pq_list q = []).
    { simpl in Hq. pose proof (LockPriorityQueue.order_perm q) as Hperm. rewrite Hq in Hperm.
      by apply Permutation_nil in Hperm. }
    rewrite Hnil, (inv_jobs s p Hp), Permutation_app_comm, <- !app_assoc. done.
  - destruct (pcs s !! i) as [q|] eqn:Hi; [|done].
    destruct (_executingReservables s) eqn:Hf; injection He as <-; (split; [by eexists|]);
      intros s' [= <-] Hn; [by apply Hs|].
    destruct (Hs Hn) as [p Hp]. exists (C_copy n). pose proof (inv_checker s p Hp) as Hc.
    assert (p = Idle) as -> by (unfold checker in Hc; rewrite Hf in Hc; by destruct Hc).
    destruct Hp as [_ Hj Hpu Ht Hh]. split; try done. by apply (checker_enter s n i q).
  - destruct (pcs s !! i) as [p0|] eqn:Hi; [|done].
    assert (Hne : p0 <> Idle) by (by intros ->).
    assert (Hok : NoDup (ids (added s)) -> exists s' p', o = Ret s' /\ inv_at s' p').
    { intros Hn. destruct (Hs Hn) as [p Hp].
      destruct (checker_lookup s p i p0 (inv_checker s p Hp) Hi Hne) as [-> _].
      destruct (check_step_ok s i p Hp Hi Hne Hn) as (s' & p' & E & Hp' & _).
      rewrite E in He. injection He as <-. eauto. }
    split; [intros Hn; destruct (Hok Hn) as (s' & _ & E & _); eauto|].
    intros s' -> Hn. rewrite (check_step_added i p0 s s' He) in Hn.
    destruct (Hok Hn) as (s1 & p1 & E & Hp1). injection E as <-. eauto.
Qed.

Lemma worker_init_inv n : inv (init n).
Proof.
  intros _. exists Idle. split; simpl; try done.
  - split; [done|]. intros j q [? _]%lookup_replicate. done.
  - by rewrite pq_new_list.
Qed.

Lemma worker_run_inv n s : run step (init n) s -> inv s.
Proof.
  apply (run_invariant step inv); [|apply worker_init_inv].
  intros a b Ha [e He]. exact (proj2 (play1_ok e a (Ret b) Ha He) b eq_refl).
Qed.

Lemma NoDup_ids (l k : list reservable) : l ⊆+ k -> NoDup (ids k) -> NoDup (ids l).
Proof.
  intros Hl Hk. destruct (submseteq_Permutation _ _ Hl) as [k' E].
  unfold ids in *. rewrite E, fmap_app in Hk. by apply NoDup_app in Hk as [Hk _].
Qed.

(** What was pushed: reserved jobs, each once, in their time. *)
Lemma pushes_reserved n s : run step (init n) s -> NoDup (ids (added s)) ->
  NoDup (ids (snd <$> pushes s)) /\
  Forall (fun x => GetExecutionTick x.2 <= x.1 /\ x.2 ∈ added s) (pushes s).
Proof.
  intros Hr Hn. destruct (worker_run_inv n s Hr Hn) as [p Hp]. pose proof (inv_jobs s p Hp) as Hj.
  assert (Hsub : (snd <$> pushes s) ⊆+ added s).
  { etransitivity; [exact (inv_pushes s p Hp)|]. rewrite Hj.
    rewrite (Permutation_app_comm (released s)). apply submseteq_inserts_l.
    rewrite app_assoc. apply submseteq_inserts_r. apply submseteq_app; [|done].
    destruct p; simpl; try apply submseteq_nil_l.
    apply submseteq_skip, submseteq_nil_l. }
  split; [exact (NoDup_ids _ _ Hsub Hn)|]. apply Forall_forall. intros x Hx. split.
  - pose proof (inv_ticks s p Hp) as Ht. rewrite Forall_forall in Ht. by apply Ht.
  - apply (elem_of_submseteq _ _ _ (list_elem_of_fmap_2 snd _ _ Hx) Hsub).
Qed.

Lemma worker_returns n s e o : run step (init n) s -> NoDup (ids (added s)) ->
  play1 e s = Some o -> exists s', o = Ret s'.
Proof. intros Hr Hn He. exact (proj1 (play1_ok e s o (worker_run_inv n s Hr) He) Hn). Qed.

(** The ghosts only grow; a step pushes at most one job. *)
Lemma play1_grows e s s' : play1 e s = Some (Ret s') ->
  (exists l, added s' = added s ++ l) /\
  (pushes s' = pushes s \/ exists x, pushes s' = pushes s ++ [x]).
Proof.
  intros He. assert (Hnil : forall A (l : list A), exists k, l = l ++ k)
    by (intros A l; exists []; by rewrite app_nil_r).
  destruct e as [r|id|o| |i t|i]; simpl in He.
  - injection He as <-. simpl. split; [eauto|by left].
  - injection He as <-. split; [apply Hnil|by left].
  - injection He as <-. split; [apply Hnil|by left].
  - injection He as He. apply obind_ret in He as (q & _ & He). injection He as <-.
    split; [apply Hnil|by left].
  - destruct (pcs s !! i); [|done]. destruct (_executingReservables s); injection He as <-;
      (split; [apply Hnil|by left]).
  - destruct (pcs s !! i) as [p|]; [|done]. destruct p as [|t|t [|r l]|t r l]; simpl in He; try done.
    + injection He as He. apply obind_ret in He as ([js q] & _ & He). injection He as <-.
      split; [apply Hnil|by left].
    + injection He as <-. split; [apply Hnil|by left].
    + injection He as He. unfold PushJobToSerializer in He.
      destruct (decide _); [done|]. destruct (decide _); injection He as <-; simpl; eauto.
    + injection He as <-. split; [apply Hnil|by left].
Qed.

(** C22: over every interleaving of reservations, cancellations, expiring owners,
    [ClearReservedJobs] and threads in [CheckReservedJob], when no job is reserved
    twice: one thread at a time checks; every job is pushed to its serializer at most
    once and never before its tick; no [JobData] is used after its release; and
    between checks each reservation is queued, released or was dropped by
    [ClearReservedJobs], whose data is never released. *)
Theorem reserved_jobs_pushed_once n s :
  run step (init n) s -> NoDup (ids (added s)) ->
  (forall i j p q, pcs s !! i = Some p -> pcs s !! j = Some q ->
     p <> Idle -> q <> Idle -> i = j) /\
  NoDup (ids (snd <$> pushes s)) /\
  Forall (fun x => GetExecutionTick x.2 <= x.1 /\ x.2 ∈ added s) (pushes s) /\
  (forall e o, play1 e s = Some o -> returns o = true) /\
  (_executingReservables s = false ->
     added s ≡ₚ pq_list (_reservableQueue s) ++ released s ++ cleared s) /\
  (forall r, r ∈ cleared s -> r ∉ released s).
Proof.
  intros Hr Hn. pose proof (worker_run_inv n s Hr) as Hi. destruct (Hi Hn) as [p Hp].
  pose proof (inv_checker s p Hp) as Hc. pose proof (inv_jobs s p Hp) as Hj.
  destruct (pushes_reserved n s Hr Hn) as [Honce Htime].
  split; [|split; [exact Honce|split; [exact Htime|split; [|split]]]].
  - intros i j p1 p2 H1 H2 N1 N2. pose proof (checker_lookup s p i p1 Hc H1 N1) as [-> Ht].
    unfold checker in Hc. rewrite Ht in Hc. destruct Hc as [_ [k Hc]].
    pose proof (Hc i _ H1). pose proof (Hc j _ H2).
    destruct (decide (i = k)) as [->|]; [|done]. by destruct (decide (j = k)).
  - intros e o He. by destruct (worker_returns n s e o Hr Hn He) as [s' ->].
  - intros Hf. unfold checker in Hc. rewrite Hf in Hc. destruct Hc as [-> _]. exact Hj.
  - intros r H1 H2. unfold ids in Hn. rewrite Hj, !fmap_app in Hn.
    apply NoDup_app in Hn as (_ & _ & Hn). apply NoDup_app in Hn as (_ & _ & Hn).
    apply NoDup_app in Hn as (_ & Hn & _).
    apply (Hn (rid r)); by apply list_elem_of_fmap_2.
Qed.

(** ** One undisturbed check *)
(** Whether [PushJobToSerializer] calls [owner->Push]. *)
Definition pushable (s : system) (r : reservable) : bool :=
  bool_decide (~ (rid r ∈ _canceled s \/ _owner r ∈ expired s)).
Definition after_push (i : nat) (n : Z) (l : list reservable) (s : system) : system :=
  mk (_reservableQueue s) (_executingReservables s) (_canceled s) (expired s)
    (<[i := C_push n []]> (pcs s)) (added s) (released s ++ l) (cleared s)
    (pushes s ++ (pair n <$> List.filter (pushable s) l)).

Lemma play_steps k i (s : system) p s1 :
  pcs s !! i = Some p -> check_step i p s = Some (Ret s1) ->
  play (replicate (S k) (EStep i)) s = play (replicate k (EStep i)) s1.
Proof. intros Hi E. cbn [replicate play play1]. by rewrite Hi, E. Qed.

(** [k] steps of the thread [i]. *)
Lemma push_all i n l : forall s,
  pcs s !! i = Some (C_push n l) -> NoDup (ids (l ++ released s)) ->
  exists k, forall m, play (replicate (k + m) (EStep i)) s =
    play (replicate m (EStep i)) (after_push i n l s).
Proof.
  induction l as [|r l IH]; intros s Hi Hn.
  { exists 0%nat. intros m. unfold after_push. simpl. rewrite !app_nil_r, list_insert_id by done.
    by destruct s. }
  assert (Hlt : (i < length (pcs s))%nat) by (by eapply lookup_lt_Some).
  assert (Hr : rid r ∉ ids (released s)).
  { unfold ids in Hn. simpl in Hn. rewrite fmap_app in Hn. apply NoDup_cons in Hn as [Hn _].
    set_solver. }
  assert (Hn' : NoDup (ids (l ++ released s ++ [r]))).
  { apply (NoDup_ids _ ((r :: l) ++ released s)); [|exact Hn].
    by rewrite app_assoc, <- Permutation_cons_append. }
  destruct (decide (rid r ∈ _canceled s \/ _owner r ∈ expired s)) as [Hd|Hd].
  - set (s1 := set_pc i (C_push n l) (release_data r s)).
    destruct (IH s1) as (k & E); [by apply list_lookup_insert_eq|exact Hn'|].
    exists (S k). intros m. cbn [Nat.add]. rewrite (play_steps _ i s (C_push n (r :: l)) s1 Hi).
    2: { cbn [check_step]. unfold PushJobToSerializer. by rewrite decide_False, decide_True. }
    rewrite E. f_equal. unfold after_push. simpl. rewrite list_insert_insert_eq, <- app_assoc.
    assert (Hf : pushable s r = false) by (apply bool_decide_eq_false; tauto).
    by rewrite Hf.
  - set (s1 := set_pc i (C_release n r l) (add_push n r s)).
    set (s2 := set_pc i (C_push n l) (release_data r s1)).
    destruct (IH s2) as (k & E).
    { apply list_lookup_insert_eq. simpl. by rewrite length_insert. }
    { exact Hn'. }
    exists (S (S k)). intros m. cbn [Nat.add]. rewrite (play_steps _ i s (C_push n (r :: l)) s1 Hi).
    2: { cbn [check_step]. unfold PushJobToSerializer. by rewrite !decide_False. }
    rewrite (play_steps _ i s1 (C_release n r l) s2); [|by apply list_lookup_insert_eq|done].
    rewrite E. f_equal. unfold after_push. simpl.
    rewrite !list_insert_insert_eq, <- !app_assoc.
    assert (Hf : pushable s r = true) by (by apply bool_decide_eq_true).
    by rewrite Hf.
Qed.

(** C24: [CheckReservedJob(nowTick)] called while nobody else checks and run to its
    end: it returns; it has pushed exactly the due jobs that are neither cancelled
    nor without owner, earliest first; all due jobs are released and the others
    stay reserved; and it may be called again. *)
Theorem CheckReservedJob_pushes_due n s i p nowTick :
  run step (init n) s -> NoDup (ids (added s)) ->
  _executingReservables s = false -> pcs s !! i = Some p ->
  exists k s' jobs, play (ECheck i nowTick :: replicate k (EStep i)) s = Some (Ret s') /\
    jobs ≡ₚ List.filter (due nowTick) (pq_list (_reservableQueue s)) /\
    StronglySorted earlier jobs /\
    pushes s' = pushes s ++ (pair nowTick <$> List.filter (pushable s) jobs) /\
    released s' = released s ++ jobs /\
    pq_list (_reservableQueue s') ≡ₚ
      List.filter (fun r => negb (due nowTick r)) (pq_list (_reservableQueue s)) /\
    _executingReservables s' = false /\ pcs s' = pcs s.
Proof.
  intros Hr Hn Hf Hi. destruct (worker_run_inv n s Hr Hn) as [p1 Hp].
  pose proof (inv_checker s p1 Hp) as Hc. unfold checker in Hc. rewrite Hf in Hc.
  destruct Hc as [-> Hidle]. pose proof (Hidle i p Hi) as ->.
  assert (Hlt : (i < length (pcs s))%nat) by (by eapply lookup_lt_Some).
  destruct (due_loop_ok nowTick (_reservableQueue s)) as (q' & Eq & Hq & Hs).
  set (jobs := List.filter (due nowTick) (LockPriorityQueue.order_of (_reservableQueue s))) in *.
  assert (Hjobs : jobs ≡ₚ List.filter (due nowTick) (pq_list (_reservableQueue s)))
    by apply LockPriorityQueue.filter_perm, LockPriorityQueue.order_perm.
  set (s0 := set_pc i (C_copy nowTick) (set_executing true s)).
  set (s1 := set_pc i (C_push nowTick jobs) (set_queue q' s0)).
  destruct (push_all i nowTick jobs s1) as (k & E).
  { apply list_lookup_insert_eq. simpl. by rewrite length_insert. }
  { apply (NoDup_ids _ (added s)); [|exact Hn]. rewrite (inv_jobs s Idle Hp). simpl.
    rewrite app_assoc. apply submseteq_inserts_r, submseteq_app; [|done].
    etransitivity; [|apply Permutation_submseteq; symmetry;
      exact (filter_split (due nowTick) (pq_list (_reservableQueue s)))].
    rewrite Hjobs. by apply submseteq_inserts_l. }
  exists (S (k + 1)), (set_pc i Idle (set_executing false (after_push i nowTick jobs s1))), jobs.
  split; [|split; [exact Hjobs|split; [by apply LockPriorityQueue.filter_sorted|]]].
  { cbn [play play1]. rewrite Hi, Hf. fold s0.
    rewrite (play_steps _ i s0 (C_copy nowTick) s1); [|by apply list_lookup_insert_eq|].
    - rewrite E. cbn [replicate play play1]. unfold after_push at 1. cbn [pcs].
      rewrite list_lookup_insert_eq by (simpl; by rewrite !length_insert). done.
    - cbn [check_step]. cbn [_reservableQueue s0 set_pc set_executing]. by rewrite Eq. }
  split; [done|]. split; [done|]. split; [exact Hq|]. split; [done|].
  simpl. rewrite !list_insert_insert_eq. by apply list_insert_id.
Qed.

End Reserved.
Arguments reservable J : clear implicits.
Arguments event J : clear implicits.

(** ** The queue of serializers *)
Section DoJobs.
(** The world the jobs act on: its clock, and [ExecuteJobs] of a serializer with the
    serializers it adds to the worker's queue. *)
Context {W : Type} (GetTickCount64 : W -> Z) (ExecuteJobs : nat -> W -> W * list nat).
(** [TLS_GlobalJobsExecutionMaxTickCount]. *)
Context (maxTick : Z).

Definition AddJobSerializer (s : nat) (q : LockQueue.t (option nat)) : LockQueue.t (option nat) :=
  LockQueue.Push (Some s) q.
Definition PopJobSerializer (q : LockQueue.t (option nat))
  : option nat * LockQueue.t (option nat) :=
  match TryPop q with (Some s, q) => (s, q) | (None, q) => (None, q) end.

(** The loop of [DoJobs]; returns also the serializers executed and added. *)
Fixpoint DoJobs_loop (fuel : nat) (start : Z) (w : W) (q : LockQueue.t (option nat))
    (done_ added_ : list nat) : outcome (W * LockQueue.t (option nat) * list nat * list nat) :=
  match fuel with
  | O => NoFuel
  | S fuel =>
      if maxTick <? u64 (GetTickCount64 w - start) then Ret (w, q, done_, added_)
      else
        match PopJobSerializer q with
        | (None, q) => Ret (w, q, done_, added_)
        | (Some s, q) =>
            let '(w, more) := ExecuteJobs s w in
            DoJobs_loop fuel start w (fold_left (fun q s => AddJobSerializer s q) more q)
              (done_ ++ [s]) (added_ ++ more)
        end
  end.
Definition DoJobs (fuel : nat) (w : W) (q : LockQueue.t (option nat))
  : outcome (W * LockQueue.t (option nat) * list nat * list nat) :=
  DoJobs_loop fuel (GetTickCount64 w) w q [] [].

(** A queue of serializers, which are non-null. *)
Definition queue_of (l : list nat) : LockQueue.t (option nat) := LockQueue.mk (Some <$> l).

Lemma AddJobSerializer_all l more :
  fold_left (fun q s => AddJobSerializer s q) more (queue_of l) = queue_of (l ++ more).
Proof.
  revert l. induction more as [|s more IH]; intros l; simpl; [by rewrite app_nil_r|].
  replace (AddJobSerializer s (queue_of l)) with (queue_of (l ++ [s])).
  - by rewrite IH, <- app_assoc.
  - unfold queue_of, AddJobSerializer, LockQueue.Push. simpl. by rewrite fmap_app.
Qed.

(** The world and the queue after [k] executions, or when the queue is empty. *)
Fixpoint executions (k : nat) (w : W) (l : list nat) : W * list nat :=
  match k, l with
  | S k, s :: l => executions k (fst (ExecuteJobs s w)) (l ++ snd (ExecuteJobs s w))
  | _, _ => (w, l)
  end.
(** The loop ends in front of its next execution. *)
Definition stopped (start : Z) (x : W * list nat) : Prop :=
  x.2 = [] \/ maxTick < GetTickCount64 x.1 - start.
(** Time goes on in the run from [w] and [l]: as long as the loop has not ended, after
    some more executions the clock shows a later tick or the queue is empty. *)
Definition time_goes_on (w : W) (l : list nat) : Prop :=
  forall k, stopped (GetTickCount64 w) (executions k w l) \/
    exists j, (executions (k + j) w l).2 = [] \/
      GetTickCount64 (executions k w l).1 < GetTickCount64 (executions (k + j) w l).1.

(** The clock does not go back, and an execution takes less than [2^63] ticks. *)
Hypothesis maxTick_range : 0 <= maxTick < 2 ^ 63.
Hypothesis clock_monotone : forall s w,
  GetTickCount64 w <= GetTickCount64 (fst (ExecuteJobs s w)) < GetTickCount64 w + 2 ^ 63.

Lemma DoJobs_loop_execute fuel start w s l d a :
  start <= GetTickCount64 w -> GetTickCount64 w - start <= maxTick ->
  DoJobs_loop (S fuel) start w (queue_of (s :: l)) d a =
  DoJobs_loop fuel start (fst (ExecuteJobs s w)) (queue_of (l ++ snd (ExecuteJobs s w)))
    (d ++ [s]) (a ++ snd (ExecuteJobs s w)).
Proof.
  intros Hst Hle. cbn [DoJobs_loop]. rewrite u64_small by lia.
  rewrite (proj2 (Z.ltb_ge _ _)) by lia. unfold PopJobSerializer, TryPop. cbn.
  fold (queue_of l). destruct (ExecuteJobs s w) as [w2 more]. by rewrite AddJobSerializer_all.
Qed.

Lemma DoJobs_loop_stopped start w l d a :
  start <= GetTickCount64 w < start + 2 ^ 64 -> stopped start (w, l) ->
  DoJobs_loop 1 start w (queue_of l) d a = Ret (w, queue_of l, d, a).
Proof.
  intros Hst Hs. cbn [DoJobs_loop]. rewrite u64_small by lia.
  destruct (Z.ltb_spec maxTick (GetTickCount64 w - start)) as [?|Hle]; [done|].
  destruct Hs as [E|?]; simpl in *; [|lia]. by subst l.
Qed.

(** A loop that would be stopped after [k] executions stops after [k] at the latest. *)
Lemma DoJobs_loop_ends start k : forall w l d a,
  start <= GetTickCount64 w < start + 2 ^ 64 -> stopped start (executions k w l) ->
  exists w' l' d' a',
    DoJobs_loop (S (length d')) start w (queue_of l) d a =
      Ret (w', queue_of l', d ++ d', a ++ a') /\
    executions (length d') w l = (w', l') /\ l ++ a' = d' ++ l' /\ stopped start (w', l').
Proof.
  induction k as [|k IH]; intros w l d a Hst Hk.
  { exists w, l, [], []. rewrite !app_nil_r. split_and!; [|done..].
    apply DoJobs_loop_stopped; [done|]. exact Hk. }
  destruct (decide (maxTick < GetTickCount64 w - start)) as [Hlt|Hle].
  { exists w, l, [], []. rewrite !app_nil_r.
    split_and!; [|done..|by right]. apply DoJobs_loop_stopped; [done|by right]. }
  destruct l as [|s l].
  { exists w, [], [], []. rewrite !app_nil_r.
    split_and!; [|done..|by left]. apply DoJobs_loop_stopped; [done|by left]. }
  cbn [executions] in Hk. pose proof (clock_monotone s w) as Hc.
  destruct (IH (fst (ExecuteJobs s w)) (l ++ snd (ExecuteJobs s w)) (d ++ [s])
    (a ++ snd (ExecuteJobs s w)) ltac:(lia) Hk) as (w' & l' & d' & a' & Er & Ee & Ho & Hs).
  exists w', l', (s :: d'), (snd (ExecuteJobs s w) ++ a'). split_and!.
  - cbn [length]. rewrite DoJobs_loop_execute by lia. rewrite Er.
    by rewrite <- !app_assoc.
  - exact Ee.
  - simpl. by rewrite app_assoc, Ho.
  - exact Hs.
Qed.

(** A loop that never stops uses up any fuel. *)
Lemma DoJobs_loop_runs_on start fuel : forall w l d a,
  start <= GetTickCount64 w < start + 2 ^ 64 ->
  (forall k, ~ stopped start (executions k w l)) ->
  DoJobs_loop fuel start w (queue_of l) d a = NoFuel.
Proof.
  induction fuel as [|fuel IH]; intros w l d a Hst Hn; [done|].
  pose proof (Hn 0%nat) as H0. unfold stopped in H0. simpl in H0.
  destruct l as [|s l]; [by destruct H0; left|].
  assert (GetTickCount64 w - start <= maxTick) as Hle
    by (apply Z.nlt_ge; intros Hlt; apply H0; by right).
  pose proof (clock_monotone s w) as Hc.
  rewrite DoJobs_loop_execute by lia. apply IH; [lia|]. intros k. exact (Hn (S k)).
Qed.

(** When time goes on, a loop comes to its end. *)
Lemma time_runs_out w l : time_goes_on w l ->
  exists k, stopped (GetTickCount64 w) (executions k w l).
Proof.
  intros Ht.
  assert (forall n k, maxTick + 1 - (GetTickCount64 (executions k w l).1 - GetTickCount64 w)
      <= Z.of_nat n -> exists k', stopped (GetTickCount64 w) (executions k' w l)) as Hall.
  { induction n as [|n IH]; intros k Hn.
    - exists k. right. lia.
    - destruct (Ht k) as [?|[j [He|Hlt]]]; [by exists k|by exists (k + j)%nat; left|].
      apply (IH (k + j)%nat). lia. }
  apply (Hall (Z.to_nat (maxTick + 1)) 0%nat). simpl. lia.
Qed.

(** C35: when time goes on, [DoJobs] returns, even if serializers are added to the
    queue again for ever: it has executed serializers first in first out, one
    [ExecuteJobs] after the other, and stops with an empty queue or because more than
    [TLS_GlobalJobsExecutionMaxTickCount] ticks have passed. When neither ever comes
    about, it does not return. *)
Theorem DoJobs_returns w l :
  (time_goes_on w l -> exists w' l' executed added',
     DoJobs (S (length executed)) w (queue_of l) = Ret (w', queue_of l', executed, added') /\
     executions (length executed) w l = (w', l') /\ l ++ added' = executed ++ l' /\
     (l' = [] \/ maxTick < GetTickCount64 w' - GetTickCount64 w)) /\
  ((forall k, (executions k w l).2 <> [] /\
      GetTickCount64 (executions k w l).1 - GetTickCount64 w <= maxTick) ->
   forall fuel, DoJobs fuel w (queue_of l) = NoFuel).
Proof.
  assert (Hs : GetTickCount64 w <= GetTickCount64 w < GetTickCount64 w + 2 ^ 64) by lia.
  split.
  - intros Ht. destruct (time_runs_out w l Ht) as [k Hk].
    exact (DoJobs_loop_ends (GetTickCount64 w) k w l [] [] Hs Hk).
  - intros Hn fuel. apply DoJobs_loop_runs_on; [done|].
    intros k [He|Hlt]; destruct (Hn k); [done|lia].
Qed.
End DoJobs.

(** Three reservations, the first cancelled, the last not yet due. *)
Definition sample_jobs : list (reservable Z) :=
  [mk_res 0 5 100 7; mk_res 1 10 101 7; mk_res 2 20 102 7].
#[local] Instance sample_pq : PriorityQueue (reservable Z) (list (reservable Z)) ReservableJobCompare :=
  list_pq ReservableJobCompare.
Definition sample_state : system (J := Z) (Q := list (reservable Z)) :=
  mk [mk_res 2 20 102 7; mk_res 1 10 101 7; mk_res 0 5 100 7] false {[0%nat]} ∅ [Idle; Idle]
    sample_jobs [] [] [].

Lemma worker_sample_run : run step (init 2) sample_state.
Proof.
  eapply run_step; [eapply run_step; [eapply run_step; [eapply run_step; [apply run_refl|]|]|]|].
  - exists (EAdd (mk_res 0 5 100 7)). reflexivity.
  - exists (EAdd (mk_res 1 10 101 7)). reflexivity.
  - exists (EAdd (mk_res 2 20 102 7)). reflexivity.
  - exists (ECancel 0). unfold sample_state, sample_jobs. cbn. by rewrite (right_id_L ∅ (∪)).
Qed.
Lemma sample_ids : NoDup (ids (added sample_state)).
Proof. apply (bool_decide_unpack _). vm_compute. exact I. Qed.

Lemma reserved_jobs_pushed_once_witness :
  added sample_state ≡ₚ pq_list (_reservableQueue sample_state) ++ [] /\
  NoDup (ids (snd <$> pushes sample_state)).
Proof.
  pose proof (reserved_jobs_pushed_once 2 sample_state worker_sample_run sample_ids)
    as (_ & H1 & _ & _ & H2 & _).
  split; [exact (H2 eq_refl)|exact H1].
Defined.

(** At tick 15 the job of tick 10 is pushed and the cancelled one is dropped. *)
Lemma CheckReservedJob_pushes_due_witness :
  exists k s' jobs, play (ECheck 1 15 :: replicate k (EStep 1)) sample_state = Some (Ret s') /\
    jobs ≡ₚ [mk_res 1 10 101 7; mk_res 0 5 100 7] /\
    pushes s' = (pair 15 <$> List.filter (pushable sample_state) jobs).
Proof.
  destruct (CheckReservedJob_pushes_due 2 sample_state 1 Idle 15 worker_sample_run sample_ids eq_refl
    eq_refl) as (k & s' & jobs & H1 & H2 & _ & H3 & _).
  exists k, s', jobs. split; [exact H1|]. split; [exact H2|exact H3].
Defined.

(** A serializer that adds itself again at every execution, on a clock that shows a
    new tick once in sixteen executions only; on one that stands still [DoJobs] does
    not return. *)
Definition coarse_clock (w : Z) : Z := 16 * (w / 16).
Definition add_again (s : nat) (w : Z) : Z * list nat := (w + 1, [s]).

Lemma add_again_executions k : forall w s l, exists l',
  executions add_again k w (s :: l) = (w + Z.of_nat k, l') /\ l' <> [].
Proof.
  induction k as [|k IH]; intros w s l; [exists (s :: l); by rewrite Z.add_0_r|].
  cbn [executions add_again fst snd].
  destruct (l ++ [s]) as [|s' l'] eqn:E; [by destruct l|].
  destruct (IH (w + 1) s' l') as (l'' & -> & ?). exists l''. split; [|done]. f_equal. lia.
Qed.

Lemma coarse_clock_monotone w : coarse_clock w <= coarse_clock (w + 1) < coarse_clock w + 2 ^ 63.
Proof. unfold coarse_clock. Z.div_mod_to_equations. lia. Qed.

Lemma coarse_time_goes_on : time_goes_on coarse_clock add_again 64 0 [4; 5]%nat.
Proof.
  intros k. right. exists 16%nat. right.
  destruct (add_again_executions k 0 4 [5%nat]) as (l1 & -> & _).
  destruct (add_again_executions (k + 16) 0 4 [5%nat]) as (l2 & -> & _). cbn [fst].
  unfold coarse_clock. Z.div_mod_to_equations. lia.
Qed.

Lemma DoJobs_returns_witness :
  (exists w' l' executed added',
     DoJobs coarse_clock add_again 64 (S (length executed)) 0 (queue_of [4; 5]%nat) =
       Ret (w', queue_of l', executed, added') /\ 64 < coarse_clock w') /\
  (forall fuel, DoJobs (fun _ => 0) add_again 64 fuel 0 (queue_of [4; 5]%nat) = NoFuel).
Proof.
  split.
  - destruct (DoJobs_returns coarse_clock add_again 64 ltac:(lia)
      (fun s w => coarse_clock_monotone w) 0 [4; 5]%nat) as [H _].
    destruct (H coarse_time_goes_on) as (w' & l' & d & a & E & Ee & _ & Hs).
    exists w', l', d, a. split; [exact E|].
    destruct (add_again_executions (length d) 0 4 [5%nat]) as (l1 & E1 & Hne).
    rewrite E1 in Ee. injection Ee as <- <-. destruct Hs as [->|Hs]; [done|].
    change (coarse_clock 0) with 0 in Hs. rewrite Z.sub_0_r in Hs. exact Hs.
  - apply (DoJobs_returns (fun _ => 0) add_again 64 ltac:(lia)
      (fun s w => ltac:(lia)) 0 [4; 5]%nat).
    intros k. destruct (add_again_executions k 0 4 [5%nat]) as (l' & -> & Hne).
    split; [exact Hne|lia].
Defined.
End JobWorker.
