(* ===== verification/Reservations.v ===== *)
(** The global worker and a serializer together: [JobSerializer::PushReservableJob]
    makes a job and reserves it ([JobWorker]), a thread that checks the reservations
    pushes it to the serializer ([ReservableJob::PushJobToSerializer], which calls
    [owner->Push]), and there it is executed among the other jobs ([Actor]). *)
From S2P Require Import Prelude LockContainers JobSerializer Job JobWorker.
#[local] Open Scope Z_scope.

Module Reservations.
Import Job Actor.
Section Reservations.
Context {W V Q : Type} `{!Movable V}.
Abbreviation reservable := (JobWorker.reservable (request W V)).
Abbreviation wsystem := (JobWorker.system (J := request W V) (Q := Q)).
Context `{!PriorityQueue reservable Q JobWorker.ReservableJobCompare}.
(** The serializer: its address, and its number among the owners of reservations. *)
Variables (this : Z) (self : nat).
Hypothesis this_nonnull : this <> 0.

Record state := mk {
  worker : wsystem;
  serializer : actor W V;
}.

(** The job of a reservation is the object with the reservation's number; jobs that
    are pushed directly have negative identities. *)
Definition job_id (r : reservable) : Z := Z.of_nat (JobWorker.rid r).

(** [PushReservableJob(tickAfter, pfunc, args...)] at tick [now]. *)
Definition reserve (id : nat) (tickAfter now : Z) (req : request W V)
  : JobWorker.event (request W V) :=
  JobWorker.EAdd (JobWorker.PushReservableJob id tickAfter now req self).

Inductive event := EWorker (e : JobWorker.event (request W V)) | EActor (e : actor_event W V).

(** The push that a step of the worker made. *)
Definition new_push (w w' : wsystem) : option (Z * reservable) :=
  head (drop (length (JobWorker.pushes w)) (JobWorker.pushes w')).

(** The checking thread [i] calls [owner->Push]. A fault of the worker or of a job is
    the fault of the whole. *)
Definition play1 (e : event) (s : state) : option (outcome state) :=
  match e with
  | EWorker e =>
      match JobWorker.play1 e (worker s) with
      | Some (Ret w) =>
          match new_push (worker s) w, e with
          | None, _ => Some (Ret (mk w (serializer s)))
          | Some (_, r), JobWorker.EStep i =>
              if Nat.eqb (JobWorker._owner r) self then
                match aplay1 this (APush i (job_id r) (JobWorker._job r)) (serializer s) with
                | Some (Ret a) => Some (Ret (mk w a))
                | _ => None
                end
              else Some (Ret (mk w (serializer s)))
          | Some _, _ => None
          end
      | Some (Crash c) => Some (Crash c)
      | Some (Fault f) => Some (Fault f)
      | Some NoFuel => Some NoFuel
      | None => None
      end
  | EActor (APush i id r) =>
      if id <? 0 then
        match aplay1 this (APush i id r) (serializer s) with
        | Some (Ret a) => Some (Ret (mk (worker s) a))
        | _ => None
        end
      else None
  | EActor (AStep e) =>
      match aplay1 this (AStep e) (serializer s) with
      | Some o => Some (let! a := o in Ret (mk (worker s) a))
      | None => None
      end
  end.
Definition rstep (s s' : state) : Prop := exists e, play1 e s = Some (Ret s').
Definition rinit (checkers threads : nat) (w : W) : state :=
  mk (JobWorker.init checkers) (ainit threads w).

(** ** The invariant *)
(** A job of the serializer that has a reservation's identity is that reservation's:
    it was pushed by the worker, in its time. *)
Definition reserved_job (s : state) (id : Z) (req : request W V) : Prop :=
  exists tick r, (tick, r) ∈ JobWorker.pushes (worker s) /\ id = job_id r /\
    JobWorker._owner r = self /\ req = JobWorker._job r.
Record rinv (checkers threads : nat) (w0 : W) (s : state) : Prop := {
  ri_worker : run JobWorker.step (JobWorker.init checkers) (worker s);
  ri_actor : run (astep this) (ainit threads w0) (serializer s);
  ri_jobs id req : requests (serializer s) !! id = Some req -> 0 <= id -> reserved_job s id req;
  ri_dom id : jobs (serializer s) !! id = None <-> requests (serializer s) !! id = None;
}.

Lemma new_push_spec (w w' : wsystem) e : JobWorker.play1 e w = Some (Ret w') ->
  match new_push w w' with
  | None => JobWorker.pushes w' = JobWorker.pushes w
  | Some x => JobWorker.pushes w' = JobWorker.pushes w ++ [x]
  end.
Proof.
  intros He. destruct (JobWorker.play1_grows e w w' He) as [_ [E|[x E]]]; unfold new_push; rewrite E.
  - by rewrite drop_all.
  - by rewrite drop_app_length.
Qed.

Lemma reserved_job_grows s w a id req l :
  JobWorker.pushes w = JobWorker.pushes (worker s) ++ l -> reserved_job s id req ->
  reserved_job (mk w a) id req.
Proof.
  intros E (tick & r & Hin & Hid). exists tick, r. split; [|done]. simpl. rewrite E.
  apply elem_of_app. by left.
Qed.

(** What a push adds to the serializer. *)
Lemma aplay1_push i id req (a a' : actor W V) : aplay1 this (APush i id req) a = Some (Ret a') ->
  jobs a !! id = None /\ jobs a' = <[id := PushJob this req]> (jobs a) /\
  requests a' = <[id := req]> (requests a).
Proof. simpl. destruct (jobs a !! id); [done|]. case_match; [|done]. by intros [= <-]. Qed.

Lemma execute_all_dom ids : forall (js js' : gmap Z (Job.t W V)) w w' id,
  execute_all ids js w = Ret (js', w') -> js' !! id = None <-> js !! id = None.
Proof.
  induction ids as [|x ids IH]; intros js js' w w' id; cbn [execute_all]; [by intros [= <- _]|].
  destruct (js !! x) as [j|] eqn:Hx; [|done]. destruct (Execute j w) as [[j' w1]| | |]; try done.
  cbn [obind]. intros E. rewrite (IH _ _ _ _ id E).
  destruct (decide (x = id)) as [<-|Hne]; [by rewrite lookup_insert_eq, Hx|].
  by rewrite lookup_insert_ne.
Qed.

Lemma aplay1_step_dom e (a a' : actor W V) id : aplay1 this (AStep e) a = Some (Ret a') ->
  requests a' = requests a /\ (jobs a' !! id = None <-> jobs a !! id = None).
Proof.
  unfold aplay1. intros Ho. destruct e; [done|..]; (case_match; [|done]);
    injection Ho as Ho; apply obind_ret in Ho as ([js w] & E & Ho); injection Ho as <-;
    (split; [done|exact (execute_all_dom _ _ _ _ _ id E)]).
Qed.

Lemma rinit_inv c n w0 : rinv c n w0 (rinit c n w0).
Proof.
  split; [constructor|constructor| |]; unfold rinit, ainit; cbn [serializer requests jobs].
  - intros id req H. by rewrite lookup_empty in H.
  - intros id. by rewrite !lookup_empty.
Qed.

(** A push to the serializer, by the worker or directly. *)
Lemma push_rinv c n w0 s w i id req a :
  rinv c n w0 s -> run JobWorker.step (JobWorker.init c) w ->
  (exists l, JobWorker.pushes w = JobWorker.pushes (worker s) ++ l) ->
  aplay1 this (APush i id req) (serializer s) = Some (Ret a) ->
  (0 <= id -> reserved_job (mk w a) id req) -> rinv c n w0 (mk w a).
Proof.
  intros Hs Hw [l Hl] Ha Hid. destruct (aplay1_push _ _ _ _ _ Ha) as (Hfresh & Hjobs & Hreq).
  split; cbn [worker serializer].
  - exact Hw.
  - eapply run_step; [exact (ri_actor _ _ _ _ Hs)|by exists (APush i id req)].
  - intros id' req'. rewrite Hreq. intros [(<- & <-)|[_ H]]%lookup_insert_Some Hpos; [by apply Hid|].
    exact (reserved_job_grows s w a id' req' l Hl (ri_jobs _ _ _ _ Hs id' req' H Hpos)).
  - intros id'. rewrite Hjobs, Hreq, !lookup_insert_None, (ri_dom _ _ _ _ Hs id'). done.
Qed.

Lemma worker_rinv c n w0 s w l :
  rinv c n w0 s -> run JobWorker.step (JobWorker.init c) w ->
  JobWorker.pushes w = JobWorker.pushes (worker s) ++ l -> rinv c n w0 (mk w (serializer s)).
Proof.
  intros Hs Hw Hl. destruct Hs as [_ Ha Hj Hd]. split; cbn [worker serializer]; try done.
  intros id req H Hpos. exact (reserved_job_grows s w _ id req l Hl (Hj id req H Hpos)).
Qed.

Lemma rstep_inv c n w0 s s' : rinv c n w0 s -> rstep s s' -> rinv c n w0 s'.
Proof.
  intros Hs [e He]. destruct e as [e|[i id req|e]]; cbn [play1] in He.
  - destruct (JobWorker.play1 e (worker s)) as [[w| | |]|] eqn:Hw; try done.
    assert (Hrun : run JobWorker.step (JobWorker.init c) w)
      by (eapply run_step; [exact (ri_worker _ _ _ _ Hs)|by exists e]).
    pose proof (new_push_spec _ _ _ Hw) as Hn.
    destruct (new_push (worker s) w) as [[tick r]|].
    + destruct e as [| | | | |i]; try done. destruct (Nat.eqb_spec (JobWorker._owner r) self) as [Ho|_].
      * destruct (aplay1 this _ (serializer s)) as [[a| | |]|] eqn:Ha; try done. injection He as <-.
        apply (push_rinv c n w0 s w i (job_id r) (JobWorker._job r) a Hs Hrun); [eauto|done|].
        intros _. exists tick, r. split; [|done]. simpl. rewrite Hn. apply elem_of_app. right.
        by apply list_elem_of_singleton.
      * injection He as <-. by apply (worker_rinv c n w0 s w [(tick, r)]).
    + injection He as <-. apply (worker_rinv c n w0 s w []); [done..|by rewrite app_nil_r].
  - destruct (Z.ltb_spec id 0); [|done].
    destruct (aplay1 this _ (serializer s)) as [[a| | |]|] eqn:Ha; try done. injection He as <-.
    apply (push_rinv c n w0 s _ i id req a Hs (ri_worker _ _ _ _ Hs)); [|done|lia].
    exists []. by rewrite app_nil_r.
  - destruct (aplay1 this (AStep e) (serializer s)) as [o|] eqn:Ha; [|done].
    injection He as He. apply obind_ret in He as (a & -> & He). injection He as <-.
    destruct Hs as [Hw Hr Hj Hd]. split; cbn [worker serializer].
    + exact Hw.
    + eapply run_step; [exact Hr|by exists (AStep e)].
    + intros id req. destruct (aplay1_step_dom e _ _ id Ha) as [-> _]. apply Hj.
    + intros id. destruct (aplay1_step_dom e _ _ id Ha) as [-> ->]. apply Hd.
Qed.

Lemma rrun_inv c n w0 s : run rstep (rinit c n w0) s -> rinv c n w0 s.
Proof. apply run_invariant; [apply rstep_inv|apply rinit_inv]. Qed.

(** A reserved job that the worker pushes is new to the serializer, so that the push
    waits for nothing but its thread. *)
Lemma push_is_fresh c n w0 s e w tick r :
  rinv c n w0 s -> JobWorker.play1 e (worker s) = Some (Ret w) ->
  new_push (worker s) w = Some (tick, r) -> NoDup (JobWorker.ids (JobWorker.added w)) ->
  jobs (serializer s) !! job_id r = None.
Proof.
  intros Hs Hw Hn Hd. pose proof (new_push_spec _ _ _ Hw) as Hp. rewrite Hn in Hp.
  destruct (requests (serializer s) !! job_id r) as [req|] eqn:Hr;
    [|by apply (ri_dom _ _ _ _ Hs)].
  destruct (ri_jobs _ _ _ _ Hs _ _ Hr ltac:(unfold job_id; lia)) as (t & r' & Hin & Hid & _).
  assert (Hrun : run JobWorker.step (JobWorker.init c) w)
    by (eapply run_step; [exact (ri_worker _ _ _ _ Hs)|by exists e]).
  destruct (JobWorker.pushes_reserved c w Hrun Hd) as [Hnd _]. unfold JobWorker.ids in Hnd.
  rewrite Hp, !fmap_app in Hnd. apply NoDup_app in Hnd as (_ & Hnd & _). exfalso.
  apply (Hnd (JobWorker.rid r)); [|by constructor].
  replace (JobWorker.rid r) with (JobWorker.rid r') by (unfold job_id in Hid; lia).
  by apply list_elem_of_fmap_2, (list_elem_of_fmap_2 snd _ (t, r')).
Qed.

(** The serializer of a reached state. *)
Lemma rrun_serializer c n w0 s :
  run rstep (rinit c n w0) s -> JobSerializer.started (JobSerializer.sh (sys (serializer s))) < 2 ^ 31 ->
  ainv this n w0 (serializer s).
Proof.
  intros Hr. pose proof (rrun_inv c n w0 s Hr) as Hs.
  exact (proj2 (run_reached this this_nonnull n w0 _ (ri_actor _ _ _ _ Hs))).
Qed.

Lemma rrun_effects c n w0 s :
  run rstep (rinit c n w0) s -> JobSerializer.started (JobSerializer.sh (sys (serializer s))) < 2 ^ 31 ->
  let a := serializer s in let ids := JobSerializer.executed (JobSerializer.sh (sys a)) in
  effects this (requests_of a ids) w0 = Ret (world a) /\
  Forall (fun id => is_Some (requests a !! id)) ids.
Proof.
  intros Hr Hb a ids. pose proof (rrun_serializer c n w0 s Hr Hb) as Ha.
  split; [exact (ai_world _ _ _ _ Ha)|]. apply Forall_forall. intros id Hid.
  exact (ai_known _ _ _ _ Ha id (executed_known _ id (ai_inv _ _ _ _ Ha) Hid)).
Qed.

(** The jobs executed are the first of the queue, each once. *)
Lemma rrun_queue c n w0 s :
  run rstep (rinit c n w0) s -> JobSerializer.started (JobSerializer.sh (sys (serializer s))) < 2 ^ 31 ->
  let q := JobSerializer.sh (sys (serializer s)) in
  (exists rest, JobSerializer.pushed q = JobSerializer.executed q ++ rest) /\
  NoDup (JobSerializer.executed q).
Proof.
  intros Hr Hb q. pose proof (rrun_serializer c n w0 s Hr Hb) as Ha.
  pose proof (JobSerializer.inv_fifo _ (ai_inv _ _ _ _ Ha)) as Hf.
  pose proof (ai_nodup _ _ _ _ Ha) as Hk. unfold known in Hk. rewrite Hf in Hk.
  apply NoDup_app in Hk as [Hk _]. apply NoDup_app in Hk as [Hk _]. split; [|exact Hk].
  eexists. exact Hf.
Qed.

Lemma failing_step c n w0 s e o :
  run rstep (rinit c n w0) s -> NoDup (JobWorker.ids (JobWorker.added (worker s))) ->
  JobSerializer.started (JobSerializer.sh (sys (serializer s))) < 2 ^ 31 ->
  play1 e s = Some o -> returns o = false ->
  let a := serializer s in exists job r rest,
    JobSerializer.pushed (JobSerializer.sh (sys a)) =
      JobSerializer.executed (JobSerializer.sh (sys a)) ++ job :: rest /\
    requests a !! job = Some r /\ returns (effect this r (world a)) = false.
Proof.
  intros Hr Hn Hb He Hf a. pose proof (rrun_inv c n w0 s Hr) as Hs.
  pose proof (rrun_serializer c n w0 s Hr Hb) as Ha. fold a in Ha.
  destruct e as [e|[i id req|e]]; cbn [play1] in He.
  - destruct (JobWorker.play1 e (worker s)) as [ow|] eqn:Hw; [|done].
    destruct (JobWorker.worker_returns c _ e ow (ri_worker _ _ _ _ Hs) Hn Hw) as [w ->].
    exfalso. repeat case_match; try done; by injection He as <-.
  - exfalso. repeat case_match; try done; by injection He as <-.
  - fold a in He. destruct (aplay1 this (AStep e) a) as [oa|] eqn:Hstep; [|done].
    destruct (step_result this this_nonnull n w0 e a oa Ha Hstep) as (s' & Hp & _ & Hres).
    destruct (run_reached this this_nonnull n w0 a (ri_actor _ _ _ _ Hs)) as [Hrun _].
    destruct Hres as [(a' & -> & _)|[_ Hfail]].
    + intros Hst. apply (JobSerializer.serializer_run_inv n s'); [|rewrite Hst; exact Hb].
      eapply run_step; [exact Hrun|by exists e].
    + exfalso. by injection He as <-.
    + exact Hfail.
Qed.

End Reservations.
End Reservations.
