(* ===== verification/LibTest.v ===== *)
(** The program LibTest (LibTest.cpp): a [Room], which is a serializer, with jobs that
    are reserved and pushed by any number of threads. *)
From S2P Require Import Prelude LockContainers JobSerializer Job JobWorker Reservations.
#[local] Open Scope Z_scope.

Module Room.
Import Job Actor.

(** What the methods print, without the thread's id and the time. *)
Inductive line := LJob (n : Z) | LRJob (n : Z) | LPrint (value : Z).
#[export] Instance line_eq_dec : EqDecision line.
Proof. solve_decision. Defined.
(** The member [n], an [int], and what has been printed. *)
Record t := mk { n : Z; console : list line }.
Definition new : t := mk 0 [].
Definition print (l : line) (w : t) : t := mk (n w) (console w ++ [l]).

(** Arguments are [int]s: a move leaves them as they are. *)
#[export] Instance ints : Movable Z := {| moved v := v |}.

(** The lambda that [AddJob()] pushes, and the methods. *)
Definition AddJob : request t Z := RFunction (Some (fun w => Ret (print (LJob (n w)) w))).
Definition Reserve : method (W := t) (V := Z) := fun _ _ w =>
  if n w =? - 2 ^ 31 then Fault SignedOverflow
  else let w := mk (n w - 1) (console w) in Ret (print (LRJob (n w)) w).
Definition Print : method (W := t) (V := Z) := fun _ args w =>
  match args with [value] => Ret (print (LPrint value) w) | _ => Ret w end.

(** The three reservations of [main], at the tick [now]. *)
Definition reservations (self : nat) (now : Z) : list (JobWorker.event (request t Z)) :=
  [Reservations.reserve self 1 1000 now (RMethod Print [ByValue 1]);
   Reservations.reserve self 2 500 now (RMethod Print [ByValue 2]);
   Reservations.reserve self 3 1500 now (RMethod Print [ByValue 3])].

(** ** What a room promises *)
Inductive call := CAddJob | CReserve | CPrint (value : Z).
Definition request_of (c : call) : request t Z :=
  match c with
  | CAddJob => AddJob
  | CReserve => RMethod Reserve []
  | CPrint value => RMethod Print [ByValue value]
  end.
Fixpoint lines (k : Z) (l : list call) : list line :=
  match l with
  | [] => []
  | CAddJob :: l => LJob k :: lines k l
  | CReserve :: l => LRJob (k - 1) :: lines (k - 1) l
  | CPrint value :: l => LPrint value :: lines k l
  end.
Definition is_reserve (c : call) : Z := match c with CReserve => 1 | _ => 0 end.

Lemma reserves_cons c l : sum_of is_reserve (c :: l) = is_reserve c + sum_of is_reserve l.
Proof. done. Qed.
Lemma is_reserve_bounds c : 0 <= is_reserve c <= 1.
Proof. destruct c; simpl; lia. Qed.
Lemma reserves_bounds l : 0 <= sum_of is_reserve l <= zlen l.
Proof.
  unfold zlen. induction l as [|c l IH]; [done|].
  rewrite reserves_cons. cbn [length]. pose proof (is_reserve_bounds c). lia.
Qed.

Lemma call_effect this c w : - 2 ^ 31 <= n w - is_reserve c ->
  effect this (request_of c) w = Ret (mk (n w - is_reserve c) (console w ++ lines (n w) [c])).
Proof.
  intros Hn. destruct c; simpl in *; unfold print; simpl; rewrite ?Z.sub_0_r; try done.
  unfold Reserve. destruct (Z.eqb_spec (n w) (- 2 ^ 31)); [lia|]. done.
Qed.

Lemma lines_cons k c l : lines k (c :: l) = lines k [c] ++ lines (k - is_reserve c) l.
Proof. destruct c; simpl; by rewrite ?Z.sub_0_r. Qed.

Lemma calls_effect this l : forall w, - 2 ^ 31 <= n w - sum_of is_reserve l ->
  effects this (map request_of l) w =
    Ret (mk (n w - sum_of is_reserve l) (console w ++ lines (n w) l)).
Proof.
  induction l as [|c l IH]; intros w Hn; cbn [map effects].
  - simpl. rewrite Z.sub_0_r, app_nil_r. by destruct w.
  - pose proof (reserves_bounds l) as Hl. pose proof (is_reserve_bounds c) as Hc.
    rewrite reserves_cons in *.
    rewrite call_effect by lia. cbn [obind]. rewrite IH by (cbn [n]; lia). cbn [n console].
    rewrite (lines_cons (n w) c l), <- app_assoc. do 2 f_equal. lia.
Qed.

(** Requests that are calls of a room: the call that each job stands for. *)
Definition stands_for (a : actor t Z) (id : Z) (c : call) : Prop :=
  requests a !! id = Some (request_of c).

Lemma requests_calls (a : actor t Z) ids :
  (forall id req, requests a !! id = Some req -> exists c, req = request_of c) ->
  Forall (fun id => is_Some (requests a !! id)) ids ->
  exists calls, Forall2 (stands_for a) ids calls /\
    requests_of a ids = map request_of calls.
Proof.
  intros Hreq. induction ids as [|id ids IH]; intros Hids; [by exists []|].
  apply Forall_cons in Hids as [[req Hr] Hids]. destruct (IH Hids) as (calls & Hl & E).
  destruct (Hreq id req Hr) as [c ->]. exists (c :: calls). split; [by constructor|].
  unfold requests_of in *. cbn [omap list_omap]. simpl. rewrite Hr. simpl. by rewrite <- E.
Qed.

(** C16: a [Room] whose jobs any number of threads push, reserve, cancel, check and
    execute: no step ever fails; the jobs executed are the first ones of the queue, each
    once and in the order in which they were queued, and when [calls] are the calls that
    these jobs were made for, one after the other, [n] is 0 less the [Reserve]s among them
    and the room has printed one line for each, in that order, with the value that [n]
    had then. *)
Theorem room_counts_its_reserves {Q} `{!PriorityQueue (JobWorker.reservable (request t Z)) Q
    JobWorker.ReservableJobCompare} this self c k (s : Reservations.state (W := t) (V := Z) (Q := Q)) :
  this <> 0 ->
  run (Reservations.rstep this self) (Reservations.rinit c k new) s ->
  NoDup (JobWorker.ids (JobWorker.added (Reservations.worker s))) ->
  let a := Reservations.serializer s in
  let ids := JobSerializer.executed (JobSerializer.sh (sys a)) in
  JobSerializer.started (JobSerializer.sh (sys a)) < 2 ^ 31 -> zlen ids < 2 ^ 31 ->
  (forall id req, requests a !! id = Some req -> exists c, req = request_of c) ->
  (exists rest, JobSerializer.pushed (JobSerializer.sh (sys a)) = ids ++ rest) /\
  NoDup ids /\
  (exists calls, Forall2 (stands_for a) ids calls /\
     world a = mk (- sum_of is_reserve calls) (lines 0 calls)) /\
  forall e o, Reservations.play1 this self e s = Some o -> returns o = true.
Proof.
  intros Hthis Hr Hn a ids Hb Hlen Hreq.
  destruct (Reservations.rrun_effects this self Hthis c k new s Hr Hb) as [Heff Hids].
  destruct (Reservations.rrun_queue this self Hthis c k new s Hr Hb) as [Hqueue Hnd].
  fold a in Heff, Hids, Hqueue, Hnd. fold ids in Heff, Hids, Hqueue, Hnd.
  destruct (requests_calls a ids Hreq Hids) as (calls & Hl & Ecalls).
  pose proof (reserves_bounds calls) as Hbounds.
  assert (Hz : zlen calls = zlen ids)
    by (unfold zlen; by rewrite (Forall2_length _ _ _ Hl)).
  rewrite Ecalls, calls_effect in Heff by (cbn [n new]; lia). injection Heff as Hw.
  split; [done|]. split; [done|]. split; [by exists calls|].
  intros e o He. destruct (returns o) eqn:Hf; [done|]. exfalso.
  destruct (Reservations.failing_step this self Hthis c k new s e o Hr Hn Hb He Hf)
    as (job & r & rest & _ & Hj & Hret).
  destruct (Hreq job r Hj) as [cl ->]. fold a in Hret. rewrite <- Hw in Hret.
  pose proof (is_reserve_bounds cl). rewrite call_effect in Hret; [done|cbn [n new]; lia].
Qed.
End Room.

(** The three reservations of [main] at tick 0 and a cancelled one; thread 0 checks at
    tick 2000, pushes them and executes them: 2, 1, 3. *)
Module RoomSample.
Import Job Actor Room.
Abbreviation queue := (list (JobWorker.reservable (request t Z))).
#[local] Instance pq : PriorityQueue (JobWorker.reservable (request t Z)) queue
  JobWorker.ReservableJobCompare := list_pq JobWorker.ReservableJobCompare.
Abbreviation state := (Reservations.state (W := t) (V := Z) (Q := queue)).
Abbreviation event := (Reservations.event (W := t) (V := Z)).

Fixpoint play (es : list event) (s : state) : option state :=
  match es with
  | [] => Some s
  | e :: es => match Reservations.play1 64 7 e s with Some (Ret s) => play es s | _ => None end
  end.
Lemma play_run es : forall s s', play es s = Some s' -> run (Reservations.rstep 64 7) s s'.
Proof.
  induction es as [|e es IH]; intros s s'; cbn [play]; [intros [= <-]; constructor|].
  destruct (Reservations.play1 64 7 e s) as [[s1| | |]|] eqn:E; try done. intros Hp.
  apply (run_trans _ s s1); [|by apply IH].
  apply (run_step s s s1); [constructor|]. by exists e.
Qed.

Definition push_and_execute : list event :=
  Reservations.EWorker (JobWorker.EStep 0) ::
  replicate 8 (Reservations.EActor (AStep (JobSerializer.EStep 0 false))) ++
  [Reservations.EWorker (JobWorker.EStep 0)].
Definition events : list event :=
  map Reservations.EWorker (reservations 7 0) ++
  [Reservations.EWorker (Reservations.reserve 7 4 100 0 (request_of CReserve));
   Reservations.EWorker (JobWorker.ECancel 4); Reservations.EWorker (JobWorker.ECheck 0 2000);
   Reservations.EWorker (JobWorker.EStep 0); Reservations.EWorker (JobWorker.EStep 0)] ++
  push_and_execute ++ push_and_execute ++ push_and_execute.
Definition start : state := Reservations.rinit 1 1 new.
Definition finish : state := default start (play events start).

Lemma finish_run : run (Reservations.rstep 64 7) start finish.
Proof.
  assert (E : (if play events start then true else false) = true) by (vm_compute; reflexivity).
  apply (play_run events). unfold finish. by destruct (play events start).
Qed.
Lemma finish_ids : NoDup (JobWorker.ids (JobWorker.added (Reservations.worker finish))).
Proof. apply (bool_decide_unpack _). vm_compute. exact I. Qed.
Lemma finish_requests id req :
  requests (Reservations.serializer finish) !! id = Some req -> exists c, req = request_of c.
Proof.
  assert (E : map_to_list (requests (Reservations.serializer finish)) =
    [(3, request_of (CPrint 3)); (2, request_of (CPrint 2)); (1, request_of (CPrint 1))])
    by (vm_compute; reflexivity).
  intros H. apply elem_of_map_to_list in H. rewrite E in H.
  apply list_elem_of_In in H. destruct H as [H|[H|[H|[]]]]; injection H as _ <-;
    [by exists (CPrint 3)|by exists (CPrint 2)|by exists (CPrint 1)].
Qed.


Lemma finish_calls calls :
  Forall2 (stands_for (Reservations.serializer finish))
    (JobSerializer.executed (JobSerializer.sh (sys (Reservations.serializer finish)))) calls ->
  calls = [CPrint 2; CPrint 1; CPrint 3].
Proof.
  assert (E : JobSerializer.executed (JobSerializer.sh (sys (Reservations.serializer finish)))
    = [2; 1; 3]) by (vm_compute; reflexivity).
  assert (Hr : forall id v c, requests (Reservations.serializer finish) !! id
      = Some (request_of (CPrint v)) ->
    stands_for (Reservations.serializer finish) id c -> c = CPrint v).
  { intros id v c Hv Hc. unfold stands_for in Hc. rewrite Hv in Hc. injection Hc as Hc.
    destruct c; [discriminate Hc| |by injection Hc as ->]. exfalso. discriminate Hc. }
  rewrite E. intros H. inversion_clear H. inversion_clear H1. inversion_clear H2.
  inversion_clear H3. do 3 f_equal;
    (eapply Hr; [|eassumption]); vm_compute; reflexivity.
Qed.

Lemma room_counts_its_reserves_witness :
  Forall2 (stands_for (Reservations.serializer finish)) [2; 1; 3]
    [CPrint 2; CPrint 1; CPrint 3] /\
  world (Reservations.serializer finish) = mk 0 [LPrint 2; LPrint 1; LPrint 3].
Proof.
  destruct (room_counts_its_reserves 64 7 1 1 finish ltac:(lia) finish_run finish_ids
    ltac:(vm_compute; reflexivity) ltac:(vm_compute; reflexivity) finish_requests)
    as (_ & _ & (calls & Hc & Hw) & _).
  pose proof (finish_calls calls Hc) as ->.
  assert (E : JobSerializer.executed (JobSerializer.sh (sys (Reservations.serializer finish)))
    = [2; 1; 3]) by (vm_compute; reflexivity).
  rewrite E in Hc. split; [exact Hc|exact Hw].
Defined.
End RoomSample.
