(* ===== verification/TaskManager.v ===== *)
(** TaskManager.h/.cpp: tasks on threads of their own, with the ids that become
    [TLS_Id]. Callers of [AddTask], [JoinTask] and [JoinAllTasks] and the task threads
    interleave, one step per access to shared state. [_tasks] is a [std::unordered_map],
    which [JoinAllTasks] and [_task_done] use without the lock: the order of a traversal
    is any, an insertion while it is traversed or looked up by another thread is a data
    race, and so is the use of a [std::thread] that another thread is joining. The taking of the thread's send buffer is in SendBuffer.v
    ([renew_TLS]); what [JoinAllTasks] promises is in TaskJoin.v. *)
From S2P Require Import Prelude.
#[local] Open Scope Z_scope.

Module TaskManager.

(** An entry of [_tasks]: whether the thread is joinable, and the flag. *)
Record entry := mk_entry { joinable : bool; second : bool }.

(** What a call returned: a pair of ids, a truth value, nothing, or an exception
    ([std::out_of_range], or [std::system_error] of [join]). *)
Inductive result := RPair (first second : Z) | RBool (b : bool) | RDone | RRaised.

(** A caller: in [AddTask] before the lock, before [_get_new_task_id] with the
    tasks rest ([None] for the overload without count), before the thread's
    creation, before the insertion; in [JoinTask] before the lock, before the tests,
    in [join]; in [JoinAllTasks], which takes no lock, before the entries that are left,
    in [join] of one and before the others. *)
Inductive cpc :=
| C_idle (last : option result)
| A_lock (count : nat)
| A_new (first : option Z) (rest : nat)
| A_spawn (first : option Z) (rest : nat) (id : Z)
| A_insert (first : option Z) (rest : nat) (id : Z)
| J_lock (id : Z)
| J_test (id : Z)
| J_join (id : Z)
| JA_next (rest : list Z)
| JA_join (id : Z) (rest : list Z).

(** A task's thread: before [_init_tls], in the task, before the flag is set,
    before [ClearTLS], ended. *)
Inductive tpc := T_init | T_task | T_done | T_clear | T_end.

(** [_taskId] (static), [__mutex], [_tasks]; the callers; the task threads with
    their ids, in order of creation; ghost: the ids issued so far. *)
Record system := mk {
  _taskId : Z;
  __mutex : option nat;
  _tasks : gmap Z entry;
  callers : list cpc;
  threads : list (Z * tpc);
  issued : Z;
}.

Definition set_caller (i : nat) (c : cpc) (s : system) : system :=
  mk (_taskId s) (__mutex s) (_tasks s) (<[i := c]> (callers s)) (threads s) (issued s).
Definition set_mutex (m : option nat) (s : system) : system :=
  mk (_taskId s) m (_tasks s) (callers s) (threads s) (issued s).
Definition set_tasks (t : gmap Z entry) (s : system) : system :=
  mk (_taskId s) (__mutex s) t (callers s) (threads s) (issued s).
Definition set_threads (t : list (Z * tpc)) (s : system) : system :=
  mk (_taskId s) (__mutex s) (_tasks s) (callers s) t (issued s).
(** [_get_new_task_id()]: [_taskId.fetch_add(1)]. *)
Definition _get_new_task_id (s : system) : Z * system :=
  (_taskId s, mk (u32 (_taskId s + 1)) (__mutex s) (_tasks s) (callers s) (threads s)
                (issued s + 1)).
(** The end of a call that holds the lock. *)
Definition leave (i : nat) (r : result) (s : system) : system :=
  set_caller i (C_idle (Some r)) (set_mutex None s).

(** [IsRunning(id)]: [_tasks.at(id).second], which throws for an unknown id. *)
Definition IsRunning (id : Z) (s : system) : result :=
  match _tasks s !! id with Some e => RBool (second e) | None => RRaised end.

Definition ended (id : Z) (s : system) : bool :=
  existsb (fun t : Z * tpc => (fst t =? id) && match snd t with T_end => true | _ => false end)
    (threads s).

(** What races: a caller is before the insertion; holds an iterator of [_tasks]; is in
    the [join] of [id]. A thread is before the lookup of [_task_done]. *)
Definition inserting (c : cpc) : bool := match c with A_insert _ _ _ => true | _ => false end.
Definition traversing (c : cpc) : bool :=
  match c with JA_next _ | JA_join _ _ => true | _ => false end.
Definition joining (id : Z) (c : cpc) : bool :=
  match c with J_join j | JA_join j _ => j =? id | _ => false end.
Definition looking_up (t : Z * tpc) : bool := match snd t with T_done => true | _ => false end.
(** Some caller but [i] satisfies [f]. *)
Definition other (f : cpc -> bool) (i : nat) (s : system) : bool :=
  existsb f (delete i (callers s)).
Definition race_free (safe : bool) (s : system) : outcome system :=
  if safe then Ret s else Fault DataRace.

(** A step of a caller; [None] when it waits. *)
Definition caller_step (i : nat) (c : cpc) (s : system) : option (outcome system) :=
  match c with
  | C_idle _ => None
  | A_lock count =>
      match __mutex s with
      | Some _ => None
      | None =>
          let s := set_mutex (Some i) s in
          Some (Ret (set_caller i (if Nat.eqb count 1 then A_new None 1
                                   else A_new (Some (_taskId s)) count) s))
      end
  | A_new (Some first) O => Some (Ret (leave i (RPair first (u32 (_taskId s - 1))) s))
  | A_new first rest =>
      let '(id, s) := _get_new_task_id s in Some (Ret (set_caller i (A_spawn first rest id) s))
  | A_spawn first rest id =>
      Some (Ret (set_caller i (A_insert first rest id) (set_threads (threads s ++ [(id, T_init)]) s)))
  | A_insert first rest id =>
      let s1 := match _tasks s !! id with
                | Some _ => s
                | None => set_tasks (<[id := mk_entry true false]> (_tasks s)) s
                end in
      Some (race_free (negb (other traversing i s) && negb (existsb looking_up (threads s)))
        (match first with
         | None => leave i (RPair id id) s1
         | Some _ => set_caller i (A_new first (rest - 1)) s1
         end))
  | J_lock id =>
      match __mutex s with
      | Some _ => None
      | None => Some (Ret (set_caller i (J_test id) (set_mutex (Some i) s)))
      end
  | J_test id =>
      match _tasks s !! id with
      | None => Some (Ret (leave i RRaised s))
      | Some e =>
          if second e then
            Some (race_free (negb (other (joining id) i s))
              (if joinable e then set_caller i (J_join id) s else leave i (RBool false) s))
          else Some (Ret (leave i (RBool false) s))
      end
  | J_join id =>
      if ended id s then
        match _tasks s !! id with
        | Some e => if joinable e
                    then Some (Ret (leave i (RBool true)
                                 (set_tasks (<[id := mk_entry false (second e)]> (_tasks s)) s)))
                    else Some (Ret (leave i RRaised s))
        | None => Some (Fault Dangling)
        end
      else None
  | JA_next rest =>
      if other inserting i s then Some (Fault DataRace)
      else
        match rest with
        | [] => Some (Ret (set_caller i (C_idle (Some RDone)) s))
        | id :: rest =>
            match _tasks s !! id with
            | Some e =>
                Some (race_free (negb (other (joining id) i s))
                  (set_caller i (if joinable e then JA_join id rest else JA_next rest) s))
            | None => Some (Fault Dangling)
            end
        end
  | JA_join id rest =>
      if ended id s then
        match _tasks s !! id with
        | Some e => if joinable e
                    then Some (Ret (set_caller i (JA_next rest)
                                 (set_tasks (<[id := mk_entry false (second e)]> (_tasks s)) s)))
                    else Some (Ret (set_caller i (C_idle (Some RRaised)) s))
        | None => Some (Fault Dangling)
        end
      else None
  end.

(** A step of a task's thread; [_tasks.at] in [_task_done] would throw out of the
    thread when the entry is missing. *)
Definition thread_step (k : nat) (id : Z) (p : tpc) (s : system) : option (outcome system) :=
  let go q s := Ret (set_threads (<[k := (id, q)]> (threads s)) s) in
  match p with
  | T_init => Some (go T_task s)
  | T_task => Some (go T_done s)
  | T_done =>
      if existsb inserting (callers s) then Some (Fault DataRace)
      else
        match _tasks s !! id with
        | None => Some (Fault OutOfRange)
        | Some e => Some (go T_clear (set_tasks (<[id := mk_entry (joinable e) true]> (_tasks s)) s))
        end
  | T_clear => Some (go T_end s)
  | T_end => None
  end.

(** [EJoinAll]: [JoinAllTasks], with the order in which its traversal meets the keys.
    [EOther]: another [TaskManager] object takes an id of the static counter. *)
Inductive event := EAdd (i : nat) (count : nat) | EJoin (i : nat) (id : Z)
| EJoinAll (i : nat) (order : list Z)
| ECaller (i : nat) | EThread (k : nat) | EOther.

Definition play1 (e : event) (s : system) : option (outcome system) :=
  match e with
  | EAdd i count =>
      match callers s !! i with
      | Some (C_idle _) => Some (Ret (set_caller i (A_lock count) s))
      | _ => None
      end
  | EJoin i id =>
      match callers s !! i with
      | Some (C_idle _) => Some (Ret (set_caller i (J_lock id) s))
      | _ => None
      end
  | EJoinAll i order =>
      match callers s !! i with
      | Some (C_idle _) =>
          if decide (order ≡ₚ (map_to_list (_tasks s)).*1) then Some (Ret (set_caller i (JA_next order) s))
          else None
      | _ => None
      end
  | ECaller i => match callers s !! i with Some c => caller_step i c s | None => None end
  | EThread k =>
      match threads s !! k with Some (id, p) => thread_step k id p s | None => None end
  | EOther => Some (Ret (snd (_get_new_task_id s)))
  end.
Definition step (s s' : system) : Prop := exists e, play1 e s = Some (Ret s').
Fixpoint play (es : list event) (s : system) : option (outcome system) :=
  match es with
  | [] => Some (Ret s)
  | e :: es => match play1 e s with Some (Ret s) => play es s | x => x end
  end.
(** The constructor takes an id for the main thread. *)
Definition init (n : nat) (first : Z) : system :=
  mk (u32 (first + 1)) None ∅ (replicate n (C_idle None)) [] 1.
(** The first object of the program; [_taskId] starts at 1. *)
Definition MAIN_ID : Z := 1.

(** ** The invariant *)
Definition holds_lock (c : cpc) : bool :=
  match c with
  | A_new _ _ | A_spawn _ _ _ | A_insert _ _ _ | J_test _ | J_join _ => true
  | _ => false
  end.
(** An id given to a thread that is not created yet, or not inserted yet. *)
Definition unborn (c : cpc) (id : Z) : Prop := exists f n, c = A_spawn f n id.
Definition uninserted (c : cpc) (id : Z) : Prop := exists f n, c = A_insert f n id.
Definition past_task (p : tpc) : bool := match p with T_clear | T_end => true | _ => false end.

(** The ids: the counter, the lock, and the threads made so far. *)
Record inv_ids (first : Z) (s : system) : Prop := {
  inv_counter : _taskId s = first + issued s;
  inv_issued : 1 <= issued s;
  inv_mutex i c : callers s !! i = Some c -> holds_lock c = true -> __mutex s = Some i;
  inv_inj k1 k2 id p1 p2 :
    threads s !! k1 = Some (id, p1) -> threads s !! k2 = Some (id, p2) -> k1 = k2;
  inv_range k id p : threads s !! k = Some (id, p) -> first < id < _taskId s;
  inv_unborn i c id : callers s !! i = Some c -> unborn c id ->
    first < id < _taskId s /\ forall k p, threads s !! k <> Some (id, p);
}.

(** The table: every entry belongs to a thread and its flag tells that the task is
    over. *)
Record inv_tasks (s : system) : Prop := {
  inv_keys id e : _tasks s !! id = Some e ->
    exists k p, threads s !! k = Some (id, p) /\ second e = past_task p;
  inv_past k id p : threads s !! k = Some (id, p) -> past_task p = true ->
    is_Some (_tasks s !! id);
  inv_insert i c id : callers s !! i = Some c -> uninserted c id ->
    exists k p, threads s !! k = Some (id, p);
  inv_true i : callers s !! i = Some (C_idle (Some (RBool true))) ->
    exists k id, threads s !! k = Some (id, T_end);
}.
Definition inv (first : Z) (s : system) : Prop := inv_ids first s /\ inv_tasks s.

Lemma holds_exclusive first s i j c d :
  inv_ids first s -> callers s !! i = Some c -> callers s !! j = Some d ->
  holds_lock c = true -> holds_lock d = true -> i = j.
Proof.
  intros Hs Hi Hj Hc Hd. pose proof (inv_mutex first s Hs i c Hi Hc) as E1.
  pose proof (inv_mutex first s Hs j d Hj Hd) as E2. congruence.
Qed.
Lemma unborn_holds c id : unborn c id -> holds_lock c = true.
Proof. by intros (f & n & ->). Qed.

(** A caller moves, keeping the lock it has or giving it back, and threads and ids
    stay. *)
Lemma inv_ids_caller first s i c c' m :
  inv_ids first s -> callers s !! i = Some c ->
  (holds_lock c' = true -> m = Some i) ->
  (m = __mutex s \/ __mutex s = None \/ holds_lock c = true) ->
  (forall id, unborn c' id -> unborn c id) ->
  inv_ids first (set_caller i c' (set_mutex m s)).
Proof.
  intros Hs Hi Hm Hl Hu. destruct Hs as [H1 H2 H3 H4 H5 H6]. split; simpl; try done.
  - intros j d [(<- & <- & _)|[Hne Hj]]%list_lookup_insert_Some Hd; [by apply Hm|].
    pose proof (H3 j d Hj Hd) as Ej. destruct Hl as [-> | [E|E]]; [done|congruence|].
    pose proof (H3 i c Hi E). congruence.
  - intros j d id [(<- & <- & _)|[Hne Hj]]%list_lookup_insert_Some Hd; [|by apply (H6 j d)].
    exact (H6 i c id Hi (Hu id Hd)).
Qed.

Lemma inv_tasks_caller s i c c' m :
  inv_tasks s -> callers s !! i = Some c ->
  (forall id, uninserted c' id -> uninserted c id) ->
  (c' = C_idle (Some (RBool true)) -> exists k id, threads s !! k = Some (id, T_end)) ->
  inv_tasks (set_caller i c' (set_mutex m s)).
Proof.
  intros Hs Hi Hu Ht. destruct Hs as [H1 H2 H3 H4]. split; simpl; try done.
  - intros j d id [(<- & <- & _)|[Hne Hj]]%list_lookup_insert_Some Hd; [|by apply (H3 j d)].
    exact (H3 i c id Hi (Hu id Hd)).
  - intros j [(<- & Ec & _)|[Hne Hj]]%list_lookup_insert_Some; [by apply Ht|by apply (H4 j)].
Qed.

Lemma set_caller_eq i c s : set_caller i c s = set_caller i c (set_mutex (__mutex s) s).
Proof. by destruct s. Qed.

(** Changes of the table that keep the flags. *)
Lemma inv_tasks_table s t :
  inv_tasks s ->
  (forall id e, t !! id = Some e -> exists k p, threads s !! k = Some (id, p) /\ second e = past_task p) ->
  (forall id, is_Some (_tasks s !! id) -> is_Some (t !! id)) ->
  inv_tasks (set_tasks t s).
Proof. intros [H1 H2 H3 H4] Ht Hd. split; simpl; try done. intros k id p Hk Hp. by eapply Hd, H2. Qed.

Lemma inv_ids_table first s t : inv_ids first s -> inv_ids first (set_tasks t s).
Proof. intros [H1 H2 H3 H4 H5 H6]. by split. Qed.

(** A new id. *)
Lemma inv_new_id first s :
  inv first s -> first + issued s + 1 < 2 ^ 32 -> 0 <= first ->
  inv first (snd (_get_new_task_id s)).
Proof.
  intros [[H1 H2 H3 H4 H5 H6] [T1 T2 T3 T4]] Hb Hf.
  assert (E : u32 (_taskId s + 1) = _taskId s + 1) by (rewrite H1; apply u32_small; lia).
  split; split; simpl; rewrite ?E; try done; try lia.
  - intros k id p Hk. pose proof (H5 k id p Hk). lia.
  - intros i c id Hi Hu. destruct (H6 i c id Hi Hu). split; [lia|done].
Qed.

(** A thread moves, and the table with it. *)
Lemma inv_thread first s k id p q t :
  inv first s -> threads s !! k = Some (id, p) -> p <> T_end ->
  (forall i e, t !! i = Some e ->
     is_Some (_tasks s !! i) /\ (if decide (i = id) then second e = past_task q else _tasks s !! i = Some e)) ->
  (forall i, is_Some (_tasks s !! i) -> is_Some (t !! i)) ->
  (past_task q = true -> is_Some (t !! id)) ->
  inv first (set_threads (<[k := (id, q)]> (threads s)) (set_tasks t s)).
Proof.
  intros [[H1 H2 H3 H4 H5 H6] [T1 T2 T3 T4]] Hk Hp Ht Hd Hq.
  assert (Hlt : (k < length (threads s))%nat) by (by eapply lookup_lt_Some).
  assert (Hold : forall k' id' p', <[k := (id, q)]> (threads s) !! k' = Some (id', p') ->
    (k' = k /\ id' = id /\ p' = q) \/ (k' <> k /\ threads s !! k' = Some (id', p'))).
  { intros k' id' p' [(<- & E & _)|[Hne Hk']]%list_lookup_insert_Some; [|by right].
    injection E as <- <-. by left. }
  assert (Hnew : forall k' id' p', threads s !! k' = Some (id', p') ->
    exists p'', <[k := (id, q)]> (threads s) !! k' = Some (id', p'') /\ (k' <> k -> p'' = p')).
  { intros k' id' p' Hk'. destruct (decide (k' = k)) as [->|Hne].
    - rewrite Hk in Hk'. injection Hk' as <- <-. exists q.
      by rewrite list_lookup_insert_eq.
    - exists p'. by rewrite list_lookup_insert_ne. }
  split; split; simpl; try done.
  - intros k1 k2 i p1 p2 Hk1 Hk2.
    destruct (Hold _ _ _ Hk1) as [(-> & -> & ->)|[N1 E1]], (Hold _ _ _ Hk2) as [(-> & E & ->)|[N2 E2]];
      subst; try done; eauto.
  - intros k1 i p1 Hk1. destruct (Hold _ _ _ Hk1) as [(-> & -> & ->)|[N1 E1]]; eauto.
  - intros i c j Hi Hu. destruct (H6 i c j Hi Hu) as [Hr Hn]. split; [done|].
    intros k1 p1 Hk1. destruct (Hold _ _ _ Hk1) as [(-> & -> & ->)|[N1 E1]]; [|by eapply Hn].
    by eapply Hn.
  - intros i e Hi. destruct (Ht i e Hi) as [_ He]. destruct (decide (i = id)) as [->|Hne].
    + exists k, q. by rewrite list_lookup_insert_eq.
    + destruct (T1 i e He) as (k1 & p1 & Hk1 & E1). destruct (Hnew _ _ _ Hk1) as (p2 & E2 & Hsame).
      exists k1, p2. split; [done|]. rewrite Hsame; [done|]. intros ->.
      rewrite Hk in Hk1. by injection Hk1 as <- <-.
  - intros k1 i p1 Hk1 Hpast. destruct (Hold _ _ _ Hk1) as [(-> & -> & ->)|[N1 E1]]; eauto.
  - intros i c j Hi Hu. destruct (T3 i c j Hi Hu) as (k1 & p1 & Hk1).
    destruct (Hnew _ _ _ Hk1) as (p2 & E2 & _). eauto.
  - intros i Hi. destruct (T4 i Hi) as (k1 & j & Hk1). exists k1, j.
    rewrite list_lookup_insert_ne; [done|]. intros ->. congruence.
Qed.

(** The flag of an entry tells where its thread is. *)
Lemma entry_flag first s k id p e :
  inv first s -> threads s !! k = Some (id, p) -> _tasks s !! id = Some e ->
  second e = past_task p.
Proof.
  intros [Hi Ht] Hk He. destruct (inv_keys s Ht id e He) as (k1 & p1 & Hk1 & E).
  assert (k1 = k) as -> by exact (inv_inj first s Hi _ _ _ _ _ Hk1 Hk).
  rewrite Hk in Hk1. by injection Hk1 as <-.
Qed.

Lemma set_tasks_id s : set_tasks (_tasks s) s = s.
Proof. by destruct s. Qed.

Lemma tasks_thread_step_inv first s k id p s' :
  inv first s -> threads s !! k = Some (id, p) ->
  thread_step k id p s = Some (Ret s') -> inv first s'.
Proof.
  intros Hs Hk Hst.
  assert (Hmove : forall q, p <> T_end -> past_task q = past_task p ->
    inv first (set_threads (<[k := (id, q)]> (threads s)) s)).
  { intros q Hp E. rewrite <- (set_tasks_id s) at 2.
    apply (inv_thread first s k id p q (_tasks s) Hs Hk Hp); [|done|].
    - intros i e Hi. split; [done|]. destruct (decide (i = id)) as [->|]; [|done].
      rewrite E. exact (entry_flag first s k id p e Hs Hk Hi).
    - intros Hq. rewrite E in Hq. exact (inv_past s (proj2 Hs) k id p Hk Hq). }
  destruct p; cbn [thread_step] in Hst; try (injection Hst as <-; by apply Hmove); [|done].
  destruct (existsb inserting (callers s)); [done|]. destruct (_tasks s !! id) as [e|] eqn:He; [|done]. injection Hst as <-.
  apply (inv_thread first s k id T_done T_clear _ Hs Hk); [done|..].
  - intros i e' [(<- & <-)|[Hne Hi]]%lookup_insert_Some.
    + by rewrite decide_True.
    + by rewrite decide_False by done.
  - intros i [e' Hi]. destruct (decide (i = id)) as [->|];
      [rewrite lookup_insert_eq|rewrite lookup_insert_ne by done]; eauto.
  - intros _. by rewrite lookup_insert_eq.
Qed.

(** The steps of callers. *)
Lemma inv_caller first s i c c' m :
  inv first s -> callers s !! i = Some c ->
  (holds_lock c' = true -> m = Some i) ->
  (m = __mutex s \/ __mutex s = None \/ holds_lock c = true) ->
  (forall id, unborn c' id -> unborn c id) ->
  (forall id, uninserted c' id -> uninserted c id) ->
  (c' = C_idle (Some (RBool true)) -> exists k id, threads s !! k = Some (id, T_end)) ->
  inv first (set_caller i c' (set_mutex m s)).
Proof.
  intros [Hi Ht] Hc Hm Hl Hu Hn Htrue. split.
  - by apply (inv_ids_caller first s i c).
  - by apply (inv_tasks_caller s i c).
Qed.

(** A step that only moves the caller. *)
Lemma inv_caller_keep first s i c c' :
  inv first s -> callers s !! i = Some c ->
  (holds_lock c' = true -> holds_lock c = true) ->
  (forall id, unborn c' id -> unborn c id) ->
  (forall id, uninserted c' id -> uninserted c id) ->
  c' <> C_idle (Some (RBool true)) -> inv first (set_caller i c' s).
Proof.
  intros Hs Hc Hm Hu Hn Ht. rewrite set_caller_eq.
  apply (inv_caller first s i c c' _ Hs Hc); try done; auto.
  intros Hh. apply (inv_mutex first s (proj1 Hs) i c Hc). auto.
Qed.
Lemma inv_leave first s i c r :
  inv first s -> callers s !! i = Some c -> holds_lock c = true ->
  (r = RBool true -> exists k id, threads s !! k = Some (id, T_end)) ->
  inv first (leave i r s).
Proof.
  intros Hs Hc Hh Hr. apply (inv_caller first s i c _ _ Hs Hc); try done.
  - by right; right.
  - by intros id (f & n & ?).
  - by intros id (f & n & ?).
  - intros [= ->]. by apply Hr.
Qed.

Lemma inv_A_spawn first s i c f n :
  inv first s -> first + issued s + 1 < 2 ^ 32 -> 0 <= first ->
  callers s !! i = Some c -> holds_lock c = true ->
  inv first (set_caller i (A_spawn f n (_taskId s)) (snd (_get_new_task_id s))).
Proof.
  intros Hs Hb Hf Hc Hh. pose proof (inv_new_id first s Hs Hb Hf) as [Hi Ht].
  destruct Hs as [Hi0 _]. split.
  - destruct Hi as [H1 H2 H3 H4 H5 H6]. split; try done.
    + intros j d [(<- & <- & _)|[Hne Hj]]%list_lookup_insert_Some Hd; [|by apply (H3 j d)].
      exact (H3 i c Hc Hh).
    + intros j d id [(<- & <- & _)|[Hne Hj]]%list_lookup_insert_Some Hd; [|by apply (H6 j d)].
      destruct Hd as (f' & n' & E). injection E as _ _ <-.
      pose proof (inv_counter first s Hi0). pose proof (inv_issued first s Hi0).
      split; [cbn in H1 |- *; lia|]. intros k p Hk.
      pose proof (inv_range first s Hi0 k _ p Hk). lia.
  - rewrite set_caller_eq. apply (inv_tasks_caller _ i c _ _ Ht Hc); [|done].
    by intros id (f' & n' & ?).
Qed.

Lemma inv_A_insert first s i f n id :
  inv first s -> callers s !! i = Some (A_spawn f n id) ->
  inv first (set_caller i (A_insert f n id) (set_threads (threads s ++ [(id, T_init)]) s)).
Proof.
  intros [Hi Ht] Hc. assert (Hun : unborn (A_spawn f n id) id) by (by exists f, n).
  destruct (inv_unborn first s Hi i _ id Hc Hun) as [Hr Hno].
  assert (Hsnoc : forall k j p, (threads s ++ [(id, T_init)]) !! k = Some (j, p) ->
    threads s !! k = Some (j, p) \/ (k = length (threads s) /\ j = id /\ p = T_init)).
  { intros k j p [Hk|(Hle & Hk)]%lookup_app_Some; [by left|]. right.
    apply list_lookup_singleton_Some in Hk as [Hk [= <- <-]]. split; [lia|done]. }
  assert (Hkeep : forall k j p, threads s !! k = Some (j, p) ->
    (threads s ++ [(id, T_init)]) !! k = Some (j, p)) by (intros; by apply lookup_app_l_Some).
  split.
  - destruct Hi as [H1 H2 H3 H4 H5 H6]. split; simpl; try done.
    + intros j d [(<- & <- & _)|[Hne Hj]]%list_lookup_insert_Some Hd; [|by apply (H3 j d)].
      by apply (H3 i _ Hc).
    + intros k1 k2 j p1 p2 [E1|(-> & -> & ->)]%Hsnoc [E2|(-> & E & ->)]%Hsnoc; subst; eauto;
        by exfalso; eapply Hno.
    + intros k j p [E1|(-> & -> & ->)]%Hsnoc; eauto.
    + intros j d id' [(<- & <- & _)|[Hne Hj]]%list_lookup_insert_Some Hd.
      { by destruct Hd as (f' & n' & ?). }
      destruct Hne. pose proof (H3 i _ Hc eq_refl). pose proof (H3 j d Hj (unborn_holds d id' Hd)).
      congruence.
  - destruct Ht as [T1 T2 T3 T4]. split; simpl.
    + intros j e Hj. destruct (T1 j e Hj) as (k & p & Hk & E). eauto.
    + intros k j p [E1|(-> & -> & ->)]%Hsnoc; [by eapply T2|done].
    + intros j d id' [(<- & <- & _)|[Hne Hj]]%list_lookup_insert_Some Hd.
      * destruct Hd as (f' & n' & E). injection E as _ _ <-. exists (length (threads s)), T_init.
        by rewrite lookup_app_r, Nat.sub_diag by lia.
      * destruct (T3 j d id' Hj Hd) as (k & p & Hk). eauto.
    + intros j [(<- & E & _)|[Hne Hj]]%list_lookup_insert_Some; [done|].
      destruct (T4 j Hj) as (k & id' & Hk). eauto.
Qed.

(** [_tasks.insert], of which the entry is new or left alone. *)
Lemma inv_inserted first s i f n id :
  inv first s -> callers s !! i = Some (A_insert f n id) ->
  inv first (match _tasks s !! id with
             | Some _ => s
             | None => set_tasks (<[id := mk_entry true false]> (_tasks s)) s
             end).
Proof.
  intros [Hi Ht] Hc. destruct (_tasks s !! id) as [e|] eqn:He; [done|]. split.
  - by apply inv_ids_table.
  - apply inv_tasks_table; [done|..].
    + intros j e [(<- & <-)|[Hne Hj]]%lookup_insert_Some; [|by apply (inv_keys s Ht)].
      destruct (inv_insert s Ht i _ id Hc) as (k & p & Hk); [by exists f, n|].
      exists k, p. split; [done|]. simpl. destruct (past_task p) eqn:Ep; [|done].
      destruct (inv_past s Ht k id p Hk Ep) as [e' He']. congruence.
    + intros j [e Hj]. rewrite lookup_insert_ne by congruence. eauto.
Qed.

Lemma ended_thread id s : ended id s = true -> exists k, threads s !! k = Some (id, T_end).
Proof.
  unfold ended. intros ([i p] & Hin & E)%existsb_exists. simpl in E.
  apply list_elem_of_In, list_elem_of_lookup in Hin as [k Hk]. exists k. rewrite Hk.
  destruct p; rewrite ?andb_false_r in E; try done. rewrite andb_true_r in E.
  apply Z.eqb_eq in E. by subst.
Qed.

(** [join] empties the thread object. *)
Lemma inv_joined first s id e :
  inv first s -> _tasks s !! id = Some e ->
  inv first (set_tasks (<[id := mk_entry false (second e)]> (_tasks s)) s).
Proof.
  intros [Hi Ht] He. split; [by apply inv_ids_table|]. apply inv_tasks_table; [done|..].
  - intros j e' [(<- & <-)|[Hne Hj]]%lookup_insert_Some; [|by apply (inv_keys s Ht)].
    simpl. by apply (inv_keys s Ht).
  - intros j [e' Hj]. destruct (decide (j = id)) as [->|];
      [rewrite lookup_insert_eq|rewrite lookup_insert_ne by done]; eauto.
Qed.

Lemma race_free_ret b s s' : race_free b s = Ret s' -> s' = s.
Proof. unfold race_free. destruct b; [by intros [= <-]|done]. Qed.

Lemma caller_step_inv first s i c s' :
  inv first s -> first + issued s' < 2 ^ 32 -> 0 <= first -> callers s !! i = Some c ->
  caller_step i c s = Some (Ret s') -> inv first s'.
Proof.
  intros Hs Hb Hf Hc Hst.
  assert (Htriv : forall (P : Prop) id f n, unborn (A_new f n) id \/ uninserted (A_new f n) id -> P)
    by (by intros P id f n [(? & ? & ?)|(? & ? & ?)]).
  destruct c as [r|count|f [|rest]|f rest id|f rest id|id|id|id|rest|id rest]; cbn [caller_step] in Hst.
  - done.
  - destruct (__mutex s) eqn:Hm; [done|]. injection Hst as <-.
    apply (inv_caller first s i _ _ _ Hs Hc); auto; destruct (Nat.eqb count 1); try done;
      intros; by eapply Htriv; eauto.
  - destruct f as [fid|]; injection Hst as <-; [by apply (inv_leave first s i (A_new (Some fid) 0))|].
    simpl in Hb. by apply (inv_A_spawn first s i (A_new None 0) None 0 Hs); [lia|..].
  - assert (Hst' : Some (Ret (set_caller i (A_spawn f (S rest) (_taskId s)) (snd (_get_new_task_id s))))
      = Some (Ret s')) by (by destruct f).
    injection Hst' as <-. simpl in Hb.
    by apply (inv_A_spawn first s i (A_new f (S rest)) f (S rest) Hs); [lia|..].
  - injection Hst as <-. by apply inv_A_insert.
  - pose proof (inv_inserted first s i f rest id Hs Hc) as Hs1.
    set (s1 := match _tasks s !! id with Some _ => s | None => _ end) in *.
    assert (Hc1 : callers s1 !! i = Some (A_insert f rest id))
      by (unfold s1; by destruct (_tasks s !! id)).
    injection Hst as ->%race_free_ret.
    destruct f; [|by apply (inv_leave first s1 i (A_insert None rest id))].
    apply (inv_caller_keep first s1 i _ _ Hs1 Hc1); try done; intros; by eapply Htriv; eauto.
  - destruct (__mutex s) eqn:Hm; [done|]. injection Hst as <-.
    apply (inv_caller first s i _ _ _ Hs Hc); auto; try done; by intros ? (? & ? & ?).
  - destruct (_tasks s !! id) as [e|] eqn:He;
      [|injection Hst as <-; by apply (inv_leave first s i (J_test id))].
    destruct (second e); [|injection Hst as <-; by apply (inv_leave first s i (J_test id))].
    injection Hst as ->%race_free_ret. destruct (joinable e); [|by apply (inv_leave first s i (J_test id))].
    apply (inv_caller_keep first s i _ _ Hs Hc); try done; by intros ? (? & ? & ?).
  - destruct (ended id s) eqn:Hend; [|done]. apply ended_thread in Hend as [k Hk].
    destruct (_tasks s !! id) as [e|] eqn:He; [|done].
    destruct (joinable e); injection Hst as <-; [|by apply (inv_leave first s i (J_join id))].
    apply (inv_leave first _ i (J_join id)); try done; [|intros _; by exists k, id].
    by apply inv_joined.
  - destruct (other inserting i s); [done|]. destruct rest as [|id rest].
    + injection Hst as <-. apply (inv_caller_keep first s i _ _ Hs Hc); try done; by intros ? (? & ? & ?).
    + destruct (_tasks s !! id) as [e|]; [|done]. injection Hst as ->%race_free_ret.
      destruct (joinable e); apply (inv_caller_keep first s i _ _ Hs Hc); try done; by intros ? (? & ? & ?).
  - destruct (ended id s) eqn:Hend; [|done].
    destruct (_tasks s !! id) as [e|] eqn:He; [|done].
    destruct (joinable e); injection Hst as <-.
    + apply (inv_caller_keep first _ i (JA_join id rest)); try done; [by apply inv_joined|..];
        by intros ? (? & ? & ?).
    + apply (inv_caller_keep first s i _ _ Hs Hc); try done; by intros ? (? & ? & ?).
Qed.

(** ** Runs *)
Definition inv_bounded (first : Z) (s : system) : Prop :=
  first + issued s < 2 ^ 32 -> inv first s.

Lemma issued_mono e s s' : play1 e s = Some (Ret s') -> issued s <= issued s'.
Proof.
  destruct e as [i c|i id|i l|i|k|]; cbn [play1]; intros He.
  - by repeat (case_match; try done); simplify_eq.
  - by repeat (case_match; try done); simplify_eq.
  - by repeat (case_match; try done); simplify_eq.
  - destruct (callers s !! i) as [c|]; [|done].
    destruct c as [r|count|[f|] [|n]|f n id|[f|] n id|id|id|id|rest|id rest]; cbn [caller_step] in He;
      unfold _get_new_task_id, race_free in He; try discriminate He; repeat (case_match; try discriminate He);
      injection He as <-; repeat case_match; simpl; lia.
  - destruct (threads s !! k) as [[id p]|]; [|done].
    destruct p; cbn [thread_step] in He; try discriminate He; repeat (case_match; try discriminate He); injection He as <-; simpl; lia.
  - injection He as <-. simpl. lia.
Qed.

Lemma tasks_step_inv first s s' : 0 <= first -> inv_bounded first s -> step s s' -> inv_bounded first s'.
Proof.
  intros Hf Hs [e He] Hb. pose proof (issued_mono e s s' He) as Hm.
  assert (Hi : inv first s) by (apply Hs; lia).
  destruct e as [i c|i id|i l|i|k|]; cbn [play1] in He.
  - destruct (callers s !! i) as [[r| | | | | | | | |]|] eqn:Hc; try done. injection He as <-.
    apply (inv_caller_keep first s i _ _ Hi Hc); try done; by intros ? (? & ? & ?).
  - destruct (callers s !! i) as [[r| | | | | | | | |]|] eqn:Hc; try done. injection He as <-.
    apply (inv_caller_keep first s i _ _ Hi Hc); try done; by intros ? (? & ? & ?).
  - destruct (callers s !! i) as [[r| | | | | | | | |]|] eqn:Hc; try done.
    destruct (decide _); [|done]. injection He as <-.
    apply (inv_caller_keep first s i _ _ Hi Hc); try done; by intros ? (? & ? & ?).
  - destruct (callers s !! i) as [c|] eqn:Hc; [|done]. by apply (caller_step_inv first s i c).
  - destruct (threads s !! k) as [[id p]|] eqn:Hk; [|done].
    by apply (tasks_thread_step_inv first s k id p).
  - injection He as <-. apply inv_new_id; [done|simpl in Hb; lia|done].
Qed.

Lemma tasks_init_inv n first : 0 <= first -> inv_bounded first (init n first).
Proof.
  intros Hf Hb. simpl in Hb. split; split; simpl; try done.
  - by rewrite u32_small by lia.
  - by intros i c [-> _]%lookup_replicate.
  - by intros i c id [-> _]%lookup_replicate (? & ? & ?).
  - by intros i c id [-> _]%lookup_replicate (? & ? & ?).
  - by intros i [? _]%lookup_replicate.
Qed.

Lemma tasks_run_inv n first s :
  0 <= first -> run step (init n first) s -> first + issued s < 2 ^ 32 -> inv first s.
Proof.
  intros Hf Hr. apply (run_invariant step (inv_bounded first) (init n first)); [|by apply tasks_init_inv|done].
  intros a b. by apply tasks_step_inv.
Qed.

(** C18: over all interleavings of [AddTask], [JoinTask], task threads and other
    [TaskManager] objects, with fewer than 2^32 ids: all task threads have different
    ids, different from the main thread's; and [IsRunning(id)] is true exactly when
    the task of [id] is over. *)
Theorem task_ids_distinct_and_IsRunning_is_done n first s :
  0 <= first -> run step (init n first) s -> first + issued s < 2 ^ 32 ->
  (forall k1 k2 id1 id2 p1 p2, threads s !! k1 = Some (id1, p1) ->
     threads s !! k2 = Some (id2, p2) -> k1 <> k2 -> id1 <> id2) /\
  (forall k id p, threads s !! k = Some (id, p) -> first < id < 2 ^ 32) /\
  (forall k id p b, threads s !! k = Some (id, p) -> IsRunning id s = RBool b ->
     b = past_task p) /\
  (forall id, (forall k p, threads s !! k <> Some (id, p)) -> IsRunning id s = RRaised).
Proof.
  intros Hf Hr Hb. pose proof (tasks_run_inv n first s Hf Hr Hb) as Hs. split_and!.
  - intros k1 k2 id1 id2 p1 p2 H1 H2 Hne ->. apply Hne.
    exact (inv_inj first s (proj1 Hs) _ _ _ _ _ H1 H2).
  - intros k id p Hk. pose proof (inv_range first s (proj1 Hs) k id p Hk).
    pose proof (inv_counter first s (proj1 Hs)). lia.
  - intros k id p b Hk Hr'. unfold IsRunning in Hr'.
    destruct (_tasks s !! id) as [e|] eqn:He; [|done]. injection Hr' as <-.
    exact (entry_flag first s k id p e Hs Hk He).
  - intros id Hno. unfold IsRunning. destruct (_tasks s !! id) as [e|] eqn:He; [|done].
    destruct (inv_keys s (proj2 Hs) id e He) as (k & p & Hk & _). by destruct (Hno k p).
Qed.

(** The race of [_task_done]: whenever a caller of [AddTask] has created the
    thread of a task and not yet inserted its entry, that thread can finish the task
    first, and then its [_tasks.at], for an entry that is not there, races with the
    insertion. *)
Theorem task_done_races_with_insert n first s i f rest id :
  0 <= first -> run step (init n first) s -> first + issued s < 2 ^ 32 ->
  callers s !! i = Some (A_insert f rest id) -> _tasks s !! id = None ->
  exists k m, play (replicate m (EThread k)) s = Some (Fault DataRace).
Proof.
  intros Hf Hr Hb Hc He. pose proof (tasks_run_inv n first s Hf Hr Hb) as Hs.
  destruct (inv_insert s (proj2 Hs) i _ id Hc) as (k & p & Hk); [by exists f, rest|].
  assert (Hlt : (k < length (threads s))%nat) by (by eapply lookup_lt_Some).
  assert (Hp : past_task p = false).
  { destruct (past_task p) eqn:Ep; [|done].
    destruct (inv_past s (proj2 Hs) k id p Hk Ep) as [e He']. congruence. }
  assert (Hin : existsb inserting (callers s) = true).
  { apply existsb_exists. exists (A_insert f rest id). split; [|done].
    apply list_elem_of_In. by eapply list_elem_of_lookup_2. }
  exists k. destruct p; try done.
  - exists 3%nat. cbn [replicate play play1]. rewrite Hk. cbn [thread_step threads set_threads].
    rewrite list_lookup_insert_eq by done. cbn [thread_step threads set_threads].
    rewrite list_insert_insert_eq, list_lookup_insert_eq by done.
    cbn [thread_step callers set_threads]. by rewrite Hin.
  - exists 2%nat. cbn [replicate play play1]. rewrite Hk. cbn [thread_step threads set_threads].
    rewrite list_lookup_insert_eq by done.
    cbn [thread_step callers set_threads]. by rewrite Hin.
  - exists 1%nat. cbn [replicate play play1]. rewrite Hk. cbn [thread_step]. by rewrite Hin.
Qed.

(** ** One undisturbed [AddTask(task, count)] *)
(** The threads and entries of [count] new tasks from [id] on. *)
Definition new_threads (id : Z) (count : nat) : list (Z * tpc) :=
  (fun j => (id + Z.of_nat j, T_init)) <$> seq 0 count.
Definition has_entries (id : Z) (count : nat) (s : system) : Prop :=
  forall j, (j < count)%nat -> _tasks s !! (id + Z.of_nat j) = Some (mk_entry true false).

Lemma new_threads_S id n : new_threads id (S n) = (id, T_init) :: new_threads (id + 1) n.
Proof.
  unfold new_threads. simpl. rewrite Z.add_0_r. f_equal.
  rewrite <- seq_shift, map_map. apply list_fmap_ext. intros _ j _. f_equal. lia.
Qed.

(** One round of the loop: an id, a thread, an entry. *)
Definition after_round (i : nat) (c : cpc) (s : system) : system :=
  mk (_taskId s + 1) (__mutex s) (<[_taskId s := mk_entry true false]> (_tasks s))
    (<[i := c]> (callers s)) (threads s ++ [(_taskId s, T_init)]) (issued s + 1).

Lemma play_caller k i c s s1 :
  callers s !! i = Some c -> caller_step i c s = Some (Ret s1) ->
  play (replicate (S k) (ECaller i)) s = play (replicate k (ECaller i)) s1.
Proof. intros Hc E. cbn [replicate play play1]. by rewrite Hc, E. Qed.

(** Nobody uses [_tasks] without the lock. *)
Definition undisturbed (i : nat) (s : system) : Prop :=
  other traversing i s = false /\ existsb looking_up (threads s) = false.
Lemma other_set f i c s : other f i (set_caller i c s) = other f i s.
Proof. unfold other, set_caller. cbn [callers]. by rewrite delete_insert_same. Qed.
Lemma undisturbed_after_round i c s : undisturbed i s -> undisturbed i (after_round i c s).
Proof.
  intros [Ht Hl]. unfold undisturbed, other, after_round. cbn [callers threads].
  by rewrite delete_insert_same, existsb_app, Hl.
Qed.

Lemma one_round k i f n s :
  callers s !! i = Some (A_new (Some f) (S n)) -> 0 <= _taskId s -> _taskId s + 1 < 2 ^ 32 ->
  _tasks s !! _taskId s = None -> undisturbed i s ->
  play (replicate (3 + k) (ECaller i)) s =
  play (replicate k (ECaller i)) (after_round i (A_new (Some f) n) s).
Proof.
  intros Hc H0 Hb Hn [Ht Hl]. assert (Hlt : (i < length (callers s))%nat) by (by eapply lookup_lt_Some).
  assert (E : u32 (_taskId s + 1) = _taskId s + 1) by (apply u32_small; lia).
  cbn [Nat.add].
  erewrite play_caller; [|exact Hc|reflexivity].
  erewrite play_caller; [|by apply list_lookup_insert_eq|reflexivity].
  erewrite play_caller; [|apply list_lookup_insert_eq; simpl; by rewrite length_insert|].
  2: { cbn [caller_step]. rewrite other_set. cbn [threads set_caller set_threads _get_new_task_id snd].
       unfold other in *. cbn [callers set_caller set_threads]. rewrite delete_insert_same, Ht.
       rewrite existsb_app, Hl. reflexivity. }
  cbn [_tasks set_threads set_caller _get_new_task_id]. rewrite Hn. unfold after_round, set_caller, set_tasks, set_threads.
  cbn [_taskId __mutex _tasks callers threads issued].
  rewrite E, !list_insert_insert_eq. replace (S n - 1)%nat with n by lia. done.
Qed.

Lemma add_loop i f : forall n k s,
  callers s !! i = Some (A_new (Some f) n) -> 0 <= _taskId s ->
  _taskId s + Z.of_nat n < 2 ^ 32 -> (forall id, _taskId s <= id -> _tasks s !! id = None) ->
  undisturbed i s ->
  exists s', play (replicate (3 * n + k) (ECaller i)) s = play (replicate k (ECaller i)) s' /\
    callers s' !! i = Some (A_new (Some f) 0) /\ _taskId s' = _taskId s + Z.of_nat n /\
    threads s' = threads s ++ new_threads (_taskId s) n /\
    has_entries (_taskId s) n s' /\ (forall id, id < _taskId s -> _tasks s' !! id = _tasks s !! id).
Proof.
  induction n as [|n IH]; intros k s Hc H0 Hb Hn Hu.
  { exists s. rewrite app_nil_r, Z.add_0_r. split_and!; try done. intros j Hj. lia. }
  assert (Hlt : (i < length (callers s))%nat) by (by eapply lookup_lt_Some).
  replace (3 * S n + k)%nat with (3 + (3 * n + k))%nat by lia.
  rewrite (one_round _ i f n s Hc H0 ltac:(lia) (Hn _ (Z.le_refl _)) Hu).
  set (s1 := after_round i (A_new (Some f) n) s).
  destruct (IH k s1) as (s' & E & E1 & E2 & E3 & E4 & E5).
  { by apply list_lookup_insert_eq. }
  { simpl. lia. }
  { simpl. lia. }
  { intros id Hid. simpl in *. rewrite lookup_insert_ne by lia. apply Hn. lia. }
  { by apply undisturbed_after_round. }
  exists s'. rewrite E. split; [done|]. split; [done|]. simpl in *.
  split; [rewrite E2; lia|]. split; [|split].
  - by rewrite E3, new_threads_S, <- app_assoc.
  - intros [|j] Hj.
    + rewrite Z.add_0_r, E5 by lia. by rewrite lookup_insert_eq.
    + replace (_taskId s + Z.of_nat (S j)) with (_taskId s + 1 + Z.of_nat j) by lia.
      apply E4. lia.
  - intros id Hid. rewrite E5 by lia. by rewrite lookup_insert_ne by lia.
Qed.

(** [AddTask(task, count)] that is not interrupted by other calls, while nobody
    traverses [_tasks] and no task is looking up its entry, returns: it
    has created [count] threads with consecutive new ids, entered them all as not
    done, released the lock, and returns the first and the last of the ids; for
    [count] 0 it returns the pair [(next id, next id - 1)]. *)
Theorem AddTask_returns_its_range n first s i r count :
  0 <= first -> run step (init n first) s -> first + issued s + Z.of_nat count < 2 ^ 32 ->
  callers s !! i = Some (C_idle r) -> __mutex s = None -> count <> 1%nat -> undisturbed i s ->
  exists m s', play (EAdd i count :: replicate m (ECaller i)) s = Some (Ret s') /\
    callers s' !! i = Some (C_idle (Some (RPair (_taskId s) (_taskId s + Z.of_nat count - 1)))) /\
    threads s' = threads s ++ new_threads (_taskId s) count /\
    has_entries (_taskId s) count s' /\ __mutex s' = None.
Proof.
  intros Hf Hr Hb Hc Hm Hne Hu. assert (Hs : inv first s) by (apply (tasks_run_inv n); [done|done|lia]).
  assert (Hlt : (i < length (callers s))%nat) by (by eapply lookup_lt_Some).
  pose proof (inv_counter first s (proj1 Hs)) as Hcnt.
  pose proof (inv_issued first s (proj1 Hs)) as Hiss.
  set (s1 := set_caller i (A_lock count) s).
  set (s2 := set_caller i (A_new (Some (_taskId s)) count) (set_mutex (Some i) s1)).
  destruct (add_loop i (_taskId s) count 1 s2) as (s' & E & E1 & E2 & E3 & E4 & E5).
  { apply list_lookup_insert_eq. simpl. by rewrite length_insert. }
  { simpl. lia. }
  { simpl. lia. }
  { intros id Hid. destruct (_tasks s !! id) as [e|] eqn:He; [|exact He].
    destruct (inv_keys s (proj2 Hs) id e He) as (k & p & Hk & _).
    pose proof (inv_range first s (proj1 Hs) k id p Hk). simpl in Hid. lia. }
  { destruct Hu as [Hu1 Hu2]. split; [|exact Hu2]. unfold other in *. simpl.
    by rewrite !delete_insert_same. }
  exists (S (3 * count + 1)), (leave i (RPair (_taskId s) (u32 (_taskId s' - 1))) s').
  split; [|split; [|split; [exact E3|split; [exact E4|done]]]].
  - cbn [play play1]. rewrite Hc. fold s1.
    erewrite play_caller; [|by apply list_lookup_insert_eq|].
    2: { cbn [caller_step]. cbn [__mutex s1 set_caller]. rewrite Hm.
         rewrite (proj2 (Nat.eqb_neq count 1) Hne). reflexivity. }
    change (set_caller i (A_new _ count) _) with s2. rewrite E.
    erewrite play_caller; [|exact E1|reflexivity]. done.
  - simpl. rewrite list_lookup_insert_eq by (by eapply lookup_lt_Some).
    simpl in E2. rewrite E2. rewrite u32_small by lia. done.
Qed.

(** ** A sample: two tasks are added; the first one is over before the second one is
    inserted. *)
Definition sample_events : list event :=
  [EAdd 0 2; ECaller 0; ECaller 0; ECaller 0; ECaller 0; EThread 0; EThread 0; EThread 0;
   ECaller 0; ECaller 0].
Definition sample : system :=
  mk 4 (Some 0%nat) {[2 := mk_entry true true]} [A_insert (Some 2) 1 3]
    [(2, T_clear); (3, T_init)] 3.

Lemma tasks_play_run es : forall s s', play es s = Some (Ret s') -> run step s s'.
Proof.
  induction es as [|e es IH]; intros s s'; cbn [play]; [intros [= <-]; constructor|].
  destruct (play1 e s) as [[s1| | |]|] eqn:E; try done. intros Hp.
  apply (run_trans step s s1); [|by apply IH].
  apply (run_step s s s1); [constructor|]. by exists e.
Qed.

Lemma tasks_sample_run : run step (init 1 MAIN_ID) sample.
Proof. apply (tasks_play_run sample_events). reflexivity. Qed.

Lemma task_ids_distinct_and_IsRunning_is_done_witness :
  run step (init 1 MAIN_ID) sample /\ IsRunning 2 sample = RBool true /\
  past_task T_clear = true.
Proof.
  split; [exact tasks_sample_run|]. split; [reflexivity|].
  assert (H0 : 0 <= MAIN_ID) by (unfold MAIN_ID; lia).
  assert (Hb : MAIN_ID + issued sample < 2 ^ 32) by reflexivity.
  destruct (task_ids_distinct_and_IsRunning_is_done 1 MAIN_ID sample H0 tasks_sample_run Hb)
    as (_ & _ & H & _).
  symmetry. exact (H 0%nat 2 T_clear true eq_refl eq_refl).
Defined.

Lemma task_done_races_with_insert_witness :
  exists k m, play (replicate m (EThread k)) sample = Some (Fault DataRace).
Proof.
  assert (H0 : 0 <= MAIN_ID) by (unfold MAIN_ID; lia).
  assert (Hb : MAIN_ID + issued sample < 2 ^ 32) by reflexivity.
  exact (task_done_races_with_insert 1 MAIN_ID sample 0 (Some 2) 1 3 H0 tasks_sample_run Hb
    eq_refl eq_refl).
Defined.

(** [AddTask(task, 0)] of the first object returns the pair (2, 1). *)
Lemma AddTask_returns_its_range_witness :
  exists m s', play (EAdd 0 0 :: replicate m (ECaller 0)) (init 1 MAIN_ID) = Some (Ret s') /\
    callers s' !! 0%nat = Some (C_idle (Some (RPair 2 1))).
Proof.
  assert (H0 : 0 <= MAIN_ID) by (unfold MAIN_ID; lia).
  assert (Hb : MAIN_ID + issued (init 1 MAIN_ID) + Z.of_nat 0 < 2 ^ 32) by reflexivity.
  destruct (AddTask_returns_its_range 1 MAIN_ID (init 1 MAIN_ID) 0 None 0 H0 (run_refl _) Hb
    eq_refl eq_refl ltac:(discriminate) ltac:(done)) as (m & s' & H1 & H2 & _).
  exists m, s'. split; [exact H1|exact H2].
Defined.
End TaskManager.
