(* ===== verification/Sharing.v ===== *)
(** TaskManager.h/.cpp and LockQueue.h together: the ids that [AddTask] gives to its
    threads are what RWLock.v asks of the threads that share a lock, so that a
    [LockQueue] shared by the threads of one [TaskManager] is linearizable. *)
From S2P Require Import Prelude ErrorHandler RWLock LockContainers LockedProgram LockedMembers TaskManager.
#[local] Open Scope Z_scope.
Import LockedProgram.

(** The [TLS_Id]s of a program with one [TaskManager]: the main thread's and those of
    the task threads made so far. *)
Definition TLS_Ids (s : TaskManager.system) : list Z :=
  TaskManager.MAIN_ID :: map fst (TaskManager.threads s).

Section Ids.
Variables (n : nat) (s : TaskManager.system).
Hypothesis reached : run TaskManager.step (TaskManager.init n TaskManager.MAIN_ID) s.
Hypothesis bounded : TaskManager.MAIN_ID + TaskManager.issued s < 32768.

Lemma managed_inv : TaskManager.inv TaskManager.MAIN_ID s.
Proof.
  apply (TaskManager.tasks_run_inv n); [unfold TaskManager.MAIN_ID; lia|done|].
  eapply Z.lt_trans; [exact bounded|done].
Qed.

Lemma managed_range k id : map fst (TaskManager.threads s) !! k = Some id ->
  TaskManager.MAIN_ID < id < 32768.
Proof.
  change (map fst ?l) with (fst <$> l). rewrite list_lookup_fmap.
  destruct (TaskManager.threads s !! k) as [[id' p]|] eqn:E; [|done]. intros [= <-].
  pose proof (TaskManager.inv_range _ _ (proj1 managed_inv) k id' p E).
  pose proof (TaskManager.inv_counter _ _ (proj1 managed_inv)). simpl. lia.
Qed.

Lemma managed_distinct : NoDup (TLS_Ids s).
Proof.
  constructor.
  - intros [k Hk]%list_elem_of_lookup. pose proof (managed_range k _ Hk). lia.
  - apply NoDup_alt. intros i j id. change (map fst ?l) with (fst <$> l).
    rewrite !list_lookup_fmap. destruct (TaskManager.threads s !! i) as [[id1 p1]|] eqn:E1; [|done].
    destruct (TaskManager.threads s !! j) as [[id2 p2]|] eqn:E2; [|done].
    simpl. intros [= ->] [= ->]. exact (TaskManager.inv_inj _ _ (proj1 managed_inv) _ _ _ _ _ E1 E2).
Qed.

Lemma managed_fit : Forall (fun i => 1 <= i < 65536) (TLS_Ids s).
Proof.
  constructor; [unfold TaskManager.MAIN_ID; lia|]. apply Forall_lookup. intros k id Hk.
  pose proof (managed_range k id Hk). unfold TaskManager.MAIN_ID in *. lia.
Qed.

(** Distinct ids below 32768 are fewer than 32768. *)
Lemma managed_few : Z.of_nat (length (TLS_Ids s)) * Z.of_nat depth < 65536.
Proof.
  assert (Hl : (length (TLS_Ids s) <= length (seqZ 1 32767))%nat).
  { apply NoDup_incl_length; [apply NoDup_ListNoDup, managed_distinct|].
    intros id Hid%list_elem_of_In. apply list_elem_of_In, elem_of_seqZ.
    apply elem_of_cons in Hid as [->|Hid]; [unfold TaskManager.MAIN_ID; lia|].
    apply list_elem_of_lookup in Hid as [k Hk]. pose proof (managed_range k id Hk).
    unfold TaskManager.MAIN_ID in *. lia. }
  rewrite length_seqZ in Hl. unfold depth. lia.
Qed.
End Ids.

(** C3: In a program with one TaskManager that has given out fewer than 32767 ids, in
    whatever interleaving of its AddTask, JoinTask and task threads: a LockQueue
    shared by the main thread and all the task threads never races, is never used
    outside the contract of the standard queue, stops only with THREAD_LOCK_TIMEOUT,
    and shows its callers an atomic queue. *)
Theorem managed_threads_share_a_queue {T} `{FalseDefault T} n s sy :
  run TaskManager.step (TaskManager.init n TaskManager.MAIN_ID) s ->
  TaskManager.MAIN_ID + TaskManager.issued s < 32768 ->
  run step (start (M := QueueMembers.call T) (C := LockQueue.t T) (R := reply T)
              LockQueue.new (TLS_Ids s)) sy ->
  match sy with
  | Down o => o = Aborted (code THREAD_LOCK_TIMEOUT)
  | Up q => exists a,
      run astep (astart (C := LockQueue.t T) LockQueue.new (length (TLS_Ids s))) a /\
      ahist a = hist q /\ (no_writer (clients q) -> adata a = data q)
  end.
Proof.
  intros Hr Hb. apply linearizable.
  - by eapply managed_distinct.
  - by eapply managed_fit.
  - by eapply managed_few.
Qed.

Module SharingSample.
(** The main thread and the two tasks of a run of [TaskManager]: a push and a pop. *)
Definition managed_run : option (system (QueueMembers.call Z) (LockQueue.t Z) (reply Z)) :=
  play (Enter 2%nat (QueueMembers.Push 8) :: replicate 12 (Go 2%nat 0) ++
        Enter 0%nat QueueMembers.Pop :: replicate 16 (Go 0%nat 0))
    (start LockQueue.new (TLS_Ids TaskManager.sample)).
Lemma managed_run_up : exists q, managed_run = Some (Up q).
Proof. apply MemberSamples.returned_up. vm_compute. discriminate. Qed.
Lemma managed_run_steps sy :
  managed_run = Some sy -> run step (start LockQueue.new (TLS_Ids TaskManager.sample)) sy.
Proof. apply members_play_run. Qed.

Lemma managed_threads_share_a_queue_witness :
  MemberSamples.returned managed_run = [(2%nat, Nothing); (0%nat, Item 8)] /\
  exists q a, managed_run = Some (Up q) /\
    run astep (astart (C := LockQueue.t Z) LockQueue.new 3) a /\ ahist a = hist q.
Proof.
  split; [vm_compute; reflexivity|]. destruct managed_run_up as [q E].
  assert (Hb : TaskManager.MAIN_ID + TaskManager.issued TaskManager.sample < 32768) by reflexivity.
  destruct (managed_threads_share_a_queue (T := Z) 1 TaskManager.sample (Up q)
    TaskManager.tasks_sample_run Hb (managed_run_steps _ E)) as (a & Ha & Hh & _).
  exists q, a. split; [exact E|]. split; [exact Ha|exact Hh].
Defined.
End SharingSample.
