(* ===== verification/TaskJoin.v ===== *)
(** TaskManager.cpp, [_join_all_tasks]: the invariant of the traversal that
    [JoinAllTasks] makes of [_tasks] without the lock, in any order of the keys, while
    other callers and the tasks go on; and the data races it has with [AddTask] and with
    a second [JoinAllTasks]. *)
From S2P Require Import Prelude TaskManager.
#[local] Open Scope Z_scope.

Module TaskJoin.
Import TaskManager.

(** The keys an iterator has not passed. *)
Definition left_of (c : cpc) : option (list Z) :=
  match c with JA_next rest => Some rest | JA_join id rest => Some (id :: rest) | _ => None end.

(** Joined entries belong to ended threads; an iterator's keys are entries, and the
    entries it has passed are joined; a thread has its entry, or a caller is about to
    insert it. *)
Record inv_join (s : system) : Prop := {
  join_ended id e : _tasks s !! id = Some e -> joinable e = false ->
    exists k, threads s !! k = Some (id, T_end);
  join_keys i c rest id : callers s !! i = Some c -> left_of c = Some rest -> id ∈ rest ->
    is_Some (_tasks s !! id);
  join_passed i c rest id e : callers s !! i = Some c -> left_of c = Some rest ->
    _tasks s !! id = Some e -> id ∉ rest -> joinable e = false;
  join_entered k id p : threads s !! k = Some (id, p) ->
    is_Some (_tasks s !! id) \/ exists i c, callers s !! i = Some c /\ uninserted c id;
}.

(** A caller that holds no iterator moves; it still has the id it had. *)
Lemma join_move s i c c' m :
  inv_join s -> callers s !! i = Some c -> left_of c' = None ->
  (forall id, uninserted c id -> uninserted c' id \/ is_Some (_tasks s !! id)) ->
  inv_join (set_caller i c' (set_mutex m s)).
Proof.
  intros [J1 J2 J3 J4] Hc Hn Hu. split; simpl; [done|..].
  - intros j d rest id [(<- & <- & _)|[_ Hj]]%list_lookup_insert_Some; [by rewrite Hn|eauto].
  - intros j d rest id e [(<- & <- & _)|[_ Hj]]%list_lookup_insert_Some; [by rewrite Hn|eauto].
  - intros k id p Hk. destruct (J4 k id p Hk) as [|(j & d & Hj & Hd)]; [by left|].
    assert (Hlt : (i < length (callers s))%nat) by (by eapply lookup_lt_Some).
    destruct (decide (j = i)) as [->|Hne].
    + assert (d = c) as -> by congruence. destruct (Hu id Hd); [|by left].
      right. exists i, c'. by rewrite list_lookup_insert_eq.
    + right. exists j, d. by rewrite list_lookup_insert_ne.
Qed.

Lemma join_keep s i c c' :
  inv_join s -> callers s !! i = Some c -> left_of c' = None ->
  (forall id, uninserted c id -> uninserted c' id \/ is_Some (_tasks s !! id)) ->
  inv_join (set_caller i c' s).
Proof. intros. rewrite set_caller_eq. by apply (join_move s i c). Qed.
Lemma join_leave s i c r :
  inv_join s -> callers s !! i = Some c -> (forall id, uninserted c id -> is_Some (_tasks s !! id)) ->
  inv_join (leave i r s).
Proof. intros Hj Hc Hu. apply (join_move s i c _ None Hj Hc); auto. Qed.
Lemma not_uninserted c : inserting c = false -> forall (P : Z -> Prop) id, uninserted c id -> P id.
Proof. intros Hc P id (f & n & ->). done. Qed.

(** An iterator moves to [rest]. *)
Lemma join_advance s i c c' rest :
  inv_join s -> callers s !! i = Some c -> inserting c = false -> left_of c' = Some rest ->
  (forall id, id ∈ rest -> is_Some (_tasks s !! id)) ->
  (forall id e, _tasks s !! id = Some e -> id ∉ rest -> joinable e = false) ->
  inv_join (set_caller i c' s).
Proof.
  intros [J1 J2 J3 J4] Hc Hi Hl Hk Hp. split; simpl; [done|..].
  - intros j d l id [(<- & <- & _)|[_ Hj]]%list_lookup_insert_Some; [|eauto].
    rewrite Hl. intros [= <-]. apply Hk.
  - intros j d l id e [(<- & <- & _)|[_ Hj]]%list_lookup_insert_Some; [|eauto].
    rewrite Hl. intros [= <-]. apply Hp.
  - intros k id p Hk'. destruct (J4 k id p Hk') as [|(j & d & Hj & Hd)]; [by left|].
    right. exists j, d. split; [|done]. rewrite list_lookup_insert_ne; [done|].
    intros <-. assert (d = c) as -> by congruence. by apply (not_uninserted c Hi _ id).
Qed.

(** [join] of an ended thread. *)
Lemma join_table s id e :
  inv_join s -> _tasks s !! id = Some e -> ended id s = true ->
  inv_join (set_tasks (<[id := mk_entry false (second e)]> (_tasks s)) s).
Proof.
  intros [J1 J2 J3 J4] He Hend. apply ended_thread in Hend.
  assert (Hkeys : forall k, is_Some (_tasks s !! k) ->
    is_Some (<[id := mk_entry false (second e)]> (_tasks s) !! k)).
  { intros k Hk. destruct (decide (k = id)) as [->|Hne]; [rewrite lookup_insert_eq; eauto|].
    by rewrite lookup_insert_ne. }
  split; simpl.
  - intros j e' [(<- & <-)|[_ Hj]]%lookup_insert_Some Hjo; eauto.
  - intros i c rest j Hi Hl Hj. eauto.
  - intros i c rest j e' Hi Hl [(<- & <-)|[_ Hj]]%lookup_insert_Some; [done|eauto].
  - intros k j p Hk. destruct (J4 k j p Hk); [left; auto|by right].
Qed.

(** Threads move on, and the table keeps its keys and joined entries. *)
Lemma join_threads s th t :
  inv_join s ->
  (forall id e, t !! id = Some e -> exists e0, _tasks s !! id = Some e0 /\ joinable e = joinable e0) ->
  (forall id, is_Some (_tasks s !! id) -> is_Some (t !! id)) ->
  (forall k id, threads s !! k = Some (id, T_end) -> exists k', th !! k' = Some (id, T_end)) ->
  (forall k id p, th !! k = Some (id, p) -> exists k' p', threads s !! k' = Some (id, p')) ->
  inv_join (set_threads th (set_tasks t s)).
Proof.
  intros [J1 J2 J3 J4] Ht Hd Hth Hold. split; simpl.
  - intros id e He Hj. destruct (Ht id e He) as (e0 & H0 & E). rewrite E in Hj.
    destruct (J1 id e0 H0 Hj) as [k Hk]. eauto.
  - intros i c rest id Hi Hl Hin. eauto.
  - intros i c rest id e Hi Hl He Hin. destruct (Ht id e He) as (e0 & H0 & ->). eauto.
  - intros k id p Hk. destruct (Hold k id p Hk) as (k' & p' & Hk'). destruct (J4 k' id p' Hk'); auto.
Qed.

(** The insertion, while nobody holds an iterator. *)
Lemma join_insert s i f n id c' m :
  inv_join s -> callers s !! i = Some (A_insert f n id) ->
  other traversing i s = false -> left_of c' = None ->
  inv_join (set_caller i c' (set_mutex m (match _tasks s !! id with
    | Some _ => s | None => set_tasks (<[id := mk_entry true false]> (_tasks s)) s end))).
Proof.
  intros Hj Hc Hno Hl.
  assert (Hpc : forall x, uninserted (A_insert f n id) x -> x = id) by (by intros x (? & ? & [= _ _ ->])).
  destruct (_tasks s !! id) as [e|] eqn:He.
  { apply (join_move s i _ _ _ Hj Hc Hl). intros x ->%Hpc. right. rewrite He. eauto. }
  assert (Hmine : forall j d, callers s !! j = Some d -> is_Some (left_of d) -> False).
  { intros j d Hjd Hd. assert (Ht : traversing d = true) by (by destruct d; destruct Hd).
    pose proof (existsb_delete traversing (callers s) i d Hno j Hjd Ht) as ->.
    assert (d = A_insert f n id) as -> by congruence. done. }
  destruct Hj as [J1 J2 J3 J4]. split; simpl.
  - intros j e [(<- & <-)|[_ Hj]]%lookup_insert_Some; [done|eauto].
  - intros j d rest x [(<- & <- & _)|[_ Hj]]%list_lookup_insert_Some Hd; [by rewrite Hl in Hd|].
    exfalso. eapply Hmine; eauto.
  - intros j d rest x e [(<- & <- & _)|[_ Hj]]%list_lookup_insert_Some Hd; [by rewrite Hl in Hd|].
    exfalso. eapply Hmine; eauto.
  - intros k x p Hk. destruct (decide (x = id)) as [->|Hne]; [left; rewrite lookup_insert_eq; eauto|].
    rewrite lookup_insert_ne by done. destruct (J4 k x p Hk) as [|(j & d & Hj & Hd)]; [by left|].
    right. exists j, d. split; [|done]. rewrite list_lookup_insert_ne; [done|].
    intros <-. assert (d = A_insert f n id) as -> by congruence. by apply Hne, Hpc.
Qed.

Lemma join_spawn s i f n id :
  inv_join s -> callers s !! i = Some (A_spawn f n id) ->
  inv_join (set_caller i (A_insert f n id) (set_threads (threads s ++ [(id, T_init)]) s)).
Proof.
  intros [J1 J2 J3 J4] Hc. assert (Hlt : (i < length (callers s))%nat) by (by eapply lookup_lt_Some).
  split; simpl.
  - intros j e He Hje. destruct (J1 j e He Hje) as [k Hk]. exists k. by apply lookup_app_l_Some.
  - intros j d rest x [(<- & <- & _)|[_ Hj]]%list_lookup_insert_Some; [done|eauto].
  - intros j d rest x e [(<- & <- & _)|[_ Hj]]%list_lookup_insert_Some; [done|eauto].
  - intros k x p [Hk|(_ & Hk)]%lookup_app_Some.
    + destruct (J4 k x p Hk) as [|(j & d & Hj & Hd)]; [by left|]. right. exists j, d.
      split; [|done]. rewrite list_lookup_insert_ne; [done|]. intros <-.
      assert (d = A_spawn f n id) as -> by congruence. by destruct Hd as (? & ? & ?).
    + apply list_lookup_singleton_Some in Hk as [_ [= <- _]]. right. exists i, (A_insert f n id).
      rewrite list_lookup_insert_eq by done. split; [done|]. by exists f, n.
Qed.

Lemma join_new_id s : inv_join s -> inv_join (snd (_get_new_task_id s)).
Proof. intros [J1 J2 J3 J4]. by split. Qed.

Lemma join_JA_next s i rest s' :
  inv_join s -> callers s !! i = Some (JA_next rest) ->
  caller_step i (JA_next rest) s = Some (Ret s') -> inv_join s'.
Proof.
  intros Hj Hc Hst. cbn [caller_step] in Hst. destruct (other inserting i s); [done|].
  destruct rest as [|id rest].
  { injection Hst as <-. apply (join_keep s i _ _ Hj Hc); [done|]. by apply not_uninserted. }
  pose proof (join_keys s Hj i _ _ id Hc eq_refl ltac:(by left)) as [e He].
  rewrite He in Hst. injection Hst as ->%race_free_ret. destruct (joinable e) eqn:Hje.
  - apply (join_advance s i _ _ (id :: rest) Hj Hc); [done|done|..].
    + intros x. exact (join_keys s Hj i _ _ x Hc eq_refl).
    + intros x ex. exact (join_passed s Hj i _ _ x ex Hc eq_refl).
  - apply (join_advance s i _ _ rest Hj Hc); [done|done|..].
    + intros x Hx. apply (join_keys s Hj i _ _ x Hc eq_refl). by right.
    + intros x ex Hex Hx. destruct (decide (x = id)) as [->|Hne]; [congruence|].
      apply (join_passed s Hj i _ _ x ex Hc eq_refl Hex). set_solver.
Qed.

Lemma join_JA_join s i id rest s' :
  inv_join s -> callers s !! i = Some (JA_join id rest) ->
  caller_step i (JA_join id rest) s = Some (Ret s') -> inv_join s'.
Proof.
  intros Hj Hc Hst. cbn [caller_step] in Hst. destruct (ended id s) eqn:Hend; [|done].
  destruct (_tasks s !! id) as [e|] eqn:He; [|done]. destruct (joinable e); injection Hst as <-.
  - apply (join_advance _ i (JA_join id rest) _ rest (join_table s id e Hj He Hend) Hc); [done|done|..].
    + simpl. intros x Hx. destruct (decide (x = id)) as [->|Hne]; [rewrite lookup_insert_eq; eauto|].
      rewrite lookup_insert_ne by done. apply (join_keys s Hj i _ _ x Hc eq_refl). by right.
    + simpl. intros x ex [(<- & <-)|[Hne Hx]]%lookup_insert_Some Hin; [done|].
      apply (join_passed s Hj i _ _ x ex Hc eq_refl Hx). set_solver.
  - apply (join_keep s i _ _ Hj Hc); [done|]. by apply not_uninserted.
Qed.

Lemma join_caller_step s i c s' :
  inv_join s -> callers s !! i = Some c -> caller_step i c s = Some (Ret s') -> inv_join s'.
Proof.
  intros Hj Hc Hst.
  destruct c as [r|count|f [|rest]|f rest id|f rest id|id|id|id|rest|id rest];
    [done| | | | | | | | |by apply (join_JA_next s i rest)|by apply (join_JA_join s i id rest)];
    cbn [caller_step] in Hst.
  - destruct (__mutex s); [done|]. injection Hst as <-.
    apply (join_move s i _ _ _ Hj Hc); [by destruct (Nat.eqb count 1)|]. by apply not_uninserted.
  - destruct f; injection Hst as <-.
    + apply (join_leave s i _ _ Hj Hc). by apply not_uninserted.
    + apply (join_keep _ i _ _ (join_new_id s Hj) Hc); [done|]. by apply not_uninserted.
  - assert (Hst' : Some (Ret (set_caller i (A_spawn f (S rest) (_taskId s)) (snd (_get_new_task_id s))))
      = Some (Ret s')) by (by destruct f).
    injection Hst' as <-. apply (join_keep _ i _ _ (join_new_id s Hj) Hc); [done|]. by apply not_uninserted.
  - injection Hst as <-. by apply join_spawn.
  - destruct (other traversing i s) eqn:Hno; [done|]. simpl in Hst. destruct (existsb _ _); [done|].
    injection Hst as <-. destruct f.
    + pose proof (join_insert s i (Some z) rest id (A_new (Some z) (rest - 1)) (__mutex s) Hj Hc Hno eq_refl) as Hi.
      rewrite set_caller_eq. by destruct (_tasks s !! id).
    + by apply (join_insert s i None rest id).
  - destruct (__mutex s); [done|]. injection Hst as <-.
    apply (join_move s i _ _ _ Hj Hc); [done|]. by apply not_uninserted.
  - destruct (_tasks s !! id) as [e|]; [destruct (second e); [injection Hst as ->%race_free_ret;
      destruct (joinable e)|]|].
    1: apply (join_keep s i _ _ Hj Hc); [done|by apply not_uninserted].
    2, 3: injection Hst as <-.
    all: apply (join_leave s i _ _ Hj Hc); by apply not_uninserted.
  - destruct (ended id s) eqn:Hend; [|done]. destruct (_tasks s !! id) as [e|] eqn:He; [|done].
    destruct (joinable e); injection Hst as <-.
    + apply (join_leave _ i (J_join id) _ (join_table s id e Hj He Hend) Hc). by apply not_uninserted.
    + apply (join_leave s i _ _ Hj Hc). by apply not_uninserted.
Qed.

(** A thread's own step. *)
Lemma join_thread_step s k id p s' :
  inv_join s -> threads s !! k = Some (id, p) -> thread_step k id p s = Some (Ret s') -> inv_join s'.
Proof.
  intros Hj Hk Hst. assert (Hlt : (k < length (threads s))%nat) by (by eapply lookup_lt_Some).
  assert (Hmove : forall q t, p <> T_end ->
    (forall id e, t !! id = Some e -> exists e0, _tasks s !! id = Some e0 /\ joinable e = joinable e0) ->
    (forall id, is_Some (_tasks s !! id) -> is_Some (t !! id)) ->
    inv_join (set_threads (<[k := (id, q)]> (threads s)) (set_tasks t s))).
  { intros q t Hp Ht Hd. apply (join_threads s _ t Hj Ht Hd).
    - intros j x Hx. exists j. rewrite list_lookup_insert_ne; [done|]. intros ->. congruence.
    - intros j x px [(<- & [= <- _] & _)|[_ Hx]]%list_lookup_insert_Some; eauto. }
  destruct p; cbn [thread_step] in Hst; try done.
  1, 2, 4: injection Hst as <-; rewrite <- (set_tasks_id s) at 2; apply Hmove; eauto.
  destruct (existsb inserting (callers s)); [done|]. destruct (_tasks s !! id) as [e|] eqn:He; [|done].
  injection Hst as <-. apply Hmove; [done|..].
  - intros j e' [(<- & <-)|[_ Hje]]%lookup_insert_Some; eauto.
  - intros j Hje. destruct (decide (j = id)) as [->|Hne]; [rewrite lookup_insert_eq; eauto|].
    by rewrite lookup_insert_ne.
Qed.

Lemma key_listed (s : system) id : id ∈ (map_to_list (_tasks s)).*1 <-> is_Some (_tasks s !! id).
Proof.
  rewrite list_elem_of_fmap. split.
  - intros ([j e] & -> & He%elem_of_map_to_list). simpl. rewrite He. eauto.
  - intros [e He]. exists (id, e). split; [done|]. by apply elem_of_map_to_list.
Qed.

Lemma join_step s s' : inv_join s -> step s s' -> inv_join s'.
Proof.
  intros Hj [e He]. destruct e as [i c|i id|i l|i|k|]; cbn [play1] in He.
  - destruct (callers s !! i) as [[r| | | | | | | | |]|] eqn:Hc; try done. injection He as <-.
    apply (join_keep s i _ _ Hj Hc); [done|by apply not_uninserted].
  - destruct (callers s !! i) as [[r| | | | | | | | |]|] eqn:Hc; try done. injection He as <-.
    apply (join_keep s i _ _ Hj Hc); [done|by apply not_uninserted].
  - destruct (callers s !! i) as [[r| | | | | | | | |]|] eqn:Hc; try done.
    destruct (decide _) as [Hl|]; [|done]. injection He as <-.
    apply (join_advance s i _ _ l Hj Hc); [done|done|..].
    + intros id. by rewrite Hl, key_listed.
    + intros id e Hid Hn. destruct Hn. rewrite Hl, key_listed. by rewrite Hid.
  - destruct (callers s !! i) as [c|] eqn:Hc; [|done]. by apply (join_caller_step s i c).
  - destruct (threads s !! k) as [[id p]|] eqn:Hk; [|done]. by apply (join_thread_step s k id p).
  - injection He as <-. by apply join_new_id.
Qed.

Lemma join_run n first s : run step (init n first) s -> inv_join s.
Proof.
  apply (run_invariant step inv_join); [apply join_step|]. split; simpl; try done.
  by intros i c rest id [-> _]%lookup_replicate.
Qed.

(** When the traversal returns, no entry is joinable any more. *)
Lemma returned_joined s i rest s' id e :
  inv_join s -> callers s !! i = Some (JA_next rest) ->
  caller_step i (JA_next rest) s = Some (Ret s') -> callers s' !! i = Some (C_idle (Some RDone)) ->
  _tasks s' !! id = Some e -> joinable e = false /\ _tasks s' = _tasks s.
Proof.
  intros Hj Hc Hst Hret He. assert (Hlt : (i < length (callers s))%nat) by (by eapply lookup_lt_Some).
  cbn [caller_step] in Hst. destruct (other inserting i s); [done|]. destruct rest as [|x rest].
  - injection Hst as <-. simpl in *. split; [|done]. apply (join_passed s Hj i _ [] id e Hc eq_refl He).
    set_solver.
  - destruct (_tasks s !! x) as [ex|]; [|done]. injection Hst as ->%race_free_ret.
    simpl in Hret. rewrite list_lookup_insert_eq in Hret by done. by destruct (joinable ex).
Qed.

(** ** Called when all tasks are over, [JoinAllTasks] returns *)
(** No other caller is about to insert or is in a [join]. *)
Definition alone (i : nat) (s : system) : Prop :=
  forall j c, j <> i -> callers s !! j = Some c -> inserting c = false /\ forall id, joining id c = false.

Lemma alone_other i s f : alone i s -> (f = inserting \/ exists id, f = joining id) -> other f i s = false.
Proof.
  intros Ha Hf. apply existsb_delete_false. intros j c Hne Hj. destruct (Ha j c Hne Hj) as [H1 H2].
  by destruct Hf as [->|[id ->]].
Qed.
Lemma alone_set i c s : alone i s -> alone i (set_caller i c s).
Proof. intros Ha j d Hne Hj. simpl in Hj. rewrite list_lookup_insert_ne in Hj by done. by apply (Ha j). Qed.

Lemma join_all_loop i : forall rest s,
  callers s !! i = Some (JA_next rest) -> alone i s ->
  (forall id, id ∈ rest -> is_Some (_tasks s !! id)) ->
  (forall id, is_Some (_tasks s !! id) -> ended id s = true) ->
  (forall id e, _tasks s !! id = Some e -> id ∉ rest -> joinable e = false) ->
  exists m s', play (replicate m (ECaller i)) s = Some (Ret s') /\
    callers s' !! i = Some (C_idle (Some RDone)) /\
    forall id e, _tasks s' !! id = Some e -> joinable e = false.
Proof.
  induction rest as [|id rest IH]; intros s Hc Ha Hk Hend Hall;
    assert (Hlt : (i < length (callers s))%nat) by (by eapply lookup_lt_Some);
    pose proof (alone_other i s inserting Ha ltac:(by left)) as Hi.
  { exists 1%nat, (set_caller i (C_idle (Some RDone)) s). split_and!.
    - erewrite play_caller; [reflexivity|exact Hc|cbn [caller_step]; by rewrite Hi].
    - by apply list_lookup_insert_eq.
    - intros id e He. apply (Hall id e He). set_solver. }
  destruct (Hk id ltac:(by left)) as [e He]. pose proof (Hend id (mk_is_Some _ _ He)) as Hended.
  pose proof (alone_other i s (joining id) Ha ltac:(right; eauto)) as Hj.
  assert (Hstep : caller_step i (JA_next (id :: rest)) s =
    Some (Ret (set_caller i (if joinable e then JA_join id rest else JA_next rest) s))).
  { cbn [caller_step]. by rewrite Hi, He, Hj. }
  destruct (joinable e) eqn:Hje.
  - set (s2 := set_caller i (JA_next rest) (set_tasks (<[id := mk_entry false (second e)]> (_tasks s))
      (set_caller i (JA_join id rest) s))).
    destruct (IH s2) as (m & s' & E & Hrest).
    + apply list_lookup_insert_eq. simpl. by rewrite length_insert.
    + apply alone_set. by apply (alone_set i (JA_join id rest) s).
    + simpl. intros j Hj'. destruct (decide (j = id)) as [->|Hne]; [rewrite lookup_insert_eq; eauto|].
      rewrite lookup_insert_ne by done. apply Hk. by right.
    + intros j Hj'. apply Hend. simpl in Hj'. destruct (decide (j = id)) as [->|Hne]; [by rewrite He|].
      by rewrite lookup_insert_ne in Hj'.
    + simpl. intros j e' [(<- & <-)|[Hne Hje']]%lookup_insert_Some Hin; [done|].
      apply (Hall j e' Hje'). set_solver.
    + exists (S (S m)), s'. split; [|exact Hrest].
      erewrite play_caller; [|exact Hc|exact Hstep].
      erewrite play_caller; [exact E|by apply list_lookup_insert_eq|].
      cbn [caller_step]. change (ended id (set_caller i (JA_join id rest) s)) with (ended id s).
      rewrite Hended. cbn [_tasks set_caller]. rewrite He, Hje. reflexivity.
  - destruct (IH (set_caller i (JA_next rest) s)) as (m & s' & E & Hrest).
    + by apply list_lookup_insert_eq.
    + by apply alone_set.
    + intros j Hj'. apply Hk. by right.
    + exact Hend.
    + intros j e' Hje' Hin. destruct (decide (j = id)) as [->|Hne]; [simpl in Hje'; congruence|].
      apply (Hall j e' Hje'). set_solver.
    + exists (S m), s'. split; [|exact Hrest]. erewrite play_caller; [exact E|exact Hc|exact Hstep].
Qed.

Lemma join_all_returns first s i r order :
  inv first s -> callers s !! i = Some (C_idle r) -> order ≡ₚ (map_to_list (_tasks s)).*1 -> alone i s ->
  (forall k id p, threads s !! k = Some (id, p) -> p = T_end) ->
  exists m s', play (EJoinAll i order :: replicate m (ECaller i)) s = Some (Ret s') /\
    callers s' !! i = Some (C_idle (Some RDone)) /\
    forall id e, _tasks s' !! id = Some e -> joinable e = false.
Proof.
  intros Hs Hc Hl Ha Hend. assert (Hlt : (i < length (callers s))%nat) by (by eapply lookup_lt_Some).
  destruct (join_all_loop i order (set_caller i (JA_next order) s)) as (m & s' & E & Hrest).
  - by apply list_lookup_insert_eq.
  - by apply alone_set.
  - intros id Hid. simpl. apply key_listed. by rewrite <- Hl.
  - intros id [e He]. simpl in He. destruct (inv_keys s (proj2 Hs) id e He) as (k & p & Hk & _).
    pose proof (Hend k id p Hk) as ->. unfold ended. apply existsb_exists.
    exists (id, T_end). simpl. rewrite Z.eqb_refl. split; [|done].
    apply list_elem_of_In. by eapply list_elem_of_lookup_2.
  - intros id e He Hn. destruct Hn. rewrite Hl, key_listed. simpl in He. by rewrite He.
  - exists m, s'. split; [|exact Hrest]. cbn [play play1]. by rewrite Hc, decide_True.
Qed.

(** ** Data races *)
(** All calls of [AddTask] and [JoinTask] have returned, and only the caller [i] may be
    in [JoinAllTasks]. *)
Definition quiet (i : nat) (s : system) : Prop :=
  forall j c, callers s !! j = Some c ->
    match c with C_idle _ => True | JA_next _ | JA_join _ _ => j = i | _ => False end.
(** What happens then: [JoinAllTasks] on [i], and the tasks. *)
Definition joins_only (i : nat) (e : event) : Prop :=
  match e with EJoinAll j _ => j = i | ECaller _ | EThread _ | EOther => True | _ => False end.
Definition no_fault (r : option (outcome system)) : Prop :=
  match r with Some (Ret _) | None => True | _ => False end.

Lemma quiet_not_inserting i s : quiet i s -> existsb inserting (callers s) = false.
Proof.
  intros Hq. apply not_true_iff_false. intros (c & Hc & Ht)%existsb_exists.
  apply list_elem_of_In, list_elem_of_lookup in Hc as [j Hj]. pose proof (Hq j c Hj). by destruct c.
Qed.
Lemma quiet_alone i s : quiet i s -> alone i s.
Proof. intros Hq j c Hne Hj. pose proof (Hq j c Hj). by destruct c. Qed.
Lemma quiet_set i c s : quiet i s -> match c with C_idle _ | JA_next _ | JA_join _ _ => True | _ => False end ->
  quiet i (set_caller i c s).
Proof.
  intros Hq Hc j d [(<- & <- & _)|[_ Hj]]%list_lookup_insert_Some; [by destruct c|by apply Hq].
Qed.

Lemma quiet_caller_step i j c s o :
  inv_join s -> quiet i s -> callers s !! j = Some c -> caller_step j c s = Some o ->
  exists s', o = Ret s' /\ quiet i s'.
Proof.
  intros Hj Hq Hc Hst. pose proof (Hq j c Hc) as Hcase.
  destruct c as [r| | | | | | | |rest|id rest]; try done; subst j; cbn [caller_step] in Hst.
  - rewrite (alone_other i s inserting (quiet_alone i s Hq)) in Hst by (by left).
    destruct rest as [|id rest]; [injection Hst as <-; eexists; split; [done|by apply quiet_set]|].
    destruct (join_keys s Hj i _ _ id Hc eq_refl ltac:(by left)) as [e He]. rewrite He in Hst.
    rewrite (alone_other i s (joining id) (quiet_alone i s Hq)) in Hst by (right; eauto).
    injection Hst as <-. eexists. split; [done|]. apply quiet_set; [done|]. by destruct (joinable e).
  - destruct (ended id s); [|done].
    destruct (join_keys s Hj i _ _ id Hc eq_refl ltac:(by left)) as [e He]. rewrite He in Hst.
    destruct (joinable e); injection Hst as <-; eexists; (split; [done|]); by apply quiet_set.
Qed.

Lemma quiet_thread_step i k id p s o :
  inv_join s -> quiet i s -> threads s !! k = Some (id, p) -> thread_step k id p s = Some o ->
  exists s', o = Ret s' /\ quiet i s'.
Proof.
  intros Hj Hq Hk Hst. destruct p; cbn [thread_step] in Hst; try done.
  1, 2, 4: injection Hst as <-; eauto.
  rewrite (quiet_not_inserting i s Hq) in Hst.
  destruct (join_entered s Hj k id _ Hk) as [[e He]|(j & c & Hc & f & n & ->)].
  - rewrite He in Hst. injection Hst as <-. eexists. by split.
  - by destruct (Hq j _ Hc).
Qed.

Lemma quiet_step i e s o :
  inv_join s -> quiet i s -> joins_only i e -> play1 e s = Some o -> exists s', o = Ret s' /\ quiet i s'.
Proof.
  intros Hj Hq He Hst. destruct e as [j c|j id|j l|j|k|]; try done; cbn [play1 joins_only] in *.
  - subst j. destruct (callers s !! i) as [[r| | | | | | | | |]|] eqn:Hc; try done.
    destruct (decide _); [|done]. injection Hst as <-. eexists. split; [done|]. by apply quiet_set.
  - destruct (callers s !! j) as [c|] eqn:Hc; [|done]. by apply (quiet_caller_step i j c s).
  - destruct (threads s !! k) as [[id p]|] eqn:Hk; [|done]. by apply (quiet_thread_step i k id p s).
  - injection Hst as <-. eexists. by split.
Qed.

Lemma quiet_play i es : forall s,
  inv_join s -> quiet i s -> Forall (joins_only i) es -> no_fault (play es s).
Proof.
  induction es as [|e es IH]; intros s Hj Hq He; [done|]. apply Forall_cons in He as [H1 He].
  cbn [play]. destruct (play1 e s) as [o|] eqn:E; [|done].
  destruct (quiet_step i e s o Hj Hq H1 E) as (s' & -> & Hq').
  apply IH; [|done..]. apply (join_step s s' Hj). by exists e.
Qed.


(** A call of [AddTask] that overlaps a traversal of [JoinAllTasks] races with it. *)
Theorem AddTask_during_JoinAllTasks_races s i j r1 r2 order :
  i <> j -> callers s !! i = Some (C_idle r1) -> callers s !! j = Some (C_idle r2) ->
  __mutex s = None -> order ≡ₚ (map_to_list (_tasks s)).*1 ->
  play [EJoinAll i order; EAdd j 1; ECaller j; ECaller j; ECaller j; ECaller j] s = Some (Fault DataRace).
Proof.
  intros Hne Hi Hj Hm Ho.
  assert (Hli : (i < length (callers s))%nat) by (by eapply lookup_lt_Some).
  assert (Hlj : (j < length (callers s))%nat) by (by eapply lookup_lt_Some).
  cbn [play play1]. rewrite Hi, decide_True by done. cbn [callers set_caller].
  rewrite list_lookup_insert_ne, Hj by done. cbn [callers set_caller].
  rewrite list_lookup_insert_eq by (by rewrite ?length_insert). cbn [caller_step __mutex set_caller].
  rewrite Hm. cbn [callers set_caller set_mutex Nat.eqb].
  rewrite list_insert_insert_eq, list_lookup_insert_eq by (by rewrite ?length_insert).
  cbn [caller_step _get_new_task_id callers set_caller set_mutex].
  rewrite list_insert_insert_eq, list_lookup_insert_eq by (by rewrite ?length_insert).
  cbn [caller_step callers set_caller set_mutex set_threads].
  rewrite list_insert_insert_eq, list_lookup_insert_eq by (by rewrite ?length_insert).
  cbn [caller_step]. unfold other. cbn [callers set_caller set_mutex set_threads].
  rewrite ?list_insert_insert_eq, (existsb_deleted traversing (callers s) i j (JA_next order)) by done. done.
Qed.

(** One task, added and over. *)
Definition sample_over : system :=
  mk 3 None {[2 := mk_entry true true]} [C_idle (Some (RPair 2 2)); C_idle None] [(2, T_end)] 2.
Lemma sample_over_run : run step (init 2 MAIN_ID) sample_over.
Proof.
  by apply (tasks_play_run ([EAdd 0 1; ECaller 0; ECaller 0; ECaller 0; ECaller 0] ++
    replicate 4 (EThread 0))).
Qed.
Lemma sample_alone : alone 0 sample_over.
Proof.
  intros [|[|j]] c Hne Hj; [done| |done]. injection Hj as <-. by split.
Qed.

(** Two threads in [JoinAllTasks] join the same [std::thread]. *)
Lemma two_joins_race :
  exists s, run step (init 2 MAIN_ID) s /\
    play [EJoinAll 0 [2]; EJoinAll 1 [2]; ECaller 0; ECaller 1] s = Some (Fault DataRace).
Proof. exists sample_over. split; [exact sample_over_run|]. vm_compute. reflexivity. Qed.


Lemma AddTask_during_JoinAllTasks_races_witness :
  play [EJoinAll 0 [2]; EAdd 1 1; ECaller 1; ECaller 1; ECaller 1; ECaller 1] sample_over
    = Some (Fault DataRace).
Proof.
  apply (AddTask_during_JoinAllTasks_races sample_over 0 1 (Some (RPair 2 2)) None [2]); done.
Defined.
End TaskJoin.
