(* ===== verification/TaskManagerEx.v ===== *)
(** TaskManagerEx.h/.cpp: tasks in a vector, whose threads take their ids
    themselves, run by any number of callers and threads; and what happens in a
    program that uses both managers. [JoinAllTasks] takes no lock: a [push_back] while the
    vector is traversed is a data race, and so is the use of a [std::thread] that another
    thread is joining. *)
From S2P Require Import Prelude RWLock TaskManager.
#[local] Open Scope Z_scope.

Module TaskManagerEx.
(** [JobSerializer::DEFAULT_EXECUTION_TICKCOUNT]. *)
Definition DEFAULT_EXECUTION_TICKCOUNT : Z := 64.

(** A task's thread: before [_init_tls], in the task, before [ClearTLS], ended; its
    [TLS_Id] ([None]: not set yet) and [TLS_GlobalJobsExecutionMaxTickCount], which the
    task may assign. *)
Inductive tpc := T_init | T_task | T_done | T_end.
Record thread := mk_thread {
  pc : tpc; TLS_Id : option Z; TLS_GlobalJobsExecutionMaxTickCount : Z
}.

(** A caller: in [AddTask(task, count)] with [rest] tasks to add, before the lock,
    before the thread's creation, before [push_back]; in [JoinAllTasks] before the
    entry [pos], in its [join]. *)
Inductive cpc := C_idle (returned : bool) | A_lock (rest : nat) | A_spawn (rest : nat)
| A_push (rest k : nat) | J_next (pos : nat) | J_join (pos : nat).

(** [_taskId] (static, and another variable than [TaskManager]'s), the lock,
    [_tasks] (the threads by number, and whether they are joinable), the callers, the
    threads in order of creation; ghost: the ids issued. *)
Record system := mk {
  _taskId : Z;
  __mutex : option nat;
  _tasks : list (nat * bool);
  callers : list cpc;
  threads : list thread;
  issued : Z;
}.
Definition set_caller (i : nat) (c : cpc) (s : system) : system :=
  mk (_taskId s) (__mutex s) (_tasks s) (<[i := c]> (callers s)) (threads s) (issued s).
Definition set_mutex (m : option nat) (s : system) : system :=
  mk (_taskId s) m (_tasks s) (callers s) (threads s) (issued s).
Definition set_tasks (t : list (nat * bool)) (s : system) : system :=
  mk (_taskId s) (__mutex s) t (callers s) (threads s) (issued s).
Definition set_threads (t : list thread) (s : system) : system :=
  mk (_taskId s) (__mutex s) (_tasks s) (callers s) t (issued s).

(** [_get_new_task_id()]: [_taskId.fetch_add(1)]. *)
Definition _get_new_task_id (s : system) : Z * system :=
  (_taskId s, mk (u32 (_taskId s + 1)) (__mutex s) (_tasks s) (callers s) (threads s) (issued s + 1)).

(** What races: a caller is before [push_back]; holds an iterator of [_tasks]; is in the
    [join] of the entry [pos]. *)
Definition pushing (c : cpc) : bool := match c with A_push _ _ => true | _ => false end.
Definition traversing (c : cpc) : bool := match c with J_next _ | J_join _ => true | _ => false end.
Definition joining (pos : nat) (c : cpc) : bool :=
  match c with J_join p => Nat.eqb p pos | _ => false end.
(** Some caller but [i] satisfies [f]. *)
Definition other (f : cpc -> bool) (i : nat) (s : system) : bool :=
  existsb f (delete i (callers s)).

(** A step of [_join_all_tasks()], in [join] or not. *)
Definition _join_all_tasks (i : nat) (inside : bool) (pos : nat) (s : system)
  : option (outcome system) :=
  if inside then
    match _tasks s !! pos with
    | None => Some (Fault Dangling)
    | Some (k, _) =>
        match threads s !! k with
        | Some (mk_thread T_end _ _) =>
            Some (Ret (set_caller i (J_next (S pos))
                         (set_tasks (<[pos := (k, false)]> (_tasks s)) s)))
        | _ => None
        end
    end
  else if other pushing i s then Some (Fault DataRace)
  else match _tasks s !! pos with
       | None => Some (Ret (set_caller i (C_idle true) s))
       | Some (_, joinable) =>
           if other (joining pos) i s then Some (Fault DataRace)
           else Some (Ret (set_caller i (if (joinable : bool) then J_join pos else J_next (S pos)) s))
       end.

(** A step of a caller; [None] when it waits. *)
Definition caller_step (i : nat) (c : cpc) (s : system) : option (outcome system) :=
  match c with
  | C_idle _ => None
  | A_lock O => Some (Ret (set_caller i (C_idle true) s))
  | A_lock (S rest) =>
      match __mutex s with
      | Some _ => None
      | None => Some (Ret (set_caller i (A_spawn rest) (set_mutex (Some i) s)))
      end
  | A_spawn rest =>
      Some (Ret (set_caller i (A_push rest (length (threads s)))
                   (set_threads (threads s ++ [mk_thread T_init None 0]) s)))
  | A_push rest k =>
      if other traversing i s then Some (Fault DataRace)
      else Some (Ret (set_caller i (A_lock rest) (set_mutex None (set_tasks (_tasks s ++ [(k, true)]) s))))
  | J_next pos => _join_all_tasks i false pos s
  | J_join pos => _join_all_tasks i true pos s
  end.

(** [_init_tls()] of the thread [k]: the id, the serializer and the limit of ticks
    are the thread's own. *)
Definition _init_tls (k : nat) (s : system) : system :=
  let '(id, s) := _get_new_task_id s in
  set_threads (<[k := mk_thread T_task (Some id) DEFAULT_EXECUTION_TICKCOUNT]> (threads s)) s.

(** A step of a task's thread. *)
Definition thread_step (k : nat) (th : thread) (s : system) : option system :=
  let go q := Some (set_threads
    (<[k := mk_thread q (TLS_Id th) (TLS_GlobalJobsExecutionMaxTickCount th)]> (threads s)) s) in
  match pc th with
  | T_init => Some (_init_tls k s)
  | T_task => go T_done
  | T_done => go T_end
  | T_end => None
  end.

(** [EAssign]: the task of the thread [k] assigns its limit of ticks. *)
Inductive event := EAdd (i count : nat) | EJoinAll (i : nat) | ECaller (i : nat) | EThread (k : nat)
| EAssign (k : nat) (maxTickCount : Z).
Definition play1 (e : event) (s : system) : option (outcome system) :=
  match e with
  | EAdd i count =>
      match callers s !! i with
      | Some (C_idle _) => Some (Ret (set_caller i (A_lock count) s))
      | _ => None
      end
  | EJoinAll i =>
      match callers s !! i with
      | Some (C_idle _) => Some (Ret (set_caller i (J_next 0) s))
      | _ => None
      end
  | ECaller i =>
      match callers s !! i with Some c => caller_step i c s | None => None end
  | EThread k =>
      match threads s !! k with
      | Some th => match thread_step k th s with Some s => Some (Ret s) | None => None end
      | None => None
      end
  | EAssign k n =>
      match threads s !! k with
      | Some (mk_thread T_task id _) =>
          Some (Ret (set_threads (<[k := mk_thread T_task id n]> (threads s)) s))
      | _ => None
      end
  end.
Definition step (s s' : system) : Prop := exists e, play1 e s = Some (Ret s').
Fixpoint play (es : list event) (s : system) : option (outcome system) :=
  match es with
  | [] => Some (Ret s)
  | e :: es => match play1 e s with Some (Ret s) => play es s | x => x end
  end.
(** The constructor, on the main thread, which takes the id [first]. *)
Definition init (n : nat) (first : Z) : system :=
  mk (u32 (first + 1)) None [] (replicate n (C_idle false)) [] 1.

(** ** The invariant *)
(** The entries behind a traversal. *)
Definition passed (c : cpc) : nat :=
  match c with J_next pos | J_join pos => pos | _ => O end.

Record inv (first : Z) (s : system) : Prop := {
  inv_counter : _taskId s = first + issued s;
  inv_issued : 1 <= issued s;
  inv_range k th id : threads s !! k = Some th -> TLS_Id th = Some id -> first < id < _taskId s;
  inv_inj k1 k2 t1 t2 id : threads s !! k1 = Some t1 -> threads s !! k2 = Some t2 ->
    TLS_Id t1 = Some id -> TLS_Id t2 = Some id -> k1 = k2;
  inv_tls k th : threads s !! k = Some th -> pc th <> T_init -> is_Some (TLS_Id th);
  inv_joined j k : _tasks s !! j = Some (k, false) ->
    exists th, threads s !! k = Some th /\ pc th = T_end;
  inv_passed i c j k b : callers s !! i = Some c -> (j < passed c)%nat ->
    _tasks s !! j = Some (k, b) -> b = false;
  inv_entries i c : callers s !! i = Some c -> (passed c <= length (_tasks s))%nat;
}.

Lemma ex_inv_move first s i c :
  inv first s ->
  (forall j k b, (j < passed c)%nat -> _tasks s !! j = Some (k, b) -> b = false) ->
  (passed c <= length (_tasks s))%nat -> inv first (set_caller i c s).
Proof.
  intros [I1 I2 I3 I4 I5 I6 I7 I8] Hc Hl. split; simpl; try done.
  - intros i' c' j k b [(<- & <- & _)|[_ Hi]]%list_lookup_insert_Some; [by apply Hc|by apply (I7 i' c')].
  - intros i' c' [(<- & <- & _)|[_ Hi]]%list_lookup_insert_Some; [done|by apply (I8 i' c')].
Qed.

Lemma ex_inv_set_mutex first s m : inv first s -> inv first (set_mutex m s).
Proof. by intros [I1 I2 I3 I4 I5 I6 I7 I8]. Qed.

Lemma ex_inv_caller first s i c s' :
  inv first s -> callers s !! i = Some c -> caller_step i c s = Some (Ret s') -> inv first s'.
Proof.
  intros Hs Hc Hst. pose proof Hs as [I1 I2 I3 I4 I5 I6 I7 I8].
  destruct c as [r|[|rest]|rest|rest k|pos|pos]; cbn [caller_step _join_all_tasks] in Hst.
  - done.
  - injection Hst as <-. apply ex_inv_move; [done| |simpl]; intros; simpl in *; lia.
  - destruct (__mutex s); [done|]. injection Hst as <-.
    apply ex_inv_move; [by apply ex_inv_set_mutex| |simpl]; intros; simpl in *; lia.
  - injection Hst as <-. apply ex_inv_move; [|intros; simpl in *; lia|simpl; lia].
    assert (Hsnoc : forall k th, (threads s ++ [mk_thread T_init None 0]) !! k = Some th ->
      threads s !! k = Some th \/ th = mk_thread T_init None 0).
    { intros k th [Hk|(_ & Hk)]%lookup_app_Some; [by left|].
      apply list_lookup_singleton_Some in Hk as [_ <-]. by right. }
    split; simpl; try done.
    + intros k th id [Hk| ->]%Hsnoc; [by eapply I3|done].
    + intros k1 k2 t1 t2 id [Hk1| ->]%Hsnoc [Hk2| ->]%Hsnoc; try done. by eapply I4.
    + intros k th [Hk| ->]%Hsnoc; [by eapply I5|done].
    + intros j k Hj. destruct (I6 j k Hj) as (th & Hk & E). exists th.
      split; [by apply lookup_app_l_Some|done].
  - destruct (other traversing i s); [done|]. injection Hst as <-.
    apply ex_inv_move; [|intros; simpl in *; lia|simpl; lia]. apply ex_inv_set_mutex.
    split; simpl; try done.
    + intros j k' [Hj|(_ & Hj)]%lookup_app_Some; [by eapply I6|].
      by apply list_lookup_singleton_Some in Hj as [_ [=]].
    + intros i' c' j k' b Hi Hlt Hj. apply (I7 i' c' j k' b Hi Hlt).
      rewrite lookup_app_l in Hj; [done|]. pose proof (I8 i' c' Hi). lia.
    + intros i' c' Hi. rewrite length_app. pose proof (I8 i' c' Hi). lia.
  - destruct (other pushing i s); [done|]. destruct (_tasks s !! pos) as [[k b]|] eqn:Hk.
    1: destruct (other (joining pos) i s); [done|]; destruct b.
    all: injection Hst as <-.
    + apply ex_inv_move; [done| |exact (I8 i _ Hc)]. intros j k' b. exact (I7 i _ j k' b Hc).
    + apply ex_inv_move; [done| |simpl; by apply lookup_lt_Some in Hk].
      simpl. intros j k' b Hj Hl. destruct (decide (j = pos)) as [->|]; [congruence|].
      apply (I7 i _ j k' b Hc); [simpl; lia|done].
    + apply ex_inv_move; [done| |simpl]; intros; simpl in *; lia.
  - destruct (_tasks s !! pos) as [[k b]|] eqn:Hk; [|done].
    destruct (threads s !! k) as [[[] id t]|] eqn:Hth; try done. injection Hst as <-.
    assert (Hlt : (pos < length (_tasks s))%nat) by (by eapply lookup_lt_Some).
    apply ex_inv_move.
    + split; simpl; try done.
      * intros j k' [(<- & [= <-] & _)|[_ Hj]]%list_lookup_insert_Some; [eauto|by eapply I6].
      * intros i' c' j k' b' Hi Hj [(<- & [= <- <-] & _)|[_ Hl]]%list_lookup_insert_Some;
          [done|by eapply I7].
      * intros i' c' Hi. rewrite length_insert. by apply (I8 i' c').
    + simpl. intros j k' b' Hj [(<- & [= <- <-] & _)|[Hne Hl]]%list_lookup_insert_Some; [done|].
      apply (I7 i _ j k' b' Hc); [simpl; lia|done].
    + simpl. rewrite length_insert. lia.
Qed.

(** A thread moves on, or assigns its limit. *)
Lemma ex_inv_go first s k th q n :
  inv first s -> threads s !! k = Some th -> pc th <> T_init -> q <> T_init -> pc th <> T_end ->
  inv first (set_threads (<[k := mk_thread q (TLS_Id th) n]> (threads s)) s).
Proof.
  intros [I1 I2 I3 I4 I5 I6 I7 I8] Hk Hp Hq He.
  assert (Hold : forall j t, <[k := mk_thread q (TLS_Id th) n]> (threads s) !! j = Some t ->
    exists t0, threads s !! j = Some t0 /\ TLS_Id t0 = TLS_Id t /\ (pc t <> T_init -> pc t0 <> T_init)).
  { intros j t [(<- & <- & _)|[_ Hj]]%list_lookup_insert_Some; [by exists th|by exists t]. }
  split; simpl; try done.
  - intros j t id Hj Hid. destruct (Hold j t Hj) as (t0 & H0 & E & _). rewrite <- E in Hid. by eapply I3.
  - intros k1 k2 t1 t2 id H1 H2 E1 E2.
    destruct (Hold _ _ H1) as (u1 & U1 & F1 & _), (Hold _ _ H2) as (u2 & U2 & F2 & _).
    apply (I4 k1 k2 u1 u2 id); congruence.
  - intros j t Hj Ht. destruct (Hold j t Hj) as (t0 & H0 & <- & Hpc). apply (I5 j t0 H0). auto.
  - intros j k' Hj. destruct (I6 j k' Hj) as (t & Ht & E). exists t. split; [|done].
    rewrite list_lookup_insert_ne; [done|]. intros ->. congruence.
Qed.

Lemma ex_inv_init_tls first s k th :
  inv first s -> threads s !! k = Some th -> pc th = T_init ->
  first + issued s + 1 < 2 ^ 32 -> 0 <= first -> inv first (_init_tls k s).
Proof.
  intros [I1 I2 I3 I4 I5 I6 I7 I8] Hk Hp Hb Hf.
  assert (E : u32 (_taskId s + 1) = _taskId s + 1) by (apply u32_small; lia).
  assert (Hold : forall j t, <[k := mk_thread T_task (Some (_taskId s)) DEFAULT_EXECUTION_TICKCOUNT]>
    (threads s) !! j = Some t ->
    (j = k /\ t = mk_thread T_task (Some (_taskId s)) DEFAULT_EXECUTION_TICKCOUNT) \/
    (j <> k /\ threads s !! j = Some t)).
  { intros j t [(<- & <- & _)|[Hne Hj]]%list_lookup_insert_Some; [by left|by right]. }
  split; simpl; rewrite ?E; try done; try lia.
  - intros j t id [[-> ->]|[_ Hj]]%Hold Hid; [injection Hid as <-; lia|].
    pose proof (I3 j t id Hj Hid). lia.
  - intros k1 k2 t1 t2 id [[-> ->]|[N1 H1]]%Hold [[-> ->]|[N2 H2]]%Hold E1 E2; try done.
    + injection E1 as <-. pose proof (I3 k2 t2 _ H2 E2). lia.
    + injection E2 as <-. pose proof (I3 k1 t1 _ H1 E1). lia.
    + by eapply I4.
  - intros j t [[-> ->]|[_ Hj]]%Hold Ht; [simpl; eauto|by eapply I5].
  - intros j k' Hj. destruct (I6 j k' Hj) as (t & Ht & Ee). exists t. split; [|done].
    rewrite list_lookup_insert_ne; [done|]. intros ->. congruence.
Qed.

Definition inv_bounded (first : Z) (s : system) : Prop := first + issued s < 2 ^ 32 -> inv first s.

Lemma ex_issued_mono e s s' : play1 e s = Some (Ret s') -> issued s <= issued s'.
Proof.
  destruct e as [i n|i|i|k|k n]; cbn [play1]; intros He.
  - by repeat (case_match; try done); simplify_eq.
  - by repeat (case_match; try done); simplify_eq.
  - destruct (callers s !! i) as [[r|[|n]|n|n k|p|p]|]; cbn [caller_step _join_all_tasks] in He; try done;
      repeat (case_match; try discriminate He); injection He as <-; simpl; lia.
  - destruct (threads s !! k) as [th|]; [|done]. unfold thread_step in He.
    destruct (pc th); try done; injection He as <-; simpl; lia.
  - destruct (threads s !! k) as [[[] id t]|]; try done. by injection He as <-.
Qed.

Lemma ex_step_inv first s s' : 0 <= first -> inv_bounded first s -> step s s' -> inv_bounded first s'.
Proof.
  intros Hf Hs [e He] Hb. pose proof (ex_issued_mono e s s' He) as Hm.
  assert (Hi : inv first s) by (apply Hs; lia).
  destruct e as [i n|i|i|k|k n]; cbn [play1] in He.
  - destruct (callers s !! i) as [[r| | | | |]|]; try done. injection He as <-.
    apply ex_inv_move; [done| |simpl]; intros; simpl in *; lia.
  - destruct (callers s !! i) as [[r| | | | |]|]; try done. injection He as <-.
    apply ex_inv_move; [done| |simpl]; intros; simpl in *; lia.
  - destruct (callers s !! i) as [c|] eqn:Hc; [|done]. by apply (ex_inv_caller first s i c).
  - destruct (threads s !! k) as [th|] eqn:Hk; [|done]. unfold thread_step in He.
    destruct (pc th) eqn:Hp; try done; injection He as <-.
    + simpl in Hb. apply (ex_inv_init_tls first s k th); try done. lia.
    + apply ex_inv_go; congruence.
    + apply ex_inv_go; congruence.
  - destruct (threads s !! k) as [[[] id t]|] eqn:Hk; try done. injection He as <-.
    by apply (ex_inv_go first s k _ T_task n Hi Hk).
Qed.

Lemma ex_run_inv n first s :
  0 <= first -> run step (init n first) s -> first + issued s < 2 ^ 32 -> inv first s.
Proof.
  intros Hf Hr. apply (run_invariant step (inv_bounded first) (init n first)); [|  |done].
  - intros a b. by apply ex_step_inv.
  - intros Hb. simpl in Hb. split; simpl; try done.
    + by rewrite u32_small by lia.
    + by intros i c [-> _]%lookup_replicate.
Qed.

Lemma ex_play_run es : forall s s', play es s = Some (Ret s') -> run step s s'.
Proof.
  induction es as [|e es IH]; intros s s'; cbn [play]; [intros [= <-]; constructor|].
  destruct (play1 e s) as [[s1| | |]|] eqn:E; try done. intros Hp.
  apply (run_trans step s s1); [|by apply IH].
  apply (run_step s s s1); [constructor|]. by exists e.
Qed.

(** When a traversal returns, no thread is joinable any more. *)
Lemma ex_returned first s i pos s' :
  inv first s -> callers s !! i = Some (J_next pos) ->
  caller_step i (J_next pos) s = Some (Ret s') -> callers s' !! i = Some (C_idle true) ->
  _tasks s' = _tasks s /\ forall j k b, (j < length (_tasks s))%nat -> _tasks s !! j = Some (k, b) -> b = false.
Proof.
  intros Hs Hc Hst Hret. assert (Hlt : (i < length (callers s))%nat) by (by eapply lookup_lt_Some).
  cbn [caller_step _join_all_tasks] in Hst. destruct (other pushing i s); [done|].
  destruct (_tasks s !! pos) as [[k' b']|] eqn:Hpos.
  - destruct (other (joining pos) i s); [done|]. injection Hst as <-. simpl in Hret.
    rewrite list_lookup_insert_eq in Hret by done. by destruct b'.
  - injection Hst as <-. split; [done|]. intros j k b Hlj. apply (inv_passed first s Hs i _ j k b Hc).
    apply lookup_ge_None in Hpos. simpl. lia.
Qed.

(** What the limit of a thread is after an event, if it was [old]. *)
Definition limit_after (e : event) (k : nat) (th : thread) : Z :=
  match e with
  | EThread j => if Nat.eqb j k then match pc th with
                   | T_init => DEFAULT_EXECUTION_TICKCOUNT
                   | _ => TLS_GlobalJobsExecutionMaxTickCount th end
                 else TLS_GlobalJobsExecutionMaxTickCount th
  | EAssign j n => if Nat.eqb j k then n else TLS_GlobalJobsExecutionMaxTickCount th
  | _ => TLS_GlobalJobsExecutionMaxTickCount th
  end.
Lemma limit_step e s s' k th th' :
  play1 e s = Some (Ret s') -> threads s !! k = Some th -> threads s' !! k = Some th' ->
  TLS_GlobalJobsExecutionMaxTickCount th' = limit_after e k th.
Proof.
  intros He Hk Hk'. destruct e as [i n|i|i|j|j n]; cbn [play1 limit_after] in *.
  - destruct (callers s !! i) as [[]|]; try done. injection He as <-. simpl in Hk'. congruence.
  - destruct (callers s !! i) as [[]|]; try done. injection He as <-. simpl in Hk'. congruence.
  - destruct (callers s !! i) as [[r|[|n]|n|n m|p|p]|]; cbn [caller_step _join_all_tasks] in He; try done;
      repeat (case_match; try discriminate He); injection He as <-; simpl in Hk'; simplify_eq; try done;
      rewrite lookup_app_l in Hk' by (by eapply lookup_lt_Some); congruence.
  - destruct (threads s !! j) as [t|] eqn:Hj; [|done].
    destruct (Nat.eqb_spec j k) as [->|Hne].
    + assert (t = th) as -> by congruence. assert (Hlt : (k < length (threads s))%nat) by (by eapply lookup_lt_Some).
      unfold thread_step in He. destruct (pc th); try done; injection He as <-; simpl in Hk';
        rewrite list_lookup_insert_eq in Hk' by done; by injection Hk' as <-.
    + unfold thread_step in He. destruct (pc t); try done; injection He as <-; simpl in Hk';
        rewrite list_lookup_insert_ne in Hk' by done; congruence.
  - destruct (threads s !! j) as [[[] id t]|] eqn:Hj; try done. injection He as <-. simpl in Hk'.
    assert (Hlt : (j < length (threads s))%nat) by (by eapply lookup_lt_Some).
    destruct (Nat.eqb_spec j k) as [->|Hne].
    + rewrite list_lookup_insert_eq in Hk' by done. by injection Hk' as <-.
    + rewrite list_lookup_insert_ne in Hk' by done. congruence.
Qed.

(** C29: over all interleavings of [AddTask], [JoinAllTasks] and the tasks that have no
    data race, with fewer than 2^32 ids: no two threads have the same [TLS_Id], nor the
    main thread's; a task runs with its id, starts with the default limit of ticks and
    then has the limit it assigned itself last, whatever the other threads do; and when
    [JoinAllTasks] returns, the thread of every task has ended. *)
Theorem ex_ids_distinct_and_JoinAllTasks_waits n first s :
  0 <= first -> run step (init n first) s -> first + issued s < 2 ^ 32 ->
  (forall k1 k2 t1 t2 id, threads s !! k1 = Some t1 -> threads s !! k2 = Some t2 -> k1 <> k2 ->
     TLS_Id t1 = Some id -> TLS_Id t2 <> Some id) /\
  (forall k th, threads s !! k = Some th -> pc th <> T_init ->
     exists id, TLS_Id th = Some id /\ first < id < 2 ^ 32) /\
  (forall e s' k th th', play1 e s = Some (Ret s') -> threads s !! k = Some th ->
     threads s' !! k = Some th' -> TLS_GlobalJobsExecutionMaxTickCount th' = limit_after e k th) /\
  (forall i pos s', callers s !! i = Some (J_next pos) ->
     caller_step i (J_next pos) s = Some (Ret s') ->
     callers s' !! i = Some (C_idle true) ->
     forall k b, (k, b) ∈ _tasks s -> exists th, threads s !! k = Some th /\ pc th = T_end).
Proof.
  intros Hf Hr Hb. pose proof (ex_run_inv n first s Hf Hr Hb) as Hs. split_and!.
  - intros k1 k2 t1 t2 id H1 H2 Hne E1 E2. apply Hne. by apply (inv_inj first s Hs k1 k2 t1 t2 id).
  - intros k th Hk Hp. destruct (inv_tls first s Hs k th Hk Hp) as [id Hid].
    exists id. pose proof (inv_range first s Hs k th id Hk Hid). pose proof (inv_counter first s Hs).
    split; [done|lia].
  - intros e s' k th th'. apply limit_step.
  - intros i pos s' Hc Hst Hret k b Hin. apply list_elem_of_lookup in Hin as [j Hj].
    destruct (ex_returned first s i pos s' Hs Hc Hst Hret) as [_ Hall].
    pose proof (Hall j k b ltac:(by eapply lookup_lt_Some) Hj) as ->. exact (inv_joined first s Hs j k Hj).
Qed.

(** [JoinAllTasks] holds no lock: a task that another thread adds during its
    traversal appends to the vector that is traversed. *)
Theorem JoinAllTasks_during_AddTask_faults s i j r1 r2 :
  i <> j -> callers s !! i = Some (C_idle r1) -> callers s !! j = Some (C_idle r2) ->
  __mutex s = None ->
  play [EJoinAll i; EAdd j 1; ECaller j; ECaller j; ECaller j] s = Some (Fault DataRace).
Proof.
  intros Hne Hi Hj Hm.
  assert (Hli : (i < length (callers s))%nat) by (by eapply lookup_lt_Some).
  assert (Hlj : (j < length (callers s))%nat) by (by eapply lookup_lt_Some).
  cbn [play play1]. rewrite Hi. cbn [callers set_caller].
  rewrite list_lookup_insert_ne, Hj by done. cbn [callers set_caller].
  rewrite list_lookup_insert_eq by (by rewrite ?length_insert). cbn [caller_step __mutex set_caller].
  rewrite Hm. cbn [callers set_caller set_mutex].
  rewrite list_insert_insert_eq, list_lookup_insert_eq by (by rewrite ?length_insert).
  cbn [caller_step callers set_caller set_mutex set_threads].
  rewrite list_insert_insert_eq, list_lookup_insert_eq by (by rewrite ?length_insert).
  cbn [caller_step]. unfold other. cbn [callers set_caller set_mutex set_threads].
  rewrite ?list_insert_insert_eq, (existsb_deleted traversing (callers s) i j (J_next 0)) by done. done.
Qed.

(** Two tasks, over and joined up to the last look at the vector. *)
Definition sample_events : list event :=
  [EAdd 0 2] ++ replicate 7 (ECaller 0) ++ replicate 3 (EThread 1) ++ replicate 3 (EThread 0) ++
  [EJoinAll 0] ++ replicate 4 (ECaller 0).
Definition sample : system :=
  mk 4 None [(0%nat, false); (1%nat, false)] [J_next 2]
    [mk_thread T_end (Some 3) 64; mk_thread T_end (Some 2) 64] 3.
Lemma ex_sample_run : run step (init 1 1) sample.
Proof. by apply (ex_play_run sample_events). Qed.

Lemma ex_ids_distinct_and_JoinAllTasks_waits_witness :
  exists s', caller_step 0 (J_next 2) sample = Some (Ret s') /\
    callers s' !! 0%nat = Some (C_idle true) /\
    exists th, threads sample !! 1%nat = Some th /\ pc th = T_end.
Proof.
  assert (Hb : 1 + issued sample < 2 ^ 32) by reflexivity.
  destruct (ex_ids_distinct_and_JoinAllTasks_waits 1 1 sample ltac:(lia) ex_sample_run Hb)
    as (_ & _ & _ & H).
  eexists. split; [reflexivity|]. split; [reflexivity|].
  apply (H 0%nat 2%nat _ eq_refl eq_refl eq_refl 1%nat false).
  by apply list_elem_of_further, list_elem_of_here.
Defined.

Lemma JoinAllTasks_during_AddTask_faults_witness :
  play [EJoinAll 0; EAdd 1 1; ECaller 1; ECaller 1; ECaller 1] (init 2 1)
    = Some (Fault DataRace).
Proof. by apply (JoinAllTasks_during_AddTask_faults (init 2 1) 0 1 false false). Defined.
End TaskManagerEx.

Module TaskIds.
(** Two threads with the same [TLS_Id] do not exclude each other. *)
Lemma equal_ids_share_the_lock id :
  1 <= id < 65536 ->
  exists l t1 t2, run (RWLock.step 1) (RWLock.init [id; id]) (RWLock.Running l [t1; t2]) /\
    RWLock.wh t1 = 1%nat /\ RWLock.wh t2 = 1%nat.
Proof.
  intros Hid.
  eexists (RWLock.mk_lock (id * 65536 + 0) 2), (RWLock.mk_thread id RWLock.Idle 1 0),
    (RWLock.mk_thread id RWLock.Idle 1 0).
  split; [|done].
  apply (RWLock.lock_play_run 1 [RWLock.ECall 0 RWLock.CWriteLock; RWLock.EStep 0 0; RWLock.EStep 0 0;
    RWLock.EStep 0 0; RWLock.EStep 0 0; RWLock.ECall 1 RWLock.CWriteLock; RWLock.EStep 1 0;
    RWLock.EStep 1 0]).
  assert (H0 : (id =? 0) = false) by lia.
  assert (Hw : RWLock._get_lock_thread_id (id * 65536 + 0) = id) by (apply RWLock.thread_id_word; lia).
  unfold RWLock.play. cbn [foldl].
  repeat (progress (cbn -[RWLock._get_write_desired_flag RWLock._get_lock_thread_id Z.mul Z.add];
    rewrite ?(RWLock.desired_word id) by lia; rewrite ?Hw, ?H0, ?Z.eqb_refl;
    change (bool_decide (RWLock.Idle = RWLock.Idle)) with true;
    change (RWLock._get_lock_thread_id RWLock.EMPTY) with 0)).
  reflexivity.
Qed.

(** [TaskManager] and [TaskManagerEx] count their ids separately, both from 1:
    a program that uses both gets two running threads with the same [TLS_Id], and
    these two can hold the write lock of an [RWLock] at the same time. *)
Theorem two_managers_break_the_lock :
  exists s x id l t1 t2,
    run TaskManager.step (TaskManager.init 1 TaskManager.MAIN_ID) s /\
    TaskManager.threads s !! 0%nat = Some (id, TaskManager.T_task) /\
    run TaskManagerEx.step (TaskManagerEx.init 1 1) x /\
    TaskManagerEx.TLS_Id <$> TaskManagerEx.threads x !! 0%nat = Some (Some id) /\
    run (RWLock.step 1) (RWLock.init [id; id]) (RWLock.Running l [t1; t2]) /\
    RWLock.wh t1 = 1%nat /\ RWLock.wh t2 = 1%nat.
Proof.
  destruct (equal_ids_share_the_lock 2 ltac:(lia)) as (l & t1 & t2 & Hr & H1 & H2).
  eexists _, _, 2, l, t1, t2.
  split; [apply (TaskManager.tasks_play_run [TaskManager.EAdd 0 1; TaskManager.ECaller 0;
    TaskManager.ECaller 0; TaskManager.ECaller 0; TaskManager.EThread 0]); reflexivity|].
  split; [reflexivity|].
  split; [|split; [|split; [exact Hr|by split]]].
  - apply (TaskManagerEx.ex_play_run [TaskManagerEx.EAdd 0 1; TaskManagerEx.ECaller 0;
      TaskManagerEx.ECaller 0; TaskManagerEx.EThread 0]). reflexivity.
  - reflexivity.
Qed.
End TaskIds.
