(* ===== verification/TaskEnd.v ===== *)
(** The destructors of TaskManager.cpp and TaskManagerEx.cpp: they join all tasks and
    clear the container; a thread that is destroyed while it is joinable terminates the
    program ([std::thread::~thread]). *)
From S2P Require Import Prelude TaskManager TaskJoin TaskManagerEx.
#[local] Open Scope Z_scope.

Module TaskEnd.
Import TaskManager TaskJoin.

(** [_tasks.clear()]. *)
Definition clear_tasks (s : system) : outcome system :=
  if forallb (fun t : Z * entry => negb (joinable (snd t))) (map_to_list (_tasks s))
  then Ret (set_tasks ∅ s) else Fault Terminated.

(** [~TaskManager()] on the caller [i], which takes [m] steps in [_join_all_tasks()],
    whose traversal has the given order; [None]: it is not at the end, or it waits for a
    task. *)
Definition destroy (i : nat) (order : list Z) (m : nat) (s : system) : option (outcome system) :=
  match play (EJoinAll i order :: replicate m (ECaller i)) s with
  | Some (Ret s') =>
      match callers s' !! i with
      | Some (C_idle (Some RDone)) => Some (clear_tasks s')
      | _ => None
      end
  | r => r
  end.

Lemma clear_tasks_joined s :
  (forall id e, _tasks s !! id = Some e -> joinable e = false) ->
  clear_tasks s = Ret (set_tasks ∅ s).
Proof.
  intros Hj. unfold clear_tasks. replace (forallb _ _) with true; [done|]. symmetry.
  apply forallb_forall. intros [id e] Hin. apply list_elem_of_In, elem_of_map_to_list in Hin.
  simpl. by rewrite (Hj id e Hin).
Qed.

(** The destructor of [TaskManager]: whenever its traversal ends, whatever callers
    and tasks did meanwhile, no thread in [_tasks] is joinable, so that clearing the map
    does not terminate the program; and when all tasks are over and nobody inserts or
    joins, it ends, with an empty map. *)
Theorem destructor_does_not_terminate n first s i :
  0 <= first -> run step (init n first) s -> first + issued s < 2 ^ 32 ->
  (forall rest s', callers s !! i = Some (JA_next rest) ->
     caller_step i (JA_next rest) s = Some (Ret s') ->
     callers s' !! i = Some (C_idle (Some RDone)) -> clear_tasks s' = Ret (set_tasks ∅ s')) /\
  (forall r order, callers s !! i = Some (C_idle r) ->
     order ≡ₚ (map_to_list (_tasks s)).*1 -> alone i s ->
     (forall k id p, threads s !! k = Some (id, p) -> p = T_end) ->
     exists m s', destroy i order m s = Some (Ret s') /\ _tasks s' = ∅).
Proof.
  intros Hf Hr Hb. pose proof (tasks_run_inv n first s Hf Hr Hb) as Hs.
  pose proof (join_run n first s Hr) as Hj. split.
  - intros rest s' Hc Hst Hret. apply clear_tasks_joined. intros id e He.
    exact (proj1 (returned_joined s i rest s' id e Hj Hc Hst Hret He)).
  - intros r order Hc Ho Ha Hend.
    destruct (join_all_returns first s i r order Hs Hc Ho Ha Hend) as (m & s' & E & Hc' & Hall).
    exists m, (set_tasks ∅ s'). split; [|done]. unfold destroy. rewrite E, Hc'.
    by rewrite (clear_tasks_joined s' Hall).
Qed.

Lemma destructor_does_not_terminate_witness :
  exists m s', destroy 0 [2] m sample_over = Some (Ret s') /\ _tasks s' = ∅.
Proof.
  assert (H0 : 0 <= MAIN_ID) by (unfold MAIN_ID; lia).
  apply (proj2 (destructor_does_not_terminate 2 MAIN_ID sample_over 0 H0 sample_over_run
    eq_refl) (Some (RPair 2 2)) [2] eq_refl); [done|exact sample_alone|].
  intros [|k] id p Hk; [by injection Hk as <- <-|done].
Defined.
End TaskEnd.

Module TaskEndEx.
Import TaskManagerEx.

(** [_tasks.clear()]. *)
Definition clear_tasks (s : system) : outcome system :=
  if forallb (fun t : nat * bool => negb (snd t)) (_tasks s)
  then Ret (set_tasks [] s) else Fault Terminated.

(** [~TaskManagerEx()] on the caller [i], which takes [m] steps in [_join_all_tasks()]. *)
Definition destroy (i m : nat) (s : system) : option (outcome system) :=
  match play (EJoinAll i :: replicate m (ECaller i)) s with
  | Some (Ret s') =>
      match callers s' !! i with
      | Some (C_idle true) => Some (clear_tasks s')
      | _ => None
      end
  | r => r
  end.

Definition joined_before (pos : nat) (t : list (nat * bool)) : Prop :=
  forall j k b, (j < pos)%nat -> t !! j = Some (k, b) -> b = false.
Definition all_over (s : system) : Prop := forall k b, (k, b) ∈ _tasks s ->
  exists id n, threads s !! k = Some (mk_thread T_end id n).

Lemma ex_clear_joined s :
  joined_before (length (_tasks s)) (_tasks s) -> clear_tasks s = Ret (set_tasks [] s).
Proof.
  intros Hj. unfold clear_tasks. replace (forallb _ _) with true; [done|]. symmetry.
  apply forallb_forall. intros [k b] Hin. apply list_elem_of_In, list_elem_of_lookup in Hin as [j Hjk].
  simpl. by rewrite (Hj j k b ltac:(by eapply lookup_lt_Some) Hjk).
Qed.

Lemma ex_play_caller i c es s s' :
  callers s !! i = Some c -> caller_step i c s = Some (Ret s') ->
  play (ECaller i :: es) s = play es s'.
Proof. intros Hc E. cbn [play play1]. by rewrite Hc, E. Qed.

(** No other caller appends or is in a [join]. *)
Definition alone (i : nat) (s : system) : Prop :=
  forall j c, j <> i -> callers s !! j = Some c -> pushing c = false /\ forall pos, joining pos c = false.
Lemma end_alone_other i s f : alone i s -> (f = pushing \/ exists pos, f = joining pos) -> other f i s = false.
Proof.
  intros Ha Hf. apply existsb_delete_false. intros j c Hne Hj. destruct (Ha j c Hne Hj) as [H1 H2].
  by destruct Hf as [->|[pos ->]].
Qed.
Lemma end_alone_set i c s : alone i s -> alone i (set_caller i c s).
Proof. intros Ha j d Hne Hj. simpl in Hj. rewrite list_lookup_insert_ne in Hj by done. by apply (Ha j). Qed.

(** The entry at [pos] joined, by the caller [i] whose traversal is there. *)
Definition joined_at (i pos k : nat) (s : system) : system :=
  set_caller i (J_next (S pos))
    (set_tasks (<[pos := (k, false)]> (_tasks s)) (set_caller i (J_join pos) s)).
Lemma play_join i pos k id t es s :
  callers s !! i = Some (J_next pos) -> _tasks s !! pos = Some (k, true) ->
  threads s !! k = Some (mk_thread T_end id t) -> alone i s ->
  play (ECaller i :: ECaller i :: es) s = play es (joined_at i pos k s).
Proof.
  intros Hc Hk Hth Ha. assert (Hlt : (i < length (callers s))%nat) by (by eapply lookup_lt_Some).
  rewrite (ex_play_caller i _ _ s (set_caller i (J_join pos) s) Hc).
  2: { cbn [caller_step _join_all_tasks]. rewrite (end_alone_other i s pushing Ha) by (by left).
       rewrite Hk, (end_alone_other i s (joining pos) Ha) by eauto. done. }
  apply (ex_play_caller i (J_join pos)); [by apply list_lookup_insert_eq|].
  cbn [caller_step _join_all_tasks _tasks threads set_caller]. by rewrite Hk, Hth.
Qed.
Lemma joined_at_over i pos k s :
  _tasks s !! pos = Some (k, true) -> all_over s -> all_over (joined_at i pos k s).
Proof.
  intros Hk Hover k' b' Hin. simpl in Hin. apply list_elem_of_lookup in Hin as [j Hin].
  apply list_lookup_insert_Some in Hin as [(-> & [= <- <-] & _)|[_ Hin]].
  - apply (Hover k true). by eapply list_elem_of_lookup_2.
  - apply (Hover k' b'). by eapply list_elem_of_lookup_2.
Qed.

(** The traversal from [pos] on. *)
Lemma join_loop_ends i : forall n s pos,
  (length (_tasks s) - pos <= n)%nat -> (pos <= length (_tasks s))%nat ->
  callers s !! i = Some (J_next pos) -> all_over s -> alone i s -> joined_before pos (_tasks s) ->
  exists m s', play (replicate m (ECaller i)) s = Some (Ret s') /\
    callers s' !! i = Some (C_idle true) /\ joined_before (length (_tasks s')) (_tasks s').
Proof.
  induction n as [|n IH]; intros s pos Hn Hpos Hc Hover Ha Hj;
    assert (Hlt : (i < length (callers s))%nat) by (by eapply lookup_lt_Some);
    pose proof (end_alone_other i s pushing Ha ltac:(by left)) as Hpush;
    destruct (_tasks s !! pos) as [[k b]|] eqn:Hk.
  1: { apply lookup_lt_Some in Hk. lia. }
  1, 3: exists 1%nat, (set_caller i (C_idle true) s); split_and!;
    [cbn [replicate]; erewrite (ex_play_caller i); [reflexivity|exact Hc|cbn [caller_step _join_all_tasks];
       by rewrite Hpush, Hk]
    |by apply list_lookup_insert_eq
    |apply lookup_ge_None in Hk; intros j k' b' Hlj; apply Hj; simpl in Hlj; lia].
  pose proof (lookup_lt_Some _ _ _ Hk) as Hlpos.
  destruct b.
  - destruct (Hover k true ltac:(by eapply list_elem_of_lookup_2)) as (id & t & Hth).
    destruct (IH (joined_at i pos k s) (S pos)) as (m & s' & E & Hrest);
      [simpl; rewrite length_insert; lia|simpl; rewrite length_insert; lia| | | | |].
    + apply list_lookup_insert_eq. simpl. by rewrite length_insert.
    + by apply joined_at_over.
    + apply end_alone_set. by apply (end_alone_set i (J_join pos) s).
    + intros j k' b' Hlj Hin. simpl in Hin.
      apply list_lookup_insert_Some in Hin as [(_ & [= _ <-] & _)|[Hne Hin]]; [done|].
      apply (Hj j k' b'); [lia|done].
    + exists (S (S m)), s'. split; [|exact Hrest]. cbn [replicate].
      by rewrite (play_join i pos k id t _ s Hc Hk Hth Ha).
  - destruct (IH (set_caller i (J_next (S pos)) s) (S pos)) as (m & s' & E & Hrest);
      try (cbn [_tasks set_caller]; lia).
    + by apply list_lookup_insert_eq.
    + exact Hover.
    + by apply end_alone_set.
    + intros j k' b' Hlj Hin. destruct (decide (j = pos)) as [->|Hne].
      * simpl in Hin. rewrite Hk in Hin. by injection Hin as _ <-.
      * apply (Hj j k' b'); [lia|done].
    + exists (S m), s'. split; [|exact Hrest]. cbn [replicate].
      rewrite (ex_play_caller i _ _ s (set_caller i (J_next (S pos)) s) Hc); [done|].
      cbn [caller_step _join_all_tasks]. rewrite Hpush, Hk.
      by rewrite (end_alone_other i s (joining pos) Ha) by eauto.
Qed.

(** The destructor of [TaskManagerEx]: the same promise as [TaskManager]'s. *)
Theorem ex_destructor_does_not_terminate n first s i :
  0 <= first -> run step (init n first) s -> first + issued s < 2 ^ 32 ->
  (forall pos s', callers s !! i = Some (J_next pos) ->
     caller_step i (J_next pos) s = Some (Ret s') ->
     callers s' !! i = Some (C_idle true) -> clear_tasks s' = Ret (set_tasks [] s')) /\
  (forall r, callers s !! i = Some (C_idle r) -> all_over s -> alone i s ->
     exists m s', destroy i m s = Some (Ret s') /\ _tasks s' = []).
Proof.
  intros Hf Hr Hb. pose proof (ex_run_inv n first s Hf Hr Hb) as Hs. split.
  - intros pos s' Hc Hst Hret. apply ex_clear_joined. intros j k b Hlj Hj.
    destruct (ex_returned first s i pos s' Hs Hc Hst Hret) as [Hsame Hall].
    rewrite Hsame in Hlj, Hj. by eapply Hall.
  - intros r Hc Hover Ha. assert (Hlt : (i < length (callers s))%nat) by (by eapply lookup_lt_Some).
    destruct (join_loop_ends i (length (_tasks s)) (set_caller i (J_next 0) s) 0) as (m & s' & E & Hc' & Hall);
      [cbn [_tasks set_caller]; lia|lia|by apply list_lookup_insert_eq|exact Hover|by apply end_alone_set
      |intros j k b Hlj; lia|].
    exists m, (set_tasks [] s'). split; [|done]. unfold destroy. cbn [play play1]. rewrite Hc, E, Hc'.
    by rewrite (ex_clear_joined s' Hall).
Qed.
End TaskEndEx.
