(* ===== verification/Heap.v ===== *)
(** IOCPCore.h/.cpp, the base class of Service.h/.cpp, and the heap of sessions: the
    parts that the server and the clients share. A session lives as long as a
    [shared_ptr] of its service designates it. *)
From S2P Require Import Prelude ErrorHandler RecvBuffer SocketUtils Session.
#[local] Open Scope Z_scope.

Module IOCPCore.
Section IOCPCore.
Context `{OS, Winsock}.

(** [(HANDLE)-1], and [NULL], which [CreateIoCompletionPort] returns on failure. *)
Definition INVALID_HANDLE_VALUE : Z := 18446744073709551615.
Definition NULL : Z := 0.

(** The constructor. *)
Definition new (n : net) : outcome (Z * net) :=
  let '(_iocpHandle, _, n) := syscall CreateIoCompletionPort_new n in
  if _iocpHandle =? INVALID_HANDLE_VALUE then
    let! last := ErrorHandler.ASSERT_CRASH (negb (_iocpHandle =? INVALID_HANDLE_VALUE))
                   (last_error n) in
    Ret (_iocpHandle, set_last last n)
  else Ret (_iocpHandle, n).

(** [RegisterHandle(iocpObject)], of the object's handle. *)
Definition RegisterHandle (handle _iocpHandle : Z) (n : net) : bool * net :=
  let '(res, _, n) := syscall (CreateIoCompletionPort handle _iocpHandle) n in
  check (negb (res =? NULL)) APP_REGISTER_HANDLE_FAILED_IOCP_CORE n.

Lemma RegisterHandle_ok handle core n :
  (os_reply (log n) (CreateIoCompletionPort handle core)).1 <> NULL ->
  exists n', RegisterHandle handle core n = (true, n') /\
    log n' = log n ++ [ASys (CreateIoCompletionPort handle core)
      (os_reply (log n) (CreateIoCompletionPort handle core)).1
      (os_reply (log n) (CreateIoCompletionPort handle core)).2].
Proof.
  unfold RegisterHandle, syscall. destruct (os_reply _ _) as [r err]. cbn [fst snd]. intros Hr.
  apply Z.eqb_neq in Hr. rewrite Hr. unfold check, ErrorHandler.CheckError. simpl.
  eexists. split; [reflexivity|]. done.
Qed.

(** A refused registration is a [NULL] answer. *)
Lemma RegisterHandle_refused handle core n n' :
  RegisterHandle handle core n = (false, n') ->
  exists err, log n' = log n ++ [ASys (CreateIoCompletionPort handle core) NULL err].
Proof.
  unfold RegisterHandle, syscall. destruct (os_reply _ _) as [r err].
  destruct (Z.eqb_spec r NULL) as [->|]; unfold check, ErrorHandler.CheckError; simpl; [|done].
  intros [= <-]. by exists err.
Qed.

Lemma RegisterHandle_fails handle core n :
  (os_reply (log n) (CreateIoCompletionPort handle core)).1 = NULL ->
  exists n', RegisterHandle handle core n = (false, n').
Proof.
  unfold RegisterHandle, syscall. destruct (os_reply _ _) as [r err]. cbn [fst]. intros ->.
  unfold check, ErrorHandler.CheckError. simpl. by eexists.
Qed.

(** The constructor tests for the wrong value: when the completion port cannot
    be created ([NULL] is returned) it neither crashes nor records an error, and the
    core works on with the handle [NULL]. *)
Theorem failed_core_goes_unnoticed n :
  (os_reply (log n) CreateIoCompletionPort_new).1 = NULL ->
  exists n', new n = Ret (NULL, n') /\ last_error n' = last_error n /\
    forall handle, exists res err,
      log (RegisterHandle handle NULL n').2 = log n' ++ [ASys (CreateIoCompletionPort handle 0) res err].
Proof.
  intros E. unfold new, syscall. destruct (os_reply (log n) _) as [h e]. simpl in E. subst h.
  simpl. eexists. split; [reflexivity|]. split; [done|]. intros handle.
  unfold RegisterHandle, syscall. destruct (os_reply _ (CreateIoCompletionPort handle NULL)) as [r e'].
  exists r, e'. unfold check. by destruct (ErrorHandler.CheckError _ _ _).
Qed.
End IOCPCore.
End IOCPCore.

Module Service.
(** The fields of [Service]; whether [_sessionFactory] is set. *)
Record t := mk {
  MAX_SESSION_COUNT : Z;
  _serviceType : ServiceType;
  _iocpCore : option Z;
  _addr : SOCKADDR_IN;
  _sessionFactory : bool;
  _onGoing : bool;
}.
Definition new (serviceType : ServiceType) (iocpCore : option Z) (sockAddr : SOCKADDR_IN)
    (sessionFactory : bool) (sessionCount : Z) : t :=
  mk sessionCount serviceType iocpCore sockAddr sessionFactory false.
Definition set_onGoing (b : bool) (s : t) : t :=
  mk (MAX_SESSION_COUNT s) (_serviceType s) (_iocpCore s) (_addr s) (_sessionFactory s) b.
Definition IsStarted (s : t) : bool := _onGoing s.
Definition GetMaxSessionCount (s : t) : Z := MAX_SESSION_COUNT s.

(** The conditions that the three [Start]s check first, in order, each with its
    code; the first that fails is recorded. *)
Definition checks `{Inet} (s : t) : list (bool * Errors) :=
  [(negb (_onGoing s), APP_SERVICE_IS_ALREADY_STARTED);
   (match _iocpCore s with Some _ => true | None => false end, APP_SERVICE_IOCPCORE_NULLPTR);
   (_sessionFactory s, APP_SERVICE_SESSIONFACTORY_NULLPTR);
   (AddrUtils.IsValid (_addr s), APP_SERVICE_SOCKADDR_INVALID)].
Fixpoint check_all (l : list (bool * Errors)) (n : net) : bool * net :=
  match l with
  | [] => (true, n)
  | (c, e) :: l => let '(ok, n) := check c e n in if negb ok then (false, n) else check_all l n
  end.

(** The first failing condition decides. *)
Definition first_failure `{Inet} (s : t) : option Errors :=
  match List.filter (fun x : bool * Errors => negb (fst x)) (checks s) with
  | [] => None
  | (_, e) :: _ => Some e
  end.

Lemma check_eq c e n : e <> ERR_NONE -> check c e n = (c, if c then n else set_last (code e) n).
Proof.
  intros He. unfold check, ErrorHandler.CheckError, ErrorHandler.SetLastError.
  destruct c; simpl; [by destruct n|]. by destruct e.
Qed.

Lemma check_all_eq `{Inet} s n :
  check_all (checks s) n =
  match first_failure s with
  | None => (true, n)
  | Some e => (false, set_last (code e) n)
  end.
Proof.
  unfold first_failure, checks. cbn [check_all List.filter fst].
  rewrite check_eq by done. destruct (negb (_onGoing s)); cbn [negb]; [|done].
  rewrite check_eq by done. destruct (_iocpCore s); cbn [negb]; [|done].
  rewrite check_eq by done. destruct (_sessionFactory s); cbn [negb]; [|done].
  rewrite check_eq by done. by destruct (AddrUtils.IsValid (_addr s)).
Qed.
End Service.

(** The sessions that the [shared_ptr]s of a service designate, by their ids. *)
Class Owner (C : Type) := { owned : C -> gset Z }.

Module Heap.
(** The service, the sessions alive, [Session::s_sid], the network. *)
Record world (C : Type) := mk {
  srv : C;
  heap : gmap Z Session.t;
  s_sid : Z;
  nt : net;
}.
Arguments mk {C}.
Arguments srv {C}.
Arguments heap {C}.
Arguments s_sid {C}.
Arguments nt {C}.

Section Heap.
Context {C : Type} `{ServiceOps C, Owner C, OS, Winsock}.
Implicit Types w : world C.
Definition set_srv (s : C) w : world C := mk s (heap w) (s_sid w) (nt w).
Definition set_nt (n : net) w : world C := mk (srv w) (heap w) (s_sid w) n.
Definition referenced w : gset Z := owned (srv w).

(** A member function of the session [sid]; a session that is gone is freed memory. *)
Definition on_session (sid : Z) (f : Session.st C -> outcome (Session.st C))
    (w : world C) : outcome (world C) :=
  match heap w !! sid with
  | None => Fault Dangling
  | Some x =>
      let! s := f (Session.mk_st x (srv w) (nt w)) in
      Ret (mk (Session.svc s) (<[sid := Session.ses s]> (heap w)) (s_sid w) (Session.nets s))
  end.

(** The destructor of every session whose last [shared_ptr] is gone. *)
Fixpoint destroy_all (l : list (Z * Session.t)) (w : world C) : outcome (world C) :=
  match l with
  | [] => Ret w
  | (sid, x) :: l =>
      let! n := Session.destroy x (nt w) in
      destroy_all l (mk (srv w) (delete sid (heap w)) (s_sid w) n)
  end.
Definition unreferenced w : list (Z * Session.t) :=
  List.filter (fun p : Z * Session.t => negb (bool_decide (fst p ∈ referenced w)))
    (map_to_list (heap w)).
Definition collect (w : world C) : outcome (world C) := destroy_all (unreferenced w) w.

(** ** What the destructors do *)
Lemma destroy_all_ok l : forall w, exists w',
  destroy_all l w = Ret w' /\ srv w' = srv w /\ s_sid w' = s_sid w /\
  (forall sid, sid ∈ l.*1 -> heap w' !! sid = None) /\
  (forall sid, sid ∉ l.*1 -> heap w' !! sid = heap w !! sid) /\
  exists k, log (nt w') = log (nt w) ++ k.
Proof.
  induction l as [|[sid x] l IH]; intros w.
  { exists w. do 3 (split; [done|]). split; [by intros i ?%not_elem_of_nil|].
    split; [done|]. exists []. by rewrite app_nil_r. }
  cbn [destroy_all]. unfold Session.destroy.
  destruct (SocketCalls.Close_eq (Session._socket x) (nt w)) as (n & -> & Hl). cbn [obind].
  destruct (IH (mk (srv w) (delete sid (heap w)) (s_sid w) n))
    as (w' & -> & E1 & E2 & E3 & E4 & k & E5).
  exists w'. split; [done|]. split; [done|]. split; [done|]. cbn [heap nt] in *. split; [|split].
  - intros i Hi. apply elem_of_cons in Hi as [->|Hi]; [|by apply E3].
    destruct (decide (sid ∈ l.*1)) as [Hd|Hd]; [by apply E3|].
    by rewrite E4, lookup_delete_eq.
  - intros i Hi. apply not_elem_of_cons in Hi as [Hne Hi]. by rewrite E4, lookup_delete_ne.
  - rewrite E5, Hl, <- app_assoc. eauto.
Qed.

Lemma collect_ok w : exists w',
  collect w = Ret w' /\ srv w' = srv w /\ s_sid w' = s_sid w /\
  (forall sid, heap w' !! sid = if decide (sid ∈ referenced w) then heap w !! sid else None) /\
  exists k, log (nt w') = log (nt w) ++ k.
Proof.
  unfold collect. destruct (destroy_all_ok (unreferenced w) w) as (w' & E & E1 & E2 & E3 & E4 & E5).
  exists w'. split; [done|]. split; [done|]. split; [done|]. split; [|done]. intros sid.
  assert (Hin : sid ∈ (unreferenced w).*1 <-> sid ∉ referenced w /\ is_Some (heap w !! sid)).
  { rewrite list_elem_of_fmap. unfold unreferenced. split.
    - intros ([i x] & -> & Hx%list_elem_of_In%filter_In). destruct Hx as [Hx Hr]. simpl in *.
      apply list_elem_of_In, elem_of_map_to_list in Hx.
      apply negb_true_iff, bool_decide_eq_false in Hr. by rewrite Hx.
    - intros [Hr [x Hx]]. exists (sid, x). split; [done|]. apply list_elem_of_In, filter_In.
      split; [by apply list_elem_of_In, elem_of_map_to_list|]. simpl.
      by apply negb_true_iff, bool_decide_eq_false. }
  destruct (decide (sid ∈ referenced w)) as [Hr|Hr].
  - apply E4. by intros [? _]%Hin.
  - destruct (heap w !! sid) eqn:Hx; [apply E3, Hin; split; eauto|].
    rewrite E4; [done|]. intros [_ [? ?]]%Hin. congruence.
Qed.


(** An overlapped call reports success, or that the operation is pending. *)
Definition accepts (r : Z * Z) : Prop := r.1 <> 0 \/ r.2 = WSA_IO_PENDING.
Definition registers (r : Z * Z) : Prop := r.1 <> IOCPCore.NULL.

(** Every session that the service designates is alive and has its own id. *)
Record wf0 w : Prop := {
  wf_alive sid : sid ∈ referenced w -> is_Some (heap w !! sid);
  wf_id sid x : heap w !! sid = Some x -> Session._sessionId x = sid;
}.
(** And every live session is designated. *)
Definition wf w : Prop :=
  wf0 w /\ forall sid, is_Some (heap w !! sid) -> sid ∈ referenced w.

(** Nothing to destroy. *)
Lemma collect_none w :
  (forall sid, is_Some (heap w !! sid) -> sid ∈ referenced w) -> collect w = Ret w.
Proof.
  intros Hall. unfold collect. assert (E : unreferenced w = []); [|by rewrite E].
  unfold unreferenced. apply elem_of_nil_inv. intros [sid x] Hin%list_elem_of_In%filter_In.
  destruct Hin as [Hin Hb]. apply list_elem_of_In, elem_of_map_to_list in Hin. simpl in Hb.
  apply negb_true_iff, bool_decide_eq_false in Hb. apply Hb, Hall. by rewrite Hin.
Qed.

Lemma referenced_eq w w' : srv w' = srv w -> referenced w' = referenced w.
Proof. unfold referenced. by intros ->. Qed.

Lemma collect_sid w w' : collect w = Ret w' -> s_sid w' = s_sid w.
Proof. destruct (collect_ok w) as (w1 & -> & _ & E & _). by intros [= <-]. Qed.

Lemma collect_wf w : wf0 w -> exists w', collect w = Ret w' /\ wf w' /\ srv w' = srv w.
Proof.
  intros [Ha Hi]. destruct (collect_ok w) as (w' & E & E1 & _ & E3 & _).
  exists w'. split; [done|]. split; [|done]. split; [split|].
  - intros sid. rewrite (referenced_eq w w' E1), E3. intros Hr. by rewrite decide_True; auto.
  - intros sid x. rewrite E3. destruct (decide _); [apply Hi|done].
  - intros sid [x Hx]. rewrite E3 in Hx. rewrite (referenced_eq w w' E1).
    by destruct (decide (sid ∈ referenced w)).
Qed.

End Heap.
End Heap.
