(* ===== verification/App.v ===== *)
(** The programs around the library: TestServer and TestClient (their sessions,
    session managers and main loops), and commons/packets (PacketManager and
    PacketHandler, of which both programs hold a copy). A session is a
    [Session.t] and, by its id, the fields its derived classes add. *)
From S2P Require Import Prelude ErrorHandler RecvBuffer SendBuffer Packet PacketSession.
From S2P Require Import SocketUtils Session Heap Names FlatBuffers TestPacket.
#[local] Open Scope Z_scope.

(** What the programs print and log. *)
Inductive line :=
| LogPacket (msg : list Z) (number : Z)
| LogNoRegisteredId (id : Z)
| LogConnected (sessionId : Z) (ip : list Z)
| LogNoUpdateContext
| LogNoPeerName
| LogDisconnected (sessionId error : Z)
| LogFlushSessions.
#[export] Instance line_eq_dec : EqDecision line.
Proof. solve_decision. Defined.

(** ** Packet handlers *)
Module PacketManager.
Section PacketManager.
Context `{FlatBuffers}.

(** A handler gets the memory at its [pkt]; the lines are what it prints. *)
Definition handler : Type := list Z -> outcome (list line).

(** [PacketHandler::TestPacketHandler]: the packet is not verified, and a null
    [msg()] is dereferenced. *)
Definition TestPacketHandler : handler := fun pkt =>
  let test_packet := GetTestPacket pkt in
  let! msg := TestPacket.msg pkt test_packet in
  match msg with
  | None => Fault NullDeref
  | Some msg =>
      let! text := c_str pkt msg in
      let! number := TestPacket.number pkt test_packet in
      Ret [LogPacket text number]
  end.

Record t := mk { _handlers : gmap Z handler }.

(** [std::map::insert]: a key that is there keeps its value. *)
Definition insert_handler (id : Z) (h : handler) (m : gmap Z handler) : gmap Z handler :=
  match m !! id with Some _ => m | None => <[id := h]> m end.
Definition _init (pm : t) : t := mk (insert_handler 1 TestPacketHandler (_handlers pm)).
(** The constructor. *)
Definition new : t := _init (mk ∅).

Definition Dispatch (id : Z) (ptr : list Z) (pm : t) : outcome (list line) :=
  match _handlers pm !! id with
  | Some h => h ptr
  | None => Ret [LogNoRegisteredId id]
  end.

(** The constructor registers exactly the id 1. *)
Lemma Dispatch_new id ptr :
  Dispatch id ptr new = if id =? 1 then TestPacketHandler ptr else Ret [LogNoRegisteredId id].
Proof.
  unfold Dispatch, new, _init, insert_handler. cbn [_handlers]. rewrite lookup_empty.
  destruct (Z.eqb_spec id 1) as [->|Hne]; [by rewrite lookup_insert_eq|].
  by rewrite lookup_insert_ne, lookup_empty by done.
Qed.
End PacketManager.
End PacketManager.

(** ** The state of a program *)
(** [service] is the library's service; the globals [GSessionManager] (the sessions
    it holds, in order) and [GPacketManager] may be null. *)
Record program (C S : Type) `{FlatBuffers} := mk_program {
  service : C;
  send_buffers : S;
  packet_sessions : gmap Z PacketSession.t;
  _ip : gmap Z (list Z);
  GSessionManager : option (list Z);
  GPacketManager : option PacketManager.t;
  console : list line;
}.
Arguments mk_program {C S _}.
Arguments service {C S _}.
Arguments send_buffers {C S _}.
Arguments packet_sessions {C S _}.
Arguments _ip {C S _}.
Arguments GSessionManager {C S _}.
Arguments GPacketManager {C S _}.
Arguments console {C S _}.

Section State.
Context {C S : Type} `{FlatBuffers}.
Implicit Types a : program C S.
Definition set_service (c : C) a : program C S :=
  mk_program c (send_buffers a) (packet_sessions a) (_ip a) (GSessionManager a) (GPacketManager a)
    (console a).
Definition set_packet_session (sid : Z) (ps : PacketSession.t) (b : S) a : program C S :=
  mk_program (service a) b (<[sid := ps]> (packet_sessions a)) (_ip a) (GSessionManager a)
    (GPacketManager a) (console a).
Definition set_ip (sid : Z) (ip : list Z) a : program C S :=
  mk_program (service a) (send_buffers a) (packet_sessions a) (<[sid := ip]> (_ip a))
    (GSessionManager a) (GPacketManager a) (console a).
Definition set_sessions (l : list Z) a : program C S :=
  mk_program (service a) (send_buffers a) (packet_sessions a) (_ip a) (Some l)
    (GPacketManager a) (console a).
Definition print (l : list line) a : program C S :=
  mk_program (service a) (send_buffers a) (packet_sessions a) (_ip a) (GSessionManager a)
    (GPacketManager a) (console a ++ l).
End State.

#[export] Instance program_service {C S} `{ServiceOps C, FlatBuffers} : ServiceOps (program C S) := {|
  GetServiceType a := GetServiceType (service a);
  ReleaseSession sid a :=
    let '(b, c) := ReleaseSession sid (service a) in (b, set_service c a) |}.

(** The sessions of the service, and those that the session manager holds. *)
#[export] Instance program_owner {C S} `{Owner C, FlatBuffers} : Owner (program C S) := {|
  owned a := owned (service a) ∪ list_to_set (default [] (GSessionManager a)) |}.

(** ** Sessions of the programs *)
Module AppSession.
Section AppSession.
Context {C S : Type} `{FlatBuffers, ServiceOps C, OS, Winsock, SendStore S}.
Abbreviation st := (Session.st (program C S)).
Implicit Types s : st.

Definition on_app (f : program C S -> program C S) s : st :=
  Session.mk_st (Session.ses s) (f (Session.svc s)) (Session.nets s).
Definition sid s : Z := Session._sessionId (Session.ses s).

(** [SessionManager::AddSession], of the global [GSessionManager]. *)
Definition AddSession s : outcome st :=
  match GSessionManager (Session.svc s) with
  | None => Fault NullDeref
  | Some l => Ret (on_app (set_sessions (l ++ [sid s])) s)
  end.

(** [INET_ADDRSTRLEN] of the Windows SDK. *)
Definition INET_ADDRSTRLEN : Z := 22.

Section Connected.
Context `{!Inet, !InetNames, !WideChar}.

(** From [GetPeerName] on: the same in both programs. *)
Definition name_and_add s : outcome st :=
  let '(ok, _, b, n) := AddrNames.Session_GetPeerName (Session.ses s) 0
    (replicate (Z.to_nat INET_ADDRSTRLEN) 0) INET_ADDRSTRLEN (Session.nets s) in
  let s := Session.set_net n s in
  let s := if negb ok then on_app (print [LogNoPeerName]) s else s in
  let ip := Utils.ToString_ptr (Some b) in
  let s := on_app (set_ip (sid s) ip) s in
  let s := on_app (print [LogConnected (sid s) ip]) s in
  AddSession s.

(** [ClientSession::OnConnected] of the server. *)
Definition ClientSession_OnConnected s : outcome st := name_and_add s.
(** [ServerSession::OnConnected] of the client. *)
Definition ServerSession_OnConnected s : outcome st :=
  let! (ok, n) := SocketUtils.SetUpdateConnectContext (Session._socket (Session.ses s))
                    (Session.nets s) in
  let s := Session.set_net n s in
  let s := if negb ok then on_app (print [LogNoUpdateContext]) s else s in
  name_and_add s.
End Connected.

(** [OnRecvPacket(buffer, id)] of both: dispatch to the handler. *)
Definition OnRecvPacket (buffer : list Z) (id : Z) s : outcome st :=
  match GPacketManager (Session.svc s) with
  | None => Fault NullDeref
  | Some pm =>
      let! lines := PacketManager.Dispatch id buffer pm in
      Ret (on_app (print lines) s)
  end.
(** [OnDisconnected(error)] of both. *)
Definition OnDisconnected (error : Z) s : outcome st :=
  Ret (on_app (print [LogDisconnected (sid s) error]) s).

(** [PacketSession::OnRecv(buffer, len)] with the calls of [OnRecvPacket] made where
    the loop makes them. *)
Fixpoint OnRecv_loop (fuel : nat) (buffer : list Z) (len n processed : Z) s
  : outcome (Z * st) :=
  match fuel with
  | O => NoFuel
  | Datatypes.S fuel =>
      if processed <? len then
        let ptr := drop (Z.to_nat processed) buffer in
        let! header := PacketHeader.decode ptr in
        let size := PacketHeader._size header in
        let id := PacketHeader._id header in
        let! s := OnRecvPacket (drop (Z.to_nat PacketHeader.SIZEOF) ptr) id s in
        let processed := u32 (processed + size) in
        if n =? INT_MAX then Fault SignedOverflow
        else OnRecv_loop fuel buffer len (n + 1) processed s
      else Ret (processed, s)
  end.

(** The virtual of [Session]: the data lie at [pos] in the receive buffer. *)
Definition OnRecv (pos n : Z) s : outcome (Z * st) :=
  let memory := drop (Z.to_nat pos) (RecvBuffer._buffer (Session._recvBuffer (Session.ses s))) in
  OnRecv_loop (Datatypes.S (Z.to_nat n)) memory n 0 0 s.

Definition server_virtuals `{!Inet, !InetNames, !WideChar} : Session.virtuals (program C S) := {|
  Session.v_OnConnected := ClientSession_OnConnected; Session.v_OnSend := fun _ => Ret;
  Session.v_OnRecv := OnRecv; Session.v_OnDisconnected := OnDisconnected |}.
Definition client_virtuals `{!Inet, !InetNames, !WideChar} : Session.virtuals (program C S) := {|
  Session.v_OnConnected := ServerSession_OnConnected; Session.v_OnSend := fun _ => Ret;
  Session.v_OnRecv := OnRecv; Session.v_OnDisconnected := OnDisconnected |}.

(** [PacketSession::Send] and [PacketSession::Flush] of a session; [Flush] ends with
    [Session::_send]. *)
Definition Send (tid id : Z) (ptr : option (list Z)) (size : Z) s : outcome st :=
  match packet_sessions (Session.svc s) !! sid s with
  | None => Fault Dangling
  | Some ps =>
      let! (ps, b) := PacketSession.Send tid id ptr size ps (send_buffers (Session.svc s)) in
      Ret (on_app (set_packet_session (sid s) ps b) s)
  end.
Definition Flush (now1 now2 : Z) s : outcome st :=
  match packet_sessions (Session.svc s) !! sid s with
  | None => Fault Dangling
  | Some ps =>
      let '(ps, list) := PacketSession.Flush now1 now2 ps in
      let s := on_app (fun a => set_packet_session (sid s) ps (send_buffers a) a) s in
      Ret (match list with Some list => Session._send list s | None => s end)
  end.
End AppSession.
End AppSession.

(** ** The session managers and the main loops *)
Section Programs.
Context {C S : Type} `{FlatBuffers, ServiceOps C, Owner C, OS, Winsock, SendStore S}.
Abbreviation st := (Session.st (program C S)).
Abbreviation world := (Heap.world (program C S)).
Implicit Types w : world.

(** A call on each session of a list that is connected. *)
Fixpoint for_connected (f : st -> outcome st) (l : list Z) w : outcome world :=
  match l with
  | [] => Ret w
  | sid :: l =>
      let! w := Heap.on_session sid (fun s =>
        if Session._connected (Session.ses s) then f s else Ret s) w in
      for_connected f l w
  end.

(** [SessionManager::FlushSessions], the client's and the server's; [ticks] gives the
    two [GetTickCount64()] results of each session's [Flush]. *)
Definition flush_held (ticks : Z -> Z * Z) w : outcome world :=
  match GSessionManager (Heap.srv w) with
  | None => Fault NullDeref
  | Some l =>
      for_connected (fun s => AppSession.Flush (ticks (AppSession.sid s)).1
        (ticks (AppSession.sid s)).2 s) l w
  end.
Definition client_FlushSessions : (Z -> Z * Z) -> world -> outcome world := flush_held.
Definition server_FlushSessions (ticks : Z -> Z * Z) w : outcome world :=
  flush_held ticks (Heap.set_srv (print [LogFlushSessions] (Heap.srv w)) w).

(** [SessionManager::SessionFactory]: [NetCore::make_shared] of a session class; the
    constructor of [PacketSession] reads the clock. *)
Definition SessionFactory (tick : Z) w : outcome (Z * world) :=
  let! (session, sid', n) := Session.new (Heap.s_sid w) (Heap.nt w) in
  let a := Heap.srv w in
  let a := set_packet_session (Heap.s_sid w) (PacketSession.new tick) (send_buffers a) a in
  Ret (Heap.s_sid w, Heap.mk a (<[Heap.s_sid w := session]> (Heap.heap w)) sid' n).

(** [~SessionManager]: [_sessions.clear()]. *)
Definition destroy_SessionManager w : outcome world :=
  let a := Heap.srv w in
  Heap.collect (Heap.set_srv (mk_program (service a) (send_buffers a) (packet_sessions a) (_ip a)
    None (GPacketManager a) (console a)) w).

(** [builder(1024, &allocator)], [CreateString], [CreateTestPacket], [Finish]. *)
Definition build_packet (msg : list Z) : list Z :=
  let builder := new_builder 1024 in
  let '(msg_os, builder) := CreateString msg builder in
  let '(pkt, builder) := CreateTestPacket builder msg_os 100 in
  GetBuffer (Finish pkt builder).

(** [GetTestPacket(msg)] of both programs. The builder is destroyed when the function
    returns and its block goes back to the pool, so that the pointer designates what
    [reused] makes of the bytes; the size is narrowed to the type in the pair. *)
Variable reused : list Z -> list Z.
Definition client_GetTestPacket (msg : list Z) : list Z * Z :=
  (reused (build_packet msg), u16 (zlen (build_packet msg))).
Definition server_GetTestPacket (msg : list Z) : list Z * Z :=
  (reused (build_packet msg), u8 (zlen (build_packet msg))).

(** The text "stop". *)
Definition stop : list Z := [115; 116; 111; 112].

(** [DisconnectAll()] of the client's service. *)
Fixpoint disconnect_all (l : list (option Z)) w : outcome world :=
  match l with
  | [] => Ret w
  | None :: _ => Fault NullDeref
  | Some sid :: l =>
      let! w := Heap.on_session sid (fun s => Ret (Session.Disconnect_ s).2) w in
      disconnect_all l w
  end.

(** One round of the main loop of TestClient: the new value of [off]. [sessions] are
    the sessions of the service. *)
Definition client_input (tid : Z) (sessions : C -> list (option Z)) (msg : list Z) w
  : outcome (bool * world) :=
  let l := sessions (service (Heap.srv w)) in
  if decide (c_text msg = stop) then let! w := disconnect_all l w in Ret (true, w)
  else
    let '(first, second) := client_GetTestPacket msg in
    let! w := for_connected (AppSession.Send tid 1 (Some first) second) (omap id l) w in
    Ret (false, w).

(** One round of the main loop of TestServer. *)
Definition server_input (tid : Z) (sessions : C -> list Z) (msg : list Z) w
  : outcome (bool * world) :=
  if decide (c_text msg = stop) then Ret (true, w)
  else
    let '(first, second) := server_GetTestPacket msg in
    let! w := for_connected (AppSession.Send tid 1 (Some first) second)
                (sessions (service (Heap.srv w))) w in
    Ret (false, w).
End Programs.
