(* ===== verification/Server.v ===== *)
(** IOCPCore.h/.cpp, the server half of Service.h/.cpp, and Listener.h/.cpp: the
    server service, its listener and the dispatch of completions, over a heap of
    sessions whose life ends with their last [shared_ptr]. The calls of one
    completion run to their end before the next one. *)
From S2P Require Import Prelude ErrorHandler RecvBuffer SocketUtils Session Heap.
Import Heap.Heap.
#[local] Open Scope Z_scope.

Module Server.
(** [Listener]: [_listenSocket] and the accept events, each with the session it
    refers to; [_iocpObject] of every event is the listener. *)
Record listener := mk_listener { _listenSocket : Z; _acceptEvents : list (option Z) }.
Definition MAX_ACCEPT_COUNT : nat := 100.

(** [ServerService]; sessions are designated by their ids. [held] is not a member of
    it: the sessions to which the user of the library has [shared_ptr]s of his own
    ([SessionManager] of TestServer keeps such a list). *)
Record server := mk_server {
  base : Service.t;
  BACK_LOG : Z;
  _sessions : gset Z;
  _listener : option listener;
  held : gset Z;
}.
Definition set_base (b : Service.t) (s : server) : server :=
  mk_server b (BACK_LOG s) (_sessions s) (_listener s) (held s).
Definition set_sessions (l : gset Z) (s : server) : server :=
  mk_server (base s) (BACK_LOG s) l (_listener s) (held s).
Definition set_listener (l : option listener) (s : server) : server :=
  mk_server (base s) (BACK_LOG s) (_sessions s) l (held s).
Definition set_held (l : gset Z) (s : server) : server :=
  mk_server (base s) (BACK_LOG s) (_sessions s) (_listener s) l.

(** The constructor as it is defined: the fourth parameter is the backlog. *)
Definition new (iocpCore : option Z) (addr : SOCKADDR_IN) (sessionFactory : bool)
    (backlog sessionCount : Z) : server :=
  mk_server (Service.new Server iocpCore addr sessionFactory sessionCount) backlog ∅ None ∅.
Definition GetCurrentSessionCount (s : server) : Z := Z.of_nat (size (_sessions s)).

(** [ReleaseSession(session)]: [_sessions.erase]. *)
#[export] Instance server_service : ServiceOps server := {|
  GetServiceType s := Service._serviceType (base s);
  ReleaseSession sid s := (bool_decide (sid ∈ _sessions s), set_sessions (_sessions s ∖ {[sid]}) s);
|}.

Definition set_event (i : nat) (s : option Z) (l : listener) : listener :=
  mk_listener (_listenSocket l) (<[i := s]> (_acceptEvents l)).

(** The sessions that the accept events designate, and all that some [shared_ptr] does:
    the service's, the accept events' and the user's. *)
Definition refs (l : option listener) : gset Z :=
  match l with Some l => list_to_set (omap id (_acceptEvents l)) | None => ∅ end.
#[export] Instance server_owner : Owner server := {| owned s := _sessions s ∪ refs (_listener s) ∪ held s |}.
Abbreviation world := (world server).

Section Server.
Context `{OS, Winsock, Inet}.
(** The user's virtual methods. *)
Variable v : Session.virtuals server.
Implicit Types w : world.

(** [AddNewSession()], with a factory that makes a new session. *)
Definition AddNewSession (w : world) : outcome (option Z * world) :=
  if negb (Service._sessionFactory (base (srv w))) then Crash (last_error (nt w))
  else
    let! (session, sid', n) := Session.new (s_sid w) (nt w) in
    match Service._iocpCore (base (srv w)) with
    | None => Fault NullDeref
    | Some core =>
        let '(ok, n) := IOCPCore.RegisterHandle (Session._socket session) core n in
        if negb ok then
          let! n := Session.destroy session n in
          Ret (None, mk (srv w) (heap w) sid' n)
        else
          Ret (Some (s_sid w),
               mk (set_sessions (_sessions (srv w) ∪ {[s_sid w]}) (srv w))
                 (<[s_sid w := session]> (heap w)) sid' n)
    end.

(** [Listener::RegisterAccept(acceptEvent)] of the event [i]. *)
Fixpoint RegisterAccept (fuel : nat) (i : nat) (w : world) : outcome world :=
  match fuel with
  | O => NoFuel
  | S fuel =>
      let! (s, w) := AddNewSession w in
      match _listener (srv w) with
      | None => Fault Dangling
      | Some l =>
          let w := set_srv (set_listener (Some (set_event i s l)) (srv w)) w in
          match s with
          | None => Fault NullDeref
          | Some sid =>
              match heap w !! sid with
              | None => Fault Dangling
              | Some session =>
                  let! pos := RecvBuffer.WritePos (Session._recvBuffer session) in
                  let '(suc, err, n) :=
                    syscall (AcceptEx (_listenSocket l) (Session._socket session) pos) (nt w) in
                  let '(r, n) := check_except_pending (negb (suc =? 0)) WSA_ACCEPTEX_FAILED err n in
                  if negb (r =? code ERR_NONE) then RegisterAccept fuel i (set_nt n w)
                  else Ret (set_nt n w)
              end
          end
      end
  end.

(** The constructor of [Listener]. *)
Definition new_listener (w : world) : outcome (listener * world) :=
  let! last := ErrorHandler.AssertCrash
    (match Service._serviceType (base (srv w)) with Server => true | _ => false end)
    APP_LISTENER_SERVICE_WAS_NOT_SERVER (last_error (nt w)) in
  let! (socket, n) := SocketUtils.CreateSocket (set_last last (nt w)) in
  Ret (mk_listener socket [], set_nt n w).

(** [_listener = ...]: the old listener, if any, is destroyed. *)
Definition assign_listener (l : option listener) (w : world) : outcome world :=
  let! n :=
    (match _listener (srv w) with
     | Some old => let! (_, n) := SocketUtils.Close (_listenSocket old) (nt w) in Ret n
     | None => Ret (nt w)
     end) in
  collect (set_nt n (set_srv (set_listener l (srv w)) w)).

(** The loop of [StartListen]: [k] more accept events. *)
Fixpoint accept_loop (fuel k : nat) (w : world) : outcome world :=
  match k with
  | O => Ret w
  | S k =>
      match _listener (srv w) with
      | None => Fault Dangling
      | Some l =>
          let w := set_srv (set_listener
            (Some (mk_listener (_listenSocket l) (_acceptEvents l ++ [None]))) (srv w)) w in
          let! w := RegisterAccept fuel (length (_acceptEvents l)) w in
          accept_loop fuel k w
      end
  end.

(** One checked step of [StartListen], which returns when it fails. *)
Definition listen_step (op : net -> outcome (bool * net)) (k : world -> outcome (bool * world))
    (w : world) : outcome (bool * world) :=
  let! (ok, n) := op (nt w) in
  if negb ok then Ret (false, set_nt n w) else k (set_nt n w).

(** [Listener::StartListen(backlog)]. *)
Definition StartListen (fuel : nat) (backlog : Z) (w : world) : outcome (bool * world) :=
  match _listener (srv w), Service._iocpCore (base (srv w)) with
  | Some l, Some core =>
      listen_step (fun n => Ret (IOCPCore.RegisterHandle (_listenSocket l) core n))
      (listen_step (SocketUtils.SetLinger (_listenSocket l) 0 0)
      (listen_step (SocketUtils.SetReuseAddress (_listenSocket l) true)
      (listen_step (SocketUtils.Bind (_listenSocket l) (Service._addr (base (srv w))))
      (listen_step (SocketUtils.Listen (_listenSocket l) backlog)
      (fun w => let! w := accept_loop fuel MAX_ACCEPT_COUNT w in
                let! w := collect w in Ret (true, w)))))) w
  | _, _ => Fault NullDeref
  end.

(** [ServerService::Start()]. *)
Definition Start (fuel : nat) (w : world) : outcome (bool * world) :=
  let '(ok, n) := Service.check_all (Service.checks (base (srv w))) (nt w) in
  let w := set_nt n w in
  if negb ok then Ret (false, w)
  else
    let! (l, w) := new_listener w in
    let! w := assign_listener (Some l) w in
    let! (suc, w) := StartListen fuel (s32 (BACK_LOG (srv w))) w in
    let '(ok, n) := check suc APP_SERVERSERVICE_LISTEN_FAILED (nt w) in
    let w := set_nt n w in
    if negb ok then Ret (false, w)
    else Ret (true, set_srv (set_base (Service.set_onGoing true (base (srv w))) (srv w)) w).

(** [Listener::ProcessAccept(acceptEvent)]; the result of [getpeername] goes
    through a [bool]. *)
Definition ProcessAccept (fuel i : nat) (w : world) : outcome world :=
  match _listener (srv w) with
  | None => Fault Dangling
  | Some l =>
      match _acceptEvents l !! i with
      | Some (Some sid) =>
          match heap w !! sid with
          | None => Fault Dangling
          | Some session =>
              let! (ok, n) := SocketUtils.SetUpdateAcceptSocket (Session._socket session)
                                (_listenSocket l) (nt w) in
              let w := set_nt n w in
              let! w :=
                (if negb ok then RegisterAccept fuel i w
                 else
                   let '(res, _, n) := syscall (getpeername (Session._socket session)) (nt w) in
                   let suc := if res =? 0 then 0 else 1 in
                   let! (ok, n) := check_socket_error suc WSA_GET_PEER_NAME_FAILED true n in
                   let w := set_nt n w in
                   if negb ok then RegisterAccept fuel i w
                   else
                     let! w := on_session sid (Session._set_connected v INVALID_SOCKET) w in
                     RegisterAccept fuel i w) in
              collect w
          end
      | _ => Fault NullDeref
      end
  end.

(** [Listener::Dispatch]. *)
Definition Listener_Dispatch (fuel i : nat) (type : EventType) (w : world) : outcome world :=
  match type with Accept => ProcessAccept fuel i w | _ => Ret w end.

(** The event of a completion: an accept event of the listener, or an event inside
    a session. *)
Inductive event_ref := AcceptEvent (i : nat) | SessionEvent (sid : Z) (type : EventType).

(** [iocpEvent->GetIOCPObjectWPtr().lock()->Dispatch(iocpEvent, n)]: the event lives
    in its listener or session, and designates it once it was posted. *)
Definition dispatch (fuel : nat) (e : event_ref) (numberOfBytesTransferred : Z) (w : world)
  : outcome world :=
  match e with
  | AcceptEvent i =>
      match _listener (srv w) with
      | None => Fault Dangling
      | Some l => if decide (i < length (_acceptEvents l))%nat
                  then Listener_Dispatch fuel i Accept w else Fault Dangling
      end
  | SessionEvent sid type =>
      match heap w !! sid with
      | None => Fault Dangling
      | Some _ =>
          let! w := on_session sid (Session.Dispatch v type numberOfBytesTransferred) w in
          collect w
      end
  end.

(** [ProcessQueuedCompletionStatus] and [...Ex], given what the port returned:
    [None] when it reported a failure, whatever the failed operation was. *)
Definition ProcessQueuedCompletionStatus (fuel : nat) (got : option (event_ref * Z)) (w : world)
  : outcome (bool * world) :=
  match got with
  | None => Ret (false, w)
  | Some (e, n) => let! w := dispatch fuel e n w in Ret (true, w)
  end.
Fixpoint dispatch_all (fuel : nat) (l : list (event_ref * Z)) (w : world) : outcome world :=
  match l with
  | [] => Ret w
  | (e, n) :: l => let! w := dispatch fuel e n w in dispatch_all fuel l w
  end.
Definition ProcessQueuedCompletionStatusEx (fuel : nat) (got : option (list (event_ref * Z)))
    (w : world) : outcome (bool * world) :=
  match got with
  | None => Ret (false, w)
  | Some entries => let! w := dispatch_all fuel entries w in Ret (true, w)
  end.

(** Calls a member function on each session of the service that is connected. *)
Fixpoint on_connected (f : Session.st server -> outcome (Session.st server)) (l : list Z)
    (w : world) : outcome world :=
  match l with
  | [] => Ret w
  | sid :: l =>
      let! w := on_session sid (fun s => if Session._connected (Session.ses s) then f s else Ret s) w in
      on_connected f l w
  end.

(** [ReleaseAllSessions()]. *)
Definition ReleaseAllSessions (w : world) : outcome world :=
  let! w := on_connected (fun s => Ret (Session._disconnect Session.SERVER_SERVICE_STOPPED s))
              (elements (_sessions (srv w))) w in
  collect (set_srv (set_sessions ∅ (srv w)) w).

(** [Stop()]. *)
Definition Stop (w : world) : outcome (bool * world) :=
  let w := set_srv (set_base (Service.set_onGoing false (base (srv w))) (srv w)) w in
  let! w := assign_listener None w in
  let! w := ReleaseAllSessions w in
  Ret (true, w).

(** [Broadcast(id, ptr, size)], given the virtual [Session::Send]. *)
Definition sender : Type := Z -> list Z -> Session.st server -> outcome (Session.st server).
Definition Broadcast (send : sender) (id : Z) (data : list Z) (w : world) : outcome world :=
  let! w := on_connected (send id data) (elements (_sessions (srv w))) w in collect w.

(** ** Member functions of a session leave the service alone, but for
    [ReleaseSession] *)
(** The members of the service are as they were, but that the sessions [r] are
    released. The user may let go of sessions he holds, and keep the one whose function
    runs ([shared_from_this()]). *)
Definition releasing (r : gset Z) (s0 s : Session.st server) : Prop :=
  Session._sessionId (Session.ses s) = Session._sessionId (Session.ses s0) /\
  base (Session.svc s) = base (Session.svc s0) /\
  _listener (Session.svc s) = _listener (Session.svc s0) /\
  _sessions (Session.svc s) = _sessions (Session.svc s0) ∖ r /\
  held (Session.svc s) ⊆ held (Session.svc s0) ∪ {[Session._sessionId (Session.ses s0)]}.
Definition gentle : Session.st server -> Session.st server -> Prop := releasing ∅.

Lemma gentle_refl s : gentle s s.
Proof. split_and!; set_solver. Qed.
Lemma releasing_gentle r s0 s1 s : releasing r s0 s1 -> gentle s1 s -> releasing r s0 s.
Proof.
  intros (A1 & A2 & A3 & A4 & A5) (B1 & B2 & B3 & B4 & B5). rewrite A1 in B5.
  split_and!; try congruence; set_solver.
Qed.
Lemma gentle_ses s0 f s :
  (forall x, Session._sessionId (f x) = Session._sessionId x) -> gentle s0 s ->
  gentle s0 (Session.on_ses f s).
Proof. intros Hf [G1 Hr]. split; simpl; [by rewrite Hf|done]. Qed.
Lemma gentle_net s0 n s : gentle s0 s -> gentle s0 (Session.set_net n s).
Proof. done. Qed.
Lemma gentle_sys s0 q s : gentle s0 s -> gentle s0 (Session.sys_of q s).2.
Proof. intros Hs. unfold Session.sys_of. by destruct (syscall q _) as [[? ?] ?]. Qed.

(** Rewrites a system call of the goal into its state, which is gentle. *)
Ltac gentle_call s0 :=
  match goal with
  | |- context [Session.sys_of ?q ?x] =>
      let Hi := fresh "Hi" in
      assert (gentle s0 (Session.sys_of q x).2) as Hi by
        (apply gentle_sys; repeat (apply gentle_ses; [done|]); done);
      destruct (Session.sys_of q x) as [[? ?] ?]; cbn [snd] in Hi
  end.

Lemma gentle_disconnect s0 e s : gentle s0 s -> gentle s0 (Session._disconnect e s).
Proof.
  intros Hs. unfold Session._disconnect. destruct (negb _); [done|].
  unfold Session._register_disconnect. gentle_call s0.
  by destruct (ErrorHandler.WSACheckErrorExceptPending2 _ _ _) as [[] ?].
Qed.

Lemma gentle_register_recv s0 s s' :
  gentle s0 s -> Session._register_recv s = Ret s' -> gentle s0 s'.
Proof.
  intros Hs. unfold Session._register_recv. destruct (negb _).
  { intros [= <-]. by apply gentle_disconnect. }
  intros Hr. apply obind_ret in Hr as (pos & _ & Hr). revert Hr. gentle_call s0. by intros [= <-].
Qed.

Lemma gentle_set_socket s0 k s : gentle s0 s -> gentle s0 (Session._set_socket k s).
Proof.
  intros Hs. unfold Session._set_socket. destruct (check _ _ _) as [ok n].
  destruct ok; simpl; [by apply gentle_ses|done].
Qed.

(** ** Well-formed worlds *)
(** What changes of a world keep [wf0]: fewer references, sessions kept alive. *)
Lemma wf0_weaken w w' :
  wf0 w -> referenced w' ⊆ referenced w ->
  (forall sid, is_Some (heap w !! sid) -> is_Some (heap w' !! sid)) ->
  (forall sid x, heap w' !! sid = Some x -> Session._sessionId x = sid) -> wf0 w'.
Proof. intros [Ha Hi] Hr Hh Hid. split; [|done]. intros sid Hs. by apply Hh, Ha, Hr. Qed.
Lemma wf0_nt n w : wf0 w -> wf0 (set_nt n w).
Proof. by intros [? ?]. Qed.
Lemma wf_nt n w : wf w -> wf (set_nt n w).
Proof. intros [? ?]. split; [by apply wf0_nt|done]. Qed.
Lemma wf_base b w : wf w -> wf (set_srv (set_base b (srv w)) w).
Proof. intros [[? ?] ?]. by repeat split. Qed.

(** ** Operations keep the world well-formed *)
Record same_frame (w w' : world) : Prop := {
  frame_base : base (srv w') = base (srv w);
  frame_listener : _listener (srv w') = _listener (srv w);
}.

Lemma on_session_wf0 r sid f w w' :
  (forall s s', Session._sessionId (Session.ses s) = sid -> f s = Ret s' -> releasing r s s') ->
  wf0 w -> on_session sid f w = Ret w' ->
  wf0 w' /\ same_frame w w' /\ _sessions (srv w') = _sessions (srv w) ∖ r /\
  s_sid w' = s_sid w.
Proof.
  intros Hf Hw Hr. unfold on_session in Hr. destruct (heap w !! sid) as [x|] eqn:Hx; [|done].
  pose proof (wf_id w Hw sid x Hx) as Hid.
  apply obind_ret in Hr as (s & Hs & [= <-]). apply Hf in Hs as (G1 & G2 & G3 & G4 & G5); [|done].
  simpl in *. split; [|done]. split; simpl.
  - intros i. unfold referenced. simpl. rewrite G3, G4. intros Hi.
    destruct (decide (i = sid)) as [->|]; [by rewrite lookup_insert_eq|].
    rewrite lookup_insert_ne by done. apply (wf_alive w Hw). unfold referenced. simpl.
    set_solver.
  - intros i y [(<- & <-)|[Hne Hy]]%lookup_insert_Some; [by rewrite G1|by apply (wf_id w Hw)].
Qed.

Lemma on_session_gentle sid f w w' :
  (forall s s', f s = Ret s' -> gentle s s') -> wf0 w -> on_session sid f w = Ret w' ->
  wf0 w' /\ same_frame w w' /\ _sessions (srv w') = _sessions (srv w) /\ s_sid w' = s_sid w.
Proof.
  intros Hf Hw Hr. apply (on_session_wf0 ∅) in Hr as (A & B & C & D);
    [|intros s s' _; apply Hf|done].
  split; [exact A|]. split; [exact B|]. split; [|exact D]. by rewrite C, difference_empty_L.
Qed.

(** Sessions made: the ids of [k] new ones, and what they change in the registry. *)
Fixpoint new_ids (sid : Z) (k : nat) : list Z :=
  match k with O => [] | S k => sid :: new_ids (u32 (sid + 1)) k end.
Definition next_sid (sid : Z) (k : nat) : Z := Nat.iter k (fun i => u32 (i + 1)) sid.
Definition grown (k : nat) w w' : Prop :=
  _sessions (srv w') = _sessions (srv w) ∪ list_to_set (new_ids (s_sid w) k) /\
  s_sid w' = next_sid (s_sid w) k.

Lemma next_sid_add j k sid : next_sid sid (j + k) = next_sid (next_sid sid j) k.
Proof.
  unfold next_sid. rewrite Nat.add_comm. by rewrite Nat.iter_add.
Qed.
Lemma new_ids_add j k : forall sid, new_ids sid (j + k) = new_ids sid j ++ new_ids (next_sid sid j) k.
Proof.
  induction j as [|j IH]; intros sid; [done|]. cbn [Nat.add new_ids app]. rewrite IH. do 2 f_equal.
  unfold next_sid. by rewrite Nat.iter_succ_r.
Qed.
Lemma grown_refl w w' : _sessions (srv w') = _sessions (srv w) -> s_sid w' = s_sid w -> grown 0 w w'.
Proof. intros E1 E2. split; [rewrite E1; set_solver|done]. Qed.
Lemma grown_trans j k w1 w2 w3 : grown j w1 w2 -> grown k w2 w3 -> grown (j + k) w1 w3.
Proof.
  intros [A1 A2] [B1 B2]. split.
  - rewrite B1, A1, A2, new_ids_add, list_to_set_app_L. set_solver.
  - by rewrite B2, A2, next_sid_add.
Qed.
(** Only the sessions and the next id matter. *)
Lemma grown_same k w1 w2 w1' w2' :
  _sessions (srv w1') = _sessions (srv w1) -> s_sid w1' = s_sid w1 ->
  _sessions (srv w2') = _sessions (srv w2) -> s_sid w2' = s_sid w2 ->
  grown k w1 w2 -> grown k w1' w2'.
Proof. intros E1 E2 E3 E4 [A B]. split; congruence. Qed.

(** [AddNewSession] of a service that has a core. *)
Lemma AddNewSession_spec w r w' :
  AddNewSession w = Ret (r, w') ->
  match r with
  | None => srv w' = srv w /\ heap w' = heap w /\
      exists k h core err, log (nt w') = log (nt w) ++ k /\
        ASys (CreateIoCompletionPort h core) IOCPCore.NULL err ∈ k
  | Some sid => sid = s_sid w /\
      srv w' = set_sessions (_sessions (srv w) ∪ {[sid]}) (srv w) /\
      exists x, heap w' = <[sid := x]> (heap w) /\ Session._sessionId x = sid /\
        Session._connected x = false /\
        Session._recvBuffer x = RecvBuffer.new Session.RECV_BUFFER_SIZE
  end.
Proof.
  unfold AddNewSession. destruct (negb _); [done|]. unfold Session.new.
  destruct (SocketCalls.CreateSocket_eq (nt w)) as (n & -> & Hl). cbn [obind].
  destruct (Service._iocpCore (base (srv w))) as [core|]; [|done].
  destruct (IOCPCore.RegisterHandle _ core n) as [ok n2] eqn:Hreg. destruct ok; cbn [negb].
  - intros [= <- <-]. simpl. split; [done|]. split; [done|]. eexists. split; [reflexivity|]. done.
  - intros Hr. apply obind_ret in Hr as (n3 & Hd & [= <- <-]). cbn [srv heap nt].
    split; [done|]. split; [done|].
    destruct (IOCPCore.RegisterHandle_refused _ _ _ _ Hreg) as (err & Hl2).
    unfold Session.destroy in Hd.
    match type of Hd with context [SocketUtils.Close ?a ?b] =>
      destruct (SocketCalls.Close_eq a b) as (n4 & E4 & Hl4) end.
    rewrite E4 in Hd. injection Hd as <-. rewrite Hl4, Hl2, Hl, <- !app_assoc.
    eexists _, _, _, _. split; [reflexivity|]. rewrite !elem_of_app.
    right. left. apply list_elem_of_singleton. reflexivity.
Qed.

Lemma AddNewSession_sid w r w' :
  AddNewSession w = Ret (r, w') -> s_sid w' = u32 (s_sid w + 1).
Proof.
  unfold AddNewSession. destruct (negb _); [done|]. unfold Session.new.
  destruct (SocketCalls.CreateSocket_eq (nt w)) as (n & -> & _). cbn [obind].
  destruct (Service._iocpCore (base (srv w))) as [core|]; [|done].
  destruct (IOCPCore.RegisterHandle _ core n) as [[] n2]; cbn [negb].
  - by intros [= _ <-].
  - intros Hr. by apply obind_ret in Hr as (n3 & _ & [= _ <-]).
Qed.

Lemma AddNewSession_wf0 w r w' :
  wf0 w -> AddNewSession w = Ret (r, w') -> wf0 w' /\ same_frame w w'.
Proof.
  intros [Ha Hi] Hr. apply AddNewSession_spec in Hr. destruct r as [sid|].
  - destruct Hr as (-> & Es & x & Eh & Hid & _). split; [|split; by rewrite Es]. split.
    + intros i. unfold referenced. rewrite Es, Eh. simpl. intros Hin.
      destruct (decide (i = s_sid w)) as [->|]; [by rewrite lookup_insert_eq|].
      rewrite lookup_insert_ne by done. apply Ha. unfold referenced. set_solver.
    + intros i y. rewrite Eh. intros [(<- & <-)|[_ Hy]]%lookup_insert_Some; [done|by apply Hi].
  - destruct Hr as (Es & Eh & _). split; [|split; by rewrite Es]. split.
    + intros i. unfold referenced. rewrite Es, Eh. apply Ha.
    + intros i y. rewrite Eh. apply Hi.
Qed.

Lemma refs_set_event i s l :
  refs (Some (set_event i s l)) ⊆ refs (Some l) ∪ (match s with Some sid => {[sid]} | None => ∅ end).
Proof.
  intros sid. simpl. rewrite elem_of_list_to_set, list_elem_of_omap. intros (y & Hy & E).
  simpl in E. subst y. apply list_elem_of_lookup in Hy as [j Hj].
  apply list_lookup_insert_Some in Hj as [(_ & -> & _)|[_ Hj]]; [set_solver|].
  apply elem_of_union_l. rewrite elem_of_list_to_set, list_elem_of_omap.
  exists (Some sid). split; [|done]. by eapply list_elem_of_lookup_2.
Qed.

Lemma RegisterAccept_wf0 i fuel : forall w w',
  wf0 w -> RegisterAccept fuel i w = Ret w' ->
  wf0 w' /\ base (srv w') = base (srv w) /\
  match _listener (srv w), _listener (srv w') with
  | Some l, Some l' => _listenSocket l' = _listenSocket l /\
      length (_acceptEvents l') = length (_acceptEvents l)
  | _, _ => False
  end /\ exists k, grown (S k) w w'.
Proof.
  induction fuel as [|fuel IH]; intros w w' Hw Hr; [done|]. cbn [RegisterAccept] in Hr.
  apply obind_ret in Hr as ([s w1] & Ha & Hr).
  pose proof (AddNewSession_wf0 w s w1 Hw Ha) as [Hw1 [Eb El]].
  pose proof (AddNewSession_sid w s w1 Ha) as Esid.
  apply AddNewSession_spec in Ha. destruct (_listener (srv w1)) as [l|] eqn:Hl; [|done].
  destruct s as [sid|]; [|done]. simpl in Hr.
  destruct Ha as (-> & Es & x & Eh & Hid & _ & Hrb).
  assert (Hx : heap w1 !! s_sid w = Some x) by (rewrite Eh; by apply lookup_insert_eq).
  rewrite Hx in Hr. apply obind_ret in Hr as (pos & _ & Hr).
  set (w2 := set_srv (set_listener (Some (set_event i (Some (s_sid w)) l)) (srv w1)) w1) in *.
  assert (Hw2 : wf0 w2).
  { apply (wf0_weaken w1); [done|..]; [|done|apply (wf_id w1 Hw1)].
    unfold referenced. simpl. rewrite Hl, Es. simpl.
    pose proof (refs_set_event i (Some (s_sid w)) l) as Hsub. simpl in Hsub. set_solver. }
  assert (Hg : grown 1 w w2).
  { split; [|exact Esid]. simpl. rewrite Es. simpl. set_solver. }
  destruct (syscall _ _) as [[suc err] n]. destruct (check_except_pending _ _ _ _) as [r n2].
  rewrite <- El, <- Eb. destruct (negb _).
  - apply IH in Hr as (H2 & E2 & E3 & k & E4); [|by apply wf0_nt]. split; [done|]. split; [done|].
    split.
    + simpl in E3. destruct (_listener (srv w')) as [l'|]; [|done].
      by rewrite length_insert in E3.
    + exists (S k). exact (grown_trans 1 (S k) w w2 w' Hg E4).
  - injection Hr as <-. split; [by apply wf0_nt|]. split; [done|]. split; [simpl; split;
      [done|by rewrite length_insert]|]. by exists 0%nat.
Qed.

Lemma on_connected_wf0 f l : forall w w',
  (forall s s', f s = Ret s' -> gentle s s') -> wf0 w -> on_connected f l w = Ret w' ->
  wf0 w' /\ _sessions (srv w') = _sessions (srv w) /\ s_sid w' = s_sid w.
Proof.
  induction l as [|sid l IH]; intros w w' Hf Hw Hr; [by injection Hr as <-|].
  cbn [on_connected] in Hr. apply obind_ret in Hr as (w1 & Hs & Hr).
  apply on_session_gentle in Hs as (Hw1 & _ & E1 & E2); [| |done].
  - destruct (IH w1 w' Hf Hw1 Hr) as (Hw' & E3 & E4). split_and!; congruence.
  - intros s s'. destruct (Session._connected _); [apply Hf|]. intros [= <-]. apply gentle_refl.
Qed.

Lemma assign_listener_wf l w w' :
  wf0 w -> (match l with Some l => _acceptEvents l = [] | None => True end) ->
  assign_listener l w = Ret w' -> wf w' /\ base (srv w') = base (srv w) /\
    _listener (srv w') = l /\ _sessions (srv w') = _sessions (srv w) /\ s_sid w' = s_sid w.
Proof.
  intros Hw Hl Hr. unfold assign_listener in Hr. apply obind_ret in Hr as (n & _ & Hc).
  match type of Hc with collect ?x = _ => assert (Hx : wf0 x) end.
  { apply wf0_nt, (wf0_weaken w); [done|..]; [|done|apply (wf_id w Hw)].
    unfold referenced. simpl. destruct l as [l|]; simpl in *; [rewrite Hl; simpl|]; set_solver. }
  destruct (collect_wf _ Hx) as (w2 & E & Hw2 & Es).
  pose proof (collect_sid _ _ E) as Esid. rewrite E in Hc. injection Hc as <-.
  by rewrite Es, Esid.
Qed.

Lemma accept_loop_wf0 fuel k : forall w w', wf0 w -> accept_loop fuel k w = Ret w' -> 
  wf0 w' /\ exists n, grown n w w'.
Proof.
  induction k as [|k IH]; intros w w' Hw Hr.
  { injection Hr as <-. split; [done|]. exists 0%nat. by apply grown_refl. }
  cbn [accept_loop] in Hr. destruct (_listener (srv w)) as [l|] eqn:Hl; [|done].
  apply obind_ret in Hr as (w1 & Ha & Hr). apply RegisterAccept_wf0 in Ha as (Hw1 & _ & _ & j & Hj).
  - destruct (IH w1 w' Hw1 Hr) as [Hw' [n Hn]]. split; [done|]. exists (S j + n)%nat.
    eapply grown_trans; [exact Hj|exact Hn].
  - apply (wf0_weaken w); [done|..]; [|done|apply (wf_id w Hw)].
    unfold referenced. simpl. rewrite Hl. simpl. rewrite omap_app. simpl.
    by rewrite app_nil_r.
Qed.

(** What the steps of [Start] keep: [w0] is the world before. *)
Definition started_from w0 w : Prop := wf w /\ exists k, grown k w0 w.
Lemma started_nt w0 n w : started_from w0 w -> started_from w0 (set_nt n w).
Proof. intros [Hw Hk]. split; [by apply wf_nt|exact Hk]. Qed.

Lemma listen_step_wf op k w0 w r :
  started_from w0 w -> (forall w r, started_from w0 w -> k w = Ret r -> started_from w0 r.2) ->
  listen_step op k w = Ret r -> started_from w0 r.2.
Proof.
  intros Hw Hk Hr. unfold listen_step in Hr. apply obind_ret in Hr as ([ok n] & _ & Hr).
  destruct (negb ok); [injection Hr as <-; by apply started_nt|].
  apply Hk in Hr; [done|by apply started_nt].
Qed.

Lemma accept_and_collect_wf fuel k w0 w r :
  started_from w0 w ->
  (let! w := accept_loop fuel k w in let! w := collect w in Ret (true, w)) = Ret r ->
  started_from w0 r.2.
Proof.
  intros [Hw [j Hj]] Hr. apply obind_ret in Hr as (u & Ha & Hr).
  apply obind_ret in Hr as (u' & Hc & [= <-]).
  apply accept_loop_wf0 in Ha as [Hu [n Hn]]; [|apply Hw].
  destruct (collect_wf u Hu) as (u2 & E & Hw2 & Es). pose proof (collect_sid _ _ E) as Esid.
  rewrite E in Hc. injection Hc as <-. split; [done|]. exists (j + n)%nat. simpl.
  eapply grown_trans; [exact Hj|]. apply (grown_same n w u); try done. by rewrite Es.
Qed.

Lemma StartListen_wf fuel b w0 w r :
  started_from w0 w -> StartListen fuel b w = Ret r -> started_from w0 r.2.
Proof.
  intros Hw Hr. unfold StartListen in Hr. destruct (_listener (srv w)) as [l|]; [|done].
  destruct (Service._iocpCore (base (srv w))); [|done]. revert Hr.
  do 5 (apply listen_step_wf; [assumption|]; intros ? ? ?).
  by apply accept_and_collect_wf.
Qed.

Lemma Start_wf fuel w r : wf w -> Start fuel w = Ret r -> started_from w r.2.
Proof.
  intros Hw Hr. assert (H0' : started_from w w)
    by (split; [done|]; exists 0%nat; by apply grown_refl).
  unfold Start in Hr. destruct (Service.check_all _ _) as [ok n].
  destruct (negb ok); [injection Hr as <-; by apply started_nt|].
  apply obind_ret in Hr as ([l w1] & Hn & Hr).
  assert (Hw1 : started_from w w1 /\ _acceptEvents l = []).
  { unfold new_listener in Hn. apply obind_ret in Hn as (last & _ & Hn).
    apply obind_ret in Hn as ([k n1] & _ & [= <- <-]).
    split; [by repeat apply started_nt|done]. }
  destruct Hw1 as [[Hw1 [k Hk]] Hl]. apply obind_ret in Hr as (w2 & Ha & Hr).
  apply assign_listener_wf in Ha as (Hw2 & _ & _ & E1 & E2); [|apply Hw1|done].
  assert (H2' : started_from w w2).
  { split; [done|]. exists k. by apply (grown_same k w w1). }
  apply obind_ret in Hr as ([suc w3] & Hs & Hr). apply (StartListen_wf _ _ w) in Hs; [|done].
  destruct (check suc _ _) as [ok2 n2]. destruct (negb ok2); injection Hr as <-.
  - by apply started_nt.
  - destruct Hs as [Hw3 Hg]. split; [|exact Hg].
    apply (wf_base _ (set_nt n2 w3)). by apply wf_nt.
Qed.

Lemma ReleaseAllSessions_wf w w' :
  wf0 w -> ReleaseAllSessions w = Ret w' -> wf w' /\ _sessions (srv w') = ∅.
Proof.
  intros Hw Hr. unfold ReleaseAllSessions in Hr. apply obind_ret in Hr as (w1 & Ho & Hc).
  apply on_connected_wf0 in Ho as [Ho _];
    [|intros s s' [= <-]; apply gentle_disconnect, gentle_refl|done].
  match type of Hc with collect ?x = _ => assert (Hx : wf0 x) end.
  { apply (wf0_weaken w1); [done|..]; [|done|apply (wf_id w1 Ho)].
    unfold referenced. simpl. set_solver. }
  destruct (collect_wf _ Hx) as (w2 & E & Hw2 & Es). rewrite E in Hc. injection Hc as <-.
  by rewrite Es.
Qed.

(** ** Uses of a server *)
(** The user starts, stops and broadcasts, takes completions from the port, and keeps
    and drops [shared_ptr]s of sessions. *)
Inductive op :=
| Use_Start (fuel : nat) | Use_Stop | Use_AddNewSession
| Use_completion (fuel : nat) (got : option (event_ref * Z))
| Use_completions (fuel : nat) (got : option (list (event_ref * Z)))
| Use_Broadcast (id : Z) (data : list Z)
| Use_hold (sid : Z) | Use_drop (sid : Z).
Definition hold (sid : Z) (w : world) : outcome world :=
  match heap w !! sid with
  | None => Fault Dangling
  | Some _ => Ret (set_srv (set_held (held (srv w) ∪ {[sid]}) (srv w)) w)
  end.
Definition let_go (sid : Z) (w : world) : outcome world :=
  collect (set_srv (set_held (held (srv w) ∖ {[sid]}) (srv w)) w).
Definition apply_op (send : sender) (o : op) (w : world) : outcome world :=
  match o with
  | Use_Start fuel => let! (_, w) := Start fuel w in Ret w
  | Use_Stop => let! (_, w) := Stop w in Ret w
  | Use_AddNewSession => let! (_, w) := AddNewSession w in Ret w
  | Use_completion fuel got => let! (_, w) := ProcessQueuedCompletionStatus fuel got w in Ret w
  | Use_completions fuel got => let! (_, w) := ProcessQueuedCompletionStatusEx fuel got w in Ret w
  | Use_Broadcast id data => Broadcast send id data w
  | Use_hold sid => hold sid w
  | Use_drop sid => let_go sid w
  end.
Fixpoint apply_ops (send : sender) (os : list op) (w : world) : outcome world :=
  match os with
  | [] => Ret w
  | o :: os => let! w := apply_op send o w in apply_ops send os w
  end.

(** ** What an operation does to the sessions of the service *)
(** The session whose disconnection is complete leaves it. *)
Definition released (sid : Z) (type : EventType) : gset Z :=
  match type with Disconnect => {[sid]} | _ => ∅ end.
(** A completion: an accept event makes new sessions, one or more, and any other only
    takes away the session whose disconnection it completes; that session is destroyed
    unless an accept event or the user still has it. *)
Definition registry_entry (e : event_ref) (w w' : world) : Prop :=
  match e with
  | AcceptEvent _ => exists k, grown (S k) w w'
  | SessionEvent sid type =>
      _sessions (srv w') = _sessions (srv w) ∖ released sid type /\ s_sid w' = s_sid w /\
      (type = Disconnect -> sid ∉ refs (_listener (srv w')) ∪ held (srv w') ->
       heap w' !! sid = None)
  end.
Fixpoint registry_entries (l : list (event_ref * Z)) (w w' : world) : Prop :=
  match l with
  | [] => w' = w
  | (e, _) :: l => exists w1, registry_entry e w w1 /\ registry_entries l w1 w'
  end.
Definition registry (o : op) (w w' : world) : Prop :=
  match o with
  | Use_Start _ => exists k, grown k w w'
  | Use_Stop => _sessions (srv w') = ∅
  | Use_AddNewSession =>
      grown 1 w w' \/
      (_sessions (srv w') = _sessions (srv w) /\
       exists k h core err, log (nt w') = log (nt w) ++ k /\
         ASys (CreateIoCompletionPort h core) IOCPCore.NULL err ∈ k)
  | Use_completion _ None | Use_completions _ None => w' = w
  | Use_completion _ (Some (e, _)) => registry_entry e w w'
  | Use_completions _ (Some l) => registry_entries l w w'
  | Use_Broadcast _ _ | Use_hold _ | Use_drop _ =>
      _sessions (srv w') = _sessions (srv w) /\ s_sid w' = s_sid w
  end.

Lemma Stop_wf w r : wf w -> Stop w = Ret r -> wf r.2 /\ _sessions (srv r.2) = ∅.
Proof.
  intros Hw Hr. unfold Stop in Hr. apply obind_ret in Hr as (w1 & Ha & Hr).
  apply assign_listener_wf in Ha as ([Hw1 _] & _); [|apply wf_base, Hw|done].
  apply obind_ret in Hr as (w2 & Hs & [= <-]). by apply ReleaseAllSessions_wf in Hs.
Qed.

Lemma AddNewSession_wf w r w' : wf w -> AddNewSession w = Ret (r, w') ->
  wf w' /\ registry Use_AddNewSession w w'.
Proof.
  intros [Hw Hl] Hr. pose proof (AddNewSession_sid w r w' Hr) as Esid. split.
  - split; [by apply (AddNewSession_wf0 w r w')|].
    apply AddNewSession_spec in Hr. intros i. unfold referenced in *. destruct r as [sid|].
    + destruct Hr as (-> & Es & x & Eh & _). rewrite Es, Eh. simpl.
      destruct (decide (i = s_sid w)) as [->|]; [set_solver|].
      rewrite lookup_insert_ne by done. intros Hi%Hl. simpl in Hi. set_solver.
    + destruct Hr as (Es & Eh & _). rewrite Es, Eh. apply Hl.
  - apply AddNewSession_spec in Hr. destruct r as [sid|].
    + left. destruct Hr as (-> & Es & _). split; [|exact Esid]. rewrite Es. simpl. set_solver.
    + right. destruct Hr as (Es & _ & Hk). split; [by rewrite Es|exact Hk].
Qed.

Lemma hold_wf sid w w' : wf w -> hold sid w = Ret w' ->
  wf w' /\ registry (Use_hold sid) w w'.
Proof.
  intros [Hw Hl]. unfold hold. destruct (heap w !! sid) as [x|] eqn:Hx; [|done].
  intros [= <-]. split; [|done]. split; [split|].
  - intros i. unfold referenced. simpl. intros Hi. destruct (decide (i = sid)) as [->|];
      [by rewrite Hx|]. apply (wf_alive w Hw). unfold referenced. simpl. set_solver.
  - apply (wf_id w Hw).
  - intros i Hi. apply Hl in Hi. unfold referenced in *. simpl in *. set_solver.
Qed.
Lemma let_go_wf sid w w' : wf w -> let_go sid w = Ret w' ->
  wf w' /\ registry (Use_drop sid) w w'.
Proof.
  intros [Hw _] Hr. unfold let_go in Hr. pose proof (collect_sid _ _ Hr) as Esid.
  match type of Hr with collect ?x = _ => assert (Hx : wf0 x) end.
  { apply (wf0_weaken w); [done|..]; [|done|apply (wf_id w Hw)].
    unfold referenced. simpl. set_solver. }
  destruct (collect_wf _ Hx) as (w2 & E & Hw2 & Es). rewrite E in Hr. injection Hr as <-.
  split; [done|]. simpl. by rewrite Es, Esid.
Qed.

(** User code that keeps to its session. *)
Section Gentle.
Variable send : sender.
Hypothesis v_gentle : forall s0, Session.keeps (gentle s0) v.
Hypothesis send_gentle : forall i d s s', send i d s = Ret s' -> gentle s s'.

Lemma gentle_set_connected s0 k s s' :
  gentle s0 s -> Session._set_connected v k s = Ret s' -> gentle s0 s'.
Proof.
  intros Hs Hr. unfold Session._set_connected in Hr.
  apply obind_ret in Hr as (s1 & Hv & Hr). apply (gentle_register_recv s0 s1 s'); [|exact Hr].
  apply (Session.keeps_OnConnected _ _ (v_gentle s0) _ _ ) in Hv; [exact Hv|].
  apply gentle_net, gentle_ses; [done|]. destruct (negb _); [apply gentle_set_socket|];
    by apply gentle_ses.
Qed.

(** [_process_disconnect] is the one that releases a session. *)
Lemma releasing_process_disconnect s s' :
  Session._process_disconnect v s = Ret s' ->
  releasing {[Session._sessionId (Session.ses s)]} s s'.
Proof.
  unfold Session._process_disconnect, Session._clear. destruct (negb _); [done|].
  destruct (ReleaseSession _ _) as [b svc'] eqn:E. cbn [obind]. intros Hr.
  match type of Hr with Session.v_OnDisconnected _ _ ?x = _ =>
    apply (Session.keeps_OnDisconnected _ _ (v_gentle x)) in Hr; [|apply gentle_refl] end.
  eapply releasing_gentle; [|exact Hr]. injection E as _ <-.
  split_and!; try done. simpl. set_solver.
Qed.

Lemma releasing_dispatch type n s s' :
  Session.Dispatch v type n s = Ret s' ->
  releasing (released (Session._sessionId (Session.ses s)) type) s s'.
Proof.
  pose proof (gentle_refl s) as Hs. destruct type; cbn [Session.Dispatch released].
  - by intros [= <-].
  - apply releasing_process_disconnect.
  - by intros [= <-].
  - unfold Session._process_send. destruct (_ =? 0).
    + intros [= <-]. by apply gentle_disconnect, gentle_ses.
    + intros Hr. apply (Session.keeps_OnSend _ _ (v_gentle s)) in Hr; [done|].
      by apply gentle_net, gentle_ses.
  - unfold Session._process_recv. destruct (_ =? 0).
    + intros [= <-]. by apply gentle_disconnect.
    + intros Hr. apply obind_ret in Hr as (pos & _ & Hr).
      apply obind_ret in Hr as ([r s1] & Hv & Hr).
      apply (Session.keeps_OnRecv _ _ (v_gentle s)) in Hv; [|by apply gentle_net].
      destruct (_ =? 0); [injection Hr as <-; by apply gentle_disconnect|].
      by apply (gentle_register_recv s s1).
Qed.

(** The last [collect] of an operation. *)
Lemma collect_step w w' : wf0 w -> collect w = Ret w' ->
  wf w' /\ srv w' = srv w /\ s_sid w' = s_sid w.
Proof.
  intros Hw Hc. pose proof (collect_sid _ _ Hc) as Esid.
  destruct (collect_wf w Hw) as (w2 & E & Hw2 & Es). rewrite E in Hc. by injection Hc as <-.
Qed.

Lemma ProcessAccept_wf fuel i w w' : wf0 w -> ProcessAccept fuel i w = Ret w' ->
  wf w' /\ exists k, grown (S k) w w'.
Proof.
  intros Hw Hr. unfold ProcessAccept in Hr.
  destruct (_listener (srv w)) as [l|]; [|done].
  destruct (_acceptEvents l !! i) as [[sid|]|]; try done.
  destruct (heap w !! sid) as [x|]; [|done].
  apply obind_ret in Hr as ([ok n] & _ & Hr). apply obind_ret in Hr as (w1 & Hin & Hc).
  assert (Hw1 : wf0 w1 /\ exists k, grown (S k) w w1).
  { destruct (negb ok).
    { by apply RegisterAccept_wf0 in Hin as (? & _ & _ & ?); [|apply wf0_nt]. }
    destruct (syscall _ _) as [[res err] n1]. apply obind_ret in Hin as ([ok2 n2] & _ & Hin).
    destruct (negb ok2).
    { by apply RegisterAccept_wf0 in Hin as (? & _ & _ & ?); [|by repeat apply wf0_nt]. }
    apply obind_ret in Hin as (w2 & Hs & Hin).
    apply on_session_gentle in Hs as (Hw2 & _ & E1 & E2);
      [|intros s s'; apply gentle_set_connected, gentle_refl|by repeat apply wf0_nt].
    apply RegisterAccept_wf0 in Hin as (? & _ & _ & k & Hk); [|done]. split; [done|].
    exists k. by apply (grown_same (S k) w2 w1). }
  destruct Hw1 as [Hw1 [k Hk]]. destruct (collect_step w1 w' Hw1 Hc) as (Hw2 & Es & Esid).
  split; [done|]. exists k. apply (grown_same (S k) w w1); try done. by rewrite Es.
Qed.

Lemma dispatch_wf fuel e n w w' : wf w -> dispatch fuel e n w = Ret w' ->
  wf w' /\ registry_entry e w w'.
Proof.
  intros Hw Hr. destruct e as [i|sid type]; cbn [dispatch] in Hr.
  - destruct (_listener (srv w)) as [l|]; [|done].
    destruct (decide _); [|done]. exact (ProcessAccept_wf fuel i w w' (proj1 Hw) Hr).
  - destruct (heap w !! sid); [|done]. apply obind_ret in Hr as (w1 & Hs & Hc).
    apply (on_session_wf0 (released sid type)) in Hs as (Hw1 & _ & E1 & E2);
      [|intros s s' <-; apply releasing_dispatch|apply Hw].
    destruct (collect_step w1 w' Hw1 Hc) as (Hw2 & Es & Esid). split; [done|].
    unfold registry_entry. rewrite Es, E1, Esid, E2. split; [done|]. split; [done|].
    intros -> Hn. destruct (heap w' !! sid) eqn:Hx; [exfalso|done].
    destruct Hw2 as [_ Hlive]. assert (sid ∈ referenced w') as Hin by (apply Hlive; by rewrite Hx).
    unfold referenced in Hin. simpl in Hin. rewrite Es, E1 in Hin. set_solver.
Qed.

Lemma dispatch_all_wf fuel l : forall w w', wf w -> dispatch_all fuel l w = Ret w' ->
  wf w' /\ registry_entries l w w'.
Proof.
  induction l as [|[e n] l IH]; intros w w' Hw Hd; [by injection Hd as <-|].
  apply obind_ret in Hd as (w1 & Hd1 & Hd).
  destruct (dispatch_wf fuel e n w w1 Hw Hd1) as [Hw1 He].
  destruct (IH w1 w' Hw1 Hd) as [Hw' Hl]. split; [done|]. by exists w1.
Qed.

Lemma apply_op_wf o w w' : wf w -> apply_op send o w = Ret w' -> wf w' /\ registry o w w'.
Proof.
  intros Hw. destruct o as [fuel| | |fuel got|fuel got|id data|sid|sid]; cbn [apply_op]; intros Hr.
  - apply obind_ret in Hr as ([b w1] & Hs & [= <-]). exact (Start_wf fuel w _ Hw Hs).
  - apply obind_ret in Hr as ([b w1] & Hs & [= <-]). exact (Stop_wf w _ Hw Hs).
  - apply obind_ret in Hr as ([b w1] & Hs & [= <-]). exact (AddNewSession_wf w b w1 Hw Hs).
  - apply obind_ret in Hr as ([b w1] & Hs & [= <-]). destruct got as [[e n]|].
    + apply obind_ret in Hs as (w2 & Hd & [= _ <-]). exact (dispatch_wf fuel e n w w2 Hw Hd).
    + by injection Hs as _ <-.
  - apply obind_ret in Hr as ([b w1] & Hs & [= <-]). destruct got as [l|]; [|by injection Hs as _ <-].
    apply obind_ret in Hs as (w2 & Hd & [= _ <-]). exact (dispatch_all_wf fuel l w w2 Hw Hd).
  - apply obind_ret in Hr as (w1 & Ho & Hc).
    apply on_connected_wf0 in Ho as (Ho & E1 & E2); [|apply send_gentle|apply Hw].
    destruct (collect_step w1 w' Ho Hc) as (Hw2 & Es & Esid). split; [done|]. simpl.
    by rewrite Es, E1, Esid, E2.
  - exact (hold_wf sid w w' Hw Hr).
  - exact (let_go_wf sid w w' Hw Hr).
Qed.

Lemma apply_ops_wf os : forall w w', wf w -> apply_ops send os w = Ret w' -> wf w'.
Proof.
  induction os as [|o os IH]; intros w w' Hw Hr; [by injection Hr as <-|].
  apply obind_ret in Hr as (w1 & Ho & Hr). apply (IH w1); [|done].
  by apply (apply_op_wf o w w1).
Qed.


End Gentle.

(** ** Stopping *)
(** A disconnect keeps the session and the service, and posts [DisconnectEx] when
    the session is connected. *)
Lemma disconnect_one e sid x w :
  heap w !! sid = Some x ->
  exists y n, on_session sid (fun s => if Session._connected (Session.ses s)
      then Ret (Session._disconnect e s) else Ret s) w =
    Ret (mk (srv w) (<[sid := y]> (heap w)) (s_sid w) n) /\
  Session._socket y = Session._socket x /\ Session._connected y = Session._connected x /\
  exists k, log n = log (nt w) ++ k /\
    (Session._connected x = true ->
     exists r err, ASys (DisconnectEx (Session._socket x)) r err ∈ k).
Proof.
  intros Hx. unfold on_session. rewrite Hx. cbn [Session.ses].
  destruct (Session._connected x) eqn:Hc; cbn [obind].
  - destruct (Session.disconnect_open e (Session.mk_st x (srv w) (nt w)) Hc)
      as (s' & r & E & Es & El & ev & Eses).
    exists (Session.ses s'), (Session.nets s'). rewrite E, Es. split; [done|].
    rewrite Eses. split; [done|]. split; [done|]. eexists. split; [exact El|].
    intros _. exists r.1, r.2. by left.
  - exists x, (nt w). split; [done|]. split; [done|]. split; [done|].
    exists []. by rewrite app_nil_r.
Qed.

Lemma disconnect_all e l : forall w,
  (forall sid, sid ∈ l -> is_Some (heap w !! sid)) ->
  exists w' k, on_connected (fun s => Ret (Session._disconnect e s)) l w = Ret w' /\
    srv w' = srv w /\ log (nt w') = log (nt w) ++ k /\
    (forall i, is_Some (heap w' !! i) <-> is_Some (heap w !! i)) /\
    (forall sid x, sid ∈ l -> heap w !! sid = Some x -> Session._connected x = true ->
       exists r err, ASys (DisconnectEx (Session._socket x)) r err ∈ k).
Proof.
  induction l as [|sid l IH]; intros w Hal.
  { exists w, []. rewrite app_nil_r. split_and!; try done. by intros i x ?%not_elem_of_nil. }
  destruct (Hal sid ltac:(by left)) as [x Hx].
  destruct (disconnect_one e sid x w Hx) as (y & n & E & Ek & Ec & k & El & Hk).
  cbn [on_connected]. rewrite E. cbn [obind].
  destruct (IH (mk (srv w) (<[sid := y]> (heap w)) (s_sid w) n)) as (w' & k' & -> & Es & El' & Hdom & Hk').
  { intros i Hi. simpl. destruct (decide (i = sid)) as [->|];
      [by rewrite lookup_insert_eq|rewrite lookup_insert_ne by done]. apply Hal. by right. }
  exists w', (k ++ k'). split; [done|]. split; [done|]. split.
  { rewrite El'. simpl. by rewrite El, <- app_assoc. }
  split.
  { intros i. rewrite Hdom. simpl. rewrite lookup_insert_is_Some'. split; [|by right].
    intros [<-|?]; [by rewrite Hx|done]. }
  intros i z Hi Hz Hconn. destruct (decide (i = sid)) as [->|Hne].
  - rewrite Hx in Hz. injection Hz as <-. destruct (Hk Hconn) as (r & err & Hin).
    exists r, err. apply elem_of_app. by left.
  - apply elem_of_cons in Hi as [->|Hi]; [done|].
    destruct (Hk' i z Hi) as (r & err & Hin); [simpl; by rewrite lookup_insert_ne|done|].
    exists r, err. apply elem_of_app. by right.
Qed.

Lemma assign_None w : exists w' k,
  assign_listener None w = Ret w' /\ srv w' = set_listener None (srv w) /\
  log (nt w') = log (nt w) ++ k /\
  forall sid, sid ∈ _sessions (srv w) ∪ held (srv w) -> heap w' !! sid = heap w !! sid.
Proof.
  unfold assign_listener.
  assert (Hn : exists n k, (match _listener (srv w) with
     | Some old => let! (_, n) := SocketUtils.Close (_listenSocket old) (nt w) in Ret n
     | None => Ret (nt w) end) = Ret n /\ log n = log (nt w) ++ k).
  { destruct (_listener (srv w)) as [old|]; [|exists (nt w), []; by rewrite app_nil_r].
    destruct (SocketCalls.Close_eq (_listenSocket old) (nt w)) as (n & -> & Hl). eauto. }
  destruct Hn as (n & k & -> & Hl). cbn [obind].
  destruct (collect_ok (set_nt n (set_srv (set_listener None (srv w)) w)))
    as (w' & -> & E1 & _ & E3 & k' & E4).
  exists w', (k ++ k'). split; [done|]. split; [done|]. split.
  - rewrite E4. simpl. by rewrite Hl, <- app_assoc.
  - intros sid Hin. rewrite E3, decide_True; [done|]. unfold referenced. simpl. set_solver.
Qed.

(** C38: [Stop] returns true and posts a [DisconnectEx] for every connected session,
    but it destroys the listener with its accept events and, at the clearing of
    [_sessions], every session that the user does not hold, while those operations are
    pending: the completion of any accept and of any operation of such a session, when
    it is dispatched afterwards, uses a destroyed event. The sessions the user holds
    stay alive, and they alone. *)
Theorem Stop_leaves_dangling_completions w :
  wf w ->
  exists w', Stop w = Ret (true, w') /\
    Service._onGoing (base (srv w')) = false /\ _listener (srv w') = None /\
    _sessions (srv w') = ∅ /\ held (srv w') = held (srv w) /\
    (forall sid, is_Some (heap w' !! sid) <-> sid ∈ held (srv w)) /\
    (forall sid x, sid ∈ _sessions (srv w) -> heap w !! sid = Some x ->
       Session._connected x = true ->
       exists r err, ASys (DisconnectEx (Session._socket x)) r err ∈ log (nt w')) /\
    (forall fuel i n, dispatch fuel (AcceptEvent i) n w' = Fault Dangling) /\
    forall fuel sid type n, sid ∉ held (srv w) ->
      dispatch fuel (SessionEvent sid type) n w' = Fault Dangling.
Proof.
  intros [Hw Hlive]. unfold Stop.
  set (w0 := set_srv (set_base (Service.set_onGoing false (base (srv w))) (srv w)) w).
  destruct (assign_None w0) as (w1 & k1 & -> & Es1 & El1 & Eh1). cbn [obind].
  assert (Halive : forall sid, sid ∈ _sessions (srv w) ∪ held (srv w) ->
    is_Some (heap w1 !! sid)).
  { intros sid Hin. rewrite Eh1 by done. apply (wf_alive w Hw). unfold referenced. simpl.
    set_solver. }
  unfold ReleaseAllSessions.
  destruct (disconnect_all Session.SERVER_SERVICE_STOPPED (elements (_sessions (srv w1))) w1)
    as (w2 & k2 & -> & Es2 & El2 & Hdom & Hk).
  { intros sid Hin%elem_of_elements. rewrite Es1 in Hin. simpl in Hin. apply Halive. set_solver. }
  cbn [obind]. destruct (collect_ok (set_srv (set_sessions ∅ (srv w2)) w2))
    as (w3 & -> & Es3 & _ & Eh3 & k3 & El3). cbn [obind].
  exists w3. rewrite Es3. simpl. rewrite Es2, Es1. simpl.
  assert (Hheld : forall sid, is_Some (heap w3 !! sid) <-> sid ∈ held (srv w)).
  { intros sid. rewrite Eh3. unfold referenced. simpl. rewrite Es2, Es1. simpl.
    destruct (decide _) as [Hin|Hn].
    - rewrite Hdom. split; intros Hx; [set_solver|apply Halive; set_solver].
    - split; [by intros [? ?]|set_solver]. }
  do 5 (split; [done|]). split; [exact Hheld|]. split; [|split].
  - intros sid x Hin Hx Hc. destruct (Hk sid x) as (r & err & Hr); [| |exact Hc|].
    + apply elem_of_elements. by rewrite Es1.
    + rewrite Eh1; [done|]. simpl. set_solver.
    + exists r, err. rewrite El3. simpl. rewrite El2, !elem_of_app. auto.
  - intros fuel i n. cbn [dispatch]. rewrite Es3. simpl. by rewrite Es2, Es1.
  - intros fuel sid type n Hn. cbn [dispatch].
    destruct (heap w3 !! sid) eqn:Hx; [|done]. destruct Hn. apply Hheld. by rewrite Hx.
Qed.

(** ** Starting *)
(** [Start] with a condition that does not hold returns false, records the code
    of the first such condition (already started, no core, no factory, invalid
    address, in this order) and changes nothing else. *)
Theorem Start_checks_conditions fuel w e :
  Service.first_failure (base (srv w)) = Some e ->
  Start fuel w = Ret (false, set_nt (set_last (code e) (nt w)) w).
Proof. intros He. unfold Start. by rewrite Service.check_all_eq, He. Qed.

(** [AddNewSession] makes a session; whether its handle is registered decides. *)
Lemma AddNewSession_eq w core :
  Service._sessionFactory (base (srv w)) = true ->
  Service._iocpCore (base (srv w)) = Some core ->
  exists x n, Session._sessionId x = s_sid w /\ Session._connected x = false /\
    Session._recvBuffer x = RecvBuffer.new Session.RECV_BUFFER_SIZE /\
    ((os_reply (log n) (CreateIoCompletionPort (Session._socket x) core)).1 <> IOCPCore.NULL ->
     exists n', AddNewSession w = Ret (Some (s_sid w),
       mk (set_sessions (_sessions (srv w) ∪ {[s_sid w]}) (srv w))
         (<[s_sid w := x]> (heap w)) (u32 (s_sid w + 1)) n')) /\
    ((os_reply (log n) (CreateIoCompletionPort (Session._socket x) core)).1 = IOCPCore.NULL ->
     exists n', AddNewSession w = Ret (None, mk (srv w) (heap w) (u32 (s_sid w + 1)) n')).
Proof.
  intros Hf Hc. unfold AddNewSession. rewrite Hf, Hc. cbn [negb]. unfold Session.new.
  destruct (SocketCalls.CreateSocket_eq (nt w)) as (n & E & Hl). rewrite E. cbn [obind].
  match goal with |- context [IOCPCore.RegisterHandle (Session._socket ?y) core n] => exists y, n end.
  do 3 (split; [done|]). unfold IOCPCore.RegisterHandle, syscall.
  destruct (os_reply (log n) _) as [r err]. cbn [fst]. split; intros Hr.
  - rewrite Service.check_eq by done. apply Z.eqb_neq in Hr. rewrite Hr. eexists. reflexivity.
  - subst r. rewrite Service.check_eq by done. rewrite Z.eqb_refl. cbn [negb]. unfold Session.destroy.
    match goal with |- context [SocketUtils.Close ?k ?m] =>
      destruct (SocketCalls.Close_eq k m) as (n2 & -> & _) end.
    eexists. reflexivity.
Qed.

Lemma new_session_WritePos x :
  Session._recvBuffer x = RecvBuffer.new Session.RECV_BUFFER_SIZE ->
  RecvBuffer.WritePos (Session._recvBuffer x) = Ret 0.
Proof. intros ->. vm_compute. reflexivity. Qed.

(** One round of [RegisterAccept] whose session can be registered. *)
Lemma RegisterAccept_round fuel i w core l :
  Service._sessionFactory (base (srv w)) = true ->
  Service._iocpCore (base (srv w)) = Some core -> _listener (srv w) = Some l ->
  (forall lg h, registers (os_reply lg (CreateIoCompletionPort h core))) ->
  exists x n lg, Session._sessionId x = s_sid w /\ Session._connected x = false /\
    let w' := mk (set_listener (Some (set_event i (Some (s_sid w)) l))
                   (set_sessions (_sessions (srv w) ∪ {[s_sid w]}) (srv w)))
                (<[s_sid w := x]> (heap w)) (u32 (s_sid w + 1)) n in
    let r := os_reply lg (AcceptEx (_listenSocket l) (Session._socket x) 0) in
    (accepts r -> RegisterAccept (S fuel) i w = Ret w') /\
    (~ accepts r -> r.2 <> 0 -> RegisterAccept (S fuel) i w = RegisterAccept fuel i w').
Proof.
  intros Hf Hc Hl Hreg. destruct (AddNewSession_eq w core Hf Hc) as (x & n & Hid & Hcon & Hrb & Ha & _).
  destruct (Ha (Hreg _ _)) as (n' & E). cbn [RegisterAccept]. rewrite E. cbn [obind srv]. simpl.
  rewrite Hl. simpl. rewrite lookup_insert_eq, (new_session_WritePos x Hrb). cbn [obind].
  unfold syscall.
  set (r := os_reply (log n') (AcceptEx (_listenSocket l) (Session._socket x) 0)).
  destruct r as [suc err] eqn:Er.
  destruct (check_except_pending (negb (suc =? 0)) WSA_ACCEPTEX_FAILED err
    (note (ASys (AcceptEx (_listenSocket l) (Session._socket x) 0) suc err) n')) as [code2 n2] eqn:Ec.
  exists x, n2, (log n'). do 2 (split; [done|]). cbn zeta. fold r. rewrite Er.
  unfold check_except_pending, ErrorHandler.WSACheckErrorExceptPending in Ec. unfold accepts.
  cbn [fst snd]. split.
  - intros Hok. assert (code2 = code ERR_NONE) as ->.
    { destruct (Z.eqb_spec suc 0) as [->|]; cbn [negb] in Ec; [|by injection Ec].
      destruct Hok as [|Hp]; [done|]. apply Z.eqb_eq in Hp. rewrite Hp in Ec. by injection Ec. }
    done.
  - intros Hno Hne. assert (code2 = err) as ->.
    { destruct (Z.eqb_spec suc 0) as [->|]; cbn [negb] in Ec; [|by destruct Hno; left].
      destruct (Z.eqb_spec err WSA_IO_PENDING); [by destruct Hno; right|]. by injection Ec. }
    rewrite (proj2 (Z.eqb_neq err 0) Hne). done.
Qed.

(** C32: [RegisterAccept] retries without bound: while [AcceptEx] fails, it calls
    itself for ever, with a new session and socket in each round; and when a
    session's handle cannot be registered it dereferences the null session. *)
Theorem RegisterAccept_never_gives_up w core l i :
  Service._sessionFactory (base (srv w)) = true ->
  Service._iocpCore (base (srv w)) = Some core -> _listener (srv w) = Some l ->
  ((forall lg h, registers (os_reply lg (CreateIoCompletionPort h core))) ->
   (forall lg a b p, ~ accepts (os_reply lg (AcceptEx a b p)) /\
      (os_reply lg (AcceptEx a b p)).2 <> 0) ->
   forall fuel, RegisterAccept fuel i w = NoFuel) /\
  ((forall lg h, ~ registers (os_reply lg (CreateIoCompletionPort h core))) ->
   forall fuel, RegisterAccept (S fuel) i w = Fault NullDeref).
Proof.
  intros Hf Hc Hl. split.
  - intros Hreg Hacc fuel. revert w l Hf Hc Hl.
    induction fuel as [|fuel IH]; intros w l Hf Hc Hl; [done|].
    destruct (RegisterAccept_round fuel i w core l Hf Hc Hl Hreg) as (x & n & lg & _ & _ & _ & Hr).
    destruct (Hacc lg (_listenSocket l) (Session._socket x) 0) as [Hno Hne].
    rewrite Hr by done. by eapply IH.
  - intros Hreg fuel. destruct (AddNewSession_eq w core Hf Hc) as (x & n & _ & _ & _ & _ & Ha).
    destruct Ha as (n' & E).
    { destruct (decide ((os_reply (log n) (CreateIoCompletionPort (Session._socket x) core)).1
        = IOCPCore.NULL)) as [|Hne]; [done|]. by destruct (Hreg (log n) (Session._socket x)). }
    cbn [RegisterAccept]. rewrite E. cbn [obind]. simpl. by rewrite Hl.
Qed.

(** What an operating system that lets a server start does. *)
Record good_os (core : Z) : Prop := {
  os_registers lg h : registers (os_reply lg (CreateIoCompletionPort h core));
  os_accepts lg a b p : accepts (os_reply lg (AcceptEx a b p));
  os_options lg k o : (os_reply lg (setsockopt_SOL_SOCKET k o)).1 <> SOCKET_ERROR;
  os_bind lg k a : (os_reply lg (bind k a)).1 <> SOCKET_ERROR;
  os_listen lg k b : (os_reply lg (listen k b)).1 <> SOCKET_ERROR;
}.

(** The loop of [StartListen] when every call succeeds. *)
Lemma accept_loop_ok fuel core : good_os core -> forall k w l,
  Service._sessionFactory (base (srv w)) = true ->
  Service._iocpCore (base (srv w)) = Some core -> _listener (srv w) = Some l ->
  0 <= s_sid w -> s_sid w + Z.of_nat k < 2 ^ 32 ->
  (forall sid x, heap w !! sid = Some x -> Session._connected x = false) ->
  exists w', accept_loop (S fuel) k w = Ret w' /\ base (srv w') = base (srv w) /\
    _listener (srv w') = Some (mk_listener (_listenSocket l)
      (_acceptEvents l ++ (Some <$> seqZ (s_sid w) (Z.of_nat k)))) /\
    _sessions (srv w') = _sessions (srv w) ∪ list_to_set (seqZ (s_sid w) (Z.of_nat k)) /\
    (forall sid x, heap w' !! sid = Some x -> Session._connected x = false).
Proof.
  intros Hos. induction k as [|k IH]; intros w l Hf Hc Hl H0' Hb Hh.
  { exists w. simpl. rewrite app_nil_r, union_empty_r_L. rewrite Hl. by destruct l. }
  cbn [accept_loop]. rewrite Hl.
  set (l1 := mk_listener (_listenSocket l) (_acceptEvents l ++ [None])).
  set (w1 := set_srv (set_listener (Some l1) (srv w)) w).
  destruct (RegisterAccept_round fuel (length (_acceptEvents l)) w1 core l1 Hf Hc eq_refl
    (os_registers core Hos)) as (x & n & lg & _ & Hx & Hr & _).
  rewrite Hr by apply (os_accepts core Hos). cbn [obind].
  match goal with |- context [accept_loop (S fuel) k ?u] => set (w2 := u) end.
  set (l2 := set_event (length (_acceptEvents l)) (Some (s_sid w)) l1).
  assert (El2 : l2 = mk_listener (_listenSocket l) (_acceptEvents l ++ [Some (s_sid w)])).
  { unfold l2, set_event, l1. simpl. f_equal. rewrite insert_app_r_alt by lia.
    by rewrite Nat.sub_diag. }
  assert (Es : s_sid w2 = s_sid w + 1) by (simpl; apply u32_small; lia).
  destruct (IH w2 l2) as (w' & E & E1 & E2 & E3 & E4); [exact Hf|exact Hc|done|lia|lia| |].
  { intros sid y Hy. unfold w2 in Hy. cbn [heap] in Hy. apply lookup_insert_Some in Hy as [(<- & <-)|[_ Hy]]; [done|by apply (Hh sid)]. }
  assert (Hseq : seqZ (s_sid w) (Z.of_nat (S k)) = s_sid w :: seqZ (s_sid w + 1) (Z.of_nat k)).
  { rewrite seqZ_cons by lia. do 2 f_equal; lia. }
  rewrite Es in E2, E3.
  exists w'. rewrite E. split; [done|]. split; [done|]. split; [|split; [|done]].
  - rewrite E2, El2. cbn [_listenSocket _acceptEvents]. by rewrite Hseq, <- app_assoc.
  - rewrite E3, Hseq. simpl. set_solver.
Qed.

Lemma listen_step_ok op k w n :
  op (nt w) = Ret (true, n) -> listen_step op k w = k (set_nt n w).
Proof. intros E. unfold listen_step. by rewrite E. Qed.

(** [StartListen] of a listener without events. *)
Lemma StartListen_ok fuel b w core l :
  good_os core -> Service._sessionFactory (base (srv w)) = true ->
  Service._iocpCore (base (srv w)) = Some core -> _listener (srv w) = Some l ->
  _acceptEvents l = [] -> _sessions (srv w) = ∅ -> heap w = ∅ ->
  0 <= s_sid w -> s_sid w + 100 < 2 ^ 32 ->
  exists w', StartListen (S fuel) b w = Ret (true, w') /\ base (srv w') = base (srv w) /\
    _listener (srv w') = Some (mk_listener (_listenSocket l) (Some <$> seqZ (s_sid w) 100)) /\
    _sessions (srv w') = list_to_set (seqZ (s_sid w) 100) /\
    (forall sid x, heap w' !! sid = Some x -> Session._connected x = false).
Proof.
  intros Hos Hf Hc Hl Hev Hse Hh H0' Hb. unfold StartListen. rewrite Hl, Hc.
  assert (Hreg : exists n, IOCPCore.RegisterHandle (_listenSocket l) core (nt w) = (true, n)).
  { destruct (IOCPCore.RegisterHandle_ok (_listenSocket l) core (nt w)) as (n & E & _); [|eauto].
    apply (os_registers core Hos). }
  destruct Hreg as [n0 E0]. rewrite (listen_step_ok _ _ w n0) by (by rewrite E0).
  destruct (SocketCalls.checked_ok (setsockopt_SOL_SOCKET (_listenSocket l) (SO_LINGER 0 0))
    WSA_SET_LINGER_FAILED false n0 (os_options core Hos _ _ _)) as [n1 E1].
  rewrite (listen_step_ok _ _ _ n1) by exact E1.
  destruct (SocketCalls.checked_ok (setsockopt_SOL_SOCKET (_listenSocket l) (SO_REUSEADDR true))
    WSA_SET_REUSEADDR_FAILED false n1 (os_options core Hos _ _ _)) as [n2 E2].
  rewrite (listen_step_ok _ _ _ n2) by exact E2.
  destruct (SocketCalls.checked_ok (bind (_listenSocket l) (Service._addr (base (srv w)))) WSA_BIND_FAILED true n2
    (os_bind core Hos _ _ _)) as [n3 E3].
  rewrite (listen_step_ok _ _ _ n3) by exact E3.
  destruct (SocketCalls.checked_ok (listen (_listenSocket l) b) WSA_LISTEN_FAILED true n3
    (os_listen core Hos _ _ _)) as [n4 E4].
  rewrite (listen_step_ok _ _ _ n4) by exact E4.
  match goal with |- context [accept_loop (S fuel) MAX_ACCEPT_COUNT ?u] => set (w4 := u) end.
  destruct (accept_loop_ok fuel core Hos MAX_ACCEPT_COUNT w4 l) as (w5 & -> & F1 & F2 & F3 & F4);
    try done; [simpl; by rewrite Hh|].
  cbn [obind]. destruct (collect_ok w5) as (w6 & -> & G1' & _ & G3' & _). cbn [obind].
  exists w6. rewrite G1', F1, F2, F3. split; [done|]. split; [done|]. split.
  { by rewrite Hev. }
  split; [simpl; rewrite Hse; by rewrite union_empty_l_L|].
  intros sid x. rewrite G3'. destruct (decide _); [apply F4|done].
Qed.

(** [Start] when every call succeeds. *)
Lemma Start_ok fuel w core :
  good_os core -> Service.first_failure (base (srv w)) = None ->
  Service._iocpCore (base (srv w)) = Some core ->
  Service._serviceType (base (srv w)) = Server -> _listener (srv w) = None ->
  _sessions (srv w) = ∅ -> heap w = ∅ -> 0 <= s_sid w -> s_sid w + 100 < 2 ^ 32 ->
  exists w' l, Start (S fuel) w = Ret (true, w') /\ Service._onGoing (base (srv w')) = true /\
    _listener (srv w') = Some l /\ _acceptEvents l = Some <$> seqZ (s_sid w) 100 /\
    GetCurrentSessionCount (srv w') = 100 /\
    forall sid x, heap w' !! sid = Some x -> Session._connected x = false.
Proof.
  intros Hos Hff Hc Hty Hl Hse Hh H0' Hb. unfold Start. rewrite Service.check_all_eq, Hff.
  cbn [negb]. unfold new_listener. simpl. rewrite Hty. cbn [ErrorHandler.AssertCrash negb obind].
  match goal with |- context [SocketUtils.CreateSocket ?m] =>
    destruct (SocketCalls.CreateSocket_eq m) as (n1 & -> & _) end.
  cbn [obind]. unfold assign_listener. simpl. rewrite Hl. cbn [obind].
  match goal with |- context [collect ?u] => set (w1 := u) end.
  destruct (collect_ok w1) as (w2 & -> & G1' & G2' & G3' & _). cbn [obind].
  assert (Hh2 : heap w2 = ∅).
  { apply map_empty. intros i. rewrite G3'. simpl. rewrite Hh. by destruct (decide _). }
  assert (Hf : Service._sessionFactory (base (srv w)) = true).
  { unfold Service.first_failure, Service.checks in Hff. simpl in Hff.
    by destruct (negb (Service._onGoing _)), (Service._iocpCore _), (Service._sessionFactory _). }
  match type of G1' with _ = srv w1 => 
    destruct (StartListen_ok fuel (s32 (BACK_LOG (srv w2))) w2 core
      (mk_listener (os_reply (log (set_last (last_error (nt w)) (nt w))) WSASocketW).1 []))
      as (w3 & -> & F1 & F2 & F3 & F4) end; rewrite ?G1'; try done.
  { by rewrite G2'. }
  { by rewrite G2'. }
  cbn [obind]. rewrite Service.check_eq by done. cbn [negb].
  eexists _, _. split; [reflexivity|]. simpl. split; [done|]. split; [exact F2|].
  simpl. rewrite G2'. split; [done|]. split; [|done]. unfold GetCurrentSessionCount. simpl.
  rewrite F3, size_list_to_set by apply NoDup_seqZ. by rewrite length_seqZ.
Qed.


(** [ProcessAccept] cannot see that [getpeername] failed: its result is
    converted to [bool] before it is compared with SOCKET_ERROR. Whatever it
    answers, an accepted socket whose context was updated is connected and the
    event is armed again. *)
Theorem ProcessAccept_ignores_getpeername fuel i w l sid x :
  _listener (srv w) = Some l -> _acceptEvents l !! i = Some (Some sid) ->
  heap w !! sid = Some x ->
  (os_reply (log (nt w)) (setsockopt_SOL_SOCKET (Session._socket x)
     (SO_UPDATE_ACCEPT_CONTEXT (_listenSocket l)))).1 <> SOCKET_ERROR ->
  exists n, ProcessAccept fuel i w =
    (let! w := on_session sid (Session._set_connected v INVALID_SOCKET) (set_nt n w) in
     let! w := RegisterAccept fuel i w in collect w) /\
    last_error n = last_error (nt w).
Proof.
  intros Hl Hi Hx Ho. unfold ProcessAccept. rewrite Hl, Hi, Hx.
  unfold SocketUtils.SetUpdateAcceptSocket.
  destruct (SocketCalls.checked_eq (setsockopt_SOL_SOCKET (Session._socket x)
    (SO_UPDATE_ACCEPT_CONTEXT (_listenSocket l))) WSA_SET_UPDATE_ACCEPT_CONTEXT_FAILED false (nt w))
    as (n1 & -> & _ & Hle). apply Z.eqb_neq in Ho. rewrite Ho in *. cbn [obind negb].
  unfold syscall. destruct (os_reply _ (getpeername _)) as [res err].
  exists (note (ASys (getpeername (Session._socket x)) res err) n1). split; [|exact Hle].
  unfold check_socket_error, ErrorHandler.WSACheckSocketError.
  assert (Hne : ((if res =? 0 then 0 else 1) =? SOCKET_ERROR) = false).
  { pose proof SOCKET_ERROR_not_bool as [N0 N1]. destruct (res =? 0); by apply Z.eqb_neq. }
  rewrite Hne. cbn [obind negb]. by rewrite obind_assoc.
Qed.
End Server.

(** ** Samples: operating systems that let everything succeed, or fail [AcceptEx] *)
Definition sample_os : OS := fun lg q =>
  match q with
  | WSASocketW => (Z.of_nat (length lg) + 5, 0)
  | AcceptEx _ _ _ | ConnectEx _ _ | DisconnectEx _ => (0, 997)
  | CreateIoCompletionPort_new | CreateIoCompletionPort _ _ => (7, 0)
  | _ => (0, 0)
  end.
Definition failing_os : OS := fun lg q =>
  match q with AcceptEx _ _ _ => (0, 10022) | _ => sample_os lg q end.
Definition sample_world : world :=
  mk (new (Some 7) (AddrUtils.GetTcpAddress [49] 8080) true 10 200) ∅ 1 (mk_net [] 0).
(** A listening server with one connected session. *)
Definition listening_world : world :=
  mk (mk_server (Service.new Server (Some 7) (AddrUtils.GetTcpAddress [49] 8080) true 200) 10
        {[1]} (Some (mk_listener 9 [None])) ∅) {[1 := Session.demo_session]} 2 (mk_net [] 0).
Definition sample_send (_ : Z) (_ : list Z) (s : Session.st server) : outcome (Session.st server) :=
  Ret s.

Lemma sample_keeps s0 : Session.keeps (gentle s0) Session.default_virtuals.
Proof. apply Session.default_keeps. Qed.
Lemma sample_send_gentle i d s s' : sample_send i d s = Ret s' -> gentle s s'.
Proof. intros [= <-]. apply gentle_refl. Qed.

Lemma listening_wf : wf listening_world.
Proof.
  assert (Hr : referenced listening_world = {[1]}) by (unfold referenced; simpl; set_solver).
  split; [split|]; rewrite ?Hr; simpl.
  - intros sid ->%elem_of_singleton. by rewrite lookup_singleton_eq.
  - intros sid x [<- <-]%lookup_singleton_Some. done.
  - intros sid [x [<- _]%lookup_singleton_Some]. by apply elem_of_singleton.
Qed.

(** A session is made, the user keeps session 1, and its disconnection completes. *)
Definition sample_uses : list op :=
  [Use_AddNewSession; Use_hold 1].
Definition sample_completion : op :=
  Use_completion 1 (Some (SessionEvent 1 Disconnect, 0)).
Lemma sample_uses_return :
  returns (@apply_ops sample_os winsock2 AddrUtils.little_endian Session.default_virtuals
    sample_send sample_uses listening_world) = true /\
  returns (let! w := @apply_ops sample_os winsock2 AddrUtils.little_endian
      Session.default_virtuals sample_send sample_uses listening_world in
    @apply_op sample_os winsock2 AddrUtils.little_endian Session.default_virtuals sample_send
      sample_completion w) = true.
Proof. split; vm_compute; reflexivity. Qed.


(** Two sessions, one of which the user holds. *)
Definition second_session : Session.t :=
  Session.mk true 6 2 true (Session.mk_event Send None) [] (Session.mk_event Recv None)
    (Session.mk_event Disconnect None) (RecvBuffer.new 16) [] false.
Definition held_world : world :=
  mk (mk_server (Service.new Server (Some 7) (AddrUtils.GetTcpAddress [49] 8080) true 200) 10
        {[1; 2]} (Some (mk_listener 9 [None])) {[2]})
     {[1 := Session.demo_session; 2 := second_session]} 3 (mk_net [] 0).
Lemma held_wf : wf held_world.
Proof.
  assert (Hr : referenced held_world = {[1; 2]}) by (unfold referenced; simpl; set_solver).
  assert (Hh : forall sid x, heap held_world !! sid = Some x ->
    (sid = 1 \/ sid = 2) /\ Session._sessionId x = sid).
  { intros sid x. simpl. rewrite lookup_insert_Some, lookup_singleton_Some.
    intros [[<- <-]|[_ [<- <-]]]; auto. }
  split; [split|]; rewrite ?Hr.
  - intros sid [->%elem_of_singleton| ->%elem_of_singleton]%elem_of_union; by eexists.
  - intros sid x Hx. by apply Hh in Hx as [_ ?].
  - intros sid [x [[->| ->] _]%Hh]; set_solver.
Qed.

Lemma Stop_leaves_dangling_completions_witness :
  exists w', @Stop sample_os winsock2 held_world = Ret (true, w') /\
    @dispatch sample_os winsock2 Session.default_virtuals 1 (SessionEvent 1 Disconnect) 0 w' =
      Fault Dangling /\ is_Some (heap w' !! 2).
Proof.
  destruct (@Stop_leaves_dangling_completions sample_os winsock2 Session.default_virtuals
    held_world held_wf) as (w' & E & _ & _ & _ & _ & Hh & _ & _ & H).
  exists w'. split; [exact E|]. split.
  - apply H. cbn [held srv held_world]. by rewrite elem_of_singleton.
  - apply Hh. cbn [held srv held_world]. by rewrite elem_of_singleton.
Defined.

Lemma Start_checks_conditions_witness :
  @Start sample_os winsock2 AddrUtils.little_endian 1
    (set_srv (set_base (Service.set_onGoing true (base (srv sample_world))) (srv sample_world))
       sample_world) =
  Ret (false, set_nt (mk_net [] 2004)
    (set_srv (set_base (Service.set_onGoing true (base (srv sample_world))) (srv sample_world))
       sample_world)).
Proof.
  exact (@Start_checks_conditions sample_os winsock2 AddrUtils.little_endian 1
    (set_srv (set_base (Service.set_onGoing true (base (srv sample_world))) (srv sample_world))
       sample_world) APP_SERVICE_IS_ALREADY_STARTED eq_refl).
Defined.

Lemma RegisterAccept_never_gives_up_witness :
  @RegisterAccept failing_os winsock2 1000 0 listening_world = NoFuel.
Proof.
  refine (proj1 (@RegisterAccept_never_gives_up failing_os winsock2 listening_world 7
    (mk_listener 9 [None]) 0 eq_refl eq_refl eq_refl) _ _ 1000%nat).
  - intros lg h. discriminate.
  - intros lg a b p. split; [|discriminate]. intros [Hx|Hx]; [by apply Hx|discriminate].
Defined.

Lemma sample_good : @good_os sample_os winsock2 7.
Proof.
  split; try discriminate. intros lg a b p. right. reflexivity.
Qed.


Lemma failed_core_goes_unnoticed_witness :
  exists n', @IOCPCore.new (fun _ _ => (0, 6)) (mk_net [] 0) = Ret (0, n') /\ last_error n' = 0.
Proof.
  destruct (@IOCPCore.failed_core_goes_unnoticed (fun _ _ => (0, 6)) (mk_net [] 0) eq_refl)
    as (n' & E1 & E2 & _).
  exists n'. split; [exact E1|exact E2].
Defined.

Lemma ProcessAccept_ignores_getpeername_witness :
  let w := set_srv (set_listener (Some (mk_listener 9 [Some 1])) (srv listening_world)) listening_world in
  exists n, @ProcessAccept sample_os winsock2 Session.default_virtuals 1 0 w =
    (let! w := on_session 1 (@Session._set_connected server server_service sample_os winsock2
       Session.default_virtuals INVALID_SOCKET) (set_nt n w) in
     let! w := @RegisterAccept sample_os winsock2 1 0 w in @collect server server_owner sample_os winsock2 w).
Proof.
  intros w.
  destruct (@ProcessAccept_ignores_getpeername sample_os winsock2 Session.default_virtuals 1 0 w
    (mk_listener 9 [Some 1]) 1 Session.demo_session eq_refl eq_refl eq_refl ltac:(discriminate))
    as (n & E & _).
  exists n. exact E.
Defined.
End Server.
