(* ===== verification/Client.v ===== *)
(** Connector.h/.cpp, the client half of Service.h/.cpp, and ClientServiceEx.h/.cpp.
    A connector is proved against the interface of the client service that it
    connects for; the two client services implement it. *)
From S2P Require Import Prelude ErrorHandler RecvBuffer SocketUtils Session Heap.
Import Heap.Heap.
#[local] Open Scope Z_scope.

(** What a connector needs from its service beyond [ServiceOps]: the base class, and
    where [AddNewSession] puts the new session. *)
Class ClientOps (C : Type) `{ServiceOps C, Owner C} := {
  base : C -> Service.t;
  put_session : Z -> C -> C;
  put_owned sid c : sid ∈ owned (put_session sid c);
  put_base sid c : base (put_session sid c) = base c;
  service_type c : GetServiceType c = Service._serviceType (base c);
}.

Module Connector.
(** The object a [ConnectEvent] designates. *)
Inductive target := OfConnector | OfSession (sid : Z).
Record t := mk_connector {
  _session : option Z;
  _connectSocket : Z;
  _connectEvent : option target;
  _connected : bool;
}.
Definition set_event (e : option target) (c : t) : t :=
  mk_connector (_session c) (_connectSocket c) e (_connected c).

Section Connecting.
Context {C : Type} `{ClientOps C, OS, Winsock, Inet}.
Implicit Types w : world C.
Variable v : Session.virtuals C.

(** [AddNewSession()]: the session is stored first; a session it replaces goes. *)
Definition AddNewSession w : outcome (option Z * world C) :=
  if negb (Service._sessionFactory (base (srv w))) then Crash (last_error (nt w))
  else
    let! (session, sid', n) := Session.new (s_sid w) (nt w) in
    let! w := collect (mk (put_session (s_sid w) (srv w))
                         (<[s_sid w := session]> (heap w)) sid' n) in
    match Service._iocpCore (base (srv w)) with
    | None => Fault NullDeref
    | Some core =>
        let '(ok, n) := IOCPCore.RegisterHandle (Session._socket session) core (nt w) in
        if negb ok then Ret (None, set_nt n w)
        else Ret (Some (Session._sessionId session), set_nt n w)
    end.

(** The constructor. *)
Definition new w : outcome (t * world C) :=
  let! last := ErrorHandler.AssertCrash
    (match GetServiceType (srv w) with Client => true | _ => false end)
    APP_CONNECTOR_SERVICE_WAS_NOT_CLIENT (last_error (nt w)) in
  let! (socket, n) := SocketUtils.CreateSocket (set_last last (nt w)) in
  Ret (mk_connector None socket None false, set_nt n w).

(** [Connect()]; the comparison with [Errors::NONE] happens before the
    assignment to [errCode]. *)
Definition Connect (c : t) w : outcome (bool * t * world C) :=
  if _connected c then Ret (false, c, w)
  else
    match Service._iocpCore (base (srv w)) with
    | None => Fault NullDeref
    | Some core =>
        let '(ok, n) := IOCPCore.RegisterHandle (_connectSocket c) core (nt w) in
        if negb ok then Ret (false, c, set_nt n w)
        else
          let! (ok, n) := SocketUtils.SetReuseAddress (_connectSocket c) true n in
          if negb ok then Ret (false, c, set_nt n w)
          else
            let! (ok, n) := AddrUtils.BindAnyAddress (_connectSocket c) 0 n in
            if negb ok then Ret (false, c, set_nt n w)
            else
              let c := set_event (Some OfConnector) c in
              let '(suc, err, n) :=
                syscall (ConnectEx (_connectSocket c) (Service._addr (base (srv w)))) n in
              let '(r, n) := check_except_pending (negb (suc =? 0)) WSA_CONNECTEX_FAILED err n in
              if negb (r =? code ERR_NONE) then Ret (false, set_event None c, set_nt n w)
              else Ret (true, c, set_nt n w)
    end.

(** [_processConnect()]: [_session.lock()] is null when the session is gone. *)
Definition _processConnect (c : t) w : outcome (t * world C) :=
  let c := mk_connector (_session c) (_connectSocket c) (_connectEvent c) true in
  match _session c with
  | None => Fault NullDeref
  | Some sid =>
      match heap w !! sid with
      | None => Fault NullDeref
      | Some _ =>
          let! w := on_session sid (Session._set_connected v (_connectSocket c)) w in Ret (c, w)
      end
  end.

(** [Dispatch]. *)
Definition Dispatch (type : EventType) (c : t) w : outcome (t * world C) :=
  match type with
  | Session.Connect =>
      let! (s, w) := AddNewSession w in
      let c := mk_connector s (_connectSocket c)
                 (match s with Some sid => Some (OfSession sid) | None => None end) (_connected c) in
      _processConnect c w
  | _ => Ret (c, w)
  end.

(** ** Connecting *)
(** An operating system that lets a socket be registered, reused and bound. *)
Record binds (core : Z) : Prop := {
  os_registers lg h : registers (os_reply lg (CreateIoCompletionPort h core));
  os_options lg k o : (os_reply lg (setsockopt_SOL_SOCKET k o)).1 <> SOCKET_ERROR;
  os_bind lg k a : (os_reply lg (bind k a)).1 <> SOCKET_ERROR;
}.

Lemma except_pending_accepts suc err e (n : net) :
  accepts (suc, err) -> check_except_pending (negb (suc =? 0)) e err n = (code ERR_NONE, set_last (last_error n) n).
Proof.
  unfold accepts, check_except_pending, ErrorHandler.WSACheckErrorExceptPending. simpl.
  intros Hok. destruct (Z.eqb_spec suc 0) as [->|]; simpl; [|done].
  destruct Hok as [|Hp]; [done|]. apply Z.eqb_eq in Hp. by rewrite Hp.
Qed.
Lemma except_pending_fails suc err e (n : net) :
  ~ accepts (suc, err) ->
  check_except_pending (negb (suc =? 0)) e err n = (err, set_last (code e) n).
Proof.
  unfold accepts, check_except_pending, ErrorHandler.WSACheckErrorExceptPending. simpl.
  intros Hno. destruct (Z.eqb_spec suc 0) as [->|]; simpl; [|by destruct Hno; left].
  destruct (Z.eqb_spec err WSA_IO_PENDING); [by destruct Hno; right|done].
Qed.

(** [Connect] up to the answer of [ConnectEx]. *)
Lemma Connect_spec c w core :
  _connected c = false -> Service._iocpCore (base (srv w)) = Some core -> binds core ->
  exists r1 r2 r3 n, log n = log (nt w) ++
      [ASys (CreateIoCompletionPort (_connectSocket c) core) r1.1 r1.2;
       ASys (setsockopt_SOL_SOCKET (_connectSocket c) (SO_REUSEADDR true)) r2.1 r2.2;
       ASys (bind (_connectSocket c) (AddrUtils.GetMyAddress AddrUtils.ANY_PORT)) r3.1 r3.2] /\
    let q := ConnectEx (_connectSocket c) (Service._addr (base (srv w))) in
    let r := os_reply (log n) q in
    (accepts r -> exists n', Connect c w = Ret (true, set_event (Some OfConnector) c, set_nt n' w) /\
       log n' = log n ++ [ASys q r.1 r.2]) /\
    (~ accepts r -> r.2 <> 0 -> exists n', Connect c w = Ret (false, set_event None c, set_nt n' w) /\
       log n' = log n ++ [ASys q r.1 r.2] /\ last_error n' = code WSA_CONNECTEX_FAILED).
Proof.
  intros Hc Hcore [Hreg Hopt Hbind]. unfold Connect. rewrite Hc, Hcore.
  destruct (IOCPCore.RegisterHandle_ok (_connectSocket c) core (nt w) (Hreg _ _)) as (n1 & -> & L1).
  cbn [negb]. unfold SocketUtils.SetReuseAddress, AddrUtils.BindAnyAddress.
  destruct (SocketCalls.checked_eq (setsockopt_SOL_SOCKET (_connectSocket c) (SO_REUSEADDR true))
    WSA_SET_REUSEADDR_FAILED false n1) as (n2 & -> & L2 & _).
  rewrite (proj2 (Z.eqb_neq _ _) (Hopt _ _ _)). cbn [negb obind].
  destruct (SocketCalls.checked_eq (bind (_connectSocket c) (AddrUtils.GetMyAddress AddrUtils.ANY_PORT))
    WSA_BIND_ANYADDRESS_FAILED true n2) as (n3 & -> & L3 & _).
  rewrite (proj2 (Z.eqb_neq _ _) (Hbind _ _ _)). cbn [negb obind _connectSocket set_event].
  eexists _, _, _, n3. split; [rewrite L3, L2, L1, <- !app_assoc; reflexivity|].
  cbn zeta. unfold syscall. destruct (os_reply (log n3) _) as [suc err]. cbn [fst snd]. split.
  - intros Hok. rewrite except_pending_accepts by done. eexists. split; [reflexivity|done].
  - intros Hno Hne. rewrite except_pending_fails by done.
    rewrite (proj2 (Z.eqb_neq err (code ERR_NONE)) Hne). eexists. split; [reflexivity|done].
Qed.

(** [Connect] of a connector on a socket that can be registered and bound
    makes exactly the four calls register, reuse, bind to any address, [ConnectEx]
    to the service's address, in this order; it returns true, with its event
    designating the connector, when [ConnectEx] succeeds or is pending, and
    otherwise false, with the event cleared and the error recorded. *)
Theorem Connect_makes_four_calls c w core :
  _connected c = false -> Service._iocpCore (base (srv w)) = Some core -> binds core ->
  exists r1 r2 r3 r4 n', log n' = log (nt w) ++
      [ASys (CreateIoCompletionPort (_connectSocket c) core) r1.1 r1.2;
       ASys (setsockopt_SOL_SOCKET (_connectSocket c) (SO_REUSEADDR true)) r2.1 r2.2;
       ASys (bind (_connectSocket c) (AddrUtils.GetMyAddress AddrUtils.ANY_PORT)) r3.1 r3.2;
       ASys (ConnectEx (_connectSocket c) (Service._addr (base (srv w)))) r4.1 r4.2] /\
    (accepts r4 -> Connect c w = Ret (true, set_event (Some OfConnector) c, set_nt n' w)) /\
    (~ accepts r4 -> r4.2 <> 0 ->
       Connect c w = Ret (false, set_event None c, set_nt n' w) /\
       last_error n' = code WSA_CONNECTEX_FAILED).
Proof.
  intros Hc Hcore Hb. destruct (Connect_spec c w core Hc Hcore Hb) as (r1 & r2 & r3 & n & L & Hr).
  cbn zeta in Hr. set (r := os_reply (log n) _) in *. destruct Hr as [Hok Hno].
  exists r1, r2, r3, r.
  assert (Hdec : accepts r \/ ~ accepts r /\ (r.2 = 0 \/ r.2 <> 0)).
  { unfold accepts. destruct (Z.eq_dec r.1 0), (Z.eq_dec r.2 WSA_IO_PENDING), (Z.eq_dec r.2 0);
      tauto. }
  destruct Hdec as [Ha|[Ha [H0'|Hne]]].
  - destruct (Hok Ha) as (n' & E & L'). exists n'. by rewrite L', L, <- app_assoc.
  - exists (note (ASys (ConnectEx (_connectSocket c) (Service._addr (base (srv w)))) r.1 r.2) n).
    simpl. by rewrite L, <- app_assoc.
  - destruct (Hno Ha Hne) as (n' & E & L' & El). exists n'. by rewrite L', L, <- app_assoc.
Qed.

(** A session made by [AddNewSession], and what it replaced. *)
Lemma client_AddNewSession_eq w core :
  Service._sessionFactory (base (srv w)) = true ->
  Service._iocpCore (base (srv w)) = Some core ->
  exists x w1, Session._sessionId x = s_sid w /\ Session._connected x = false /\
    Session._recvBuffer x = RecvBuffer.new Session.RECV_BUFFER_SIZE /\
    srv w1 = put_session (s_sid w) (srv w) /\ heap w1 !! s_sid w = Some x /\
    let q := CreateIoCompletionPort (Session._socket x) core in
    let r := os_reply (log (nt w1)) q in
    (registers r -> exists n', AddNewSession w = Ret (Some (s_sid w), set_nt n' w1)) /\
    (~ registers r -> exists n', AddNewSession w = Ret (None, set_nt n' w1)).
Proof.
  intros Hf Hc. unfold AddNewSession. rewrite Hf. cbn [negb]. unfold Session.new.
  destruct (SocketCalls.CreateSocket_eq (nt w)) as (n & E & Hl). rewrite E. cbn [obind].
  match goal with |- context [collect (mk ?a (<[?k := ?y]> ?h) ?b ?m)] =>
    set (x := y); set (w0 := mk a (<[k := x]> h) b m) end.
  destruct (collect_ok w0) as (w1 & -> & E1 & E2 & E3 & _). cbn [obind].
  rewrite E1. cbn [srv w0]. rewrite put_base, Hc. exists x, w1.
  do 3 (split; [done|]). split; [done|]. split.
  { rewrite E3. rewrite decide_True by apply put_owned. unfold w0. simpl. by rewrite lookup_insert_eq. }
  cbn zeta. split; intros Hr.
  - destruct (IOCPCore.RegisterHandle_ok _ core (nt w1) Hr) as (n' & -> & _). cbn [negb]. eauto.
  - destruct (IOCPCore.RegisterHandle_fails (Session._socket x) core (nt w1)) as (n' & ->);
      [|cbn [negb]; eauto]. by destruct (Z.eq_dec (os_reply (log (nt w1))
        (CreateIoCompletionPort (Session._socket x) core)).1 IOCPCore.NULL); [|destruct Hr].
Qed.

(** [_set_connected] on a client's session, with a user who does nothing. *)
Lemma set_connected_client k x (s : C) n :
  GetServiceType s = Client -> k <> INVALID_SOCKET ->
  Session._recvBuffer x = RecvBuffer.new Session.RECV_BUFFER_SIZE ->
  exists y n' r, Session._set_connected Session.default_virtuals k (Session.mk_st x s n) =
      Ret (Session.mk_st y s n') /\
    Session._connected y = true /\ Session._socket y = k /\
    Session._sessionId y = Session._sessionId x /\
    log n' = log n ++ [ACall (Session._sessionId x) OnConnected;
                       ASys (WSARecv k Session.RECV_BUFFER_SIZE 0) r.1 r.2].
Proof.
  intros Ht Hk Hrb. apply Z.eqb_neq in Hk.
  unfold Session._set_connected, Session._set_socket, Session.on_ses, Session.set_net.
  cbn [Session.ses Session.svc Session.nets]. rewrite Hk, Ht. cbn [negb].
  rewrite Service.check_eq by done. cbn [negb Session.ses Session.svc Session.nets].
  unfold Session.default_virtuals, Session.call, Session.set_net. cbn [Session.v_OnConnected obind].
  unfold Session._register_recv, Session.on_ses.
  cbn [Session.ses Session.svc Session.nets Session._connected Session.set_connected_field negb
    Session._recvBuffer Session.set_recvEvent Session.set_socket_field Session.set_service].
  rewrite Hrb.
  assert (EF : RecvBuffer.FreeSize (RecvBuffer.new Session.RECV_BUFFER_SIZE) = Session.RECV_BUFFER_SIZE)
    by (vm_compute; reflexivity).
  assert (EW : RecvBuffer.WritePos (RecvBuffer.new Session.RECV_BUFFER_SIZE) = Ret 0)
    by (vm_compute; reflexivity).
  rewrite EF, EW. cbn [obind]. rewrite Session.sys_of_eq.
  match goal with |- context [os_reply ?a ?b] => set (r := os_reply a b) end.
  eexists _, _, r. split; [reflexivity|]. do 3 (split; [done|]). simpl. by rewrite <- app_assoc.
Qed.

(** When the connection is established but the new session's handle cannot be
    registered, [AddNewSession] returns null, the connector is marked connected,
    and [_processConnect] calls a member function of the null session. *)
Theorem connection_without_session_crashes c w core :
  Service._sessionFactory (base (srv w)) = true ->
  Service._iocpCore (base (srv w)) = Some core ->
  (forall lg h, ~ registers (os_reply lg (CreateIoCompletionPort h core))) ->
  Dispatch Session.Connect c w = Fault NullDeref.
Proof.
  intros Hf Hc Hreg.
  destruct (client_AddNewSession_eq w core Hf Hc) as (x & w1 & _ & _ & _ & _ & _ & _ & Hr).
  destruct (Hr (Hreg _ _)) as (n' & E). unfold Dispatch. by rewrite E.
Qed.
End Connecting.
End Connector.

(** ** The two client services *)
Module ClientService.
Definition MAX_SESSION_COUNT : Z := 1.
Record t := mk_client {
  _base : Service.t;
  _session : option Z;
  _connector : option Connector.t;
}.
Definition set_base b (s : t) : t := mk_client b (_session s) (_connector s).
Definition set_session x (s : t) : t := mk_client (_base s) x (_connector s).
Definition set_connector c (s : t) : t := mk_client (_base s) (_session s) c.
Definition new (iocpCore : option Z) (addr : SOCKADDR_IN) (sessionFactory : bool) : t :=
  mk_client (Service.new Client iocpCore addr sessionFactory MAX_SESSION_COUNT) None None.

(** [ReleaseSession(session)] drops whatever session there is. *)
#[export] Instance client_service : ServiceOps t := {|
  GetServiceType s := Service._serviceType (_base s);
  ReleaseSession _ s :=
    match _session s with None => (false, s) | Some _ => (true, set_session None s) end;
|}.
#[export] Instance client_owner : Owner t := {|
  owned s := match _session s with Some sid => {[sid]} | None => ∅ end |}.
#[export, refine] Instance client_ops : ClientOps t := {|
  base := _base; put_session sid s := set_session (Some sid) s |}.
Proof. all: simpl; intros; done || set_solver. Defined.

Section OneSession.
Context `{OS, Winsock, Inet}.
Implicit Types w : world t.
Variable v : Session.virtuals t.
(** [Session::Send]. *)
Definition sender : Type := Z -> list Z -> Session.st t -> outcome (Session.st t).

(** [Start()]. *)
Definition Start w : outcome (bool * world t) :=
  let '(ok, n) := Service.check_all (Service.checks (_base (srv w))) (nt w) in
  let w := set_nt n w in
  if negb ok then Ret (false, w)
  else
    let! (c, w) := Connector.new w in
    let w := set_srv (set_connector (Some c) (srv w)) w in
    let! (suc, c, w) := Connector.Connect c w in
    let w := set_srv (set_connector (Some c) (srv w)) w in
    let '(ok, n) := check suc APP_CLIENTSERVICE_CONNECT_FAILED (nt w) in
    let w := set_nt n w in
    if negb ok then Ret (false, w)
    else Ret (true, set_srv (set_base (Service.set_onGoing true (_base (srv w))) (srv w)) w).

Definition ReleaseAllSessions w : outcome (world t) :=
  collect (set_srv (set_session None (srv w)) w).

(** [Stop()]; the connector's destructor does not close its socket. *)
Definition Stop w : outcome (bool * world t) :=
  let w := set_srv (set_connector None (srv w)) w in
  let! w := ReleaseAllSessions w in
  Ret (true, set_srv (set_base (Service.set_onGoing false (_base (srv w))) (srv w)) w).

Definition connected_session w : option Z :=
  match _session (srv w) with
  | Some sid =>
      match heap w !! sid with
      | Some x => if Session._connected x then Some sid else None
      | None => None
      end
  | None => None
  end.
Definition Send_ (send : sender) (id : Z) (data : list Z) w : outcome (world t) :=
  match connected_session w with
  | Some sid => let! w := on_session sid (send id data) w in collect w
  | None => Ret w
  end.
Definition GetCurrentSessionCount w : Z :=
  match connected_session w with Some _ => 1 | None => 0 end.

(** A completion: of the connector's event, or of an event in a session. *)
Inductive event_ref := ConnectEvent | SessionEvent (sid : Z) (type : EventType).
Definition dispatch (e : event_ref) (n : Z) w : outcome (world t) :=
  match e with
  | ConnectEvent =>
      match _connector (srv w) with
      | None => Fault Dangling
      | Some c =>
          let! (c, w) := Connector.Dispatch v Session.Connect c w in
          collect (set_srv (set_connector (Some c) (srv w)) w)
      end
  | SessionEvent sid type =>
      match heap w !! sid with
      | None => Fault Dangling
      | Some _ => let! w := on_session sid (Session.Dispatch v type n) w in collect w
      end
  end.
End OneSession.

Section Connected.
Context `{OS, Winsock, Inet}.
Implicit Types w : world t.

(** A connection that completes puts the connector's socket into the session:
    the session is connected and receives on it, and the socket that the session's
    constructor made and [AddNewSession] registered is overwritten and never closed. *)
Theorem connected_session_loses_its_socket c w core n :
  Connector.binds core -> _connector (srv w) = Some c -> _session (srv w) = None -> heap w = ∅ ->
  Service._sessionFactory (_base (srv w)) = true ->
  Service._iocpCore (_base (srv w)) = Some core ->
  Service._serviceType (_base (srv w)) = Client ->
  Connector._connectSocket c <> INVALID_SOCKET ->
  exists w' y r1 r2 r3, dispatch Session.default_virtuals ConnectEvent n w = Ret w' /\
    _session (srv w') = Some (s_sid w) /\ heap w' = {[s_sid w := y]} /\
    Session._connected y = true /\ Session._socket y = Connector._connectSocket c /\
    GetCurrentSessionCount w' = 1 /\
    log (nt w') = log (nt w) ++
      [ASys WSASocketW r1.1 r1.2; ASys (CreateIoCompletionPort r1.1 core) r2.1 r2.2;
       ACall (s_sid w) OnConnected;
       ASys (WSARecv (Connector._connectSocket c) Session.RECV_BUFFER_SIZE 0) r3.1 r3.2].
Proof.
  intros [Hreg _ _] Hc Hs Hh Hf Hcore Ht Hk. unfold dispatch. rewrite Hc.
  cbn [Connector.Dispatch]. unfold Connector.AddNewSession. cbn [base client_ops].
  rewrite Hf. cbn [negb]. unfold Session.new.
  destruct (SocketCalls.CreateSocket_eq (nt w)) as (n1 & -> & L1). cbn [obind].
  match goal with |- context [collect (mk ?a (<[?i := ?y]> ?h) ?b ?m)] =>
    set (x := y); rewrite (collect_none (mk a (<[i := x]> h) b m)) end.
  2: { intros sid [y Hy]. simpl in Hy. rewrite Hh in Hy. unfold referenced. simpl.
       apply lookup_insert_Some in Hy as [[<- _]|[_ Hy]]; [by apply elem_of_singleton|done]. }
  cbn [obind srv]. cbn [base client_ops put_session set_session _base]. rewrite Hcore. cbn [nt].
  destruct (IOCPCore.RegisterHandle_ok (Session._socket x) core n1 (Hreg _ _)) as (n2 & -> & L2).
  cbn [negb obind]. unfold Connector._processConnect. cbn [Connector._session heap set_nt].
  change (Session._sessionId x) with (s_sid w). rewrite lookup_insert_eq.
  unfold on_session, set_nt. cbn [heap]. rewrite lookup_insert_eq. cbn [srv nt s_sid Connector._connectSocket].
  assert (Ht' : GetServiceType (set_session (Some (s_sid w)) (srv w)) = Client) by exact Ht.
  destruct (Connector.set_connected_client (Connector._connectSocket c) x _ n2 Ht' Hk eq_refl) as (y & n3 & r & -> & Ey1 & Ey2 & Ey3 & L3).
  cbn [obind Session.svc Session.ses Session.nets]. unfold set_srv. cbn [srv heap s_sid nt].
  rewrite collect_none.
  2: { intros sid [z Hz]. simpl in Hz. rewrite Hh in Hz. unfold referenced. simpl.
       rewrite insert_insert_eq in Hz.
       apply lookup_insert_Some in Hz as [[<- _]|[_ Hz]]; [by apply elem_of_singleton|done]. }
  eexists _, y, _, _, r. split; [reflexivity|]. split; [done|]. cbn [heap nt]. split.
  { by rewrite insert_insert_eq, Hh. }
  split; [done|]. split; [done|]. split.
  { unfold GetCurrentSessionCount, connected_session. simpl.
    by rewrite insert_insert_eq, lookup_insert_eq, Ey1. }
  rewrite L3, L2, L1, <- !app_assoc. reflexivity.
Qed.
End Connected.

Lemma connected_session_loses_its_socket_witness :
  let w := mk (mk_client (Service.new Client (Some 7) (mk_addr 2 80 1) true 1) None
             (Some (Connector.mk_connector None 11 (Some Connector.OfConnector) false)))
           ∅ 1 (mk_net [] 0) in
  exists w' y, @dispatch (fun _ _ => (7, 0)) winsock2 Session.default_virtuals ConnectEvent 0 w = Ret w' /\
    heap w' = {[1 := y]} /\ Session._socket y = 11 /\ Session._connected y = true.
Proof.
  intros w.
  assert (Hb : @Connector.binds (fun _ _ => (7, 0)) winsock2 7) by (by split).
  destruct (@connected_session_loses_its_socket (fun _ _ => (7, 0)) winsock2
    (Connector.mk_connector None 11 (Some Connector.OfConnector) false) w 7 0 Hb eq_refl eq_refl
    eq_refl eq_refl eq_refl eq_refl ltac:(discriminate))
    as (w' & y & _ & _ & _ & E & _ & E1 & E2 & E3 & _).
  exists w', y. split; [exact E|]. split; [exact E1|]. split; [exact E3|exact E2].
Defined.
End ClientService.

Module ClientServiceEx.
Record t := mk_client {
  _base : Service.t;
  _sessions : list (option Z);
  _connectors : list Connector.t;
}.
Definition set_base b (s : t) : t := mk_client b (_sessions s) (_connectors s).
Definition set_sessions l (s : t) : t := mk_client (_base s) l (_connectors s).
Definition set_connectors l (s : t) : t := mk_client (_base s) (_sessions s) l.
Definition new (iocpCore : option Z) (addr : SOCKADDR_IN) (sessionFactory : bool)
    (sessionCount : Z) : t :=
  mk_client (Service.new Client iocpCore addr sessionFactory sessionCount) [] [].
Definition GetCurrentSessionCount (s : t) : Z := Service.MAX_SESSION_COUNT (_base s).

(** [find] and the reset of the first match. *)
Fixpoint release (sid : Z) (l : list (option Z)) : bool * list (option Z) :=
  match l with
  | [] => (false, [])
  | s :: l =>
      if decide (s = Some sid) then (true, None :: l)
      else let '(b, l) := release sid l in (b, s :: l)
  end.
#[export] Instance client_service : ServiceOps t := {|
  GetServiceType s := Service._serviceType (_base s);
  ReleaseSession sid s := let '(b, l) := release sid (_sessions s) in (b, set_sessions l s);
|}.
#[export] Instance client_owner : Owner t := {|
  owned s := list_to_set (omap id (_sessions s)) |}.
#[export, refine] Instance client_ops : ClientOps t := {|
  base := _base; put_session sid s := set_sessions (_sessions s ++ [Some sid]) s |}.
Proof.
  - intros sid c. simpl. rewrite omap_app. simpl. set_solver.
  - done.
  - done.
Defined.

Section ManySessions.
Context `{OS, Winsock, Inet}.
Implicit Types w : world t.
Variable v : Session.virtuals t.
Definition sender : Type := Z -> list Z -> Session.st t -> outcome (Session.st t).

(** The loop of [Start]: [k] more connectors; false when one could not connect. *)
Fixpoint connect_loop (k : nat) w : outcome (bool * world t) :=
  match k with
  | O => Ret (true, w)
  | S k =>
      let! (c, w) := Connector.new w in
      let! (suc, c, w) := Connector.Connect c w in
      let w := set_srv (set_connectors (_connectors (srv w) ++ [c]) (srv w)) w in
      let '(ok, n) := check suc APP_CLIENTSERVICE_CONNECT_FAILED (nt w) in
      let w := set_nt n w in
      if negb ok then Ret (false, w) else connect_loop k w
  end.
Definition Start w : outcome (bool * world t) :=
  let '(ok, n) := Service.check_all (Service.checks (_base (srv w))) (nt w) in
  let w := set_nt n w in
  if negb ok then Ret (false, w)
  else
    let! (suc, w) := connect_loop (Z.to_nat (Service.MAX_SESSION_COUNT (_base (srv w)))) w in
    if negb suc then Ret (false, w)
    else Ret (true, set_srv (set_base (Service.set_onGoing true (_base (srv w))) (srv w)) w).

Definition ReleaseAllSessions w : outcome (world t) :=
  collect (set_srv (set_sessions [] (srv w)) w).
Definition Stop w : outcome (bool * world t) :=
  let w := set_srv (set_connectors [] (srv w)) w in
  let! w := ReleaseAllSessions w in
  Ret (true, set_srv (set_base (Service.set_onGoing false (_base (srv w))) (srv w)) w).

(** [DisconnectAll()]: [s->Disconnect()] for every element, null or not. *)
Fixpoint disconnect_loop (l : list (option Z)) w : outcome (world t) :=
  match l with
  | [] => Ret w
  | None :: _ => Fault NullDeref
  | Some sid :: l =>
      let! w := on_session sid (fun s => Ret (Session.Disconnect_ s).2) w in disconnect_loop l w
  end.
Definition DisconnectAll w : outcome (world t) := disconnect_loop (_sessions (srv w)) w.

(** [Send(id, ptr, size)]: null and unconnected sessions are skipped. *)
Fixpoint send_loop (send : sender) (id : Z) (data : list Z) (l : list (option Z)) w
  : outcome (world t) :=
  match l with
  | [] => Ret w
  | None :: l => send_loop send id data l w
  | Some sid :: l =>
      let! w := on_session sid (fun s =>
        if Session._connected (Session.ses s) then send id data s else Ret s) w in
      send_loop send id data l w
  end.
Definition Send (send : sender) (id : Z) (data : list Z) w : outcome (world t) :=
  let! w := send_loop send id data (_sessions (srv w)) w in collect w.

Inductive event_ref := ConnectEvent (k : nat) | SessionEvent (sid : Z) (type : EventType).
Definition dispatch (e : event_ref) (n : Z) w : outcome (world t) :=
  match e with
  | ConnectEvent k =>
      match _connectors (srv w) !! k with
      | None => Fault Dangling
      | Some c =>
          let! (c, w) := Connector.Dispatch v Session.Connect c w in
          collect (set_srv (set_connectors (<[k := c]> (_connectors (srv w))) (srv w)) w)
      end
  | SessionEvent sid type =>
      match heap w !! sid with
      | None => Fault Dangling
      | Some _ => let! w := on_session sid (Session.Dispatch v type n) w in collect w
      end
  end.

(** ** Sessions that were released *)
Lemma release_spec sid l :
  Some sid ∈ l -> exists a b, l = a ++ Some sid :: b /\ release sid l = (true, a ++ None :: b).
Proof.
  induction l as [|s l IH]; [by intros ?%not_elem_of_nil|]. intros Hin. simpl.
  destruct (decide (s = Some sid)) as [->|Hne]; [by exists [], l|].
  apply elem_of_cons in Hin as [Hs|Hin]; [congruence|].
  destruct (IH Hin) as (a & b & -> & ->). by exists (s :: a), b.
Qed.

Lemma disconnect_loop_null l : forall w,
  None ∈ l -> (forall sid, Some sid ∈ l -> is_Some (heap w !! sid)) ->
  disconnect_loop l w = Fault NullDeref.
Proof.
  induction l as [|s l IH]; intros w Hn Hal; [by apply not_elem_of_nil in Hn|].
  destruct s as [sid|]; [|done]. cbn [disconnect_loop]. unfold on_session.
  destruct (Hal sid) as [x Hx]; [by left|]. rewrite Hx. cbn [obind].
  apply IH; [by apply elem_of_cons in Hn as [|]|]. intros i Hi. simpl.
  destruct (decide (i = sid)) as [->|]; [by rewrite lookup_insert_eq|].
  rewrite lookup_insert_ne by done. apply Hal. by right.
Qed.

(** [ReleaseSession] of a client with many sessions leaves a null pointer in
    [_sessions], and from then on [DisconnectAll] dereferences it. *)
Theorem DisconnectAll_after_release_crashes w sid :
  wf0 w -> Some sid ∈ _sessions (srv w) ->
  exists s', ReleaseSession sid (srv w) = (true, s') /\
    length (_sessions s') = length (_sessions (srv w)) /\
    DisconnectAll (set_srv s' w) = Fault NullDeref.
Proof.
  intros Hw Hin. destruct (release_spec sid _ Hin) as (a & b & El & Er).
  simpl. rewrite Er. eexists. split; [reflexivity|]. simpl. rewrite El, !length_app.
  split; [done|]. apply disconnect_loop_null.
  - simpl. apply elem_of_app. right. by left.
  - intros i Hi. apply (wf_alive w Hw). unfold referenced. simpl in *.
    rewrite elem_of_list_to_set, list_elem_of_omap. exists (Some i). split; [|done].
    rewrite El. apply elem_of_app in Hi as [Hi|Hi]; [apply elem_of_app; by left|].
    apply elem_of_cons in Hi as [|Hi]; [done|]. apply elem_of_app. right. by right.
Qed.

(** ** Starting *)
Definition is_ConnectEx (a : act) : bool :=
  match a with ASys (ConnectEx _ _) _ _ => true | _ => false end.
Definition count_ConnectEx (l : list act) : nat := length (List.filter is_ConnectEx l).
Lemma count_ConnectEx_app a b :
  count_ConnectEx (a ++ b) = (count_ConnectEx a + count_ConnectEx b)%nat.
Proof. unfold count_ConnectEx. by rewrite List.filter_app, length_app. Qed.

Lemma connect_loop_ok core k :
  Connector.binds core -> (forall lg s a, accepts (os_reply lg (ConnectEx s a))) -> forall w,
  Service._iocpCore (_base (srv w)) = Some core ->
  Service._serviceType (_base (srv w)) = Client ->
  exists w' cs, connect_loop k w = Ret (true, w') /\ _base (srv w') = _base (srv w) /\
    _sessions (srv w') = _sessions (srv w) /\ heap w' = heap w /\
    _connectors (srv w') = _connectors (srv w) ++ cs /\ length cs = k /\
    Forall (fun c => Connector._connectEvent c = Some Connector.OfConnector /\
                     Connector._connected c = false) cs /\
    count_ConnectEx (log (nt w')) = (count_ConnectEx (log (nt w)) + k)%nat.
Proof.
  intros Hb Hacc. induction k as [|k IH]; intros w Hcore Ht.
  { exists w, []. rewrite app_nil_r. repeat (split; [done|]). by rewrite Nat.add_0_r. }
  cbn [connect_loop]. unfold Connector.new.
  change (GetServiceType (srv w)) with (Service._serviceType (_base (srv w))). rewrite Ht.
  cbn [ErrorHandler.AssertCrash negb obind].
  destruct (SocketCalls.CreateSocket_eq (set_last (last_error (nt w)) (nt w))) as (n1 & -> & L1).
  cbn [obind]. set (c := Connector.mk_connector None _ None false).
  assert (Hcore' : Service._iocpCore (base (srv (set_nt n1 w))) = Some core) by exact Hcore.
  destruct (Connector.Connect_spec c (set_nt n1 w) core eq_refl Hcore' Hb)
    as (r1 & r2 & r3 & n2 & L2 & Hok & _). cbn zeta in Hok.
  destruct (Hok (Hacc _ _ _)) as (n3 & -> & L3). cbn [obind].
  rewrite Service.check_eq by done. cbn [negb].
  match goal with |- context [connect_loop k ?u] => set (w1 := u) end.
  destruct (IH w1 Hcore Ht) as (w' & cs & -> & E1 & E2 & E3 & E4 & E5 & E6 & E7).
  exists w', (Connector.set_event (Some Connector.OfConnector) c :: cs).
  split; [done|]. split; [done|]. split; [done|]. split; [done|]. split.
  { rewrite E4. simpl. by rewrite <- app_assoc. }
  split; [simpl; by rewrite E5|]. split; [by constructor|].
  rewrite E7. simpl. rewrite L3, count_ConnectEx_app, L2, count_ConnectEx_app. simpl.
  rewrite L1, count_ConnectEx_app. unfold count_ConnectEx. simpl. lia.
Qed.

(** [Start] of a client with many sessions whose conditions hold and whose calls
    succeed: it returns true and has posted one [ConnectEx] for each of
    [MAX_SESSION_COUNT] new connectors; no session exists yet, but
    [GetCurrentSessionCount] already says [MAX_SESSION_COUNT]. *)
Theorem Start_connects_all w core :
  Connector.binds core -> (forall lg s a, accepts (os_reply lg (ConnectEx s a))) ->
  Service.first_failure (_base (srv w)) = None ->
  Service._iocpCore (_base (srv w)) = Some core ->
  Service._serviceType (_base (srv w)) = Client -> _connectors (srv w) = [] ->
  0 <= Service.MAX_SESSION_COUNT (_base (srv w)) ->
  exists w', Start w = Ret (true, w') /\ Service._onGoing (_base (srv w')) = true /\
    zlen (_connectors (srv w')) = Service.MAX_SESSION_COUNT (_base (srv w)) /\
    Forall (fun c => Connector._connectEvent c = Some Connector.OfConnector /\
                     Connector._connected c = false) (_connectors (srv w')) /\
    count_ConnectEx (log (nt w')) = (count_ConnectEx (log (nt w)) +
      Z.to_nat (Service.MAX_SESSION_COUNT (_base (srv w))))%nat /\
    _sessions (srv w') = _sessions (srv w) /\
    GetCurrentSessionCount (srv w') = Service.MAX_SESSION_COUNT (_base (srv w)).
Proof.
  intros Hb Hacc Hff Hcore Ht Hcs Hmax. unfold Start. rewrite Service.check_all_eq, Hff.
  cbn [negb].
  destruct (connect_loop_ok core (Z.to_nat (Service.MAX_SESSION_COUNT (_base (srv w)))) Hb Hacc
    (set_nt (nt w) w) Hcore Ht) as (w' & cs & E & E1 & E2 & E3 & E4 & E5 & E6 & E7).
  cbn [srv set_nt]. rewrite E. cbn [obind negb]. eexists. split; [reflexivity|]. simpl.
  simpl in E4. rewrite Hcs in E4. simpl in E4. rewrite E4. split; [done|]. split.
  { unfold zlen. rewrite E5. lia. }
  split; [done|]. split; [done|]. split; [done|].
  unfold GetCurrentSessionCount. simpl. by rewrite E1.
Qed.
End ManySessions.

(** ** Samples *)
Definition sample_os : OS := fun lg q =>
  match q with
  | WSASocketW => (Z.of_nat (length lg) + 5, 0)
  | AcceptEx _ _ _ | ConnectEx _ _ | DisconnectEx _ => (0, 997)
  | CreateIoCompletionPort_new | CreateIoCompletionPort _ _ => (7, 0)
  | _ => (0, 0)
  end.
Definition no_port_os : OS := fun lg q =>
  match q with CreateIoCompletionPort _ _ => (0, 6) | _ => sample_os lg q end.
Lemma sample_binds core : @Connector.binds sample_os winsock2 core.
Proof. by split. Qed.
Lemma sample_accepts lg s a : @accepts winsock2 (sample_os lg (ConnectEx s a)).
Proof. right. reflexivity. Qed.

Definition sample : world t :=
  mk (new (Some 7) (AddrUtils.GetTcpAddress [49] 8080) true 20) ∅ 1 (mk_net [] 0).
Definition sample_connector : Connector.t := Connector.mk_connector None 11 None false.

Lemma Connect_makes_four_calls_witness :
  exists r1 r2 r3 r4 n', log n' =
      [ASys (CreateIoCompletionPort 11 7) (fst r1) (snd r1);
       ASys (setsockopt_SOL_SOCKET 11 (SO_REUSEADDR true)) (fst r2) (snd r2);
       ASys (bind 11 (mk_addr 2 0 0)) (fst r3) (snd r3);
       ASys (ConnectEx 11 (Service._addr (_base (srv sample)))) (fst r4) (snd r4)] /\
    (@accepts winsock2 r4 ->
     @Connector.Connect t client_service client_owner client_ops sample_os winsock2
       AddrUtils.little_endian sample_connector sample =
     Ret (true, Connector.set_event (Some Connector.OfConnector) sample_connector, set_nt n' sample)).
Proof.
  destruct (@Connector.Connect_makes_four_calls t client_service client_owner client_ops sample_os
    winsock2 AddrUtils.little_endian sample_connector sample 7 eq_refl eq_refl (sample_binds 7))
    as (r1 & r2 & r3 & r4 & n' & L & Hok & _).
  exists r1, r2, r3, r4, n'. split; [exact L|exact Hok].
Defined.

Lemma connection_without_session_crashes_witness :
  @Connector.Dispatch t client_service client_owner client_ops no_port_os winsock2 Session.default_virtuals Session.Connect
    sample_connector sample = Fault NullDeref.
Proof.
  apply (@Connector.connection_without_session_crashes t client_service client_owner client_ops no_port_os winsock2
    Session.default_virtuals sample_connector sample 7 eq_refl eq_refl).
  intros lg h Hr. by apply Hr.
Defined.

Lemma Start_connects_all_witness :
  exists w', @Start sample_os winsock2 AddrUtils.little_endian sample = Ret (true, w') /\
    count_ConnectEx (log (nt w')) = 20%nat /\ GetCurrentSessionCount (srv w') = 20.
Proof.
  destruct (@Start_connects_all sample_os winsock2 AddrUtils.little_endian sample 7 (sample_binds 7)
    sample_accepts eq_refl eq_refl eq_refl eq_refl ltac:(discriminate))
    as (w' & E & _ & _ & _ & E1 & _ & E2).
  exists w'. split; [exact E|]. split; [exact E1|exact E2].
Defined.

Definition sample2 : world t :=
  mk (set_sessions [Some 1] (srv sample)) {[1 := Session.demo_session]} 2 (mk_net [] 0).
Lemma DisconnectAll_after_release_crashes_witness :
  exists s', ReleaseSession 1 (srv sample2) = (true, s') /\
    @DisconnectAll sample_os winsock2 (set_srv s' sample2) = Fault NullDeref.
Proof.
  assert (Hw : wf0 sample2).
  { split; simpl.
    - intros sid Hs. unfold referenced in Hs. simpl in Hs.
      assert (sid = 1) as -> by set_solver. by rewrite lookup_singleton_eq.
    - intros sid x [<- <-]%lookup_singleton_Some. done. }
  destruct (@DisconnectAll_after_release_crashes sample_os winsock2 sample2 1 Hw)
    as (s' & E1 & _ & E2); [by left|].
  exists s'. split; [exact E1|exact E2].
Defined.
End ClientServiceEx.
