(* ===== verification/Startup.v ===== *)
(** TestServer.cpp and TestClient.cpp: what the two [main]s do between [InitNetCore]
    and their first thread, composed of the constructors and the [Start]s of the
    library. *)
From S2P Require Import Prelude ErrorHandler RecvBuffer SocketUtils Session Heap Server Client.
Import Heap.Heap.
#[local] Open Scope Z_scope.

Module Startup.
(** The text 127.0.0.1 and the port, the same in both programs. *)
Definition IP : list Z := [49; 50; 55; 46; 48; 46; 48; 46; 49].
Definition PORT : Z := 8900.
Definition SERVER_SESSION_COUNT : Z := 100.
Definition SERVER_BACK_LOG : Z := 100.
Definition CLIENT_SESSION_COUNT : Z := 10.

Section Startup.
Context `{OS, Winsock, Inet}.

(** [TestServer]: [None] is the [return -1]. The session manager's function makes
    every session, so the factory is there; the session count is passed where the
    constructor's definition has the backlog. *)
Definition server_start (fuel : nat) (n : net) : outcome (option (world Server.server)) :=
  let addr := AddrUtils.GetTcpAddress IP PORT in
  let! (core, n) := IOCPCore.new n in
  let server := Server.new (Some core) addr true SERVER_SESSION_COUNT SERVER_BACK_LOG in
  let! (started, w) := Server.Start fuel (mk server ∅ 1 n) in
  if Bool.eqb started false then Ret None else Ret (Some w).

(** [TestClient]; its first [sleep_for] has no effect here. *)
Definition client_start (n : net) : outcome (option (world ClientServiceEx.t)) :=
  let addr := AddrUtils.GetTcpAddress IP PORT in
  let! (core, n) := IOCPCore.new n in
  let client := ClientServiceEx.new (Some core) addr true CLIENT_SESSION_COUNT in
  let! (started, w) := ClientServiceEx.Start (mk client ∅ 1 n) in
  if Bool.eqb started false then Ret None else Ret (Some w).

(** The address of both programs passes the check of [Start]. *)
Lemma address_is_valid : AddrUtils.IsValid (AddrUtils.GetTcpAddress IP PORT) = true.
Proof.
  unfold AddrUtils.IsValid, AddrUtils.GetTcpAddress, AddrUtils.MAX_PORT. cbn [sin_family sin_port].
  assert (Hp : 0 <= PORT < 65536) by (unfold PORT; lia).
  pose proof (htons_range PORT Hp) as Hr. pose proof (ntohs_htons PORT Hp) as Hn.
  rewrite Z.eqb_refl. destruct (Z.eqb_spec (htons PORT) 0) as [E|E].
  { rewrite E in Hn. rewrite <- htons_0, ntohs_htons in Hn by lia. discriminate. }
  destruct (Z.ltb_spec 65535 (htons PORT)); [lia|done].
Qed.

Lemma core_ok n : (os_reply (log n) CreateIoCompletionPort_new).1 <> IOCPCore.INVALID_HANDLE_VALUE ->
  exists n', IOCPCore.new n = Ret ((os_reply (log n) CreateIoCompletionPort_new).1, n').
Proof.
  intros E. unfold IOCPCore.new, syscall. destruct (os_reply (log n) _) as [h e].
  cbn [fst] in *. apply Z.eqb_neq in E. rewrite E. eauto.
Qed.

(** With calls that succeed the server program gets to its threads: it listens, and
    the sessions 1 to 100 wait in its accept events. *)
Theorem server_start_arms_accepts fuel n core :
  (os_reply (log n) CreateIoCompletionPort_new).1 = core -> core <> IOCPCore.INVALID_HANDLE_VALUE ->
  Server.good_os core ->
  exists w l, server_start (S fuel) n = Ret (Some w) /\
    Server._listener (srv w) = Some l /\ Server._acceptEvents l = Some <$> seqZ 1 100 /\
    forall sid x, heap w !! sid = Some x -> Session._connected x = false.
Proof.
  intros <- Hi Hos. unfold server_start. destruct (core_ok n Hi) as (n' & ->). cbn [obind].
  match goal with |- context [Server.Start _ ?u] => set (w0 := u) end.
  assert (Hff : Service.first_failure (Server.base (srv w0)) = None).
  { unfold Service.first_failure, Service.checks. simpl. by rewrite address_is_valid. }
  destruct (Server.Start_ok fuel w0 _ Hos Hff eq_refl eq_refl eq_refl eq_refl eq_refl
    ltac:(simpl; lia) ltac:(simpl; lia)) as (w & l & -> & _ & E1 & E2 & _ & E3).
  exists w, l. done.
Qed.

(** The client program likewise: ten connectors, each with one [ConnectEx] made. *)
Theorem client_start_connects n core :
  (os_reply (log n) CreateIoCompletionPort_new).1 = core -> core <> IOCPCore.INVALID_HANDLE_VALUE ->
  Connector.binds core -> (forall lg s a, accepts (os_reply lg (ConnectEx s a))) ->
  exists w, client_start n = Ret (Some w) /\ zlen (ClientServiceEx._connectors (srv w)) = 10 /\
    ClientServiceEx._sessions (srv w) = [].
Proof.
  intros <- Hi Hb Hacc. unfold client_start. destruct (core_ok n Hi) as (n' & ->). cbn [obind].
  match goal with |- context [ClientServiceEx.Start ?u] => set (w0 := u) end.
  assert (Hff : Service.first_failure (ClientServiceEx._base (srv w0)) = None).
  { unfold Service.first_failure, Service.checks. simpl. by rewrite address_is_valid. }
  destruct (ClientServiceEx.Start_connects_all w0 _ Hb Hacc Hff eq_refl eq_refl eq_refl
    ltac:(discriminate)) as (w & -> & _ & E1 & _ & _ & E2 & _).
  exists w. done.
Qed.
End Startup.

Lemma server_start_arms_accepts_witness :
  exists w, @server_start Server.sample_os winsock2 AddrUtils.little_endian 1 (mk_net [] 0) = Ret (Some w).
Proof.
  destruct (@server_start_arms_accepts Server.sample_os winsock2 AddrUtils.little_endian 0 (mk_net [] 0)
    7 eq_refl ltac:(discriminate) Server.sample_good) as (w & l & E & _).
  exists w. exact E.
Defined.

Lemma client_start_connects_witness :
  exists w, @client_start ClientServiceEx.sample_os winsock2 AddrUtils.little_endian (mk_net [] 0) = Ret (Some w) /\
    zlen (ClientServiceEx._connectors (srv w)) = 10.
Proof.
  destruct (@client_start_connects ClientServiceEx.sample_os winsock2 AddrUtils.little_endian (mk_net [] 0)
    7 eq_refl ltac:(discriminate) (ClientServiceEx.sample_binds _) ClientServiceEx.sample_accepts)
    as (w & E & E1 & _).
  exists w. split; [exact E|exact E1].
Defined.
End Startup.
