(* ===== verification/Pipeline.v ===== *)
(** The programs end to end: what is typed at a client is printed by the server.
    Sender and receiver are the functions of App.v on the library's sessions; between
    them are the bytes that the buffers given to [WSASend] designate. *)
From S2P Require Import Prelude ErrorHandler RecvBuffer SendBuffer Packet PacketSession.
From S2P Require Import SocketUtils Session Heap Names FlatBuffers TestPacket App Server Client.
Import PacketSession.PacketSession.
#[local] Open Scope Z_scope.

(** ** The receiver *)
Section Receiver.
Context {C S : Type} `{FlatBuffers, ServiceOps C, OS, Winsock, SendStore S}.
Implicit Types s : Session.st (program C S).

(** The kernel stores the bytes of a completed receive where [WSARecv] was told to. *)
Definition store_received (d : list Z) (x : Session.t) : Session.t :=
  Session.mk (Session._service x) (Session._socket x) (Session._sessionId x)
    (Session._connected x) (Session._sendEvent x) (Session._segments x) (Session._recvEvent x)
    (Session._disconnectEvent x) (RecvBuffer.deposit d (Session._recvBuffer x))
    (Session._sendQueue x) (Session._sending x).
(** The completion of a receive of [d]. *)
Definition receive (v : Session.virtuals (program C S)) (d : list Z) s
  : outcome (Session.st (program C S)) :=
  Session.Dispatch v Recv (zlen d) (Session.on_ses (store_received d) s).
Fixpoint receive_all (v : Session.virtuals (program C S)) (ds : list (list Z)) s
  : outcome (Session.st (program C S)) :=
  match ds with
  | [] => Ret s
  | d :: ds => let! s := receive v d s in receive_all v ds s
  end.

(** A connected session that waits for data, in a program that made its packet
    manager. *)
Record ready s : Prop := {
  ready_connected : Session._connected (Session.ses s) = true;
  ready_dataPos : RecvBuffer._dataPos (Session._recvBuffer (Session.ses s)) = 0;
  ready_writePos : RecvBuffer._writePos (Session._recvBuffer (Session.ses s)) = 0;
  ready_size : zlen (RecvBuffer._buffer (Session._recvBuffer (Session.ses s))) = 655360;
  ready_manager : GPacketManager (Session.svc s) = Some PacketManager.new;
}.

(** What the programs print for a packet. *)
Definition prints (p : Z * list Z) (l : line) : Prop :=
  packet_ok p /\
  if p.1 =? 1 then forall rest, PacketManager.TestPacketHandler (p.2 ++ rest) = Ret [l]
  else l = LogNoRegisteredId p.1.

Lemma dispatch_prints p l rest : prints p l ->
  PacketManager.Dispatch p.1 (p.2 ++ rest) PacketManager.new = Ret [l].
Proof.
  intros [_ Hl]. rewrite PacketManager.Dispatch_new. destruct (p.1 =? 1); [apply Hl|by subst l].
Qed.

(** The loop of [OnRecv] over whole packets prints their lines. *)
Lemma OnRecv_loop_prints ps : forall ls fuel pre rest len n s,
  GPacketManager (Session.svc s) = Some PacketManager.new ->
  Forall2 prints ps ls -> zlen pre + zlen (stream ps) <= len -> len < 2 ^ 32 ->
  n + zlen ps <= INT_MAX ->
  AppSession.OnRecv_loop (length ps + fuel) (pre ++ stream ps ++ rest) len n (zlen pre) s =
  AppSession.OnRecv_loop fuel (pre ++ stream ps ++ rest) len (n + zlen ps)
    (zlen pre + zlen (stream ps)) (AppSession.on_app (print ls) s).
Proof.
  induction ps as [|p ps IH]; intros ls fuel pre rest len n s Hm Hl Hlen Hmax Hn.
  { apply Forall2_nil_inv_l in Hl as ->. unfold stream, zlen. simpl.
    rewrite !Z.add_0_r. destruct s as [x a nt]. unfold AppSession.on_app, print. simpl.
    rewrite app_nil_r. by destruct a. }
  apply Forall2_cons_inv_l in Hl as (l & ls' & Hp & Hl & ->).
  rewrite stream_cons, zlen_app in Hlen.
  pose proof (bytes_of_length p) as Hb. pose proof (zlen_nonneg p.2).
  pose proof (zlen_nonneg (stream ps)). pose proof (zlen_nonneg pre).
  unfold PacketHeader.SIZEOF in Hb. rewrite stream_cons, <- !app_assoc.
  cbn [length Nat.add AppSession.OnRecv_loop].
  destruct (Z.ltb_spec (zlen pre) len); [|lia].
  rewrite (decode_packet pre p _ (proj1 Hp)).
  cbn [obind PacketHeader._size PacketHeader._id].
  rewrite zlen_drop_pre.
  assert (Ed : drop (Z.to_nat PacketHeader.SIZEOF) (bytes_of p ++ stream ps ++ rest) =
    p.2 ++ stream ps ++ rest) by (unfold bytes_of, packet_bytes; by rewrite <- app_assoc).
  rewrite Ed. unfold AppSession.OnRecvPacket. rewrite Hm, (dispatch_prints p l _ Hp).
  cbn [obind]. rewrite (u32_small (zlen pre + zlen (bytes_of p))) by lia.
  assert (Hz : zlen (p :: ps) = zlen ps + 1) by (unfold zlen; simpl; lia).
  pose proof (zlen_nonneg ps). rewrite Hz in Hn.
  destruct (Z.eqb_spec n INT_MAX); [lia|].
  specialize (IH ls' fuel (pre ++ bytes_of p) rest len (n + 1)
    (AppSession.on_app (print [l]) s) Hm Hl).
  rewrite zlen_app, <- app_assoc in IH. rewrite IH by lia.
  rewrite zlen_app, Hz. f_equal; try lia.
  unfold AppSession.on_app, print. simpl. by rewrite <- app_assoc.
Qed.

(** The receive buffer of a ready session starts with [d]. *)
Definition holding (d : list Z) s : Prop :=
  exists rest, RecvBuffer._buffer (Session._recvBuffer (Session.ses s)) = d ++ rest.

Lemma store_received_holding d s : ready s -> zlen d <= Session.RECV_BUFFER_SIZE ->
  let s' := Session.on_ses (store_received d) s in ready s' /\ holding d s'.
Proof.
  unfold Session.RECV_BUFFER_SIZE. intros [Hc Hd Hw Hb Hm] Hz.
  pose proof (zlen_nonneg d). split.
  - constructor; try done. simpl. rewrite Hw, zlen_splice; lia.
  - unfold holding. simpl. rewrite Hw. unfold splice. simpl. eauto.
Qed.

Lemma OnRecv_prints ps ls s :
  ready s -> holding (stream ps) s -> Forall2 prints ps ls -> zlen (stream ps) < 2 ^ 31 ->
  AppSession.OnRecv 0 (zlen (stream ps)) s =
    Ret (zlen (stream ps), AppSession.on_app (print ls) s).
Proof.
  intros Hs [rest Er] Hl Hz. pose proof (stream_count ps) as Hcount. pose proof (zlen_nonneg ps).
  unfold AppSession.OnRecv. rewrite Er, drop_0.
  set (fuel := (Z.to_nat (zlen (stream ps)) - length ps)%nat).
  replace (Datatypes.S (Z.to_nat (zlen (stream ps)))) with (length ps + Datatypes.S fuel)%nat
    by (unfold fuel, zlen in *; lia).
  pose proof (OnRecv_loop_prints ps ls (Datatypes.S fuel) [] rest (zlen (stream ps)) 0 s
    (ready_manager s Hs) Hl) as E.
  change (zlen []) with 0 in E. simpl app in E.
  rewrite E by (unfold INT_MAX; lia). cbn [AppSession.OnRecv_loop]. rewrite Z.add_0_l.
  by destruct (Z.ltb_spec (zlen (stream ps)) (zlen (stream ps))); [lia|].
Qed.

Lemma register_recv_ready s : ready s ->
  exists s', Session._register_recv s = Ret s' /\ ready s' /\
    console (Session.svc s') = console (Session.svc s).
Proof.
  intros [Hc Hd Hw Hb Hm]. unfold Session._register_recv. rewrite Hc. cbn [negb].
  unfold RecvBuffer.WritePos. simpl. rewrite Hw, Hb. simpl.
  match goal with |- context [Session.sys_of ?q ?x] => set (y := x) end.
  unfold Session.sys_of. destruct (syscall _ _) as [[a b] n]. simpl.
  eexists. split; [reflexivity|]. by split.
Qed.

(** One completion with whole packets. *)
Lemma receive_prints v ps ls s :
  Session.v_OnRecv v = AppSession.OnRecv -> ready s -> Forall2 prints ps ls -> ps <> [] ->
  zlen (stream ps) <= Session.RECV_BUFFER_SIZE ->
  exists s', receive v (stream ps) s = Ret s' /\ ready s' /\
    console (Session.svc s') = console (Session.svc s) ++ ls.
Proof.
  intros Hv Hs Hl Hne Hz. pose proof (stream_count ps) as Hcount.
  assert (Hpos : 1 <= zlen ps) by (destruct ps; [done|unfold zlen; simpl; lia]).
  destruct (store_received_holding (stream ps) s Hs Hz) as [Hs1 Hh1].
  unfold Session.RECV_BUFFER_SIZE in Hz.
  unfold receive. set (s1 := Session.on_ses _ s) in *.
  unfold Session.Dispatch, Session._process_recv.
  destruct (Z.eqb_spec (zlen (stream ps)) 0); [lia|].
  unfold RecvBuffer.DataPos. rewrite (ready_dataPos _ Hs1), (ready_size _ Hs1). simpl.
  set (s2 := Session.call _ s1). assert (Hs2 : ready s2) by (by destruct Hs1).
  rewrite Hv, (OnRecv_prints ps ls s2 Hs2 Hh1 Hl) by lia. cbn [obind].
  rewrite s32_small by lia. destruct (Z.eqb_spec (zlen (stream ps)) 0); [lia|].
  apply (register_recv_ready (AppSession.on_app (print ls) s2)). by destruct Hs2.
Qed.

(** Deliveries that are cut between packets, in any way. *)
Lemma receive_all_prints v pss : forall lss s,
  Session.v_OnRecv v = AppSession.OnRecv -> ready s -> Forall2 (Forall2 prints) pss lss ->
  Forall (fun ps => ps <> [] /\ zlen (stream ps) <= Session.RECV_BUFFER_SIZE) pss ->
  exists s', receive_all v (stream <$> pss) s = Ret s' /\ ready s' /\
    console (Session.svc s') = console (Session.svc s) ++ concat lss.
Proof.
  induction pss as [|ps pss IH]; intros lss s Hv Hs Hl Hz; cbn [receive_all fmap list_fmap].
  { apply Forall2_nil_inv_l in Hl as ->. exists s. simpl. by rewrite app_nil_r. }
  apply Forall2_cons_inv_l in Hl as (ls & lss' & Hl1 & Hl & ->).
  apply Forall_cons in Hz as [[Hne Hz1] Hz].
  destruct (receive_prints v ps ls s Hv Hs Hl1 Hne Hz1) as (s1 & E & Hs1 & Hc).
  rewrite E. cbn [obind]. destruct (IH lss' s1 Hv Hs1 Hl Hz) as (s2 & E2 & Hs2 & Hc2).
  exists s2. split; [done|]. split; [done|]. rewrite Hc2, Hc, <- app_assoc. done.
Qed.
End Receiver.

(** ** The sender *)
Section Sender.
Context {C S : Type} `{FlatBuffers, ServiceOps C, Owner C, OS, Winsock, SendStore S}.
Implicit Types (w : Heap.world (program C S)) (s : Session.st (program C S)) (b : S).

(** The buffers given to [WSASend] on a socket, in order. *)
Definition segments_on (k : Z) (a : act) : list WSABUF :=
  match a with ASys (WSASend k' l) _ _ => if k' =? k then l else [] | _ => [] end.
Definition transmitted (k : Z) (l : list act) : list WSABUF := concat (map (segments_on k) l).
Lemma transmitted_app k l l' : transmitted k (l ++ l') = transmitted k l ++ transmitted k l'.
Proof. unfold transmitted. by rewrite map_app, concat_app. Qed.

(** An idle connected session, and the packets it was given so far: transmitted or
    queued in its [PacketSession], in order, each buffer still holding its packet; [P]
    speaks of that [PacketSession]. *)
Definition idle (x : Session.t) : Prop :=
  Session._connected x = true /\ Session._sending x = false /\
  Session._sendQueue x = [] /\ Session._segments x = [].
Definition queued b (out : list WSABUF) (ps : PacketSession.t) (pkts : list (Z * list Z)) : Prop :=
  Forall2 (holds b) (out ++ _reserved ps) pkts /\
  _reservedSendBytes ps = u32 (total_len (_reserved ps)).
Definition given (P : PacketSession.t -> Prop) (sid : Z) (pkts : list (Z * list Z)) w : Prop :=
  exists x ps, Heap.heap w !! sid = Some x /\ idle x /\
    packet_sessions (Heap.srv w) !! sid = Some ps /\ P ps /\
    queued (send_buffers (Heap.srv w)) (transmitted (Session._socket x) (log (Heap.nt w))) ps pkts.

(** The sessions have their own ids and sockets of their own. *)
Record world_ok w : Prop := {
  ok_buffers : ss_ok (send_buffers (Heap.srv w));
  ok_id sid x : Heap.heap w !! sid = Some x -> Session._sessionId x = sid;
  ok_idle sid x : Heap.heap w !! sid = Some x -> Session._connected x = true -> idle x;
  ok_socket i j x y : Heap.heap w !! i = Some x -> Heap.heap w !! j = Some y -> i <> j ->
    Session._socket x <> Session._socket y;
}.

(** What the calls of this file leave alone. *)
Definition same_globals w w' : Prop :=
  service (Heap.srv w') = service (Heap.srv w) /\
  GSessionManager (Heap.srv w') = GSessionManager (Heap.srv w).

(** Queueing one more packet, and flushing, on one session. *)
Lemma queued_send tid id d b ps ps' b' :
  ss_ok b -> packet_ok (id, d) ->
  PacketSession.Send tid id (Some d) (zlen d) ps b = Ret (ps', b') ->
  ss_ok b' /\
  (forall out pkts, queued b out ps pkts -> queued b' out ps' (pkts ++ [(id, d)])) /\
  (forall out ps pkts, queued b out ps pkts -> queued b' out ps pkts).
Proof.
  intros Hb Hp E. apply obind_ret in E as ([buf b1] & E & Er).
  injection Er as <- <-.
  destruct (PacketWrapper.Serialize_live tid id d b buf b1 Hb (proj2 Hp) E)
    as (Hok & Hlen & Hv & Hld & Hfr).
  assert (Hold : forall l pkts, Forall2 (holds b) l pkts -> Forall2 (holds b1) l pkts).
  { intros l k Hl. eapply Forall2_impl; [exact Hl|]. intros r p (Hw & Hwl & Hwd).
    destruct (Hfr _ Hw) as [Hw1 Hd1]. split; [done|]. split; [done|]. simpl in Hd1.
    by rewrite Hd1. }
  split; [done|]. split.
  - intros out pkts [Hq Hn]. split; cbn [_reserved _reservedSendBytes].
    + rewrite app_assoc. apply Forall2_app; [by apply Hold|]. constructor; [|constructor].
      split; [done|]. rewrite bytes_of_length. by split.
    + rewrite Hn, total_len_snoc, u32_add_idemp, Hlen. f_equal. simpl. lia.
  - intros o p k [Hk Hm]. split; [by apply Hold|done].
Qed.

Lemma queued_flush now1 now2 b out ps pkts :
  queued b out ps pkts ->
  queued b (out ++ default [] (Flush now1 now2 ps).2) (Flush now1 now2 ps).1 pkts.
Proof.
  intros [Hq Hn]. unfold Flush. destruct (_ && _); [by rewrite app_nil_r|].
  destruct (_reserved ps) as [|r rs] eqn:Er; simpl.
  - rewrite app_nil_r. split; rewrite ?Er; done.
  - split; [|done]. simpl. by rewrite app_nil_r.
Qed.

(** [_send] on an idle connected session: the buffers are given to [WSASend] on its
    socket, and it is idle again. *)
Lemma send_idle l s : idle (Session.ses s) ->
  exists x' n', Session._send l s = Session.mk_st x' (Session.svc s) n' /\ idle x' /\
    Session._sessionId x' = Session._sessionId (Session.ses s) /\
    Session._socket x' = Session._socket (Session.ses s) /\
    forall k, transmitted k (log n') = transmitted k (log (Session.nets s)) ++
      (if Session._socket (Session.ses s) =? k then l else []).
Proof.
  destruct s as [x a n]. unfold Session._send. destruct l as [|l0 l].
  { intros Hi. exists x, n. split; [done|]. split; [done|]. do 2 (split; [done|]).
    intros k. destruct (_ =? k); by rewrite app_nil_r. }
  destruct x. intros (Hc & Hs & Hq & Hg). simpl in Hc, Hs, Hq, Hg. subst.
  unfold Session._register_send. simpl. rewrite Session.sys_of_eq. simpl. set (r := os_reply _ _).
  destruct (ErrorHandler.WSACheckErrorExceptPending2 _ _ _) as [ok z].
  destruct ok; simpl; eexists _, _; (split; [reflexivity|]); (split; [by split_and!|]);
    do 2 (split; [done|]); intros k; simpl; rewrite transmitted_app; unfold transmitted at 2; simpl;
    (destruct (_ =? k); simpl; rewrite ?app_nil_r; done).
Qed.

(** A call on one session that only changes its [PacketSession] and the buffers. *)
Lemma heap_same (h : gmap Z Session.t) i x : h !! i = Some x -> <[i := x]> h = h.
Proof. apply insert_id. Qed.

Lemma session_send tid id d i w w' : world_ok w -> packet_ok (id, d) ->
  Heap.on_session i (fun s => if Session._connected (Session.ses s)
    then AppSession.Send tid id (Some d) (zlen d) s else Ret s) w = Ret w' ->
  world_ok w' /\ same_globals w w' /\
  forall P sid pkts, (forall ps r n, P ps -> P (mk r n (_lastSendTick ps))) ->
    given P sid pkts w -> given P sid (if decide (sid = i) then pkts ++ [(id, d)] else pkts) w'.
Proof.
  intros [Hb Hid Hdl Hk] Hp Hr. unfold Heap.on_session in Hr.
  destruct (Heap.heap w !! i) as [x|] eqn:Hx; [|done]. simpl in Hr.
  destruct (Session._connected x) eqn:Hc; simpl in Hr.
  2: { injection Hr as <-. rewrite (heap_same _ _ _ Hx). split; [by split|]. split; [done|].
    intros P sid pkts _ (y & ps & Hy & Hi & Hps & HP & Hq). destruct (decide (sid = i)) as [->|].
    - destruct Hi as [Hi _]. congruence.
    - by exists y, ps. }
  unfold AppSession.Send, AppSession.sid in Hr. cbn [Session.svc Session.ses] in Hr.
  rewrite (Hid i x Hx) in Hr.
  destruct (packet_sessions (Heap.srv w) !! i) as [ps|] eqn:Hps; [|done].
  destruct (PacketSession.Send tid id (Some d) (zlen d) ps (send_buffers (Heap.srv w)))
    as [[ps' b']| | |] eqn:E; [|done..]. injection Hr as <-. simpl.
  destruct (queued_send tid id d _ ps ps' b' Hb Hp E) as (Hok & Hfr & Hold).
  rewrite (heap_same _ _ _ Hx). split; [by split|]. split; [done|].
  intros P sid pkts HP (y & p & Hy & Hi & Hp' & HPp & Hq). exists y.
  destruct (decide (sid = i)) as [->|Hne].
  - exists ps'. assert (y = x) as -> by congruence. assert (p = ps) as -> by congruence.
    split; [done|]. split; [done|]. split; [by apply lookup_insert_eq|].
    split; [|by apply Hfr]. apply obind_ret in E as ([buf b1] & _ & Er).
    injection Er as <- _. by apply HP.
  - exists p. split; [done|]. split; [done|]. split; [by rewrite <- Hp'; apply lookup_insert_ne|].
    split; [done|]. by apply Hold.
Qed.

Lemma session_flush ticks i w w' : world_ok w ->
  Heap.on_session i (fun s => if Session._connected (Session.ses s)
    then AppSession.Flush (ticks (AppSession.sid s)).1 (ticks (AppSession.sid s)).2 s
    else Ret s) w = Ret w' ->
  world_ok w' /\ same_globals w w' /\
  (forall P sid pkts, sid <> i -> given P sid pkts w -> given P sid pkts w') /\
  (forall P Q pkts, given P i pkts w ->
     (forall ps, P ps -> Q (Flush (ticks i).1 (ticks i).2 ps).1) -> given Q i pkts w').
Proof.
  intros [Hb Hid Hdl Hk] Hr. unfold Heap.on_session in Hr.
  destruct (Heap.heap w !! i) as [x|] eqn:Hx; [|done]. simpl in Hr.
  destruct (Session._connected x) eqn:Hc; simpl in Hr.
  2: { injection Hr as <-. rewrite (heap_same _ _ _ Hx). split; [by split|]. split; [done|].
    split; [done|]. intros P Q pkts (y & ps & Hy & Hi & _) _. destruct Hi as [Hi _]. congruence. }
  pose proof (Hdl i x Hx Hc) as Hidle.
  unfold AppSession.Flush, AppSession.sid in Hr. cbn [Session.svc Session.ses] in Hr.
  rewrite (Hid i x Hx) in Hr.
  destruct (packet_sessions (Heap.srv w) !! i) as [ps|] eqn:Hps; [|done].
  pose proof (queued_flush (ticks i).1 (ticks i).2) as Hqf. specialize (Hqf) with (ps := ps).
  destruct (Flush (ticks i).1 (ticks i).2 ps) as [ps' l] eqn:Ef. simpl in Hr, Hqf.
  set (s1 := AppSession.on_app _ _) in Hr.
  destruct (send_idle (default [] l) s1 Hidle) as (x' & n' & E & Hi' & Hid' & Hso & Ht).
  assert (Es : match l with Some l => Session._send l s1 | None => s1 end =
    Session._send (default [] l) s1) by (by destruct l).
  rewrite Es, E in Hr. injection Hr as <-. simpl in *. split; [split; simpl|].
  - done.
  - intros sid y. destruct (decide (sid = i)) as [->|Hne].
    + rewrite lookup_insert_eq. intros [= <-]. rewrite Hid'. by apply Hid.
    + rewrite lookup_insert_ne by done. apply Hid.
  - intros sid y. destruct (decide (sid = i)) as [->|Hne].
    + rewrite lookup_insert_eq. by intros [= <-].
    + rewrite lookup_insert_ne by done. apply Hdl.
  - assert (Hsame : forall j y, <[i:=x']> (Heap.heap w) !! j = Some y ->
      exists y0, Heap.heap w !! j = Some y0 /\ Session._socket y = Session._socket y0).
    { intros j y. destruct (decide (j = i)) as [->|Hj].
      - rewrite lookup_insert_eq. intros [= <-]. eauto.
      - rewrite lookup_insert_ne by done. eauto. }
    intros j k y z (y0 & Hy & ->)%Hsame (z0 & Hz & ->)%Hsame. by eapply Hk.
  - split; [done|]. split.
    + intros P sid pkts Hne (y & p & Hy & Hi & Hp & HP & Hq). exists y, p. simpl.
      rewrite !lookup_insert_ne by done. do 4 (split; [done|]). rewrite Ht.
      destruct (Z.eqb_spec (Session._socket x) (Session._socket y)) as [Eq|_].
      * exfalso. apply (Hk sid i y x Hy Hx Hne). congruence.
      * by rewrite app_nil_r.
    + intros P Q pkts (y & p & Hy & Hi & Hp & HP & Hq) HPQ. exists x', ps'. simpl.
      rewrite !lookup_insert_eq. split; [done|]. split; [done|]. split; [done|].
      assert (y = x) as -> by congruence. assert (p = ps) as -> by congruence.
      split; [specialize (HPQ ps HP); by rewrite Ef in HPQ|].
      rewrite Hso, Ht, Z.eqb_refl. by apply Hqf.
Qed.

(** Conditions on a [PacketSession] that queueing does not change. *)
Definition stable (P : PacketSession.t -> Prop) : Prop :=
  forall ps r n, P ps -> P (mk r n (_lastSendTick ps)).

Lemma same_globals_trans w1 w2 w3 :
  same_globals w1 w2 -> same_globals w2 w3 -> same_globals w1 w3.
Proof. unfold same_globals. intros [E1 E2] [E3 E4]. by rewrite E3, E4. Qed.

Lemma sessions_send tid id d l : forall w w', world_ok w -> packet_ok (id, d) -> NoDup l ->
  for_connected (AppSession.Send tid id (Some d) (zlen d)) l w = Ret w' ->
  world_ok w' /\ same_globals w w' /\
  forall P sid pkts, stable P -> given P sid pkts w ->
    given P sid (if decide (sid ∈ l) then pkts ++ [(id, d)] else pkts) w'.
Proof.
  induction l as [|i l IH]; intros w w' Hw Hp Hnd Hr; cbn [for_connected] in Hr.
  { injection Hr as <-. split; [done|]. split; [done|]. intros P sid pkts _ Hg.
    by destruct (decide (sid ∈ [])) as [?%not_elem_of_nil|]. }
  apply NoDup_cons in Hnd as [Hni Hnd]. apply obind_ret in Hr as (w1 & Ha & Hr).
  destruct (session_send tid id d i w w1 Hw Hp Ha) as (Hw1 & Hs1 & Hg1).
  destruct (IH w1 w' Hw1 Hp Hnd Hr) as (Hw2 & Hs2 & Hg2).
  split; [done|]. split; [by eapply same_globals_trans|].
  intros P sid pkts HP Hg. specialize (Hg2 P sid _ HP (Hg1 P sid pkts HP Hg)).
  destruct (decide (sid = i)) as [->|Hne].
  - rewrite decide_False in Hg2 by done. by rewrite decide_True by (by left).
  - destruct (decide (sid ∈ l)) as [Hin|Hnin].
    + by rewrite decide_True by (by right).
    + rewrite decide_False; [done|]. by intros [->|?]%elem_of_cons.
Qed.

Lemma sessions_flush ticks l : forall w w', world_ok w ->
  for_connected (fun s => AppSession.Flush (ticks (AppSession.sid s)).1
    (ticks (AppSession.sid s)).2 s) l w = Ret w' ->
  world_ok w' /\ same_globals w w' /\
  (forall P Q sid pkts, given P sid pkts w ->
     (forall ps, P ps -> Q (Flush (ticks sid).1 (ticks sid).2 ps).1) ->
     (forall ps, Q ps -> Q (Flush (ticks sid).1 (ticks sid).2 ps).1) ->
     (sid ∉ l -> forall ps, P ps -> Q ps) -> given Q sid pkts w').
Proof.
  induction l as [|i l IH]; intros w w' Hw Hr; cbn [for_connected] in Hr.
  { injection Hr as <-. split; [done|]. split; [done|].
    intros P Q sid pkts (x & ps & Hx & Hi & Hps & HP & Hq) _ _ HPQ.
    exists x, ps. split_and!; try done. apply HPQ; [apply not_elem_of_nil|done]. }
  apply obind_ret in Hr as (w1 & Ha & Hr).
  destruct (session_flush ticks i w w1 Hw Ha) as (Hw1 & Hs1 & Hg1 & Hg1').
  destruct (IH w1 w' Hw1 Hr) as (Hw2 & Hs2 & Hg2).
  split; [done|]. split; [by eapply same_globals_trans|].
  intros P Q sid pkts Hg HPQ HQ Hn. destruct (decide (sid = i)) as [->|Hne].
  - apply (Hg2 Q Q); [by eapply Hg1'|done|done|done].
  - apply (Hg2 P Q); [by apply Hg1|done|done|]. intros Hnl. apply Hn.
    by intros [|]%elem_of_cons.
Qed.

(** Flushing keeps an empty queue empty, and empties it when it is due. *)
Definition nothing_reserved (ps : PacketSession.t) : Prop := _reserved ps = [].
Definition flush_due (now1 : Z) (ps : PacketSession.t) : Prop :=
  FLUSH_SEND_MIN_INTERVAL_TICK <= u64 (now1 - _lastSendTick ps).
Lemma Flush_nothing now1 now2 ps :
  nothing_reserved ps -> nothing_reserved (Flush now1 now2 ps).1.
Proof. unfold nothing_reserved, Flush. intros E. destruct (_ && _); [done|]. by rewrite E. Qed.

(** ** Runs of the client *)
Variables (reused : list Z -> list Z) (sessions : C -> list (option Z)).

Inductive client_op := Input (tid : Z) (msg : list Z) | FlushSessions (ticks : Z -> Z * Z).
Definition apply_client (o : client_op) w : outcome (Heap.world (program C S)) :=
  match o with
  | Input tid msg => let! (_, w) := client_input reused tid sessions msg w in Ret w
  | FlushSessions ticks => client_FlushSessions ticks w
  end.
Fixpoint run_client (os : list client_op) w : outcome (Heap.world (program C S)) :=
  match os with [] => Ret w | o :: os => let! w := apply_client o w in run_client os w end.

Definition typed1 (o : client_op) : list (list Z) := match o with Input _ m => [m] | _ => [] end.
Definition typed (os : list client_op) : list (list Z) := concat (map typed1 os).
Definition packet_of (msg : list Z) : Z * list Z := (1, build_packet msg).

(** A line the client can send: not "stop", its packet within the limit of a packet,
    and the released block not yet reused when it is copied. *)
Definition sendable (msg : list Z) : Prop :=
  c_text msg <> stop /\ zlen (build_packet msg) <= 65531 /\
  reused (build_packet msg) = build_packet msg.

Lemma run_client_given os : forall w w' sid pkts,
  world_ok w -> Forall sendable (typed os) ->
  NoDup (omap id (sessions (service (Heap.srv w)))) ->
  sid ∈ omap id (sessions (service (Heap.srv w))) ->
  given (fun _ => True) sid pkts w -> run_client os w = Ret w' ->
  world_ok w' /\ same_globals w w' /\
  given (fun _ => True) sid (pkts ++ map packet_of (typed os)) w'.
Proof.
  induction os as [|o os IH]; intros w w' sid pkts Hw Hok Hnd Hin Hg Hr; cbn [run_client] in Hr.
  { injection Hr as <-. simpl. by rewrite app_nil_r. }
  apply obind_ret in Hr as (w1 & Ha & Hr).
  change (typed (o :: os)) with (typed1 o ++ typed os) in *.
  apply Forall_app in Hok as [Ho Hok].
  assert (Hstep : world_ok w1 /\ same_globals w w1 /\
    given (fun _ => True) sid (pkts ++ map packet_of (typed1 o)) w1).
  { destruct o as [tid msg|ticks]; simpl in Ha.
    - apply Forall_cons in Ho as [(Hst & Hz & Hre) _]. unfold client_input in Ha.
      rewrite decide_False in Ha by done. unfold client_GetTestPacket in Ha.
      rewrite Hre in Ha. pose proof (zlen_nonneg (build_packet msg)).
      rewrite u16_small in Ha by lia.
      apply obind_ret in Ha as ([off w2] & Ha & E). injection E as <-.
      apply obind_ret in Ha as (w3 & Ha & E). injection E as _ <-.
      assert (Hp : packet_ok (1, build_packet msg)) by (by split).
      destruct (sessions_send tid 1 (build_packet msg) _ w w3 Hw Hp Hnd Ha)
        as (Hw3 & Hs3 & Hg3).
      split; [done|]. split; [done|].
      specialize (Hg3 (fun _ => True) sid pkts ltac:(done) Hg).
      by rewrite decide_True in Hg3 by done.
    - unfold client_FlushSessions, flush_held in Ha.
      destruct (GSessionManager (Heap.srv w)) as [l|]; [|done].
      destruct (sessions_flush ticks l w w1 Hw Ha) as (Hw1 & Hs1 & Hg1).
      split; [done|]. split; [done|]. simpl. rewrite app_nil_r.
      by apply (Hg1 (fun _ => True) (fun _ => True)). }
  destruct Hstep as (Hw1 & Hs1 & Hg1). destruct Hs1 as [E1 E2].
  destruct (IH w1 w' sid _ Hw1 Hok ltac:(by rewrite E1) ltac:(by rewrite E1) Hg1 Hr)
    as (Hw2 & Hs2 & Hg2).
  split; [done|]. split; [by eapply same_globals_trans|].
  by rewrite map_app, app_assoc.
Qed.
End Sender.

(** ** From the keyboard to the log of the peer *)

(** The packet that a program builds from a text is printed by its handler. *)
Lemma build_packet_prints `{FlatBuffers} msg : zlen (build_packet msg) <= 65531 ->
  prints (1, build_packet msg) (LogPacket (c_text msg) 100).
Proof.
  intros Hz. split; [by split|]. cbn [fst snd]. simpl. intros rest. unfold build_packet.
  destruct (new_builder_empty 1024) as [_ Hp].
  pose proof (CreateString_new msg (new_builder 1024) Hp) as Hs.
  destruct (CreateString msg (new_builder 1024)) as [o1 b1]. cbn [fst snd] in Hs.
  pose proof (ref_to_new OString _ _ _ _ Hs) as Hr.
  assert (Hn : in_type INT32 100) by (simpl; lia).
  pose proof (CreateTestPacket_new b1 o1 100 _ (proj1 Hs) Hr Hn) as Ht.
  destruct (CreateTestPacket b1 o1 100) as [o2 b2]. cbn [fst snd] in Ht.
  pose proof (has_new_lookup _ _ _ _ Ht) as Ho.
  destruct (Finish_finished o2 b2 _ rest (proj1 Ht) Ho) as [Hf Hroot].
  destruct (read_table b2 _ _ _ o1 100 _ Hf (Hf _ _ Ho) (ref_to_old _ _ _ _ _ _ _ Ht Hr))
    as [(q & Hm & Hq) Hnum].
  unfold PacketManager.TestPacketHandler, GetTestPacket. rewrite Hroot, Hm. cbn [obind].
  rewrite (c_str_ok _ _ _ Hq). cbn [obind]. by rewrite Hnum.
Qed.

Lemma stream_concat pss : concat (stream <$> pss) = stream (concat pss).
Proof.
  induction pss as [|ps pss IH]; [done|]. cbn [fmap list_fmap concat]. rewrite IH.
  unfold stream. by rewrite map_app, concat_app.
Qed.

Lemma cut_Forall2 {A B} (R : A -> B -> Prop) (ass : list (list A)) : forall bs,
  Forall2 R (concat ass) bs -> exists bss, Forall2 (Forall2 R) ass bss /\ concat bss = bs.
Proof.
  induction ass as [|a ass IH]; intros bs Hf; simpl in Hf.
  { apply Forall2_nil_inv_l in Hf as ->. by exists []. }
  apply Forall2_app_inv_l in Hf as (b1 & b2 & H1 & H2 & ->).
  destruct (IH b2 H2) as (bss & Hb & <-). exists (b1 :: bss). by split; [constructor|].
Qed.

Section EndToEnd.
Context {C S : Type} `{FlatBuffers, ServiceOps C, Owner C, OS, Winsock, SendStore S}.

(** Everything a session was given is transmitted by a flush that is due. *)
Lemma flush_transmits w w' sid pkts ticks held :
  world_ok (C := C) (S := S) w -> given (fun _ => True) sid pkts w ->
  GSessionManager (Heap.srv w) = Some held -> sid ∈ held ->
  (forall ps, packet_sessions (Heap.srv w) !! sid = Some ps -> flush_due (ticks sid).1 ps) ->
  client_FlushSessions ticks w = Ret w' ->
  exists x, Heap.heap w' !! sid = Some x /\
    wire (transmitted (Session._socket x) (log (Heap.nt w'))) (send_buffers (Heap.srv w')) =
      Ret (stream pkts).
Proof.
  intros Hw (x & ps & Hx & Hi & Hps & _ & Hq) Hh Hin Hdue Hr.
  unfold client_FlushSessions, flush_held in Hr. rewrite Hh in Hr.
  destruct (sessions_flush ticks held w w' Hw Hr) as (_ & _ & Hg).
  assert (Hg1 : given (flush_due (ticks sid).1) sid pkts w).
  { exists x, ps. do 3 (split; [done|]). split; [by apply Hdue|done]. }
  destruct (Hg (flush_due (ticks sid).1) nothing_reserved sid pkts Hg1)
    as (x' & ps' & Hx' & _ & _ & Hn & [Hf _]).
  - intros p Hp. exact (proj1 (Flush_all _ _ _ Hp)).
  - intros p. apply Flush_nothing.
  - done.
  - exists x'. split; [done|]. rewrite Hn, app_nil_r in Hf. by apply wire_holds.
Qed.

(** C10: what is typed at TestClient is printed by TestServer. However lines typed and
    flushes of the session manager alternate in a run of the client, with any number
    of sessions, after a flush at least 1000 ticks after the session's last one the
    buffers it gave to [WSASend] on its socket designate exactly the packets of the
    lines, in order; and the server's session, when these bytes arrive in any number
    of receives that end between packets, prints each text once, in order, with the
    number 100. It is assumed of each line that the block of its packet is not reused
    before it is copied, since the programs copy it after its release. *)
Theorem typed_lines_are_printed {C2 S2} `{ServiceOps C2, SendStore S2}
    (os2 : list act -> sys -> Z * Z)
    reused sessions os w0 w1 w2 ticks sid held pss
    (v : Session.virtuals (program C2 S2)) (r : Session.st (program C2 S2)) :
  world_ok (C := C) (S := S) w0 -> given (fun _ => True) sid [] w0 ->
  NoDup (omap id (sessions (service (Heap.srv w0)))) ->
  sid ∈ omap id (sessions (service (Heap.srv w0))) ->
  GSessionManager (Heap.srv w0) = Some held -> sid ∈ held ->
  Forall (sendable reused) (typed os) -> run_client reused sessions os w0 = Ret w1 ->
  (forall ps, packet_sessions (Heap.srv w1) !! sid = Some ps -> flush_due (ticks sid).1 ps) ->
  client_FlushSessions ticks w1 = Ret w2 ->
  concat pss = map packet_of (typed os) ->
  Forall (fun ps => ps <> [] /\ zlen (stream ps) <= Session.RECV_BUFFER_SIZE) pss ->
  Session.v_OnRecv v = AppSession.OnRecv -> ready r ->
  (exists x, Heap.heap w2 !! sid = Some x /\
    wire (transmitted (Session._socket x) (log (Heap.nt w2))) (send_buffers (Heap.srv w2)) =
      Ret (concat (stream <$> pss))) /\
  exists r', receive_all (H1 := os2) v (stream <$> pss) r = Ret r' /\
    console (Session.svc r') = console (Session.svc r) ++
      map (fun msg => LogPacket (c_text msg) 100) (typed os).
Proof.
  intros Hw Hg Hnd Hin Hh Hsid Hok Hrun Hdue Hfl Hcut Hz Hv Hr.
  destruct (run_client_given reused sessions os w0 w1 sid [] Hw Hok Hnd Hin Hg Hrun)
    as (Hw1 & [_ Em] & Hg1). split.
  - rewrite stream_concat, Hcut.
    rewrite <- Em in Hh. eapply (flush_transmits w1 w2 sid _ ticks held); eassumption.
  - assert (Hp : Forall2 prints (concat pss)
      (map (fun msg => LogPacket (c_text msg) 100) (typed os))).
    { rewrite Hcut. clear - Hok. induction Hok as [|m l (_ & Hm & _) _ IH]; simpl; [done|].
      constructor; [by apply build_packet_prints|done]. }
    destruct (cut_Forall2 prints pss _ Hp) as (lss & Hl & El).
    destruct (receive_all_prints (H1 := os2) v pss lss r Hv Hr Hl Hz) as (r' & E & _ & Hc).
    exists r'. split; [exact E|]. by rewrite Hc, El.
Qed.
End EndToEnd.

(** ** A concrete run: two sessions of a client, and a server *)
Module Sample.
#[local] Existing Instance Reference.flat_buffers.
#[local] Existing Instance NamesSample.os.
#[local] Existing Instance NamesSample.inet.
#[local] Existing Instance NamesSample.names.
#[local] Existing Instance NamesSample.ascii.
#[local] Existing Instance SendBufferManager.send_store.
#[local] Existing Instance ClientServiceEx.client_service.
#[local] Existing Instance ClientServiceEx.client_owner.
#[local] Existing Instance Server.server_service.

(** A connected session; [n] is the size of its receive buffer. *)
Definition session (sid socket n : Z) : Session.t :=
  Session.mk true socket sid true (Session._sendEvent NamesSample.session) [] (Session.mk_event Recv None)
    (Session.mk_event Disconnect None) (RecvBuffer.new n) [] false.
Definition client_service : ClientServiceEx.t :=
  ClientServiceEx.mk_client
    (Service.new Client (Some 7) (mk_addr 2 50210 16777343) true 2) [Some 1; Some 2] [].
Definition client : program ClientServiceEx.t SendBufferManager.t :=
  mk_program client_service PacketWrapper.one_thread
    (<[1 := PacketSession.new 0]> (<[2 := PacketSession.new 0]> ∅)) ∅ (Some [1; 2])
    (Some PacketManager.new) [].
Definition w0 : Heap.world (program ClientServiceEx.t SendBufferManager.t) :=
  Heap.mk client (<[1 := session 1 11 16]> (<[2 := session 2 12 16]> ∅)) 3 (mk_net [] 0).

Definition hi : list Z := [104; 105].
Definition yo : list Z := [121; 111].
Definition ops : list client_op :=
  [Input 1 hi; FlushSessions (fun _ => (10, 10)); Input 1 yo].
Definition late (_ : Z) : Z * Z := (5000, 5000).

Definition default_world c := match c with Ret w => w | _ => w0 end.
Lemma default_world_ret c : returns c = true -> c = Ret (default_world c).
Proof. by destruct c. Qed.
Definition run_ops := run_client (fun l => l) ClientServiceEx._sessions ops w0.
Definition w1 := default_world run_ops.
Definition w2 := default_world (client_FlushSessions late w1).

Lemma w0_sessions sid x : Heap.heap w0 !! sid = Some x ->
  sid = 1 /\ x = session 1 11 16 \/ sid = 2 /\ x = session 2 12 16.
Proof.
  cbn [Heap.heap w0]. rewrite !lookup_insert_Some, lookup_empty. naive_solver.
Qed.
Lemma w0_ok : world_ok w0.
Proof.
  split.
  - exact PacketWrapper.one_thread_ok.
  - by intros sid x [[-> ->]|[-> ->]]%w0_sessions.
  - by intros sid x [[-> ->]|[-> ->]]%w0_sessions _.
  - by intros i j x y [[-> ->]|[-> ->]]%w0_sessions [[-> ->]|[-> ->]]%w0_sessions ?.
Qed.

(** A session of a server that waits for data. *)
Definition server : program Server.server SendBufferManager.t :=
  mk_program (Server.new (Some 7) (mk_addr 2 50210 0) true 100 100) SendBufferManager.new ∅ ∅
    (Some []) (Some PacketManager.new) [].
Definition waiting : Session.st (program Server.server SendBufferManager.t) :=
  Session.mk_st (session 9 21 Session.RECV_BUFFER_SIZE) server (mk_net [] 0).
Lemma waiting_ready : ready waiting.
Proof.
  split; [reflexivity..| |reflexivity]. cbn [waiting Session.ses session Session._recvBuffer].
  unfold RecvBuffer.new. cbn [RecvBuffer._buffer]. apply zlen_replicate. done.
Qed.

Lemma typed_lines_are_printed_witness :
  exists r', receive_all (H1 := NamesSample.os) AppSession.server_virtuals
      (stream <$> [[packet_of hi]; [packet_of yo]]) waiting = Ret r' /\
    console (Session.svc r') = [LogPacket hi 100; LogPacket yo 100].
Proof.
  refine (proj2 (typed_lines_are_printed NamesSample.os (fun l => l) ClientServiceEx._sessions
    ops w0 w1 w2 late 2 [1; 2] [[packet_of hi]; [packet_of yo]] AppSession.server_virtuals waiting
    w0_ok _ _ _ _ _ _ _ _ _ _ _ eq_refl waiting_ready)).
  - exists (session 2 12 16), (PacketSession.new 0). split; [reflexivity|].
    split; [by split_and!|]. split; [reflexivity|]. split; [exact I|].
    split; [constructor|reflexivity].
  - apply (bool_decide_unpack _). vm_compute. exact I.
  - apply (bool_decide_unpack _). vm_compute. exact I.
  - reflexivity.
  - apply (bool_decide_unpack _). vm_compute. exact I.
  - repeat constructor; try (vm_compute; discriminate).
  - apply default_world_ret. vm_compute. reflexivity.
  - intros ps Hps. assert (Ht : _lastSendTick <$> packet_sessions (Heap.srv w1) !! 2 = Some 10)
      by (vm_compute; reflexivity).
    rewrite Hps in Ht. injection Ht as Ht. unfold flush_due. rewrite Ht. vm_compute. discriminate.
  - apply default_world_ret. vm_compute. reflexivity.
  - reflexivity.
  - repeat constructor; vm_compute; discriminate.
Defined.
End Sample.
