(* ===== verification/Programs.v ===== *)
(** What TestServer and TestClient do beside the path that works: the server's
    narrowed packet size, packets that break the handler, and sessions that are never
    let go; and which of their calls give nothing to [WSASend]. *)
From S2P Require Import Prelude ErrorHandler RecvBuffer SendBuffer Packet PacketSession.
From S2P Require Import SocketUtils Session Heap Names FlatBuffers TestPacket App.
From S2P Require Import Server Client Pipeline.
Import PacketSession.PacketSession.
#[local] Open Scope Z_scope.

(** ** The size in the server's pair *)
Section Truncated.
Context {C S : Type} `{FlatBuffers, ServiceOps C, Owner C, OS, Winsock, SendStore S}.
Implicit Types (w : Heap.world (program C S)).

(** [Serialize] only looks at the first [size] bytes. *)
Lemma Serialize_prefix tid id d size b : 0 <= size <= zlen d ->
  PacketWrapper.Serialize tid id d size b =
  PacketWrapper.Serialize tid id (bytes_at d 0 size) size b.
Proof.
  intros Hs. unfold PacketWrapper.Serialize. rewrite zlen_bytes_at by lia.
  assert (E : bytes_at (bytes_at d 0 size) 0 size = bytes_at d 0 size).
  { unfold bytes_at. rewrite !drop_0. by rewrite take_take, Nat.min_id. }
  rewrite E. destruct (Z.ltb_spec (zlen d) size), (Z.ltb_spec size size); lia || done.
Qed.

Lemma Send_prefix tid id d size s : 0 <= size <= zlen d ->
  AppSession.Send (C := C) (S := S) tid id (Some d) size s =
  AppSession.Send tid id (Some (bytes_at d 0 size)) (zlen (bytes_at d 0 size)) s.
Proof.
  intros Hs. unfold AppSession.Send. destruct (packet_sessions _ !! _) as [ps|]; [|done].
  unfold PacketSession.Send. rewrite zlen_bytes_at by lia. by rewrite Serialize_prefix by lia.
Qed.

Lemma for_connected_ext f g l : (forall s, f s = g s) -> forall w,
  for_connected (C := C) (S := S) f l w = for_connected g l w.
Proof.
  intros Hfg. induction l as [|sid l IH]; intros w; [done|]. cbn [for_connected].
  assert (E : Heap.on_session sid (fun s => if Session._connected (Session.ses s) then f s else Ret s) w
    = Heap.on_session sid (fun s => if Session._connected (Session.ses s) then g s else Ret s) w).
  { unfold Heap.on_session. destruct (_ !! sid) as [x|]; [|done]. by rewrite Hfg. }
  rewrite E. clear E. destruct (Heap.on_session _ _ w); [apply IH|done..].
Qed.

(** A packet cut to its length modulo 256. *)
Definition cut_packet (msg : list Z) : list Z :=
  bytes_at (build_packet msg) 0 (zlen (build_packet msg) mod 256).

(** C36: TestServer broadcasts only as many bytes of a packet as fit the 8-bit size of
    its pair: each connected session is given the packet cut to its length modulo
    256, so that a packet of 256 bytes or more is never sent whole. *)
Theorem server_packets_are_cut reused tid sessions msg w w' off :
  world_ok w -> NoDup (sessions (service (Heap.srv w))) ->
  c_text msg <> stop -> reused (build_packet msg) = build_packet msg ->
  server_input reused tid sessions msg w = Ret (off, w') ->
  let cut := cut_packet msg in
  zlen cut < 256 /\
  forall sid pkts, sid ∈ sessions (service (Heap.srv w)) -> given (fun _ => True) sid pkts w ->
    given (fun _ => True) sid (pkts ++ [(1, cut)]) w'.
Proof.
  intros Hw Hnd Hst Hre Hr cut. pose proof (zlen_nonneg (build_packet msg)) as Hz.
  pose proof (Z.mod_pos_bound (zlen (build_packet msg)) 256 ltac:(lia)) as Hm.
  pose proof (Z.mod_le (zlen (build_packet msg)) 256 Hz ltac:(lia)) as Hle.
  assert (Hc : zlen cut = zlen (build_packet msg) mod 256) by (apply zlen_bytes_at; lia).
  split; [lia|]. unfold server_input in Hr. rewrite decide_False in Hr by done.
  unfold server_GetTestPacket in Hr. rewrite Hre in Hr.
  apply obind_ret in Hr as (w1 & Hr & [= <- <-]).
  change (u8 (zlen (build_packet msg))) with (zlen (build_packet msg) mod 256) in Hr.
  rewrite (for_connected_ext _ (AppSession.Send tid 1 (Some cut) (zlen cut))) in Hr
    by (intros s; apply Send_prefix; lia).
  assert (Hp : packet_ok (1, cut)) by (unfold packet_ok; simpl; lia).
  destruct (sessions_send tid 1 cut _ w w1 Hw Hp Hnd Hr) as (_ & _ & Hg).
  intros sid pkts Hin Hgiven. specialize (Hg (fun _ => True) sid pkts ltac:(done) Hgiven).
  by rewrite decide_True in Hg by done.
Qed.
End Truncated.

(** ** Packets that break the handler *)
Section Handler.
Context `{FlatBuffers}.

(** A TestPacket without its optional string is a valid packet, which
    [VerifyTestPacketBuffer] accepts, and the handler dereferences the null pointer
    that [msg()] returns: the peer's packet ends the program. *)
Theorem packet_without_msg_crashes fbb number rest :
  pending fbb = None -> in_type INT32 number ->
  let '(o, fbb') := CreateTestPacketDirect fbb None number in
  let bytes := GetBuffer (FinishTestPacketBuffer fbb' o) in
  (forall V : Verifier, forall v, depth v < max_depth -> num_tables v < max_tables ->
     exists v', VerifyTestPacketBuffer bytes v = Ret (true, v')) /\
  PacketManager.Dispatch 1 (bytes ++ rest) PacketManager.new = Fault NullDeref.
Proof.
  intros Hp Hn. unfold CreateTestPacketDirect.
  pose proof (TestPacket_reads fbb 0 number None rest Hp eq_refl Hn) as Ht.
  destruct (CreateTestPacket fbb 0 number) as [o fbb']. destruct Ht as (Hm & _ & Hv).
  split; [done|]. rewrite PacketManager.Dispatch_new. simpl.
  unfold PacketManager.TestPacketHandler. simpl in Hm. by rewrite Hm.
Qed.
End Handler.

(** ** What gives nothing to [WSASend] *)
Section ServerLoop.
Context {C S : Type} `{FlatBuffers, ServiceOps C, Owner C, OS, Winsock, SendStore S}.
Abbreviation world := (Heap.world (program C S)).
Implicit Types (w : world) (s : Session.st (program C S)).
Variables (reused : list Z -> list Z) (sessions : C -> list Z).

(** No call of [WSASend] was added. *)
Definition quiet (n n' : net) : Prop := forall k, transmitted k (log n') = transmitted k (log n).
Lemma quiet_trans n1 n2 n3 : quiet n1 n2 -> quiet n2 n3 -> quiet n1 n3.
Proof. intros H1' H2' k. by rewrite H2', H1'. Qed.

Lemma quiet_sys q s : (forall k l, q <> WSASend k l) ->
  quiet (Session.nets s) (Session.nets (Session.sys_of q s).2).
Proof.
  intros Hq k. rewrite Session.sys_of_eq. simpl. rewrite transmitted_app.
  unfold transmitted at 2. simpl. destruct q; simpl; rewrite ?app_nil_r; try done.
  by destruct (Hq socket buffers).
Qed.

Lemma quiet_disconnect e s : quiet (Session.nets s) (Session.nets (Session._disconnect e s)).
Proof.
  unfold Session._disconnect. destruct (negb _); [done|]. unfold Session._register_disconnect.
  match goal with |- context [Session.sys_of ?q ?x] =>
    pose proof (quiet_sys q x ltac:(discriminate)) as Hq; change (Session.nets x) with
    (Session.nets s) in Hq; destruct (Session.sys_of q x) as [[a b] s'] end.
  by destruct (ErrorHandler.WSACheckErrorExceptPending2 _ _ _) as [[] ?].
Qed.

Lemma quiet_register_recv s s' : Session._register_recv s = Ret s' ->
  quiet (Session.nets s) (Session.nets s').
Proof.
  unfold Session._register_recv. destruct (negb _).
  { intros [= <-]. apply quiet_disconnect. }
  intros Hr. apply obind_ret in Hr as (pos & _ & Hr). revert Hr.
  match goal with |- context [Session.sys_of ?q ?x] =>
    pose proof (quiet_sys q x ltac:(discriminate)) as Hq; change (Session.nets x) with
    (Session.nets s) in Hq; destruct (Session.sys_of q x) as [[a b] s1] end.
  by intros [= <-].
Qed.

(** The programs' [OnRecv] makes no system call. *)
Lemma OnRecv_loop_nets fuel : forall buffer len n processed s r s',
  AppSession.OnRecv_loop fuel buffer len n processed s = Ret (r, s') ->
  Session.nets s' = Session.nets s.
Proof.
  induction fuel as [|fuel IH]; intros buffer len n processed s r s'; [done|].
  cbn [AppSession.OnRecv_loop]. destruct (_ <? _); [|by intros [= _ <-]].
  intros Hr. apply obind_ret in Hr as (h & _ & Hr). apply obind_ret in Hr as (s1 & H1' & Hr).
  destruct (n =? INT_MAX); [done|]. rewrite (IH _ _ _ _ _ _ _ Hr).
  unfold AppSession.OnRecvPacket in H1'. destruct (GPacketManager _); [|done].
  apply obind_ret in H1' as (l & _ & [= <-]). done.
Qed.

(** Acts that are no [WSASend]. *)
Definition is_WSASend (a : act) : Prop := match a with ASys (WSASend _ _) _ _ => True | _ => False end.
Lemma quiet_log n n' l : log n' = log n ++ l -> Forall (fun a => ~ is_WSASend a) l -> quiet n n'.
Proof.
  intros E Hl k. rewrite E, transmitted_app. assert (transmitted k l = []) as ->;
    [|by rewrite app_nil_r]. clear E. unfold transmitted. induction Hl as [|a l Ha Hl IH]; [done|].
  simpl. rewrite IH, app_nil_r. destruct a as [q r err|]; [|done]. by destruct q; try done; destruct Ha.
Qed.
Lemma quiet_call n c s : Session.nets s = n -> quiet n (Session.nets (Session.call c s)).
Proof. intros <-. eapply quiet_log; [reflexivity|]. repeat constructor. by intros []. Qed.

Lemma check_log c e n : log (check c e n).2 = log n.
Proof. unfold check. by destruct (ErrorHandler.CheckError c e (last_error n)). Qed.

(** The virtual functions of the server's sessions make no such call. *)
Section Virtuals.
Context `{!Inet, !InetNames, !WideChar}.
Abbreviation v := (AppSession.server_virtuals (C := C) (S := S)).

Lemma name_and_add_quiet s s' : AppSession.name_and_add s = Ret s' ->
  quiet (Session.nets s) (Session.nets s').
Proof.
  unfold AppSession.name_and_add, AddrNames.Session_GetPeerName, AddrNames.GetPeerName,
    AddrNames.name_of, syscall. destruct (os_reply _ _) as [res err].
  intros Hr. eapply (quiet_log _ _ [ASys (getpeername _) res err]); [|repeat constructor; by intros []].
  revert Hr. repeat case_match; intros Hr; unfold AppSession.AddSession in Hr;
    repeat case_match; try done; injection Hr as <-; simplify_eq; reflexivity.
Qed.

Lemma server_virtuals_quiet n0 : Session.keeps (fun s => quiet n0 (Session.nets s)) v.
Proof.
  split; cbn [Session.v_OnConnected Session.v_OnSend Session.v_OnRecv Session.v_OnDisconnected v].
  - intros s s' Hs Hr. eapply quiet_trans; [exact Hs|by apply name_and_add_quiet].
  - by intros n s s' Hs [= <-].
  - intros p n s r s' Hs Hr. unfold AppSession.OnRecv in Hr. by rewrite (OnRecv_loop_nets _ _ _ _ _ _ _ _ Hr).
  - by intros e s s' Hs [= <-].
Qed.

Lemma dispatch_quiet type n s s' : Session.Dispatch v type n s = Ret s' ->
  quiet (Session.nets s) (Session.nets s').
Proof.
  pose proof (server_virtuals_quiet (Session.nets s)) as Hv.
  destruct type; cbn [Session.Dispatch]; [by intros [= <-]| |by intros [= <-]|..].
  - unfold Session._process_disconnect, Session._clear. destruct (negb _); [done|].
    destruct (ReleaseSession _ _) as [b svc']. cbn [obind]. intros Hr.
    apply (Session.keeps_OnDisconnected _ _ Hv) in Hr; [done|]. by apply quiet_call.
  - unfold Session._process_send. destruct (_ =? 0).
    + intros [= <-]. apply (quiet_disconnect _ (Session.on_ses _ s)).
    + intros Hr. apply (Session.keeps_OnSend _ _ Hv) in Hr; [done|].
      by apply quiet_call.
  - unfold Session._process_recv. destruct (_ =? 0); [intros [= <-]; apply quiet_disconnect|].
    intros Hr. apply obind_ret in Hr as (pos & _ & Hr). apply obind_ret in Hr as ([r s1] & Ho & Hr).
    apply (Session.keeps_OnRecv _ _ Hv) in Ho; [|by apply quiet_call].
    eapply quiet_trans; [exact Ho|]. destruct (s32 r =? 0).
    + injection Hr as <-. apply quiet_disconnect.
    + by apply quiet_register_recv.
Qed.

Lemma receive_quiet d s s' : receive v d s = Ret s' -> quiet (Session.nets s) (Session.nets s').
Proof. exact (dispatch_quiet _ _ (Session.on_ses _ s) s'). Qed.

Lemma set_connected_quiet k s s' : Session._set_connected v k s = Ret s' ->
  quiet (Session.nets s) (Session.nets s').
Proof.
  intros Hr. unfold Session._set_connected in Hr. apply obind_ret in Hr as (s1 & Hv & Hr).
  apply (Session.keeps_OnConnected _ _ (server_virtuals_quiet (Session.nets s))) in Hv.
  - eapply quiet_trans; [exact Hv|by apply quiet_register_recv].
  - match goal with |- quiet _ (Session.nets (Session.call ?c ?x)) =>
      apply (quiet_trans _ (Session.nets x)); [|by apply quiet_call] end.
    destruct (negb _); [|done]. unfold Session._set_socket.
    match goal with |- context [check ?a ?b ?m] =>
      pose proof (check_log a b m) as Hl; destruct (check a b m) as [ok n] end.
    intros i. simpl in Hl. destruct (negb ok); simpl; by rewrite Hl.
Qed.
End Virtuals.

Lemma on_session_quiet sid f w w' :
  (forall s s', f s = Ret s' -> quiet (Session.nets s) (Session.nets s')) ->
  Heap.on_session sid f w = Ret w' -> quiet (Heap.nt w) (Heap.nt w').
Proof.
  intros Hf. unfold Heap.on_session. destruct (_ !! sid) as [x|]; [|done].
  intros Hr. apply obind_ret in Hr as (s & Hs & [= <-]). exact (Hf _ _ Hs).
Qed.

Lemma for_connected_quiet f l : forall w w',
  (forall s s', f s = Ret s' -> quiet (Session.nets s) (Session.nets s')) ->
  for_connected f l w = Ret w' -> quiet (Heap.nt w) (Heap.nt w').
Proof.
  induction l as [|sid l IH]; intros w w' Hf Hr; cbn [for_connected] in Hr; [by injection Hr as <-|].
  apply obind_ret in Hr as (w1 & Hs & Hr). eapply quiet_trans; [|by eapply IH].
  eapply on_session_quiet; [|exact Hs]. intros s s'. simpl. destruct (Session._connected _).
  - apply Hf.
  - by intros [= <-].
Qed.

Lemma server_input_quiet tid msg w off w' :
  server_input reused tid sessions msg w = Ret (off, w') -> quiet (Heap.nt w) (Heap.nt w').
Proof.
  unfold server_input. destruct (decide _); [by intros [= _ <-]|]. simpl.
  intros Hr. apply obind_ret in Hr as (w1 & Hr & [= _ <-]).
  eapply for_connected_quiet; [|exact Hr]. intros s s'. unfold AppSession.Send.
  destruct (_ !! _) as [ps|]; [|done]. intros Hs. by apply obind_ret in Hs as ([p b] & _ & [= <-]).
Qed.

(** Nor do the destructors of sessions. *)
Lemma collect_quiet w w' : Heap.collect w = Ret w' -> quiet (Heap.nt w) (Heap.nt w').
Proof.
  unfold Heap.collect. generalize (Heap.unreferenced w). intros l. revert w.
  induction l as [|[sid x] l IH]; intros w Hr; [by injection Hr as <-|].
  cbn [Heap.destroy_all] in Hr. unfold Session.destroy in Hr.
  destruct (SocketCalls.Close_eq (Session._socket x) (Heap.nt w)) as (n & E & Hl).
  rewrite E in Hr. cbn [obind] in Hr. apply IH in Hr. eapply quiet_trans; [|exact Hr].
  eapply quiet_log; [exact Hl|]. destruct (_ =? _); repeat constructor. by intros [].
Qed.

(** ** Sessions that stay *)

(** What the session manager holds stays alive: a session that was added is still
    owned after the service released it, so its destructor, which closes the socket,
    does not run before the manager's. *)
Theorem released_session_is_kept sid l w (c : C) :
  GSessionManager (Heap.srv w) = Some l -> sid ∈ l -> is_Some (Heap.heap w !! sid) ->
  exists w', Heap.collect (Heap.set_srv (set_service c (Heap.srv w)) w) = Ret w' /\
    Heap.heap w' !! sid = Heap.heap w !! sid.
Proof.
  intros Hl Hin Hx. set (w1 := Heap.set_srv _ w).
  destruct (Heap.collect_ok w1) as (w' & E & _ & _ & Hh & _). exists w'. split; [done|].
  rewrite Hh, decide_True; [done|]. unfold Heap.referenced. simpl. rewrite Hl. simpl.
  apply elem_of_union_r. by apply elem_of_list_to_set.
Qed.
End ServerLoop.

(** ** Concrete runs *)
Module ProgramsSample.
#[local] Existing Instance Reference.flat_buffers.
#[local] Existing Instance Reference.verifier.
#[local] Existing Instance NamesSample.os.
#[local] Existing Instance NamesSample.inet.
#[local] Existing Instance NamesSample.names.
#[local] Existing Instance NamesSample.ascii.
#[local] Existing Instance SendBufferManager.send_store.
#[local] Existing Instance Server.server_service.
#[local] Existing Instance Server.server_owner.

(** A server with one connected session, which the manager holds. *)
Definition service_with_one : Server.server :=
  Server.set_sessions {[1]} (Server.new (Some 7) (mk_addr 2 50210 0) true 100 100).
Definition program_with_one : program Server.server SendBufferManager.t :=
  mk_program service_with_one PacketWrapper.one_thread (<[1 := PacketSession.new 0]> ∅) ∅
    (Some [1]) (Some PacketManager.new) [].
Definition world0 : Heap.world (program Server.server SendBufferManager.t) :=
  Heap.mk program_with_one (<[1 := Sample.session 1 11 16]> ∅) 2 (mk_net [] 0).
Definition sessions_of (c : Server.server) : list Z := elements (Server._sessions c).

Lemma world0_session sid x : Heap.heap world0 !! sid = Some x ->
  sid = 1 /\ x = Sample.session 1 11 16.
Proof. cbn [Heap.heap world0]. rewrite lookup_insert_Some, lookup_empty. naive_solver. Qed.
Lemma world0_ok : world_ok world0.
Proof.
  split.
  - exact PacketWrapper.one_thread_ok.
  - by intros sid x [-> ->]%world0_session.
  - by intros sid x [-> ->]%world0_session _.
  - by intros i j x y [-> ->]%world0_session [-> ->]%world0_session ?.
Qed.
Lemma world0_given : given (fun _ => True) 1 [] world0.
Proof.
  exists (Sample.session 1 11 16), (PacketSession.new 0). split; [reflexivity|].
  split; [by split_and!|]. split; [reflexivity|]. split; [exact I|].
  split; [constructor|reflexivity].
Qed.

(** A packet of more than 255 bytes. *)
Definition long : list Z := replicate 40 97.

Lemma server_packets_are_cut_witness :
  exists w', server_input (fun l => l) 1 sessions_of long world0 = Ret (false, w') /\
    255 < zlen (build_packet long) /\
    given (fun _ => True) 1
      [(1, bytes_at (build_packet long) 0 (zlen (build_packet long) mod 256))] w'.
Proof.
  destruct (returns_ret (server_input (fun l => l) 1 sessions_of long world0))
    as [[off w'] E]; [vm_compute; reflexivity|].
  assert (Hoff : off = false).
  { unfold server_input in E. rewrite decide_False in E by (vm_compute; discriminate).
    simpl in E. by apply obind_ret in E as (w1 & _ & [= <- _]). }
  exists w'. rewrite Hoff in E. split; [exact E|]. split; [vm_compute; reflexivity|].
  refine (proj2 (server_packets_are_cut (fun l => l) 1 sessions_of long world0 w' false world0_ok
    (NoDup_elements _) _ eq_refl E) 1 [] _ world0_given).
  - vm_compute. discriminate.
  - apply (bool_decide_unpack _). vm_compute. exact I.
Defined.

Lemma packet_without_msg_crashes_witness :
  let '(o, fbb) := CreateTestPacketDirect (new_builder 16) None 5 in
  let bytes := GetBuffer (FinishTestPacketBuffer fbb o) in
  (exists v, VerifyTestPacketBuffer bytes (0, 0) = Ret (true, v)) /\
  PacketManager.Dispatch 1 (bytes ++ [1; 2]) PacketManager.new = Fault NullDeref.
Proof.
  assert (Hn : in_type INT32 5) by (simpl; lia).
  pose proof (packet_without_msg_crashes (new_builder 16) 5 [1; 2] eq_refl Hn) as Ht.
  destruct (CreateTestPacketDirect (new_builder 16) None 5) as [o fbb].
  destruct Ht as [Hv Hd]. split; [|exact Hd].
  exact (Hv Reference.verifier (0, 0) eq_refl eq_refl).
Defined.

End ProgramsSample.
