(* ===== verification/ServerFlush.v ===== *)
(** TestServer.cpp and the server's SessionManager.h: the reservation that [main] makes
    of [SessionManager::FlushSessions], the worker and the serializer that carry it out
    ([Reservations]), the lines typed, and the completions of the sessions, as one
    program whose steps come in any order. *)
From S2P Require Import Prelude ErrorHandler RecvBuffer SendBuffer Packet PacketSession.
From S2P Require Import SocketUtils Session Heap Names FlatBuffers TestPacket App.
From S2P Require Import LockContainers JobSerializer Job JobWorker Reservations.
From S2P Require Import Server Client Pipeline Programs.
#[local] Open Scope Z_scope.

Module ServerFlush.
(** What a job asks for: calls on all sessions, another reservation. *)
Inductive request_made := FlushAll | PushAgain (tickAfter : Z).
#[export] Instance request_made_eq_dec : EqDecision request_made.
Proof. solve_decision. Defined.
(** The only job has no arguments. *)
#[export] Instance no_arguments : Movable unit := {| moved v := v |}.

(** Where the main thread is: before its [PushReservableJob], in its loop, behind it. *)
Inductive main_pc := M_reserve | M_loop | M_stopped.
(** What the threads of [TaskManagerEx] do for jobs: [CheckReservedJob] and its steps,
    [DoWorkJob] and the executions. *)
Inductive job_event := Check (i : nat) (nowTick : Z) | Checking (i : nat)
| Execute (e : JobSerializer.event Z).
(** Completed operations of a session. *)
Inductive completion := Accepted (sid : Z) | Received (sid : Z) (d : list Z)
| Completed (sid : Z) (type : EventType) (n : Z).

Section ServerFlush.
Context {C S Q : Type} `{FlatBuffers, ServiceOps C, Owner C, OS, Winsock, SendStore S}.
Context `{!Inet, !InetNames, !WideChar}.
Abbreviation W := (list request_made).
Context `{!PriorityQueue (JobWorker.reservable (Job.request W unit)) Q JobWorker.ReservableJobCompare}.
Abbreviation world := (Heap.world (program C S)).
Abbreviation v := (AppSession.server_virtuals (C := C) (S := S)).
Abbreviation jobs_state := (Reservations.state (W := W) (V := unit) (Q := Q)).
Variables (reused : list Z -> list Z) (sessions : C -> list Z).
(** [GSessionManager], by its address and its number among the owners. *)
Variables (this : Z) (self : nat).
Hypothesis this_nonnull : this <> 0.

(** [SessionManager::FlushSessions] as a job: it calls [Flush] on the sessions
    ([server_FlushSessions]), and makes no reservation. *)
Definition FlushSessions : Job.method (W := W) (V := unit) := fun _ _ w => Ret (w ++ [FlushAll]).
Definition flush_request : Job.request W unit := Job.RMethod FlushSessions [].

Record state := mk { main : main_pc; jobs : jobs_state; prog : world }.
Definition flushes (s : state) : W := Job.Actor.world (Reservations.serializer (jobs s)).

(** [GSessionManager->PushReservableJob(tickAfter, &SessionManager::FlushSessions)]. *)
Definition PushReservableJob (tickAfter now : Z) (j : jobs_state)
  : option (outcome jobs_state) :=
  let id := length (JobWorker.added (Reservations.worker j)) in
  Reservations.play1 this self
    (Reservations.EWorker (Reservations.reserve self id tickAfter now flush_request)) j.

(** What the job just executed asked for. *)
Fixpoint carry_out (ticks : Z -> Z * Z) (now : Z) (l : W) (j : jobs_state) (w : world)
  : outcome (jobs_state * world) :=
  match l with
  | [] => Ret (j, w)
  | FlushAll :: l => let! w := server_FlushSessions ticks w in carry_out ticks now l j w
  | PushAgain tickAfter :: l =>
      match PushReservableJob tickAfter now j with
      | Some o => let! j := o in carry_out ticks now l j w
      | None => Ret (j, w)
      end
  end.

Definition event_of (e : job_event) : Reservations.event (W := W) (V := unit) :=
  match e with
  | Check i nowTick => Reservations.EWorker (JobWorker.ECheck i nowTick)
  | Checking i => Reservations.EWorker (JobWorker.EStep i)
  | Execute e => Reservations.EActor (Job.Actor.AStep e)
  end.
Definition complete (e : completion) (w : world) : outcome world :=
  let! w := (match e with
    | Accepted sid => Heap.on_session sid (Session._set_connected v INVALID_SOCKET) w
    | Received sid d => Heap.on_session sid (receive v d) w
    | Completed sid type n => Heap.on_session sid (Session.Dispatch v type n) w
    end) in
  Heap.collect w.

(** [main]'s reservation at a tick, one round of its loop, a step of a job with the
    ticks its flush would read, a completion. *)
Inductive event := EMain (now : Z) | EInput (tid : Z) (msg : list Z)
| EJob (e : job_event) (ticks : Z -> Z * Z) (now : Z) | EComplete (e : completion).
Definition play1 (e : event) (s : state) : option (outcome state) :=
  match e with
  | EMain now =>
      match main s, PushReservableJob 100 now (jobs s) with
      | M_reserve, Some o => Some (let! j := o in Ret (mk M_loop j (prog s)))
      | _, _ => None
      end
  | EInput tid msg =>
      match main s with
      | M_loop => Some (
          let! (off, w) := server_input reused tid sessions msg (prog s) in
          Ret (mk (if off : bool then M_stopped else M_loop) (jobs s) w))
      | _ => None
      end
  | EJob e ticks now =>
      match Reservations.play1 this self (event_of e) (jobs s) with
      | Some o => Some (
          let! j := o in
          let asked := drop (length (flushes s))
                         (Job.Actor.world (Reservations.serializer j)) in
          let! (j, w) := carry_out ticks now asked j (prog s) in
          Ret (mk (main s) j w))
      | None => None
      end
  | EComplete e => Some (let! w := complete e (prog s) in Ret (mk (main s) (jobs s) w))
  end.
Definition step (s s' : state) : Prop := exists e, play1 e s = Some (Ret s').
Definition init (checkers threads : nat) (w : world) : state :=
  mk M_reserve (Reservations.rinit checkers threads []) w.

(** ** The reservations *)
Abbreviation actor_of j := (Reservations.serializer j).
Abbreviation executed_of j := (JobSerializer.executed (JobSerializer.sh (Job.Actor.sys (actor_of j)))).
Abbreviation added_of j := (JobWorker.added (Reservations.worker j)).
Abbreviation known_of j := (Job.Actor.known (Job.Actor.sys (actor_of j))).

(** Jobs come from reservations only, one for each push of the worker. *)
Record jobs_ok (c k : nat) (j : jobs_state) : Prop := {
  jo_run : run (Reservations.rstep this self) (Reservations.rinit c k []) j;
  jo_reserved id req : Job.Actor.requests (actor_of j) !! id = Some req -> 0 <= id;
  jo_pushes : zlen (known_of j) <= zlen (JobWorker.pushes (Reservations.worker j));
}.

Lemma jobs_ok_init c k : jobs_ok c k (Reservations.rinit c k []).
Proof.
  split; [apply run_refl|intros id req Hr; cbn in Hr; by rewrite lookup_empty in Hr|].
  unfold Reservations.rinit, Job.Actor.ainit, Job.Actor.known, zlen. simpl.
  induction k as [|k IH]; [done|]. exact IH.
Qed.

(** A reservation. *)
Lemma PushReservableJob_ok c k tickAfter now j : jobs_ok c k j ->
  exists j' r, PushReservableJob tickAfter now j = Some (Ret j') /\ jobs_ok c k j' /\
    added_of j' = added_of j ++ [r] /\ JobWorker._job r = flush_request /\
    actor_of j' = actor_of j.
Proof.
  intros Hj. pose proof Hj as [Hr Hi Hp]. unfold PushReservableJob, Reservations.reserve.
  match goal with |- context [Reservations.EWorker ?e] => set (ev := e) end.
  assert (E : exists j', Reservations.play1 this self (Reservations.EWorker ev) j = Some (Ret j') /\
    added_of j' = added_of j ++ [JobWorker.PushReservableJob (length (added_of j)) tickAfter now
      flush_request self] /\ actor_of j' = actor_of j /\
    JobWorker.pushes (Reservations.worker j') = JobWorker.pushes (Reservations.worker j)).
  { unfold Reservations.play1. subst ev. cbn [JobWorker.play1].
    unfold Reservations.new_push. cbn [JobWorker.pushes]. rewrite drop_all. cbn [head].
    by eexists. }
  destruct E as (j' & E & Ea & Es & Ep). exists j', (JobWorker.PushReservableJob
    (length (added_of j)) tickAfter now flush_request self). split; [exact E|].
  split; [|by split_and!]. split.
  - eapply run_step; [exact Hr|]. by exists (Reservations.EWorker ev).
  - by rewrite Es.
  - by rewrite Es, Ep.
Qed.

(** A push adds its job to the serializer. *)
Lemma aplay1_push_sys i id req (a a' : Job.Actor.actor W unit) :
  Job.Actor.aplay1 this (Job.Actor.APush i id req) a = Some (Ret a') ->
  JobSerializer.play1 (JobSerializer.EPush i id) (Job.Actor.sys a) = Some (Job.Actor.sys a').
Proof.
  unfold Job.Actor.aplay1. destruct (Job.Actor.jobs a !! id); [done|].
  destruct (JobSerializer.play1 _ _) as [s'|]; [|done]. by intros [= <-].
Qed.

(** A step of the serializer makes known what it pushes and executes in order. *)
Lemma serializer_grows e (s s' : JobSerializer.system Z) : JobSerializer.play1 e s = Some s' ->
  zlen (Job.Actor.known s') = zlen (Job.Actor.pushed_by e) + zlen (Job.Actor.known s) /\
  exists l, JobSerializer.executed (JobSerializer.sh s') =
    JobSerializer.executed (JobSerializer.sh s) ++ l.
Proof.
  intros Hs. destruct (Job.Actor.play1_known e s s' Hs) as (Hk & _ & Hx). split.
  - unfold zlen. rewrite (Permutation_length Hk), length_app. lia.
  - destruct Hx as [->|(job & -> & _)]; [exists []; by rewrite app_nil_r|eauto].
Qed.

(** [CheckReservedJob] and its steps. *)
Definition checks_only (e : JobWorker.event (Job.request W unit)) : Prop :=
  match e with JobWorker.ECheck _ _ | JobWorker.EStep _ => True | _ => False end.
Lemma checks_added e (w w' : JobWorker.system (J := Job.request W unit) (Q := Q)) :
  checks_only e -> JobWorker.play1 e w = Some (Ret w') -> JobWorker.added w' = JobWorker.added w.
Proof.
  destruct e as [| | | |i n|i]; try done; intros _ Hw; simpl in Hw.
  - repeat case_match; try done; by injection Hw as <-.
  - destruct (_ !! i); [|done]. exact (JobWorker.check_step_added i _ _ _ Hw).
Qed.

Lemma check_ok c k e j j' : jobs_ok c k j -> checks_only e ->
  Reservations.play1 this self (Reservations.EWorker e) j = Some (Ret j') ->
  jobs_ok c k j' /\ added_of j' = added_of j /\ exists l, executed_of j' = executed_of j ++ l.
Proof.
  intros [Hr Hi Hp] Hc He.
  assert (Hr' : run (Reservations.rstep this self) (Reservations.rinit c k []) j')
    by (eapply run_step; [exact Hr|by exists (Reservations.EWorker e)]).
  assert (Hsame : exists l, executed_of j = executed_of j ++ l) by (exists []; by rewrite app_nil_r).
  cbn [Reservations.play1] in He.
  destruct (JobWorker.play1 e (Reservations.worker j)) as [[w| | |]|] eqn:Hw; try done.
  pose proof (checks_added e _ _ Hc Hw) as Ha.
  pose proof (Reservations.new_push_spec _ _ _ Hw) as Hn.
  destruct (Reservations.new_push (Reservations.worker j) w) as [[tick r]|].
  2: { injection He as <-. split; [|by split]. split; [exact Hr'|exact Hi|].
    cbn [Reservations.serializer Reservations.worker]. by rewrite Hn. }
  destruct e as [| | | |i n|i]; try done.
  destruct (Nat.eqb (JobWorker._owner r) self).
  - destruct (Job.Actor.aplay1 this _ _) as [[a| | |]|] eqn:Hap; try done. injection He as <-.
    destruct (Reservations.aplay1_push _ _ _ _ _ _ Hap) as (_ & _ & Hq).
    destruct (serializer_grows _ _ _ (aplay1_push_sys _ _ _ _ _ Hap)) as [Hk Hx].
    split; [|by split]. split; [exact Hr'|..]; cbn [Reservations.serializer Reservations.worker].
    + intros id req. rewrite Hq. intros [(<- & _)|[_ H']]%lookup_insert_Some;
        [unfold Reservations.job_id; lia|exact (Hi id req H')].
    + rewrite Hn, Hk, zlen_app. unfold zlen in *. simpl. lia.
  - injection He as <-. split; [|by split]. split; [exact Hr'|exact Hi|].
    cbn [Reservations.serializer Reservations.worker]. rewrite Hn, zlen_app.
    pose proof (zlen_nonneg [(tick, r)]). lia.
Qed.

(** A step of a job. *)
Lemma job_step_ok c k e j j' : jobs_ok c k j ->
  Reservations.play1 this self (event_of e) j = Some (Ret j') ->
  jobs_ok c k j' /\ added_of j' = added_of j /\
  exists l, executed_of j' = executed_of j ++ l.
Proof.
  intros Hj He. destruct e as [i n|i|e].
  { exact (check_ok c k (JobWorker.ECheck i n) j j' Hj I He). }
  { exact (check_ok c k (JobWorker.EStep i) j j' Hj I He). }
  pose proof Hj as [Hr Hi Hp].
  assert (Hr' : run (Reservations.rstep this self) (Reservations.rinit c k []) j')
    by (eapply run_step; [exact Hr|by exists (event_of (Execute e))]).
  cbn [event_of Reservations.play1] in He.
  destruct (Job.Actor.aplay1 this (Job.Actor.AStep e) (actor_of j)) as [o|] eqn:Ha; [|done].
  injection He as He. apply obind_ret in He as (a & -> & He). injection He as <-.
  pose proof (Job.Actor.astep_sys this e _ _ Ha) as Hs.
  destruct (serializer_grows _ _ _ Hs) as [Hk Hx].
  split; [|by split]. split; [exact Hr'|..]; cbn [Reservations.serializer Reservations.worker].
  - intros id req. destruct (Reservations.aplay1_step_dom this e _ _ id Ha) as [-> _]. apply Hi.
  - assert (Hno : Job.Actor.pushed_by e = []) by (by destruct e).
    rewrite Hk, Hno. exact Hp.
Qed.

(** With at most one reservation the worker pushes at most once. *)
Lemma one_push c j :
  run JobWorker.step (JobWorker.init c) (Reservations.worker j) ->
  (length (added_of j) <= 1)%nat ->
  NoDup (JobWorker.ids (added_of j)) /\
  (forall r1 r2, r1 ∈ added_of j -> r2 ∈ added_of j -> r1 = r2) /\
  zlen (JobWorker.pushes (Reservations.worker j)) <= 1.
Proof.
  intros Hr Hlen.
  assert (Hone : forall r1 r2, r1 ∈ added_of j -> r2 ∈ added_of j -> r1 = r2).
  { intros r1 r2. destruct (added_of j) as [|r [|? l]]; simpl in Hlen; [by intros ?%not_elem_of_nil| |lia].
    by intros ->%list_elem_of_singleton ->%list_elem_of_singleton. }
  assert (Hn : NoDup (JobWorker.ids (added_of j))).
  { unfold JobWorker.ids. destruct (added_of j) as [|r [|? l]]; simpl in *; [constructor| |lia].
    apply NoDup_singleton. }
  split; [exact Hn|]. split; [exact Hone|].
  destruct (JobWorker.pushes_reserved c _ Hr Hn) as [Hnp Hin]. rewrite Forall_forall in Hin.
  destruct (JobWorker.pushes (Reservations.worker j)) as [|[t1 r1] [|[t2 r2] l]]; [done..|].
  exfalso. unfold JobWorker.ids in Hnp. simpl in Hnp. apply NoDup_cons in Hnp as [Hnp _].
  apply Hnp. rewrite (Hone r1 r2); [constructor|..].
  - apply (Hin (t1, r1)). by left.
  - apply (Hin (t2, r2)). right. by left.
Qed.

(** While there is at most one reservation, and it is the flush, at most one job has
    been executed, and it asked for one flush. *)
Lemma executed_once c k j : jobs_ok c k j ->
  (length (added_of j) <= 1)%nat ->
  Forall (fun r => JobWorker._job r = flush_request) (added_of j) ->
  executed_of j = [] /\ Job.Actor.world (actor_of j) = [] \/
  exists id, executed_of j = [id] /\ Job.Actor.world (actor_of j) = [FlushAll].
Proof.
  intros [Hr Hi Hp] Hlen Hflush.
  pose proof (Reservations.rrun_inv this self c k [] j Hr) as Hinv.
  pose proof (Reservations.ri_worker _ _ _ _ _ _ Hinv) as Hworker.
  destruct (one_push c j Hworker Hlen) as (Hn & Hone & Hpush).
  destruct (JobWorker.pushes_reserved c _ Hworker Hn) as [_ Hin].
  rewrite Forall_forall in Hin. rewrite Forall_forall in Hflush.
  assert (Hb : JobSerializer.started (JobSerializer.sh (Job.Actor.sys (actor_of j))) < 2 ^ 31).
  { destruct (Job.Actor.run_reached this this_nonnull k [] _
      (Reservations.ri_actor _ _ _ _ _ _ Hinv)) as [Hrun _].
    pose proof (Job.Actor.started_known k _ Hrun) as Hs. lia. }
  destruct (Reservations.rrun_effects this self this_nonnull c k [] j Hr Hb) as [Heff Hreq].
  destruct (Reservations.rrun_queue this self this_nonnull c k [] j Hr Hb) as [_ Hnd].
  rewrite Forall_forall in Hreq.
  assert (Hjob : forall id, id ∈ executed_of j -> exists r, r ∈ added_of j /\
    id = Reservations.job_id r /\ Job.Actor.requests (actor_of j) !! id = Some flush_request).
  { intros id Hid. destruct (Hreq id Hid) as [req Hq].
    destruct (Reservations.ri_jobs _ _ _ _ _ _ Hinv id req Hq (Hi id req Hq))
      as (tick & r & Hpr & -> & _ & ->).
    destruct (Hin (tick, r) Hpr) as [_ Hadd]. simpl in Hadd. exists r. split; [done|].
    split; [done|]. rewrite Hq. by rewrite (Hflush r Hadd). }
  destruct (executed_of j) as [|id [|id' ids]].
  - left. split; [done|]. simpl in Heff. by injection Heff as <-.
  - right. exists id. split; [done|]. destruct (Hjob id ltac:(by left)) as (r & _ & _ & Hq).
    unfold Job.Actor.requests_of in Heff. cbn [omap list_omap] in Heff. rewrite Hq in Heff.
    cbn in Heff. by injection Heff as <-.
  - exfalso. destruct (Hjob id ltac:(by left)) as (r & Hr1 & -> & _).
    destruct (Hjob id' ltac:(right; by left)) as (r' & Hr2 & -> & _).
    rewrite (Hone r r' Hr1 Hr2) in Hnd. apply NoDup_cons in Hnd as [Hnd _]. apply Hnd. constructor.
Qed.

(** ** The whole program *)
Record ok (c k : nat) (s : state) : Prop := {
  ok_jobs : jobs_ok c k (jobs s);
  ok_added : length (added_of (jobs s)) = match main s with M_reserve => O | _ => 1%nat end;
  ok_flush : Forall (fun r => JobWorker._job r = flush_request) (added_of (jobs s));
}.
Lemma ok_executed c k s : ok c k s ->
  executed_of (jobs s) = [] /\ flushes s = [] \/
  exists id, executed_of (jobs s) = [id] /\ flushes s = [FlushAll].
Proof.
  intros [Hj Ha Hf]. apply (executed_once c k (jobs s) Hj); [|exact Hf].
  rewrite Ha. by destruct (main s); lia.
Qed.

(** Nothing more was given to [WSASend]. *)
Definition nothing_sent (w w' : world) : Prop :=
  forall socket, transmitted socket (log (Heap.nt w')) = transmitted socket (log (Heap.nt w)).

Lemma complete_quiet e w w' : complete e w = Ret w' -> nothing_sent w w'.
Proof.
  intros Hr. unfold complete in Hr. apply obind_ret in Hr as (w1 & He & Hc).
  apply collect_quiet in Hc. eapply quiet_trans; [|exact Hc].
  destruct e; (eapply on_session_quiet; [|exact He]); intros s s'.
  - apply set_connected_quiet.
  - apply receive_quiet.
  - apply dispatch_quiet.
Qed.

(** A step makes no flush and sends nothing, or it executes the first one. *)
Lemma step_ok c k e s s' : ok c k s -> play1 e s = Some (Ret s') ->
  ok c k s' /\
  (flushes s' = flushes s /\ nothing_sent (prog s) (prog s') \/
   flushes s = [] /\ flushes s' = [FlushAll]).
Proof.
  intros Hs He. pose proof Hs as [Hj Ha Hf]. destruct e as [now|tid msg|e ticks now|e]; cbn [play1] in He.
  - destruct (main s) eqn:Hm; [|done..].
    destruct (PushReservableJob_ok c k 100 now (jobs s) Hj) as (j' & r & E & Hj' & Ea & Er & Es).
    rewrite E in He. injection He as <-. split; [|left; split; [|done]].
    + split; cbn [jobs main]; [exact Hj'|by rewrite Ea, length_app, Ha|]. rewrite Ea.
      apply Forall_app. split; [exact Hf|by constructor].
    + unfold flushes. cbn [jobs]. by rewrite Es.
  - destruct (main s) eqn:Hm; [done| |done]. injection He as He.
    apply obind_ret in He as ([off w] & Hi & [= <-]).
    split; [|left; split; [done|by eapply server_input_quiet]].
    split; cbn [jobs main]; [done|by rewrite Ha; destruct off|done].
  - destruct (Reservations.play1 this self (event_of e) (jobs s)) as [o|] eqn:Hp; [|done].
    injection He as He. apply obind_ret in He as (j & -> & He).
    destruct (job_step_ok c k e (jobs s) j Hj Hp) as (Hj' & Ea & l & Ex).
    assert (Hok : ok c k (mk (main s) j (prog s))) by (split; cbn [jobs main]; rewrite ?Ea; done).
    pose proof (ok_executed c k s Hs) as H1'. pose proof (ok_executed c k _ Hok) as H2'.
    unfold flushes in *. cbn [jobs] in H2'. rewrite Ex in H2'.
    destruct H1' as [[X1 F1]|[id [X1 F1]]]; rewrite X1, F1 in *; cbn [app length drop] in *.
    + destruct H2' as [[_ F2]|[id [_ F2]]]; rewrite F2 in He; cbn [carry_out] in He.
      * injection He as <-. cbn [jobs prog]. split; [exact Hok|]. left. by rewrite F2.
      * apply obind_ret in He as ([j1 w1] & He & [= <-]).
        apply obind_ret in He as (w & Hw & [= <- <-]). cbn [jobs prog].
        split; [by destruct Hok as [A B D]; split|]. right. by rewrite F2.
    + destruct H2' as [[X2 _]|[id2 [X2 F2]]]; [by destruct l|].
      rewrite F2 in He. cbn [drop carry_out] in He. injection He as <-. cbn [jobs prog].
      split; [exact Hok|]. left. by rewrite F2.
  - injection He as He. apply obind_ret in He as (w & Hc & [= <-]).
    split; [by split|]. left. split; [done|]. exact (complete_quiet e _ _ Hc).
Qed.

Lemma init_ok c k w : ok c k (init c k w).
Proof. split; [apply jobs_ok_init|done|constructor]. Qed.
Lemma run_ok c k w s : run step (init c k w) s -> ok c k s.
Proof.
  apply run_invariant; [|apply init_ok]. intros a b Ha [e He]. by apply (step_ok c k e a b).
Qed.

(** Along a run: what was flushed stays, and unless a flush is added nothing is sent. *)
Lemma run_flushes c k s s' : ok c k s -> run step s s' ->
  ok c k s' /\
  ((flushes s' = flushes s /\ nothing_sent (prog s) (prog s')) \/
   (flushes s = [] /\ flushes s' = [FlushAll])).
Proof.
  intros Hs. apply (run_invariant step (fun s' => ok c k s' /\
    ((flushes s' = flushes s /\ nothing_sent (prog s) (prog s')) \/
     (flushes s = [] /\ flushes s' = [FlushAll])))); [|by split; [|left]].
  intros a b [Ha Hab] [e He]. destruct (step_ok c k e a b Ha He) as [Hb Hd]. split; [exact Hb|].
  destruct Hab as [[F1 Q1]|[F1 F2]], Hd as [[F3 Q2]|[F3 F4]].
  - left. split; [congruence|]. intros socket. by rewrite Q2, Q1.
  - right. split; congruence.
  - right. split; congruence.
  - congruence.
Qed.

(** C37: TestServer flushes once. [main] reserves one execution of [FlushSessions],
    which makes no other; however its loop, the threads that check and execute jobs and
    the completions of sessions interleave, the job is executed at most once, and
    wherever it is not executed no session gives anything to [WSASend]: not before it,
    and never again after it, although [Broadcast] goes on queueing packets. *)
Theorem server_flushes_once c k w s s' :
  run step (init c k w) s -> run step s s' ->
  (flushes s' = [] \/ flushes s' = [FlushAll]) /\
  (flushes s' = [] -> nothing_sent w (prog s')) /\
  (flushes s = [FlushAll] -> nothing_sent (prog s) (prog s')).
Proof.
  intros Hr Hr'. pose proof (run_ok c k w s Hr) as Hs.
  destruct (run_flushes c k s s' Hs Hr') as [Hs' Hd]. split; [|split].
  - destruct (ok_executed c k s' Hs') as [[_ ->]|(id & _ & ->)]; auto.
  - intros E. destruct (run_flushes c k _ s' (init_ok c k w) (run_trans _ _ _ _ Hr Hr'))
      as [_ [[_ Hq]|[_ F]]]; [exact Hq|congruence].
  - intros E. destruct Hd as [[_ Hq]|[F _]]; [exact Hq|congruence].
Qed.

(** A list of events. *)
Fixpoint play (es : list event) (s : state) : outcome state :=
  match es with
  | [] => Ret s
  | e :: es => match play1 e s with Some o => let! s := o in play es s | None => NoFuel end
  end.
Lemma server_play_run es : forall s s', play es s = Ret s' -> run step s s'.
Proof.
  induction es as [|e es IH]; intros s s' Hp; cbn [play] in Hp; [injection Hp as <-; constructor|].
  destruct (play1 e s) as [o|] eqn:E; [|done]. apply obind_ret in Hp as (s1 & -> & Hp).
  apply (run_trans _ s s1); [|by apply IH]. apply (run_step s s s1); [constructor|]. by exists e.
Qed.
End ServerFlush.
End ServerFlush.

(** One checking and one executing thread; the server of [ProgramsSample]. *)
Module ServerFlushSample.
Import ServerFlush.
#[local] Existing Instance Reference.flat_buffers.
#[local] Existing Instance NamesSample.os.
#[local] Existing Instance NamesSample.inet.
#[local] Existing Instance NamesSample.names.
#[local] Existing Instance NamesSample.ascii.
#[local] Existing Instance SendBufferManager.send_store.
#[local] Existing Instance Server.server_service.
#[local] Existing Instance Server.server_owner.
Abbreviation reservable := (JobWorker.reservable (Job.request (list request_made) unit)).
#[local] Instance pq : PriorityQueue reservable (list reservable) JobWorker.ReservableJobCompare :=
  list_pq JobWorker.ReservableJobCompare.
Abbreviation program_state := (state (C := Server.server) (S := SendBufferManager.t)
  (Q := list reservable)).
Abbreviation sample_play := (play (fun l => l) ProgramsSample.sessions_of 64 7).
Abbreviation sample_step := (step (fun l => l) ProgramsSample.sessions_of 64 7).

Definition ticks (_ : Z) : Z * Z := (9000, 9000).
Definition job (e : job_event) : event := EJob e ticks 9000.
(** [main] reserves at tick 0 and a line is typed; a check at tick 50 finds nothing,
    one at tick 150 pushes the job, which is executed. *)
Definition before : list event :=
  [EMain 0; EInput 1 Sample.hi; job (Check 0 50); job (Checking 0); job (Checking 0);
   job (Check 0 150); job (Checking 0); job (Checking 0)] ++
  replicate 8 (job (Execute (JobSerializer.EStep 0 false))) ++ [job (Checking 0)].
(** Another line, another check, a packet with an unknown id. *)
Definition after : list event :=
  [EInput 1 Sample.yo; job (Checking 0); job (Check 0 900); job (Checking 0); job (Checking 0);
   EComplete (Received 1 [4; 0; 7; 0])].
Definition start : program_state := init 1 1 ProgramsSample.world0.

Definition sent_by (s : program_state) : list WSABUF := transmitted 11 (log (Heap.nt (prog s))).
Lemma sample_runs :
  (exists s, sample_play before start = Ret s) /\
  (forall s, sample_play before start = Ret s ->
     flushes s = [FlushAll] /\ length (sent_by s) = 1%nat /\
     exists s', sample_play after s = Ret s').
Proof.
  destruct (returns_ret (sample_play before start)) as [s E]; [vm_compute; reflexivity|].
  split; [by exists s|]. intros s2 E2. rewrite E in E2. injection E2 as <-.
  assert (R : (let! s := sample_play before start in
    let! s' := sample_play after s in
    Ret (bool_decide (flushes s = [FlushAll] /\ length (sent_by s) = 1%nat))) = Ret true)
    by (vm_compute; reflexivity).
  rewrite E in R. cbn [obind] in R. apply obind_ret in R as (s' & E' & R).
  injection R as R. apply bool_decide_eq_true in R as [R1 R2].
  split; [exact R1|]. split; [exact R2|]. by exists s'.
Qed.

Lemma server_flushes_once_witness :
  exists s s', run sample_step start s /\ run sample_step s s' /\ flushes s = [FlushAll] /\
    length (sent_by s) = 1%nat /\ sent_by s' = sent_by s.
Proof.
  destruct sample_runs as [[s E] Hs]. destruct (Hs s E) as (F & L & s' & E').
  pose proof (server_play_run _ _ _ _ before start s E) as R.
  pose proof (server_play_run _ _ _ _ after s s' E') as R'.
  exists s, s'. split; [exact R|]. split; [exact R'|]. split; [exact F|]. split; [exact L|].
  refine (proj2 (proj2 (server_flushes_once (fun l => l) ProgramsSample.sessions_of 64 7 _
    1 1 ProgramsSample.world0 s s' R R')) F 11). lia.
Defined.
End ServerFlushSample.
